(* ===== verification/_CoqProject ===== *)
-Q . S2P
Prelude.v
Effects.v
JsString.v
JsNumber.v
JsValue.v
Tokenizer.v
Markup.v
SplitBody.v
Dom.v
Api.v
Utf8.v
Json.v
Stringify.v
Render.v
Catalog.v
Score.v
App.v
Observe.v
Network.v
Service.v
