(* ===== verification/Prelude.v ===== *)
(** * lovetype (web/script.js): a verification development

    ** The program

    The program is one browser script, [src/web/script.js] (145 lines).
    It is the client of a scoring service: it loads a catalog of "love
    types" into two selects, posts the pair the user picked, and renders
    the JSON payload that comes back: a title, a catch line, a "hybrid"
    badge, a radar chart of five axis scores, a narrative split into
    strengths and cautions, and a confidence bar.  Its parts are

    - line 2, the base URL of the service, [API];
    - [$] and [setNote] (lines 4-5), the element lookup and the status
      note; [state] (line 7), the chart instance and the catalog;
    - [loadTypes] (lines 9-33), which requests the catalog and fills the
      selects;
    - [ensureRadar] (lines 35-65), which creates or updates the chart;
    - [splitBody] (lines 67-77), which cuts the narrative in two;
    - [renderResult] (lines 79-117), which writes a payload to the page;
    - [runScore] (lines 119-136), the click handler that posts the pair;
    - [init] and its registration (lines 138-145).

    [init] registers [runScore] and calls [loadTypes]; [runScore] calls
    [renderResult], which calls [splitBody] and [ensureRadar]; every
    handler reports through [setNote].  The two asynchronous functions
    suspend at [await fetch(...)] and at [await res.json()] and resume
    when the browser delivers the status and then the body of the
    response.

    ** The model

    The script is embedded shallowly.  A string is the list of its UTF-16
    code units; a number is a binary64 value; a JSON value is a tree; an
    expression that may throw returns a completion ([outcome]); a function
    that writes to the page is a state-passing computation that may throw
    and keeps the state it reached ([prog]); the page is a finite map from
    selectors to elements together with [state]; the markup assigned to
    [innerHTML] is parsed by a tokenizer and a tree builder written after
    the HTML standard.  Every definition runs: the concrete runs at the
    end of each file are evaluated by the kernel.

    - [Prelude] (this file): substring search and while-trimming on lists,
      the tactics and the hint databases.
    - [Effects]: completions, [prog], [try]/[catch], and the
      compositional predicates on computations: the exceptions a
      computation can end with ([throws_only]), a relation between the
      states before and after ([preserves]), and normal completion with
      a postcondition ([returns], [ends_in]).
    - [JsString]: [length], [indexOf], [slice], [replace], [trim]; the
      reader [js] of string literals as the script writes them.
    - [JsNumber]: comparison, [Math.min], [Math.max], StringToNumber and
      Number::toString, exact on binary64.
    - [JsValue]: JSON values and their decidable equality; ToBoolean,
      [||], [&&], [?.], property reads, ToString, ToNumber, [<=], and
      method calls dispatched on the receiver.
    - [Tokenizer] and [Markup]: what the browser does with the strings
      of lines 12-13, 19-20 and 24-28.  [Tokenizer] is the tokenizer of
      the HTML standard as a machine on code units ([tstep], one
      definition per state, [trun] on a text), with character
      references: numeric ones in full ([numeric_ref_step],
      [hex_ref_step], [dec_ref_step], [numeric_end]) and the five names
      the serialiser writes ([named_step]).  [Markup] is the tree
      builder for [option] elements ([feed]), the parser that runs both
      ([parse_fragment]), the options of a select and the value it
      takes ([options_of], [select_value]), the serialiser behind the
      [innerHTML] getter ([serialize]), and the interface [Browser]
      through which the other files use them.
    - [SplitBody]: [splitBody], once on strings ([splitBody_str]) and once
      on an argument of any type ([splitBody]).
    - [Dom]: elements, the page, [$], and the reads and writes of element
      properties ([innerHTML] through [Browser]); frames ([frame_with])
      and element invariants ([all_elements]) with the lemmas that every
      primitive maintains them.
    - [Api]: line 2 ([api_base], the regular expression as a search), the
      URLs, [JSON.stringify] of the request, requests and responses.
    - [Utf8]: strings as bytes: what [fetch] sends for a string body
      ([utf8_encode], lone surrogates replaced) and the text
      [res.json()] decodes from the bytes of a body ([utf8_decode], the
      decoder of the Encoding standard as a machine on bytes,
      [decode_step]).
    - [Json]: [res.json()] and [res.ok]: [JSON.parse] as a recursive
      descent on fuel ([parse_value], [parse_elems], [parse_members],
      [json_parse]), what a handler receives of a status and the bytes
      of a body ([receive]), and the bytes of a request ([transmit]).
    - [Stringify]: [JSON.stringify] (line 128) on every value
      ([json_stringify]), not only on the request object, and the
      values [JSON.parse] reads back from their text ([sendable]).
    - [Render]: [setNote], [ensureRadar] with the data and options
      objects it hands to the chart library ([radar_data],
      [radar_options]), [renderResult]; the display model ([interpret],
      [present]) that [renderResult] refines, and the presentation
      element by element ([present_el]).
    - [Catalog]: [loadTypes], as [loadTypes_start] (to the first [await])
      and [loadTypes_resume] (from the response on); the pages it leaves
      ([show_loading], [show_catalog], [show_unavailable]) and its
      specification as a relation ([resumed]).
    - [Score]: [runScore], as [runScore_start] and [runScore_resume].
    - [App]: [init], the listeners, and the event loop as a step relation
      ([step], with its function [fire]) on the page and the requests in
      flight; the user chooses among the options the select's markup
      parses to ([can_choose]).  A response is one event.
    - [Observe]: pages that show the same ([same_view] of [Render]: the
      same document, catalog and chart, the number of draws apart) as
      a setoid, the primitives and the handlers as its morphisms
      ([respects]), and the states of the machine that show the same
      ([same_app]).
    - [Network]: the same machine with a response in two events, as the
      two awaits of a handler see it ([nstep], [nfire]): the status
      arrives, then the bytes of the body, and either can fail.
    - [Service]: the scoring service, which is not under [src/], from
      sections 3, 4.4 and 6 of the specification: the payload
      ([payload], [conforming], [payload_value]) and the display model
      of section 4.3 on its fields ([display_of]); the two endpoints
      as a function from the message of a request to a status and a
      value ([serve]); its encoder as an interface ([Encoder], with
      [JSON.stringify] and UTF-8 as an instance); and the page and
      the service together ([cstep]: the machine of [Network] with
      every status and every body the one the service gives).

    ** The theorems

    - Text segmentation ([SplitBody]): the result on each branch (divider
      accepted, short text, long text), priority of the dividers, no cut
      at index 0, the parts are disjoint pieces of the text in order and
      come out trimmed whenever the text is cut; the function on any
      argument refines the function on strings, and throws exactly on
      the arguments characterised.
    - Printing and parsing ([Stringify]): [JSON.parse] reads back what
      [JSON.stringify] prints ([json_parse_stringify]), for every
      value that holds no [undefined], no property twice and only
      numbers that print; the grammar of JSON reads each of the four
      notations of Number::toString back to the digits and the
      exponent printed, for every digit string and every exponent
      ([format_digits_read]); the bytes of the text are received as
      the value ([stringify_received]); the body of the scoring
      request of [Api] is what [JSON.stringify] gives on the request
      object ([score_body_stringify]).  Concrete runs show what is
      lost: [undefined], numbers that are not finite, [-0], a property
      that comes twice.
    - Rendering ([Render]): [renderResult] completes exactly when the
      elements exist and the display values are computable, and then
      leaves the presentation of the display model; it throws nothing but
      a TypeError and touches nothing but its nine elements; a result
      replaces the one shown before (same document and chart data as on
      the page before it, [same_view]) when its confidence is a number,
      and a concrete run shows the bar of the previous result staying
      when it is not; the badge, the clamp of the confidence, the title,
      the cards and the axis data are characterised as functions of the
      payload.
    - Tokens ([Tokenizer]): in every tag token no attribute comes
      twice, attribute names are non-empty and hold no upper-case
      letter, space, [/], [>] or U+0000, and values hold no U+0000
      ([tokenize_wf], by an invariant of the states); the
      tokenizer has a next state for every code unit except in the
      four cases it leaves to the platform ([tstep_declines]); a
      numeric character reference written in full stands for the
      character of its code, in text and in an attribute value, and
      whatever its digits that character is a Unicode scalar value
      other than U+0000, one code unit or a surrogate pair.
    - Markup ([Markup]): running the parser on a string is feeding the
      tokens of the string to the tree builder; the option markup the
      script prints parses back to the options printed, whenever value
      and text hold none of NUL, CR, the double quote and [<], and no
      [&] before a letter, a digit or [#] ([safe_name]); the
      children the parser builds are in canonical form
      ([parse_canonical]); what the serialiser writes for canonical
      children without a carriage return parses back to those
      children, whatever characters they hold ([parse_serialize]); so
      on any browser copying [innerHTML] from one select to the other
      copies the options ([copy_inner_html]).  Concrete runs show what the parser
      makes of a value with a double quote or a character reference in
      it, and a carriage return that does not survive the round trip.
    - Catalog and scoring ([Catalog], [Score]): the page after each kind
      of response, the request issued and the guards that prevent it;
      the continuations never throw; frames; after a catalog of safe
      names each select offers exactly the names, shows the prompt and
      has the empty value; [loadTypes_resume] implements [resumed].
    - Request encoding ([Api]): the base URL is the configured text
      without its trailing slashes; the body of a request, read back by a
      JSON parser, gives the two types.
    - Bodies on the wire ([Utf8]): the bytes of a scalar value decode
      to it; a string of 16-bit code units comes back from its bytes
      with its lone surrogates replaced and without a byte order mark at
      its start, and unchanged but for the mark when it has no lone
      surrogate; what [JSON.stringify] prints has none; the bytes sent
      are bytes, one to three for each code unit; whatever the bytes
      received, the decoder yields scalar values only (an invariant of
      its states, [decoder_ok]), so that the text parsed has no lone
      surrogate.  Concrete runs show the replacement of overlong forms,
      encoded surrogates and sequences cut short.
    - Response decoding ([Json]): the descent terminates within its fuel
      and more fuel changes nothing; what it returns holds no
      [undefined] and no NaN, and no code unit wider than 16 bits
      when the text has none; a service that decodes and parses the
      bytes of a scoring request finds the object with the two types,
      and the bytes of a printed array of strings are received as the
      array of these strings.  Concrete texts show what is accepted and
      what is a SyntaxError.
    - The machine ([App]): an invariant of all reachable states, by
      induction on the steps, from which: no request without
      configuration, every request well formed and for two options the
      page offered, the catalog requested at most once, one request per
      click at most, no score while the catalog is loading.  A second
      induction relates the selects to the catalog, from which every
      request is for types of the catalog when the names are safe; a
      concrete run shows a catalog name with markup in it selecting
      itself and being posted without a choice of the user.  A third
      induction follows the progress note: when no request for a score
      is awaited the note does not read "in progress", and delivering a
      response to every request in flight reaches such a state.
      A fourth, stated once for every relation that the writes to
      elements, a redraw and the storing of the catalog respect
      ([step_kept]), shows that [state.chart] is null or the radar chart
      of the script, with its type, options, labels and five points,
      and that the catalog holds strings of 16-bit code units when the
      bodies received do.
      A success response is shown as it arrives, whichever request in
      flight it answers ([response_shown]).  Concrete runs show
      overlapping requests, a stale response overwriting a newer
      result, and the progress note cleared by the first of two
      responses.
    - What is seen ([Observe]): [same_view] and [same_app] are
      equivalences; every primitive and every handler, run on pages
      that show the same, completes the same way on pages that show the
      same, so the relation is a bisimulation of the machine
      ([step_same_view]) and a run can be rewritten along it
      ([run_proper]); the last of two results wins: after it, and after
      any further events, the page shows the same whatever the first
      result was, provided the confidence of the last is a number
      ([last_response_wins]), and a concrete run shows the bar of the
      first result staying when it is not.
    - The two awaits ([Network]): every step of the machine with two
      events per response is a step of [App] or is invisible to it, so
      its reachable states satisfy the invariant of [App]; the events
      of the network terminate (each moves a request towards its end
      and no continuation issues a request), and from every state the
      network can come to rest; a catalog sent as the UTF-8 bytes of a
      JSON array of safe strings, whatever the status, is what the
      selects then offer; in the other direction, the bytes of every
      scoring request ever sent decode and parse to an object that
      names two types of the catalog, when its names are safe (what is
      received holds 16-bit strings only, so the hypothesis of the
      round trip is met).  Concrete runs follow a session from the
      bytes on the wire to the page, a click between the two awaits, an
      error page of a proxy reported as a communication error, and a
      catalog with a byte order mark or with bytes that are no UTF-8.
    - The page and the service ([Service]): on a payload that conforms
      to section 3 the script shows the display model of section 4.3,
      the confidence not rounded ([render_conforming]); the states of
      the closed system are states of [Network]
      ([creachable_open]); the catalog the page holds is the one of
      the service or none yet, and each status it holds is the one the
      service gave ([page_knows_service]); every request the page
      sends has an answer of the service, a scoring request being
      read by the service as two types of its catalog
      ([requests_understood]), so the case the specification leaves
      open never arises; the answer to each request in flight can
      arrive ([service_replies]); and when the body of the answer to
      a scoring request arrives, the page shows the display model of
      the payload the service computed for the two types of that
      request, or the note of its refusal ([answer_shown]).  A
      whole visit is followed from the page as its markup declares it
      to the result: the document becomes ready, the catalog arrives,
      the user picks two types and clicks, the answer arrives, and
      the page is the one that shows the answer of the service for
      the two types, two requests having been sent ([visit_shown]).
      The theorems hold for every service that sends 16-bit strings,
      names that need no escaping in the option markup and answers as
      section 6 says ([service_ok]), and for every encoder.  Concrete
      runs follow the scenario of section 8 and a refusal.

    ** Bounds and fuel

    - Number::toString searches the shortest digit string with fuel 17,
      the number of significant digits that identifies a binary64
      value.  That the search ends within the fuel is proved on the
      range of a confidence with one digit after the point
      ([number_to_string_tenths]) and evaluated elsewhere; it is not
      proved of every number, and when the fuel runs out the eighteen
      leading digits are printed.  The round trip of [Stringify]
      therefore asks of each number of a value that its printed digits
      denote it ([prints], a test that runs; it holds of the numbers
      with one digit after the point from 0 to 100 and of the integers
      to 1000, [prints_tenths] and [prints_natural]); the layout of
      the digits is proved for all of them.
    - [JSON.parse] on the text of a value needs no more fuel than the
      number of nodes and elements of the value ([parse_fuel]), which
      [json_fuel] exceeds.
    - [of_decimal] answers infinity above 10^310 and zero below 10^-325
      without computing the power: the largest finite binary64 is below
      1.8 * 10^308 and the smallest positive one is above 4.9 * 10^-324,
      so no rounding is lost.
    - [Math.floor(text.length / 2)] is the integer quotient, exact because
      lengths are integers below 2^53.
    - Strings are lists of [N]; where a theorem needs the code units to
      be 16 bits wide ([wf_string], for the request body) it says so.
      Bytes are values of [N] as well: the encoder is shown to yield
      values below 256, and the decoder is total on every list of [N]
      (a value above [F4] starts no sequence).
    - The UTF-8 decoder takes one step per byte and one more at the end
      of the input: it needs no fuel.
    - The HTML parser takes one step per code unit and one more at the
      end of the input: it needs no fuel.  It answers [None] where the
      input leaves the part of the standard that is modelled (see
      below).  The code of a numeric character reference is a value of
      [N] and grows with every digit: it does not wrap, and any code
      beyond U+10FFFF is replaced, as in the standard.
    - [JSON.parse] runs on [json_fuel s], one unit for each code unit of
      the text and one more: a nested value and an element after a comma
      each take a unit and at least one code unit, so the fuel is never
      used up ([parse_value_terminates]); [Exhausted] is kept apart
      from a SyntaxError so that the theorem says so.
    - The backlog of the network counts two events for a request being
      fetched and one for a request being read; it bounds the number of
      events of the network without an event of the user.

    ** Assumptions on the platform

    - The browser agrees with [Markup] where [Markup] answers
      ([Browser]): the options of a select are those of the parsed
      nodes, and [innerHTML] reads back the serialisation of the nodes
      when they carry no attribute twice and no attribute name that the
      serialiser cannot print ([stable]).  On any other markup the
      browser is unconstrained; [reference_browser] is one instance,
      used for the concrete runs only.
    - The two selects are single-selection lists of display size 1 and
      hold no option before the script runs; assigning [innerHTML] to a
      select gives it the value of the last option with [selected], or
      of the first that is not disabled, or the empty string.
    - [style.width] keeps its previous value when assigned a string that
      is not a non-negative CSS percentage.
    - The property names the script reads ([macro], [scores], the axis
      names, ...) are not properties of [Object.prototype]; an object
      with a [toString] property of its own has no string.
    - In [App] the two awaits of a handler ([fetch], then [res.json()])
      are one event; [Network] shows that nothing is lost by it.  A
      connection dropped while the body is read rejects [res.json()]
      like a failed [fetch] rejects: no handler inspects the exception.
    - [fetch] sends a string body as UTF-8 and [res.json()] decodes the
      body as UTF-8, whatever charset the headers declare; an object
      read from JSON lists its properties in the order of their first
      occurrence (the script enumerates no object).
    - The exception of a rejected [fetch] is kept apart from a TypeError
      of the script ([NetworkError]); no handler inspects it.

    ** Not modelled

    Chart.js and the drawing of the chart (the type, the options and
    the data handed to it and the number of draws are kept); the limit
    of an engine on the nesting of JSON; the headers of responses
    other than the status.  Of the HTML parser, three things, on all of
    which [parse_fragment] answers [None] ([tstep_declines] lists the
    cases of the tokenizer): the named character references other than
    [&amp;], [&lt;], [&gt;], [&quot;] and [&nbsp;], because which
    names exist is a table of 2231 entries that is data of the
    platform; comments, declarations and processing instructions,
    because a comment inside an option is a child of the option and
    the model of an option holds its attributes and its text only; and
    every tag other than [option] ([optgroup], [hr], [select], [input]
    and the rest), because what tree construction does with them
    inside a select differs between revisions of the standard, so
    that no single definition is faithful to the browsers in use.  The markup
    the script writes uses none of the three unless a type name of
    the service does; the theorems about the selects assume names that
    do not ([safe_name]).  Of the scoring service, how a score is
    computed: the code is not under [src/] and the specification
    does not say, so [svc_score] of [Service] is a parameter, and in
    [App] and [Network] the answers (any status, any bytes, in any
    order, or none) are inputs of the machine.  Of
    [JSON.stringify], the replacer, the indentation and [toJSON],
    which the script does not use.  The layout and style of the
    page.  Every line of [src/web/script.js] that holds code is
    modelled; what remains outside is the platform. *)

From stdpp Require Export base tactics option list numbers.
From Stdlib Require Export ZArith Lia.

(** ** Generic list functions used by the string model

    Substring search and while-trimming are stated once for lists over any
    type with decidable equality; [JsString] instantiates them at UTF-16
    code units. *)

Section list_search.
Context {A : Type} `{EqDecision A}.
Implicit Types (p l : list A).

(** [starts_with p l] decides whether [p] is a prefix of [l]. *)
Fixpoint starts_with p l : bool :=
  match p, l with
  | [], _ => true
  | _ :: _, [] => false
  | x :: p', y :: l' => bool_decide (x = y) && starts_with p' l'
  end.

(** [find_sub p l] is the least [i] such that [p] occurs in [l] at offset
    [i], scanning from the left; the empty pattern occurs at offset 0. *)
Fixpoint find_sub p l : option nat :=
  if starts_with p l then Some 0%nat
  else match l with
       | [] => None
       | _ :: l' => S <$> find_sub p l'
       end.

End list_search.

Section list_while.
Context {A : Type} (f : A → bool).
Implicit Types (l : list A).

Fixpoint take_while l : list A :=
  match l with
  | [] => []
  | x :: l' => if f x then x :: take_while l' else []
  end.

Fixpoint drop_while l : list A :=
  match l with
  | [] => []
  | x :: l' => if f x then drop_while l' else l
  end.

Definition drop_while_end l : list A := reverse (drop_while (reverse l)).

(** [no_lead l]: the first element, if any, fails [f]; [no_trail] is the
    same for the last element. *)
Definition no_lead l : bool :=
  match l with [] => true | x :: _ => negb (f x) end.

Definition no_trail l : bool := no_lead (reverse l).

End list_while.

(** ** Tactics and hint databases *)

Create HintDb js discriminated.
Create Rewrite HintDb js.

(** [case_test] splits on the scrutinee of the first [if] or [match] of the
    goal, keeping the equation. *)
Ltac case_test :=
  match goal with
  | |- context [if ?b then _ else _] => destruct b eqn:?
  | |- context [match ?x with _ => _ end] => destruct x eqn:?
  end.

(** [by_compute] proves a conjunction of closed equations by evaluation,
    one conjunct at a time. *)
Ltac by_compute := cbv zeta; split_and?; vm_compute; reflexivity.

(** [bool_to_prop] turns boolean tests in the context and goal into the
    propositions they decide. *)
Ltac bool_to_prop :=
  repeat match goal with
  | H : _ && _ = true |- _ => apply andb_true_iff in H; destruct H
  | H : _ || _ = false |- _ => apply orb_false_iff in H; destruct H
  | H : negb _ = true |- _ => apply negb_true_iff in H
  | H : negb _ = false |- _ => apply negb_false_iff in H
  | H : bool_decide _ = true |- _ => apply bool_decide_eq_true in H
  | H : bool_decide _ = false |- _ => apply bool_decide_eq_false in H
  | H : (_ <? _)%Z = true |- _ => apply Z.ltb_lt in H
  | H : (_ <? _)%Z = false |- _ => apply Z.ltb_ge in H
  | H : (_ <=? _)%Z = true |- _ => apply Z.leb_le in H
  | H : (_ <=? _)%Z = false |- _ => apply Z.leb_gt in H
  | H : (_ =? _)%Z = true |- _ => apply Z.eqb_eq in H
  | H : (_ =? _)%Z = false |- _ => apply Z.eqb_neq in H
  | H : (_ <? _)%N = true |- _ => apply N.ltb_lt in H
  | H : (_ <? _)%N = false |- _ => apply N.ltb_ge in H
  | H : (_ <=? _)%N = true |- _ => apply N.leb_le in H
  | H : (_ <=? _)%N = false |- _ => apply N.leb_gt in H
  | H : (_ =? _)%N = true |- _ => apply N.eqb_eq in H
  | H : (_ =? _)%N = false |- _ => apply N.eqb_neq in H
  | H : (_ <=? _)%nat = true |- _ => apply Nat.leb_le in H
  | H : (_ <=? _)%nat = false |- _ => apply Nat.leb_gt in H
  end.

(** ** Lemmas on substring search *)

Section list_search_facts.
Context {A : Type} `{EqDecision A}.
Implicit Types (p l k : list A) (i j : nat).

Lemma starts_with_prefix p l : starts_with p l = true ↔ p `prefix_of` l.
Proof.
  revert l. induction p as [|x p IH]; intros [|y l]; simpl.
  - split; [intros _; apply prefix_nil | done].
  - split; [intros _; apply prefix_nil | done].
  - split; [done | intros H; by apply prefix_nil_not in H].
  - rewrite andb_true_iff, bool_decide_eq_true, IH. split.
    + intros [-> H]. by apply prefix_cons.
    + intros H. split; [by eapply prefix_cons_inv_1 | by eapply prefix_cons_inv_2].
Qed.

Lemma starts_with_false p l : starts_with p l = false ↔ ¬ p `prefix_of` l.
Proof. rewrite <-starts_with_prefix. by destruct (starts_with p l). Qed.

Lemma starts_with_app p l : starts_with p (p ++ l) = true.
Proof. apply starts_with_prefix, prefix_app_r. done. Qed.

(** An occurrence found at [i] is an occurrence. *)
Lemma find_sub_Some_prefix p l i :
  find_sub p l = Some i → p `prefix_of` drop i l.
Proof.
  revert i. induction l as [|x l IH]; intros i; simpl.
  - destruct (starts_with p []) eqn:E; [|done].
    intros [= <-]. by apply starts_with_prefix.
  - destruct (starts_with p (x :: l)) eqn:E.
    + intros [= <-]. by apply starts_with_prefix.
    + destruct (find_sub p l) as [j|] eqn:Ej; [|done].
      intros [= <-]. simpl. by apply IH.
Qed.

(** No offset before the one found is an occurrence. *)
Lemma find_sub_Some_first p l i j :
  find_sub p l = Some i → (j < i)%nat → ¬ p `prefix_of` drop j l.
Proof.
  revert i j. induction l as [|x l IH]; intros i j; simpl.
  - destruct (starts_with p []); [intros [= <-]; lia | done].
  - destruct (starts_with p (x :: l)) eqn:E; [intros [= <-]; lia|].
    destruct (find_sub p l) as [i'|] eqn:Ei; [|done].
    intros [= <-] Hj. destruct j as [|j]; simpl.
    + by apply starts_with_false.
    + eapply IH; [done | lia].
Qed.

(** When the search fails the pattern occurs nowhere. *)
Lemma find_sub_None p l j : find_sub p l = None → ¬ p `prefix_of` drop j l.
Proof.
  revert j. induction l as [|x l IH]; intros j; simpl.
  - destruct (starts_with p []) eqn:E; [done|]. intros _.
    rewrite drop_nil. by apply starts_with_false.
  - destruct (starts_with p (x :: l)) eqn:E; [done|].
    destruct (find_sub p l) eqn:E'; [done|]. intros _.
    destruct j as [|j]; simpl; [by apply starts_with_false | by apply IH].
Qed.

(** Completeness: any occurrence forces the search to succeed, at an
    offset no later than that occurrence. *)
Lemma find_sub_complete p l j :
  p `prefix_of` drop j l → ∃ i, find_sub p l = Some i ∧ (i ≤ j)%nat.
Proof.
  intros Hp. destruct (find_sub p l) as [i|] eqn:E.
  - exists i. split; [done|].
    destruct (decide (i ≤ j)%nat) as [|Hn]; [done|].
    exfalso. eapply (find_sub_Some_first p l i j); [done | lia | done].
  - by apply (find_sub_None p l j) in E.
Qed.

Lemma find_sub_Some_bound p l i :
  find_sub p l = Some i → (i + length p ≤ length l)%nat.
Proof.
  intros Hf. pose proof (find_sub_Some_prefix _ _ _ Hf) as H.
  apply prefix_length in H. rewrite length_drop in H.
  destruct p as [|x p]; simpl in *; [|lia].
  destruct l; simplify_eq/=; lia.
Qed.

(** The text splits around the occurrence found. *)
Lemma find_sub_split p l i :
  find_sub p l = Some i → l = take i l ++ p ++ drop (i + length p) l.
Proof.
  intros [k Hk]%find_sub_Some_prefix.
  rewrite <-(take_drop i l) at 1. f_equal.
  rewrite <-(drop_drop l (length p) i), Hk. by rewrite drop_app_length.
Qed.

(** Searching a text that begins with the pattern finds it at offset 0. *)
Lemma find_sub_app_0 p l : find_sub p (p ++ l) = Some 0%nat.
Proof. destruct p, l; simpl; rewrite ?bool_decide_eq_true_2, ?starts_with_app; done. Qed.

Lemma find_sub_nil_inv p : find_sub p [] = None ↔ p ≠ [].
Proof. destruct p; simpl; split; done. Qed.

End list_search_facts.

(** ** Lemmas on tails *)

Section list_tail_facts.
Context {A : Type} (P : A → Prop).
Implicit Types (l k : list A).

Lemma Forall_tail_app l k : Forall P (tail l) → Forall P k → Forall P (tail (l ++ k)).
Proof. destruct l; simpl; [intros _; apply Forall_tail | apply Forall_app_2]. Qed.

Lemma Forall_tail_delete l i : Forall P (tail l) → Forall P (tail (delete i l)).
Proof.
  destruct l as [|x l]; [by destruct i|]. destruct i; simpl.
  - apply Forall_tail.
  - apply Forall_delete.
Qed.

(** An element of a list whose tail satisfies [P] that fails [P] is its
    head. *)
Lemma lookup_tail_Forall l i x :
  Forall P (tail l) → l !! i = Some x → ¬ P x → i = 0%nat.
Proof.
  destruct l as [|y l], i; simpl; try done.
  intros H Hx Hn. destruct Hn. rewrite list.Forall_forall in H.
  by eapply H, list_elem_of_lookup_2.
Qed.

End list_tail_facts.

(** ** Lemmas on while-trimming *)

Section list_while_facts.
Context {A : Type} (f : A → bool).
Implicit Types (l k : list A) (x : A).

Lemma take_drop_while l : take_while f l ++ drop_while f l = l.
Proof. induction l as [|x l IH]; simpl; [done|]. destruct (f x); simpl; congruence. Qed.

Lemma Forall_take_while l : Forall (λ x, f x = true) (take_while f l).
Proof. induction l as [|x l IH]; simpl; [done|]. destruct (f x) eqn:E; auto. Qed.

Lemma drop_while_suffix l : drop_while f l `suffix_of` l.
Proof. exists (take_while f l). by rewrite take_drop_while. Qed.

Lemma no_lead_drop_while l : no_lead f (drop_while f l) = true.
Proof. induction l as [|x l IH]; simpl; [done|]. destruct (f x) eqn:E; simpl; [done|by rewrite E]. Qed.

Lemma drop_while_no_lead l : no_lead f l = true → drop_while f l = l.
Proof. destruct l as [|x l]; simpl; [done|]. by intros ->%negb_true_iff. Qed.

Lemma drop_while_app_Forall k l :
  Forall (λ x, f x = true) k → drop_while f (k ++ l) = drop_while f l.
Proof. induction 1 as [|x k Hx _ IH]; simpl; [done|]. by rewrite Hx. Qed.

Lemma drop_while_Forall k : Forall (λ x, f x = true) k → drop_while f k = [].
Proof. intros H. rewrite <-(app_nil_r k). by rewrite drop_while_app_Forall. Qed.

Lemma no_trail_cons x y l : no_trail f (x :: y :: l) = no_trail f (y :: l).
Proof.
  unfold no_trail. rewrite (reverse_cons (y :: l) x).
  destruct (reverse (y :: l)) as [|z r] eqn:E; [|done].
  apply (f_equal length) in E. rewrite length_reverse in E. done.
Qed.

Lemma no_trail_drop_while l : no_trail f l = true → no_trail f (drop_while f l) = true.
Proof.
  induction l as [|x l IH]; simpl; [done|]. destruct (f x) eqn:E; [|done].
  destruct l as [|y l]; [done|]. rewrite no_trail_cons. apply IH.
Qed.

Lemma drop_while_end_prefix l : drop_while_end f l `prefix_of` l.
Proof.
  destruct (drop_while_suffix (reverse l)) as [k Hk].
  exists (reverse k). unfold drop_while_end.
  rewrite <-reverse_app, <-Hk. by rewrite reverse_involutive.
Qed.

Lemma no_trail_drop_while_end l : no_trail f (drop_while_end f l) = true.
Proof.
  unfold no_trail, drop_while_end. rewrite reverse_involutive.
  apply no_lead_drop_while.
Qed.

Lemma drop_while_end_no_trail l : no_trail f l = true → drop_while_end f l = l.
Proof.
  unfold no_trail, drop_while_end. intros H.
  by rewrite drop_while_no_lead, reverse_involutive.
Qed.

Lemma no_lead_prefix k l : k `prefix_of` l → no_lead f l = true → no_lead f k = true.
Proof. intros [k' ->]. by destruct k. Qed.

Lemma no_lead_drop_while_end l : no_lead f l = true → no_lead f (drop_while_end f l) = true.
Proof. apply no_lead_prefix, drop_while_end_prefix. Qed.

Lemma drop_while_end_app_Forall l k :
  Forall (λ x, f x = true) k → drop_while_end f (l ++ k) = drop_while_end f l.
Proof.
  intros H. unfold drop_while_end. rewrite reverse_app.
  rewrite drop_while_app_Forall; [done|]. by apply Forall_reverse.
Qed.

(** What [drop_while_end] removes is a run of elements satisfying [f]. *)
Lemma drop_while_end_decomp l :
  ∃ k, l = drop_while_end f l ++ k ∧ Forall (λ x, f x = true) k.
Proof.
  exists (reverse (take_while f (reverse l))). split.
  - unfold drop_while_end. rewrite <-reverse_app, take_drop_while.
    by rewrite reverse_involutive.
  - apply Forall_reverse, Forall_take_while.
Qed.

Lemma drop_while_app k l :
  drop_while f (k ++ l) = if forallb f k then drop_while f l else drop_while f k ++ l.
Proof. induction k as [|x k IH]; simpl; [done|]. by destruct (f x). Qed.

Lemma forallb_Forall l : forallb f l = true ↔ Forall (λ x, f x = true) l.
Proof.
  induction l as [|x l IH]; simpl; [done|].
  rewrite Forall_cons_iff, <-IH. destruct (f x); simpl; intuition congruence.
Qed.

Lemma forallb_reverse l : forallb f (reverse l) = forallb f l.
Proof.
  induction l as [|x l IH]; [done|].
  rewrite reverse_cons, forallb_app, IH. simpl. by rewrite andb_true_r, andb_comm.
Qed.

(** [drop_while_end] from the left: the list is dropped whole when all of
    it satisfies [f], and otherwise keeps its head. *)
Lemma drop_while_end_cons x l :
  drop_while_end f (x :: l)
  = if forallb f (x :: l) then [] else x :: drop_while_end f l.
Proof.
  unfold drop_while_end. rewrite reverse_cons, drop_while_app, forallb_reverse.
  simpl. destruct (forallb f l) eqn:El.
  - rewrite andb_true_r. rewrite <-forallb_reverse in El.
    rewrite (drop_while_Forall (reverse l)) by by apply forallb_Forall.
    by destruct (f x).
  - by rewrite andb_false_r, reverse_app.
Qed.

End list_while_facts.

#[export] Hint Resolve no_lead_drop_while no_trail_drop_while_end
  no_trail_drop_while no_lead_drop_while_end : js.
#[export] Hint Rewrite @drop_while_no_lead @drop_while_end_no_trail
  using (by auto with js) : js.
