(* ===== verification/Effects.v ===== *)
(** * Effects: completions and stateful computations

    A JavaScript expression either completes normally with a value or
    throws.  [outcome A] is that completion; it is the error monad in which
    the coercions of [JsValue] live.  A handler of the script also mutates
    the page and the session state: [prog S A] threads a state [S] through
    a computation and, unlike a state transformer over the error monad,
    keeps the state reached when an exception is thrown, which is what a
    [try]/[catch] around DOM updates observes.  Both get stdpp's bind
    notation through [MRet]/[MBind] instances. *)

From S2P Require Import Prelude.

(** The exceptions the script can meet: a TypeError (property access on
    [null] or [undefined], call of a non-function, an object that has no
    primitive value), a SyntaxError (a response body that is not JSON), and
    the rejection of [fetch] on a network failure. *)
Inductive error := TypeError | SyntaxError | NetworkError.

#[export] Instance error_eq_dec : EqDecision error.
Proof. solve_decision. Defined.

Inductive outcome (A : Type) :=
  | Ok (a : A)
  | Throw (e : error).
Arguments Ok {A} a.
Arguments Throw {A} e.

#[export] Instance outcome_eq_dec `{EqDecision A} : EqDecision (outcome A).
Proof. solve_decision. Defined.

#[export] Instance outcome_ret : MRet outcome := @Ok.
#[export] Instance outcome_bind : MBind outcome := λ A B f m,
  match m with Ok a => f a | Throw e => Throw e end.
#[export] Instance outcome_fmap : FMap outcome := λ A B f m,
  match m with Ok a => Ok (f a) | Throw e => Throw e end.

Definition is_ok {A} (m : outcome A) : bool :=
  match m with Ok _ => true | Throw _ => false end.

(** [or_else m h] is [try { m } catch (e) { h e }] on pure computations. *)
Definition or_else {A} (m : outcome A) (h : error → outcome A) : outcome A :=
  match m with Ok a => Ok a | Throw e => h e end.

(** Stateful computations that may throw.  The state is returned on both
    completions. *)
Definition prog (S A : Type) : Type := S → outcome A * S.

#[export] Instance prog_ret {S} : MRet (prog S) := λ A a s, (Ok a, s).
#[export] Instance prog_bind {S} : MBind (prog S) := λ A B f m s,
  match m s with
  | (Ok a, s') => f a s'
  | (Throw e, s') => (Throw e, s')
  end.

Section prog_ops.
Context {S : Type}.

Definition get_state : prog S S := λ s, (Ok s, s).
Definition put_state (s : S) : prog S unit := λ _, (Ok (), s).
Definition modify_state (f : S → S) : prog S unit := λ s, (Ok (), f s).

(** A pure completion run inside a stateful computation. *)
Definition lift {A} (m : outcome A) : prog S A := λ s, (m, s).

Definition throw {A} (e : error) : prog S A := lift (Throw e).

(** [try { m } catch (e) { h e }]: the handler runs in the state [m] left. *)
Definition try_catch {A} (m : prog S A) (h : error → prog S A) : prog S A := λ s,
  match m s with
  | (Ok a, s') => (Ok a, s')
  | (Throw e, s') => h e s'
  end.

(** The final state of a run. *)
Definition exec {A} (m : prog S A) (s : S) : S := (m s).2.
Definition eval {A} (m : prog S A) (s : S) : outcome A := (m s).1.

End prog_ops.

(** [throws_only P m]: every exception [m] can end with satisfies [P]. *)
Definition throws_only {S A} (P : error → Prop) (m : prog S A) : Prop :=
  ∀ s e s', m s = (Throw e, s') → P e.

(** [preserves R m]: the state [m] ends in, on either completion, is
    related by [R] to the state it started in. *)
Definition preserves {S A} (R : relation S) (m : prog S A) : Prop :=
  ∀ s, R s (m s).2.

(** [returns P Q m]: run from a state that satisfies [P], a normal
    completion of [m] ends in a state that satisfies [Q]. *)
Definition returns {S A} (P Q : S → Prop) (m : prog S A) : Prop :=
  ∀ s a s', P s → m s = (Ok a, s') → Q s'.

(** [ends_in Q m]: on either completion [m] ends in a state that
    satisfies [Q]. *)
Definition ends_in {S A} (Q : S → Prop) (m : prog S A) : Prop :=
  ∀ s, Q (m s).2.

(** ** Laws *)

Section outcome_laws.
Context {A B C : Type}.
Implicit Types (m : outcome A) (f : A → outcome B) (g : B → outcome C).

Lemma outcome_bind_ret_l a f : mret a ≫= f = f a.
Proof. done. Qed.

Lemma outcome_bind_ret_r m : m ≫= mret = m.
Proof. by destruct m. Qed.

Lemma outcome_bind_assoc m f g : (m ≫= f) ≫= g = m ≫= (λ a, f a ≫= g).
Proof. by destruct m. Qed.

Lemma outcome_bind_Ok m f b :
  m ≫= f = Ok b ↔ ∃ a, m = Ok a ∧ f a = Ok b.
Proof. destruct m; simpl; split; [eauto | by intros (? & [= <-] & ?) | done | by intros (? & ? & _)]. Qed.

Lemma outcome_bind_Throw m f e :
  m ≫= f = Throw e ↔ m = Throw e ∨ ∃ a, m = Ok a ∧ f a = Throw e.
Proof.
  destruct m as [a|e']; simpl.
  - split.
    + intros H. right. by exists a.
    + intros [?|(? & ? & ?)]; by simplify_eq.
  - split.
    + intros [= ->]. by left.
    + intros [[= ->]|(? & ? & _)]; by simplify_eq.
Qed.

(** What holds of every result of [f] holds of the results of [mapM f]. *)
Lemma mapM_Ok_Forall (h : C → outcome A) (Q : A → Prop) l bs :
  Forall (λ c, ∀ a, h c = Ok a → Q a) l → mapM h l = Ok bs → Forall Q bs.
Proof.
  intros Hl. revert bs. induction Hl as [|c l Hc _ IH]; intros bs; simpl.
  - by intros [= <-].
  - destruct (h c) as [a|] eqn:Ea; [|done]. simpl.
    destruct (mapM h l) as [bs'|]; [|done]. intros [= <-].
    constructor; [by apply Hc|by apply IH].
Qed.

End outcome_laws.

Section prog_laws.
Context {S A B C : Type}.
Implicit Types (m : prog S A) (f : A → prog S B) (g : B → prog S C) (s : S).

Lemma prog_bind_ret_l a f s : (mret a ≫= f) s = f a s.
Proof. done. Qed.

Lemma prog_bind_ret_r m s : (m ≫= mret) s = m s.
Proof. unfold mbind, prog_bind. by destruct (m s) as [[] ?]. Qed.

Lemma prog_bind_assoc m f g s : ((m ≫= f) ≫= g) s = (m ≫= (λ a, f a ≫= g)) s.
Proof. unfold mbind, prog_bind. by destruct (m s) as [[] ?]. Qed.

Lemma prog_bind_run m f s :
  (m ≫= f) s = match m s with (Ok a, s') => f a s' | (Throw e, s') => (Throw e, s') end.
Proof. done. Qed.

(** A throw ends the computation in the state it was raised in. *)
Lemma prog_bind_throw m f s e s' : m s = (Throw e, s') → (m ≫= f) s = (Throw e, s').
Proof. intros H. by rewrite prog_bind_run, H. Qed.

Lemma prog_bind_ok m f s a s' : m s = (Ok a, s') → (m ≫= f) s = f a s'.
Proof. intros H. by rewrite prog_bind_run, H. Qed.

Lemma try_catch_ok m (h : error → prog S A) s a s' :
  m s = (Ok a, s') → try_catch m h s = (Ok a, s').
Proof. unfold try_catch. by intros ->. Qed.

Lemma try_catch_throw m (h : error → prog S A) s e s' :
  m s = (Throw e, s') → try_catch m h s = h e s'.
Proof. unfold try_catch. by intros ->. Qed.

(** A handler that does not throw makes the whole block complete normally. *)
Lemma try_catch_total m (h : error → prog S A) s :
  (∀ e s', is_ok (h e s').1 = true) → is_ok (try_catch m h s).1 = true.
Proof. intros Hh. unfold try_catch. destruct (m s) as [[a|e] s']; [done | apply Hh]. Qed.

Lemma prog_bind_Ok_inv m f s b s' :
  (m ≫= f) s = (Ok b, s') → ∃ a s1, m s = (Ok a, s1) ∧ f a s1 = (Ok b, s').
Proof.
  rewrite prog_bind_run. destruct (m s) as [[a|e] s1]; intros H; [|done].
  by exists a, s1.
Qed.

Lemma prog_bind_Throw_inv m f s e s' :
  (m ≫= f) s = (Throw e, s') →
  m s = (Throw e, s') ∨ ∃ a s1, m s = (Ok a, s1) ∧ f a s1 = (Throw e, s').
Proof.
  rewrite prog_bind_run. destruct (m s) as [[a|e'] s1]; intros H.
  - right. by exists a, s1.
  - injection H as -> ->. by left.
Qed.

Lemma lift_Ok_inv (o : outcome A) s a s' : lift o s = (Ok a, s') → o = Ok a ∧ s' = s.
Proof. unfold lift. by intros [= -> ->]. Qed.

End prog_laws.

(** ** Exceptions and frames, compositionally *)

Section throws_only.
Context {S : Type} (P : error → Prop).

Lemma throws_only_ret {A} (a : A) : throws_only P (mret a : prog S A).
Proof. by intros s e s'. Qed.

Lemma throws_only_bind {A B} (m : prog S A) (f : A → prog S B) :
  throws_only P m → (∀ a, throws_only P (f a)) → throws_only P (m ≫= f).
Proof.
  intros Hm Hf s e s' [H|(a & s1 & _ & H)]%prog_bind_Throw_inv; [by eapply Hm | by eapply Hf].
Qed.

Lemma throws_only_lift {A} (o : outcome A) :
  (∀ e, o = Throw e → P e) → throws_only P (lift o : prog S A).
Proof. intros Ho s e s' [= -> _]. by apply Ho. Qed.

Lemma throws_only_throw {A} e : P e → throws_only P (throw e : prog S A).
Proof. by intros He s e' s' [= <- _]. Qed.

Lemma throws_only_modify (f : S → S) : throws_only P (modify_state f).
Proof. by intros s e s'. Qed.

Lemma throws_only_get : throws_only P (get_state : prog S S).
Proof. by intros s e s'. Qed.

Lemma throws_only_put s0 : throws_only P (put_state s0 : prog S unit).
Proof. by intros s e s'. Qed.

End throws_only.

Section preserves.
Context {S : Type} (R : relation S) `{!PreOrder R}.

Lemma preserves_ret {A} (a : A) : preserves R (mret a : prog S A).
Proof. intros s. simpl. reflexivity. Qed.

Lemma preserves_bind {A B} (m : prog S A) (f : A → prog S B) :
  preserves R m → (∀ a, preserves R (f a)) → preserves R (m ≫= f).
Proof.
  intros Hm Hf s. rewrite prog_bind_run. specialize (Hm s).
  destruct (m s) as [[a|e] s1]; simpl in *; [|done].
  etransitivity; [done | apply Hf].
Qed.

Lemma preserves_lift {A} (o : outcome A) : preserves R (lift o : prog S A).
Proof. intros s. simpl. reflexivity. Qed.

(** What follows a pure computation runs on its result only. *)
Lemma preserves_bind_lift {A B} (o : outcome A) (f : A → prog S B) :
  (∀ a, o = Ok a → preserves R (f a)) → preserves R (lift o ≫= f).
Proof.
  intros Hf s. rewrite prog_bind_run. unfold lift. destruct o as [a|e]; [by apply Hf|].
  simpl. reflexivity.
Qed.

Lemma preserves_throw {A} e : preserves R (throw e : prog S A).
Proof. intros s. simpl. reflexivity. Qed.

Lemma preserves_get : preserves R (get_state : prog S S).
Proof. intros s. simpl. reflexivity. Qed.

Lemma preserves_modify (f : S → S) : (∀ s, R s (f s)) → preserves R (modify_state f).
Proof. intros Hf s. apply Hf. Qed.

Lemma preserves_try_catch {A} (m : prog S A) (h : error → prog S A) :
  preserves R m → (∀ e, preserves R (h e)) → preserves R (try_catch m h).
Proof.
  intros Hm Hh s. unfold try_catch. specialize (Hm s).
  destruct (m s) as [[a|e] s1]; simpl in *; [done|].
  etransitivity; [done | apply Hh].
Qed.

End preserves.

Section returns.
Context {S : Type}.
Implicit Types (P Q R : S → Prop).

Lemma returns_ret {A} P (a : A) : returns P P (mret a : prog S A).
Proof. by intros s ? s' Hp [= _ <-]. Qed.

Lemma returns_lift {A} P (o : outcome A) : returns P P (lift o : prog S A).
Proof. by intros s ? s' Hp [= _ <-]. Qed.

Lemma returns_bind {A B} P R Q (m : prog S A) (f : A → prog S B) :
  returns P R m → (∀ a, returns R Q (f a)) → returns P Q (m ≫= f).
Proof.
  intros Hm Hf s b s' Hp. rewrite prog_bind_run.
  destruct (m s) as [[a|e] s1] eqn:E; [|done]. intros Hb.
  eapply Hf; [|done]. by eapply Hm.
Qed.

Lemma returns_weaken {A} P P' Q Q' (m : prog S A) :
  (∀ s, P' s → P s) → (∀ s, Q s → Q' s) → returns P Q m → returns P' Q' m.
Proof. intros Hp Hq Hm s a s' H E. eapply Hq, Hm; eauto. Qed.

(** What a relation between the states before and after gives. *)
Lemma returns_preserves {A} (Rel : relation S) P Q (m : prog S A) :
  preserves Rel m → (∀ s s', P s → Rel s s' → Q s') → returns P Q m.
Proof. intros Hm Hr s a s' Hp E. eapply Hr; [done|]. specialize (Hm s). by rewrite E in Hm. Qed.

Lemma returns_ends_in {A} P Q (m : prog S A) : ends_in Q m → returns P Q m.
Proof. intros Hm s a s' _ E. specialize (Hm s). by rewrite E in Hm. Qed.

(** [try]/[catch] with a handler that establishes [Q] by itself. *)
Lemma ends_in_try_catch {A} Q (m : prog S A) (h : error → prog S A) :
  returns (λ _, True) Q m → (∀ e, ends_in Q (h e)) → ends_in Q (try_catch m h).
Proof.
  intros Hm Hh s. unfold try_catch. destruct (m s) as [[a|e] s1] eqn:E; simpl.
  - by eapply Hm.
  - apply Hh.
Qed.

End returns.

#[export] Hint Resolve throws_only_ret throws_only_lift throws_only_throw
  throws_only_modify throws_only_get throws_only_put
  preserves_ret preserves_lift preserves_throw preserves_get : js.

#[export] Hint Rewrite @prog_bind_ret_l @outcome_bind_ret_r : js.

(** [run_prog] unfolds the monad operations of a run on a symbolic state. *)
Ltac run_prog :=
  unfold exec, eval, throw, lift, get_state, put_state, modify_state, try_catch,
    mbind, mret, prog_bind, prog_ret, outcome_bind, outcome_ret in *; simpl in *.
