(* ===== verification/JsString.v ===== *)
(** * JsString: ECMAScript String values

    A JavaScript string is a finite sequence of 16-bit code units; [length],
    [indexOf], [slice], [replace] and [trim] all count and compare code
    units, not characters.  This file models the string type as a list of
    code units ([N]) and the five built-ins that [splitBody] and
    [renderResult] of [src/web/script.js] call, following the algorithms of
    the ECMAScript specification (String.prototype.indexOf, .slice,
    .replace with a string pattern, .trim).  It also provides [js], which
    reads a string literal the way the JavaScript source text writes it
    (UTF-8 source bytes, backslash escapes), so that the constants of the
    program appear in the model as they appear in the script. *)

From S2P Require Import Prelude.
From stdpp Require Import strings.

Notation code_unit := N (only parsing).
Notation jsstring := (list N) (only parsing).

Declare Scope js_scope.
Delimit Scope js_scope with js.

(** ** Literals *)

(** The value of a hexadecimal digit (0 for any other character). *)
Definition hex_value (c : N) : N :=
  (if (48 <=? c) && (c <=? 57) then c - 48
   else if (97 <=? c) && (c <=? 102) then c - 87
   else if (65 <=? c) && (c <=? 70) then c - 55
   else 0)%N.

(** [unescape] interprets the escape sequences of a JavaScript string
    literal that the script uses: backslash-n, -t, -r, backslash-x with
    two hexadecimal digits, and an escaped backslash or quote. *)
Fixpoint unescape (bs : list N) : list N :=
  match bs with
  | [] => []
  | b :: r =>
    match r with
    | e :: r' =>
      if (b =? 92)%N then
        if (e =? 120)%N then
          match r' with
          | h1 :: h2 :: r'' => (hex_value h1 * 16 + hex_value h2)%N :: unescape r''
          | _ => e :: unescape r'
          end
        else
          (if (e =? 110)%N then 10 else if (e =? 116)%N then 9
           else if (e =? 114)%N then 13 else e)%N :: unescape r'
      else b :: unescape r
    | [] => [b]
    end
  end.

(** The UTF-8 bytes of a literal to code points; a truncated sequence
    yields U+FFFD. *)
Fixpoint literal_points (bs : list N) : list N :=
  match bs with
  | [] => []
  | b0 :: r0 =>
    if (b0 <? 128)%N then b0 :: literal_points r0
    else match r0 with
    | [] => [65533%N]
    | b1 :: r1 =>
      if (b0 <? 224)%N then ((b0 mod 32) * 64 + b1 mod 64)%N :: literal_points r1
      else match r1 with
      | [] => [65533%N]
      | b2 :: r2 =>
        if (b0 <? 240)%N
        then ((b0 mod 16) * 4096 + (b1 mod 64) * 64 + b2 mod 64)%N :: literal_points r2
        else match r2 with
        | [] => [65533%N]
        | b3 :: r3 =>
          ((b0 mod 8) * 262144 + (b1 mod 64) * 4096 + (b2 mod 64) * 64 + b3 mod 64)%N
            :: literal_points r3
        end
      end
    end
  end.

(** A code point as one code unit or a surrogate pair. *)
Definition literal_units (cp : N) : jsstring :=
  if (cp <? 65536)%N then [cp]
  else [(55296 + (cp - 65536) / 1024)%N; (56320 + (cp - 65536) mod 1024)%N].

Definition js (s : string) : jsstring :=
  literal_points (unescape (Ascii.N_of_ascii <$> String.list_ascii_of_string s))
    ≫= literal_units.

(** ** Built-ins *)

(** [s.length] *)
Definition js_length (s : jsstring) : Z := Z.of_nat (length s).

(** A string of 16-bit code units. *)
Definition wf_string (s : jsstring) : Prop := Forall (λ c, (c < 65536)%N) s.

(** A string of ASCII characters. *)
Definition ascii (s : jsstring) : Prop := Forall (λ c, (c < 128)%N) s.

(** WhiteSpace and LineTerminator code units, the characters [trim]
    removes (ECMAScript 12.2 and 12.3; Zs is listed out). *)
Definition is_white_space (c : N) : bool :=
  ((c =? 0x9) || (c =? 0xB) || (c =? 0xC) || (c =? 0x20) || (c =? 0xA0)
   || (c =? 0x1680) || ((0x2000 <=? c) && (c <=? 0x200A))
   || (c =? 0x202F) || (c =? 0x205F) || (c =? 0x3000) || (c =? 0xFEFF))%N.

Definition is_line_terminator (c : N) : bool :=
  ((c =? 0xA) || (c =? 0xD) || (c =? 0x2028) || (c =? 0x2029))%N.

Definition is_trim_char (c : N) : bool := is_white_space c || is_line_terminator c.

Definition trimStart (s : jsstring) : jsstring := drop_while is_trim_char s.
Definition trimEnd (s : jsstring) : jsstring := drop_while_end is_trim_char s.

(** [s.trim()] *)
Definition trim (s : jsstring) : jsstring := trimEnd (trimStart s).

(** [s.indexOf(pat)]: the least offset at which [pat] occurs, or -1. *)
Definition indexOf (s pat : jsstring) : Z :=
  match find_sub pat s with
  | Some i => Z.of_nat i
  | None => -1
  end.

(** A relative index of [slice]: negative counts from the end, and the
    result is clamped to [0, len]. *)
Definition rel_index (len k : Z) : Z :=
  if (k <? 0)%Z then Z.max (len + k) 0 else Z.min k len.

(** [s.slice(start, end)]; [end_ = None] is an omitted second argument. *)
Definition slice (s : jsstring) (start : Z) (end_ : option Z) : jsstring :=
  let len := js_length s in
  let from := rel_index len start in
  let to := match end_ with None => len | Some e => rel_index len e end in
  if (to <=? from)%Z then []
  else take (Z.to_nat (to - from)) (drop (Z.to_nat from) s).

(** [s.replace(pat, repl)] for a string pattern: only the first occurrence
    is replaced.  The replacement is inserted as it is; the script only
    passes the empty string, which has no [$] patterns to expand. *)
Definition str_replace (s pat repl : jsstring) : jsstring :=
  match find_sub pat s with
  | None => s
  | Some i => take i s ++ repl ++ drop (i + length pat) s
  end.

(** [trimmed s]: [s] neither starts nor ends with a character [trim] removes. *)
Definition trimmed (s : jsstring) : bool :=
  no_lead is_trim_char s && no_trail is_trim_char s.

(** [blank s]: every code unit of [s] is one [trim] removes. *)
Definition blank (s : jsstring) : Prop := Forall (λ c, is_trim_char c = true) s.

(** [indexOf_spec] is the case analysis of [indexOf]: a move from the
    integer the script tests to the offset the search found. *)
Variant indexOf_spec (s pat : jsstring) : Z → Prop :=
  | IndexOfFound i : find_sub pat s = Some i → indexOf_spec s pat (Z.of_nat i)
  | IndexOfAbsent : find_sub pat s = None → indexOf_spec s pat (-1).

(** ** Facts on [indexOf] *)

Local Open Scope Z_scope.

Section indexOf_facts.
Implicit Types (s p : jsstring) (i j : nat).

Lemma indexOfP s p : indexOf_spec s p (indexOf s p).
Proof. unfold indexOf. destruct (find_sub p s) eqn:E; by constructor. Qed.

Lemma indexOf_range s p :
  indexOf s p = -1 ∨ (0 ≤ indexOf s p ∧ indexOf s p + js_length p ≤ js_length s).
Proof.
  destruct (indexOfP s p) as [i Hi|]; [right|by left].
  apply find_sub_Some_bound in Hi. unfold js_length. lia.
Qed.

Lemma indexOf_find s p i : indexOf s p = Z.of_nat i ↔ find_sub p s = Some i.
Proof.
  unfold indexOf.
  destruct (find_sub p s) as [k|]; split; intros H; simplify_eq;
    first [done | lia | f_equal; lia].
Qed.

Lemma indexOf_absent s p : indexOf s p = -1 ↔ find_sub p s = None.
Proof. unfold indexOf. destruct (find_sub p s); split; intros; simplify_eq; first [done|lia]. Qed.

Lemma indexOf_nonneg_find s p :
  0 ≤ indexOf s p → find_sub p s = Some (Z.to_nat (indexOf s p)).
Proof. intros H. apply indexOf_find. lia. Qed.

(** The occurrence found splits the text into what precedes the pattern,
    the pattern, and what follows it. *)
Lemma indexOf_split s p :
  0 ≤ indexOf s p →
  s = take (Z.to_nat (indexOf s p)) s ++ p
        ++ drop (Z.to_nat (indexOf s p) + length p) s.
Proof. intros H. by apply find_sub_split, indexOf_nonneg_find. Qed.

(** [indexOf] returns the first occurrence. *)
Lemma indexOf_first s p j : Z.of_nat j < indexOf s p → ¬ p `prefix_of` drop j s.
Proof.
  destruct (indexOfP s p) as [i Hi|]; [|lia].
  intros Hj. eapply find_sub_Some_first; [done | lia].
Qed.

Lemma indexOf_none s p j : indexOf s p = -1 → ¬ p `prefix_of` drop j s.
Proof. intros H%indexOf_absent. by apply find_sub_None. Qed.

(** Any occurrence bounds [indexOf] from above. *)
Lemma indexOf_occurrence s p j :
  p `prefix_of` drop j s → 0 ≤ indexOf s p ≤ Z.of_nat j.
Proof.
  intros (i & Hi & Hle)%find_sub_complete.
  apply indexOf_find in Hi. lia.
Qed.

Lemma indexOf_app_0 s p : indexOf (p ++ s) p = 0.
Proof. unfold indexOf. by rewrite find_sub_app_0. Qed.

End indexOf_facts.

(** ** Facts on [slice] and [str_replace] *)

Section slice_facts.
Implicit Types (s p : jsstring) (i k : Z).

Lemma js_length_nonneg s : 0 ≤ js_length s.
Proof. unfold js_length. lia. Qed.

Lemma js_length_app s1 s2 : js_length (s1 ++ s2) = js_length s1 + js_length s2.
Proof. unfold js_length. rewrite length_app. lia. Qed.

Lemma rel_index_range len k : 0 ≤ len → 0 ≤ rel_index len k ≤ len.
Proof. unfold rel_index. case_test; lia. Qed.

Lemma rel_index_in_range len k : 0 ≤ k ≤ len → rel_index len k = k.
Proof. unfold rel_index. case_test; bool_to_prop; lia. Qed.

(** [s.slice(0, i)] keeps the first [i] code units. *)
Lemma slice_take s i : 0 ≤ i → slice s 0 (Some i) = take (Z.to_nat i) s.
Proof.
  intros Hi. pose proof (js_length_nonneg s) as Hl. unfold slice; cbv zeta.
  rewrite (rel_index_in_range _ 0) by lia.
  unfold rel_index. rewrite (proj2 (Z.ltb_ge i 0)) by lia.
  rewrite Z.sub_0_r. change (drop (Z.to_nat 0) s) with s.
  unfold js_length in *. case_test; bool_to_prop.
  - symmetry. destruct s; [by rewrite take_nil|].
    simpl in *. replace i with 0 by lia. done.
  - destruct (decide (i ≤ Z.of_nat (length s))).
    + f_equal. lia.
    + rewrite !take_ge by lia. done.
Qed.

(** [s.slice(i)] drops the first [i] code units. *)
Lemma slice_drop s i : 0 ≤ i → slice s i None = drop (Z.to_nat i) s.
Proof.
  intros Hi. unfold slice, rel_index, js_length; cbv zeta.
  rewrite (proj2 (Z.ltb_ge i 0)) by lia.
  case_test; bool_to_prop.
  - symmetry. apply drop_ge. lia.
  - rewrite take_ge; [f_equal; lia|]. rewrite length_drop. lia.
Qed.

(** The two slices the script takes at the same index partition the text. *)
Lemma slice_take_drop s i : 0 ≤ i → slice s 0 (Some i) ++ slice s i None = s.
Proof. intros. rewrite slice_take, slice_drop by done. apply take_drop. Qed.

Lemma slice_length s i e : js_length (slice s i e) ≤ js_length s.
Proof.
  unfold slice; cbv zeta. case_test; unfold js_length; simpl; [lia|].
  rewrite length_take, length_drop. lia.
Qed.

(** Removing the first occurrence of a pattern that heads the text. *)
Lemma str_replace_head s p : str_replace (p ++ s) p [] = s.
Proof.
  unfold str_replace. rewrite find_sub_app_0. simpl.
  by rewrite drop_app_length.
Qed.

Lemma str_replace_absent s p r : indexOf s p = -1 → str_replace s p r = s.
Proof. intros H%indexOf_absent. unfold str_replace. by rewrite H. Qed.

End slice_facts.

(** ** Facts on [trim] *)

Section trim_facts.
Implicit Types (s a b : jsstring).

Lemma trimmed_trim s : trimmed (trim s) = true.
Proof.
  unfold trimmed, trim, trimEnd, trimStart.
  apply andb_true_iff; split; auto with js.
Qed.

Lemma trim_trimmed s : trimmed s = true → trim s = s.
Proof.
  unfold trimmed, trim, trimEnd, trimStart. intros; bool_to_prop.
  by rewrite drop_while_no_lead, drop_while_end_no_trail.
Qed.

Lemma trim_idemp s : trim (trim s) = trim s.
Proof. apply trim_trimmed, trimmed_trim. Qed.

(** [trim] removes a blank prefix and a blank suffix, and nothing else. *)
Lemma trim_decomp s : ∃ a b, s = a ++ trim s ++ b ∧ blank a ∧ blank b.
Proof.
  destruct (drop_while_end_decomp is_trim_char (trimStart s)) as (b & Hb & Hfb).
  exists (take_while is_trim_char s), b. split_and!; [|apply Forall_take_while|done].
  unfold trim, trimEnd. rewrite <-Hb. unfold trimStart.
  by rewrite take_drop_while.
Qed.

Lemma trim_blank s : blank s → trim s = [].
Proof.
  intros H. unfold trim, trimStart. by rewrite drop_while_Forall.
Qed.

Lemma trim_nil_blank s : trim s = [] → blank s.
Proof.
  intros H. destruct (trim_decomp s) as (a & b & Hs & Ha & Hb).
  rewrite H in Hs. rewrite Hs. simpl. by apply Forall_app.
Qed.

Lemma trim_app_blank a s b : blank a → blank b → trim (a ++ s ++ b) = trim s.
Proof.
  intros Ha Hb. unfold trim, trimStart, trimEnd.
  rewrite drop_while_app_Forall by done.
  destruct (decide (blank s)) as [Hs|Hs].
  - rewrite !drop_while_Forall; [done..|by apply Forall_app].
  - assert (drop_while is_trim_char (s ++ b) = drop_while is_trim_char s ++ b) as ->.
    { clear Ha. induction s as [|c s IH]; simpl.
      - destruct Hs. constructor.
      - destruct (is_trim_char c) eqn:E; [|done].
        apply IH. intros Hs'. apply Hs. by constructor. }
    by apply drop_while_end_app_Forall.
Qed.

Lemma trim_length s : js_length (trim s) ≤ js_length s.
Proof.
  destruct (trim_decomp s) as (a & b & Hs & _). rewrite Hs at 2.
  rewrite !js_length_app. pose proof (js_length_nonneg a).
  pose proof (js_length_nonneg b). lia.
Qed.

End trim_facts.

#[export] Hint Resolve trimmed_trim js_length_nonneg : js.
#[export] Hint Rewrite trim_idemp str_replace_head indexOf_app_0 : js.

(** ** Facts on the width of code units *)

Lemma ascii_wf_string (s : jsstring) : ascii s → wf_string s.
Proof. intros H. eapply list.Forall_impl; [done|]. simpl. lia. Qed.

Lemma wf_string_app (s t : jsstring) : wf_string s → wf_string t → wf_string (s ++ t).
Proof. intros. by apply Forall_app. Qed.
