(* ===== verification/JsNumber.v ===== *)
(** * JsNumber: ECMAScript Number values

    A JavaScript number is an IEEE 754 binary64 value.  This file models
    it with the Standard Library's [spec_float] at precision 53 and
    maximal exponent 1024, and defines the operations on numbers that
    [renderResult] of [src/web/script.js] performs: the comparison behind
    [margin <= 0.06], [Math.min] and [Math.max] behind the clamp of the
    confidence, the conversion of a string to a number behind
    [Number(...)] (StringToNumber), and the conversion of a number to a
    string behind [conf + "%"] (Number::toString, radix 10).

    Decimal conversions are exact: [of_decimal] rounds the rational
    [m * 10^e] to the nearest binary64 value, ties to even, and the
    printer searches for the shortest digit string that reads back as the
    number, as the language specification requires. *)

From S2P Require Import Prelude JsString.
From stdpp Require Import strings.
From Stdlib Require Import SpecFloat.
From Stdlib Require DecimalPos.

Local Open Scope Z_scope.

Notation number := spec_float (only parsing).

#[export] Instance spec_float_eq_dec : EqDecision spec_float.
Proof. solve_decision. Defined.

(** ** Format and constants *)

Definition prec : Z := 53.
Definition emax : Z := 1024.

(** [num_valid x]: [x] is a binary64 value in canonical form. *)
Definition num_valid (x : number) : bool := valid_binary prec emax x.

Definition nan : number := S754_nan.
Definition pinf : number := S754_infinity false.
Definition ninf : number := S754_infinity true.
Definition pzero : number := S754_zero false.
Definition nzero : number := S754_zero true.

(** The number value of an integer. *)
Definition of_Z (z : Z) : number := binary_normalize prec emax z 0 false.

Definition is_nan (x : number) : bool :=
  match x with S754_nan => true | _ => false end.
Definition is_finite (x : number) : bool :=
  match x with S754_nan | S754_infinity _ => false | _ => true end.
Definition is_zero (x : number) : bool :=
  match x with S754_zero _ => true | _ => false end.
Definition is_pos_zero (x : number) : bool :=
  match x with S754_zero false => true | _ => false end.
Definition is_neg_zero (x : number) : bool :=
  match x with S754_zero true => true | _ => false end.

(** ** Comparison *)

(** [x < y] and [x <= y] on numbers: false as soon as an operand is NaN. *)
Definition num_ltb (x y : number) : bool := SFltb x y.
Definition num_leb (x y : number) : bool := SFleb x y.

(** The order of the non-NaN numbers as a lexicographic order on integer
    triples: class (infinities, negative, zero, positive), then exponent,
    then mantissa, the last two negated for negative numbers. *)
Definition sf_key (x : number) : Z * Z * Z :=
  match x with
  | S754_nan => (0, 0, 0)
  | S754_zero _ => (0, 0, 0)
  | S754_infinity true => (-2, 0, 0)
  | S754_infinity false => (2, 0, 0)
  | S754_finite false m e => (1, e, Zpos m)
  | S754_finite true m e => (-1, - e, Zneg m)
  end.

Definition key_lt (a b : Z * Z * Z) : Prop :=
  a.1.1 < b.1.1 ∨ (a.1.1 = b.1.1 ∧ (a.1.2 < b.1.2 ∨ (a.1.2 = b.1.2 ∧ a.2 < b.2))).

Definition key_compare (a b : Z * Z * Z) : comparison :=
  match a.1.1 ?= b.1.1 with
  | Eq => match a.1.2 ?= b.1.2 with Eq => a.2 ?= b.2 | c => c end
  | c => c
  end.

(** ** [Math.min] and [Math.max] *)

Definition min_step (lowest x : number) : number :=
  if is_neg_zero x && is_pos_zero lowest then x
  else if num_ltb x lowest then x else lowest.

Definition max_step (highest x : number) : number :=
  if is_pos_zero x && is_neg_zero highest then x
  else if num_ltb highest x then x else highest.

(** [Math.min(...args)]: NaN if an argument is NaN, else the least
    argument, with -0 below +0; +Infinity for no argument. *)
Definition math_min (args : list number) : number :=
  if existsb is_nan args then nan else fold_left min_step args pinf.

Definition math_max (args : list number) : number :=
  if existsb is_nan args then nan else fold_left max_step args ninf.

(** ** Decimal to binary64 *)

(** The code units of the decimal digits of a natural number. *)
Fixpoint uint_units (d : Decimal.uint) : jsstring :=
  match d with
  | Decimal.Nil => []
  | Decimal.D0 d => 48%N :: uint_units d
  | Decimal.D1 d => 49%N :: uint_units d
  | Decimal.D2 d => 50%N :: uint_units d
  | Decimal.D3 d => 51%N :: uint_units d
  | Decimal.D4 d => 52%N :: uint_units d
  | Decimal.D5 d => 53%N :: uint_units d
  | Decimal.D6 d => 54%N :: uint_units d
  | Decimal.D7 d => 55%N :: uint_units d
  | Decimal.D8 d => 56%N :: uint_units d
  | Decimal.D9 d => 57%N :: uint_units d
  end.

Definition dec_digits (z : Z) : jsstring :=
  match z with
  | Zpos p => uint_units (Pos.to_uint p)
  | _ => [48%N]
  end.

Definition num_digits (z : Z) : Z := Z.of_nat (length (dec_digits z)).

(** [of_decimal sign m e10] is the binary64 value nearest to
    [(-1)^sign * m * 10^e10], ties to even.  A magnitude beyond the range
    of the format is settled without computing the power of ten. *)
Definition of_decimal (sign : bool) (m e10 : Z) : number :=
  match m with
  | Zpos p =>
    if 310 <? num_digits m + e10 then S754_infinity sign
    else if num_digits m + e10 <? -325 then S754_zero sign
    else if 0 <=? e10
    then binary_normalize prec emax (if sign then - (m * 10 ^ e10) else m * 10 ^ e10) 0 false
    else SFdiv prec emax (S754_finite sign p 0)
                         (S754_finite false (Z.to_pos (10 ^ (- e10))) 0)
  | _ => S754_zero sign
  end.

(** ** Number to string (Number::toString, radix 10) *)

(** [dec_exponent a b], for the positive rational [a / b], is the [n] with
    [10^(n-1) <= a / b < 10^n]. *)
Definition dec_exponent (a b : Z) : Z :=
  if b <=? a then num_digits (a / b)
  else let j := num_digits b - num_digits a in
       if b <=? a * 10 ^ j then 1 - j else - j.

(** The positive finite value [m * 2^e] as a fraction. *)
Definition ratio_of (m : positive) (e : Z) : Z * Z :=
  if 0 <=? e then (Zpos m * 2 ^ e, 1) else (Zpos m, 2 ^ (- e)).

(** [a / b] divided by [10^q], as a fraction. *)
Definition scaled (a b q : Z) : Z * Z :=
  if 0 <=? q then (a, b * 10 ^ q) else (a * 10 ^ (- q), b).

(** [digits_at x a b n k]: a [k]-digit decimal significand [s] such that
    [s * 10^(n-k)] reads back as [x], if there is one; of two, the nearer
    to [x], and the even one on a tie. *)
Definition digits_at (x : number) (a b n k : Z) : option (Z * Z) :=
  let q := n - k in
  let '(A, B) := scaled a b q in
  let lo := A / B in
  let hi := lo + 1 in
  let ok_lo := bool_decide (of_decimal false lo q = x) in
  let ok_hi := bool_decide (of_decimal false hi q = x) in
  let pick_hi :=
    match 2 * (A mod B) ?= B with Lt => false | Gt => true | Eq => Z.odd lo end in
  let s := if ok_lo && ok_hi then Some (if pick_hi then hi else lo)
           else if ok_lo then Some lo
           else if ok_hi then Some hi else None in
  (λ s, if s =? 10 ^ k then (10 ^ (k - 1), n + 1) else (s, n)) <$> s.

(** The search for the least number of digits, from [k] up. *)
Fixpoint shortest_from (fuel : nat) (x : number) (a b n k : Z) : Z * Z :=
  match fuel with
  | O => let '(A, B) := scaled a b (n - k) in (A / B, n)
  | S fuel' =>
    match digits_at x a b n k with
    | Some r => r
    | None => shortest_from fuel' x a b n (k + 1)
    end
  end.

(** Significand and decimal exponent of a positive finite number.
    Seventeen digits always suffice for binary64; the fuel covers them. *)
Definition shortest_digits (m : positive) (e : Z) : Z * Z :=
  let '(a, b) := ratio_of m e in
  shortest_from 17 (S754_finite false m e) a b (dec_exponent a b) 1.

(** Steps 6 to 10 of Number::toString: the digits laid out in plain or
    exponential notation. *)
Definition format_digits (ds : jsstring) (n : Z) : jsstring :=
  let k := js_length ds in
  if (k <=? n) && (n <=? 21) then ds ++ replicate (Z.to_nat (n - k)) 48%N
  else if (0 <? n) && (n <=? 21)
  then take (Z.to_nat n) ds ++ [46%N] ++ drop (Z.to_nat n) ds
  else if (-6 <? n) && (n <=? 0)
  then [48%N; 46%N] ++ replicate (Z.to_nat (- n)) 48%N ++ ds
  else
    let es := (if 0 <=? n - 1 then [43%N] else [45%N]) ++ dec_digits (Z.abs (n - 1)) in
    match ds with
    | [] => []
    | [d] => [d; 101%N] ++ es
    | d :: rest => [d; 46%N] ++ rest ++ [101%N] ++ es
    end.

Definition number_to_string (x : number) : jsstring :=
  match x with
  | S754_nan => js "NaN"
  | S754_zero _ => js "0"
  | S754_infinity s => (if s then [45%N] else []) ++ js "Infinity"
  | S754_finite s m e =>
    let '(sd, n) := shortest_digits m e in
    (if s then [45%N] else []) ++ format_digits (dec_digits sd) n
  end.

(** ** String to number (StringToNumber) *)

Definition digit_in (radix : Z) (c : N) : option Z :=
  let v := if (48 <=? c)%N && (c <=? 57)%N then Z.of_N c - 48
           else if (97 <=? c)%N && (c <=? 102)%N then Z.of_N c - 87
           else if (65 <=? c)%N && (c <=? 70)%N then Z.of_N c - 55
           else radix in
  if v <? radix then Some v else None.

(** The longest prefix of digits: its value on top of [acc], the number of
    digits added to [n], and what follows. *)
Fixpoint span_digits (radix : Z) (s : jsstring) (acc n : Z) : Z * Z * jsstring :=
  match s with
  | [] => (acc, n, [])
  | c :: s' =>
    match digit_in radix c with
    | Some d => span_digits radix s' (acc * radix + d) (n + 1)
    | None => (acc, n, s)
    end
  end.

Definition is_nil (s : jsstring) : bool :=
  match s with [] => true | _ => false end.

(** ExponentPart, or nothing: the decimal exponent. *)
Definition parse_exponent (s : jsstring) : option Z :=
  match s with
  | [] => Some 0
  | c :: r =>
    if (c =? 101)%N || (c =? 69)%N then
      let '(neg, r') :=
        match r with
        | c' :: r' => if (c' =? 43)%N then (false, r')
                      else if (c' =? 45)%N then (true, r') else (false, r)
        | [] => (false, r)
        end in
      let '(v, n, rest) := span_digits 10 r' 0 0 in
      if (0 <? n) && is_nil rest then Some (if neg then - v else v) else None
    else None
  end.

(** StrUnsignedDecimalLiteral with the sign already read. *)
Definition parse_unsigned_decimal (sign : bool) (s : jsstring) : number :=
  if bool_decide (s = js "Infinity") then S754_infinity sign
  else
    let '(ip, ni, r1) := span_digits 10 s 0 0 in
    let '(m, nf, r2) :=
      match r1 with
      | c :: r => if (c =? 46)%N then span_digits 10 r ip 0 else (ip, 0, r1)
      | [] => (ip, 0, r1)
      end in
    if ni + nf =? 0 then nan
    else match parse_exponent r2 with
         | Some e => of_decimal sign m (e - nf)
         | None => nan
         end.

(** NonDecimalIntegerLiteral: 0x, 0o, 0b and their capitals; [None] when
    the text has no such prefix. *)
Definition parse_radix (s : jsstring) : option number :=
  match s with
  | z :: c :: r =>
    let radix :=
      if (c =? 120)%N || (c =? 88)%N then Some 16
      else if (c =? 111)%N || (c =? 79)%N then Some 8
      else if (c =? 98)%N || (c =? 66)%N then Some 2 else None in
    match radix with
    | Some rad =>
      if (z =? 48)%N then
        let '(v, n, rest) := span_digits rad r 0 0 in
        Some (if (0 <? n) && is_nil rest then of_Z v else nan)
      else None
    | None => None
    end
  | _ => None
  end.

(** [Number(s)] for a string [s]. *)
Definition string_to_number (s : jsstring) : number :=
  let t := trim s in
  match t with
  | [] => pzero
  | c :: r =>
    match parse_radix t with
    | Some x => x
    | None =>
      if (c =? 43)%N then parse_unsigned_decimal false r
      else if (c =? 45)%N then parse_unsigned_decimal true r
      else parse_unsigned_decimal false t
    end
  end.

(** The decimal text of [k / 10], for a natural [k]: the integer part
    and, unless it is zero, one digit after the point. *)
Definition tenths_text (k : Z) : jsstring :=
  dec_digits (k / 10) ++ (if k mod 10 =? 0 then [] else 46%N :: dec_digits (k mod 10)).

(** ** Facts on the order *)

Section order_facts.
Implicit Types (x y z : number) (a b c : Z * Z * Z).

Lemma key_compare_spec a b :
  CompareSpec (a = b) (key_lt a b) (key_lt b a) (key_compare a b).
Proof.
  destruct a as [[a1 a2] a3], b as [[b1 b2] b3]. unfold key_compare, key_lt. simpl.
  destruct (Z.compare_spec a1 b1); [|constructor; lia..].
  destruct (Z.compare_spec a2 b2); [|constructor; lia..].
  destruct (Z.compare_spec a3 b3); constructor; first [congruence | lia].
Qed.

Lemma key_lt_irrefl a : ¬ key_lt a a.
Proof. unfold key_lt. lia. Qed.

Lemma key_lt_trans a b c : key_lt a b → key_lt b c → key_lt a c.
Proof. unfold key_lt. lia. Qed.

Lemma key_lt_asym a b : key_lt a b → ¬ key_lt b a.
Proof. unfold key_lt. lia. Qed.

(** On numbers other than NaN, IEEE comparison is the comparison of keys. *)
Lemma SFcompare_key x y :
  is_nan x = false → is_nan y = false →
  SFcompare x y = Some (key_compare (sf_key x) (sf_key y)).
Proof.
  destruct x as [[]|[]| |[] m1 e1], y as [[]|[]| |[] m2 e2]; try done; intros _ _;
    unfold key_compare; simpl; f_equal.
  rewrite Z.compare_opp, (Z.compare_antisym e1 e2).
  by destruct (e1 ?= e2).
Qed.

Lemma SFcompare_nan_l y : SFcompare nan y = None.
Proof. done. Qed.

Lemma SFcompare_nan_r x : SFcompare x nan = None.
Proof. by destruct x as [[]|[]| |[]]. Qed.

Lemma num_ltb_key x y :
  num_ltb x y = true ↔
  is_nan x = false ∧ is_nan y = false ∧ key_lt (sf_key x) (sf_key y).
Proof.
  unfold num_ltb, SFltb. destruct (is_nan x) eqn:Hx.
  { destruct x; try done. split; [done | by intros [? _]]. }
  destruct (is_nan y) eqn:Hy.
  { destruct y; try done. rewrite SFcompare_nan_r. split; [done | by intros (_ & ? & _)]. }
  rewrite SFcompare_key by done.
  destruct (key_compare_spec (sf_key x) (sf_key y)) as [E|L|G]; split; try done.
  - intros (_ & _ & H). rewrite E in H. by apply key_lt_irrefl in H.
  - intros (_ & _ & H). by apply key_lt_asym in H.
Qed.

Lemma num_leb_key x y :
  num_leb x y = true ↔
  is_nan x = false ∧ is_nan y = false ∧ ¬ key_lt (sf_key y) (sf_key x).
Proof.
  unfold num_leb, SFleb. destruct (is_nan x) eqn:Hx.
  { destruct x; try done. split; [done | by intros [? _]]. }
  destruct (is_nan y) eqn:Hy.
  { destruct y; try done. rewrite SFcompare_nan_r. split; [done | by intros (_ & ? & _)]. }
  rewrite SFcompare_key by done.
  destruct (key_compare_spec (sf_key x) (sf_key y)) as [E|L|G]; split; try done.
  - intros _. split_and!; [done..|]. rewrite E. apply key_lt_irrefl.
  - intros _. split_and!; [done..|]. by apply key_lt_asym.
  - by intros (_ & _ & H).
Qed.

Lemma num_leb_refl x : is_nan x = false → num_leb x x = true.
Proof. intros. apply num_leb_key. split_and!; [done..|apply key_lt_irrefl]. Qed.

Lemma num_leb_trans x y z : num_leb x y = true → num_leb y z = true → num_leb x z = true.
Proof.
  rewrite !num_leb_key. intros (? & ? & H1) (? & ? & H2). split_and!; [done..|].
  unfold key_lt in *. lia.
Qed.

Lemma num_ltb_leb x y : num_ltb x y = true → num_leb x y = true.
Proof.
  rewrite num_ltb_key, num_leb_key. intros (? & ? & H). split_and!; [done..|].
  by apply key_lt_asym.
Qed.

(** Two numbers other than NaN are comparable. *)
Lemma num_leb_total x y :
  is_nan x = false → is_nan y = false → num_ltb y x = false → num_leb x y = true.
Proof.
  intros Hx Hy H. apply num_leb_key. split_and!; [done..|]. intros L.
  assert (num_ltb y x = true) by by apply num_ltb_key. congruence.
Qed.

Lemma num_leb_false x y :
  is_nan x = false → is_nan y = false → num_leb x y = false → num_ltb y x = true.
Proof.
  intros Hx Hy H. destruct (num_ltb y x) eqn:E; [done|].
  by rewrite (num_leb_total x y) in H.
Qed.

Lemma num_ltb_nan_l y : num_ltb nan y = false.
Proof. done. Qed.

Lemma num_leb_nan_r x : num_leb x nan = false.
Proof. unfold num_leb, SFleb. by rewrite SFcompare_nan_r. Qed.

End order_facts.

(** ** Facts on [Math.min] and [Math.max] *)

Section minmax_facts.
Implicit Types (x y a b : number).

Lemma math_min_nan args : existsb is_nan args = true → math_min args = nan.
Proof. unfold math_min. by intros ->. Qed.

Lemma math_max_nan args : existsb is_nan args = true → math_max args = nan.
Proof. unfold math_max. by intros ->. Qed.

Lemma min_step_pinf a : is_nan a = false → min_step pinf a = a.
Proof. by destruct a as [[]|[]| |[]]. Qed.

Lemma max_step_ninf a : is_nan a = false → max_step ninf a = a.
Proof. by destruct a as [[]|[]| |[]]. Qed.

(** [Math.min(a, b)] on numbers other than NaN. *)
Lemma math_min_2 a b :
  is_nan a = false → is_nan b = false → math_min [a; b] = min_step a b.
Proof.
  intros Ha Hb. unfold math_min. simpl. rewrite Ha, Hb. simpl.
  by rewrite min_step_pinf.
Qed.

Lemma math_max_2 a b :
  is_nan a = false → is_nan b = false → math_max [a; b] = max_step a b.
Proof.
  intros Ha Hb. unfold math_max. simpl. rewrite Ha, Hb. simpl.
  by rewrite max_step_ninf.
Qed.

Lemma min_step_cases a b : min_step a b = a ∨ min_step a b = b.
Proof. unfold min_step. repeat case_test; auto. Qed.

Lemma max_step_cases a b : max_step a b = a ∨ max_step a b = b.
Proof. unfold max_step. repeat case_test; auto. Qed.

Lemma min_step_not_nan a b :
  is_nan a = false → is_nan b = false → is_nan (min_step a b) = false.
Proof. intros. by destruct (min_step_cases a b) as [-> | ->]. Qed.

Lemma max_step_not_nan a b :
  is_nan a = false → is_nan b = false → is_nan (max_step a b) = false.
Proof. intros. by destruct (max_step_cases a b) as [-> | ->]. Qed.

(** The result of a step is below both operands. *)
Lemma min_step_le_l a b :
  is_nan a = false → is_nan b = false → num_leb (min_step a b) a = true.
Proof.
  intros Ha Hb. unfold min_step. case_test.
  - bool_to_prop. destruct a as [[]| | |], b as [[]| | |]; done.
  - case_test; [by apply num_ltb_leb | by apply num_leb_refl].
Qed.

Lemma min_step_le_r a b :
  is_nan a = false → is_nan b = false → num_leb (min_step a b) b = true.
Proof.
  intros Ha Hb. unfold min_step. case_test; [by apply num_leb_refl|].
  case_test; [by apply num_leb_refl | by apply num_leb_total].
Qed.

Lemma max_step_ge_l a b :
  is_nan a = false → is_nan b = false → num_leb a (max_step a b) = true.
Proof.
  intros Ha Hb. unfold max_step. case_test.
  - bool_to_prop. destruct a as [[]| | |], b as [[]| | |]; done.
  - case_test; [by apply num_ltb_leb | by apply num_leb_refl].
Qed.

Lemma max_step_ge_r a b :
  is_nan a = false → is_nan b = false → num_leb b (max_step a b) = true.
Proof.
  intros Ha Hb. unfold max_step. case_test; [by apply num_leb_refl|].
  case_test; [by apply num_leb_refl | by apply num_leb_total].
Qed.

End minmax_facts.

#[export] Hint Resolve num_leb_refl num_ltb_leb min_step_not_nan max_step_not_nan
  min_step_le_l min_step_le_r max_step_ge_l max_step_ge_r : js.

(** ** Facts on rounding

    The significand stays non-negative through the shifts and the
    rounding, so that the result of a conversion is a zero, a finite
    number or an infinity. *)

Section rounding_facts.
Implicit Types (x : number) (m e : Z) (mrs : shr_record).

Lemma shr_1_nonneg mrs : 0 ≤ shr_m mrs → 0 ≤ shr_m (shr_1 mrs).
Proof. destruct mrs as [[|[]|[]] r s]; simpl; lia. Qed.

Lemma iter_pos_shr_1_nonneg p mrs : 0 ≤ shr_m mrs → 0 ≤ shr_m (iter_pos shr_1 p mrs).
Proof.
  revert mrs. induction p as [p IH|p IH|]; intros mrs H; simpl;
    auto using shr_1_nonneg.
Qed.

Lemma shr_fexp_nonneg m e l : 0 ≤ m → 0 ≤ shr_m (shr_fexp prec emax m e l).1.
Proof.
  intros H. unfold shr_fexp, shr.
  assert (0 ≤ shr_m (shr_record_of_loc m l)) by by destruct l as [|[]].
  destruct (_ - e); simpl; auto using iter_pos_shr_1_nonneg.
Qed.

Lemma round_nearest_even_nonneg m l : 0 ≤ m → 0 ≤ round_nearest_even m l.
Proof. intros H. destruct l as [|[]]; simpl; try destruct (Z.even m); lia. Qed.

Lemma binary_round_aux_not_nan sx m e l :
  0 ≤ m → is_nan (binary_round_aux prec emax sx m e l) = false.
Proof.
  intros H. unfold binary_round_aux.
  pose proof (shr_fexp_nonneg m e l H) as H1.
  destruct (shr_fexp prec emax m e l) as [mrs' e'].
  pose proof (shr_fexp_nonneg _ e' loc_Exact
                (round_nearest_even_nonneg _ (loc_of_shr_record mrs') H1)) as H2.
  destruct (shr_fexp prec emax _ e' loc_Exact) as [mrs'' e'']. simpl in H2.
  destruct (shr_m mrs''); [done| |lia]. by destruct (_ <=? _).
Qed.

Lemma binary_normalize_not_nan m e sz : is_nan (binary_normalize prec emax m e sz) = false.
Proof.
  destruct m as [|p|p]; [done|..]; simpl; unfold binary_round;
    destruct (shl_align _ _ _) as [mz ez]; by apply binary_round_aux_not_nan.
Qed.

Lemma SFdiv_finite_not_nan sx mx ex sy my ey :
  is_nan (SFdiv prec emax (S754_finite sx mx ex) (S754_finite sy my ey)) = false.
Proof.
  unfold SFdiv, SFdiv_core_binary.
  set (m' := match _ - _ with Zpos _ => _ | Z0 => _ | Zneg _ => _ end).
  assert (0 ≤ m') as Hm.
  { subst m'. destruct (_ - _); [lia| |done]. by apply Z.shiftl_nonneg. }
  pose proof (Z.div_pos m' (Zpos my) Hm ltac:(lia)) as Hq. unfold Z.div in Hq.
  destruct (Z.div_eucl m' (Zpos my)) as [q r]. by apply binary_round_aux_not_nan.
Qed.

(** A decimal never reads as NaN. *)
Lemma of_decimal_not_nan sign m e10 : is_nan (of_decimal sign m e10) = false.
Proof.
  unfold of_decimal. destruct m as [|p|p]; [done| |done].
  repeat case_match; try done; auto using binary_normalize_not_nan, SFdiv_finite_not_nan.
Qed.
End rounding_facts.

(** ** Printing and reading back

    On the numbers from 0 to 100 with at most one digit after the
    point, the range of a confidence, the search of [shortest_digits]
    ends within its fuel: the text is the decimal as one writes it, and
    it reads back as the number. *)

Section tenths.

Theorem number_to_string_tenths k :
  0 ≤ k ≤ 1000 →
  number_to_string (of_decimal false k (-1)) = tenths_text k
  ∧ string_to_number (tenths_text k) = of_decimal false k (-1).
Proof.
  intros Hk.
  assert (Forall (λ k, number_to_string (of_decimal false k (-1)) = tenths_text k
                       ∧ string_to_number (tenths_text k) = of_decimal false k (-1))
            (seqZ 0 1001)) as H by compute_done.
  rewrite list.Forall_forall in H. apply H, elem_of_seqZ. lia.
Qed.

Example number_to_string_table :
  number_to_string <$> [of_Z 0; of_Z 100; of_decimal false 876 (-1); of_decimal false 6 (-2);
                        of_decimal false 1 21; of_decimal false 1 (-7); nan; pinf; ninf; nzero]
  = js <$> ["0"; "100"; "87.6"; "0.06"; "1e+21"; "1e-7"; "NaN"; "Infinity"; "-Infinity"; "0"]%string.
Proof. by_compute. Qed.

Lemma number_to_string_tenths_witness :
  number_to_string (of_decimal false 876 (-1)) = tenths_text 876
  ∧ string_to_number (tenths_text 876) = of_decimal false 876 (-1).
Proof. apply number_to_string_tenths. lia. Defined.

End tenths.

(** ** The characters of a printed number *)

Section printing_facts.
Implicit Types (ds : jsstring) (x : number).

Lemma uint_units_ascii d : ascii (uint_units d).
Proof. induction d; simpl; by repeat constructor. Qed.

Lemma dec_digits_ascii z : ascii (dec_digits z).
Proof. destruct z; simpl; [by repeat constructor|apply uint_units_ascii|by repeat constructor]. Qed.

Lemma format_digits_ascii ds n : ascii ds → ascii (format_digits ds n).
Proof.
  unfold ascii. intros Hds. unfold format_digits.
  assert (ascii (take (Z.to_nat n) ds) ∧ ascii (drop (Z.to_nat n) ds)) as [Ht Hd]
    by (split; [by apply Forall_take|by apply Forall_drop]).
  assert (∀ k, ascii (replicate k 48%N)) as Hz by (intros k; by apply Forall_replicate).
  pose proof (dec_digits_ascii (Z.abs (n - 1))) as He. unfold ascii in *.
  repeat case_test; rewrite ?Forall_app, ?Forall_cons_iff in *; split_and?; try done;
    try apply Hz; by destruct_and?.
Qed.

(** Number::toString prints ASCII characters only. *)
Lemma number_to_string_ascii x : ascii (number_to_string x).
Proof.
  destruct x as [s|s| |s m e]; simpl.
  - by repeat constructor.
  - destruct s; by repeat constructor.
  - by repeat constructor.
  - destruct (shortest_digits m e) as [sd n]. apply Forall_app. split.
    + destruct s; by repeat constructor.
    + apply format_digits_ascii, dec_digits_ascii.
Qed.

End printing_facts.
