(* ===== verification/JsValue.v ===== *)
(** * JsValue: the values of a parsed JSON payload and their coercions

    The payload [renderResult] receives is whatever [res.json()] produced:
    the script never checks its shape.  This file models JavaScript values
    as far as JSON can build them (plus [undefined], which property access
    yields), and the language operations the script applies to them:
    truthiness ([!x], [a || b], [a && b]), property access with and
    without optional chaining, ToString (template literals, string
    concatenation, DOM string attributes), ToNumber ([Number(x)] and the
    operands of [<=]), and the method calls of [splitBody] on a receiver of
    any type.  Objects are association lists of own properties in
    insertion order; none of the property names the script reads is
    defined on a built-in prototype, so reading one from a primitive or
    from an object that lacks it yields [undefined]. *)

From S2P Require Import Prelude Effects JsString JsNumber.
From stdpp Require Import strings.

Local Open Scope Z_scope.

Unset Elimination Schemes.
Inductive value :=
  | VUndef
  | VNull
  | VBool (b : bool)
  | VNum (x : number)
  | VStr (s : jsstring)
  | VArr (elems : list value)
  | VObj (props : list (jsstring * value)).
Set Elimination Schemes.

(** Induction on values, with the hypothesis on every element of an array
    and every property value of an object. *)
Definition value_ind (P : value → Prop)
    (Hundef : P VUndef) (Hnull : P VNull) (Hbool : ∀ b, P (VBool b))
    (Hnum : ∀ x, P (VNum x)) (Hstr : ∀ s, P (VStr s))
    (Harr : ∀ l, Forall P l → P (VArr l))
    (Hobj : ∀ props, Forall (λ kv, P kv.2) props → P (VObj props)) :
    ∀ v, P v :=
  fix go (v : value) : P v :=
    match v with
    | VUndef => Hundef
    | VNull => Hnull
    | VBool b => Hbool b
    | VNum x => Hnum x
    | VStr s => Hstr s
    | VArr l =>
      Harr l ((fix go_list (l : list value) : Forall P l :=
                 match l with
                 | [] => Forall_nil_2 P
                 | x :: l' => Forall_cons_2 P x l' (go x) (go_list l')
                 end) l)
    | VObj props =>
      Hobj props
        ((fix go_props (ps : list (jsstring * value)) : Forall (λ kv, P kv.2) ps :=
            match ps with
            | [] => Forall_nil_2 _
            | kv :: ps' => Forall_cons_2 _ kv ps' (go kv.2) (go_props ps')
            end) props)
    end.

(** ** String constants of the coercions *)

Definition str_undefined : jsstring := Eval vm_compute in js "undefined".
Definition str_null : jsstring := Eval vm_compute in js "null".
Definition str_true : jsstring := Eval vm_compute in js "true".
Definition str_false : jsstring := Eval vm_compute in js "false".
Definition str_object : jsstring := Eval vm_compute in js "[object Object]".
Definition str_toString : jsstring := Eval vm_compute in js "toString".

(** ** Truthiness *)

(** ToBoolean. *)
Definition to_boolean (v : value) : bool :=
  match v with
  | VUndef | VNull => false
  | VBool b => b
  | VNum x => negb (is_zero x || is_nan x)
  | VStr s => negb (is_nil s)
  | VArr _ | VObj _ => true
  end.

(** [a || b] and [a && b] on values already evaluated.  (Where the right
    operand can throw, the caller sequences it itself.) *)
Definition js_or (a b : value) : value := if to_boolean a then a else b.
Definition js_and (a b : value) : value := if to_boolean a then b else a.

Definition is_nullish (v : value) : bool :=
  match v with VUndef | VNull => true | _ => false end.

(** [v !== null] *)
Definition strict_ne_null (v : value) : bool :=
  match v with VNull => false | _ => true end.

(** ** Property access *)

(** The own property [key] of an object, first binding first. *)
Fixpoint own_prop (props : list (jsstring * value)) (key : jsstring) : option value :=
  match props with
  | [] => None
  | (k, v) :: props' => if bool_decide (k = key) then Some v else own_prop props' key
  end.

Definition has_own (props : list (jsstring * value)) (key : jsstring) : bool :=
  bool_decide (is_Some (own_prop props key)).

(** [v.key] or [v[key]]: a TypeError on [null] and [undefined]. *)
Definition get_prop (v : value) (key : jsstring) : outcome value :=
  match v with
  | VUndef | VNull => Throw TypeError
  | VObj props => Ok (default VUndef (own_prop props key))
  | _ => Ok VUndef
  end.

(** [v?.key]: [undefined] on [null] and [undefined]. *)
Definition opt_get (v : value) (key : jsstring) : value :=
  match v with
  | VObj props => default VUndef (own_prop props key)
  | _ => VUndef
  end.

(** ** ToString and ToNumber *)

(** [parts.join(sep)] on strings. *)
Fixpoint join_with (sep : jsstring) (parts : list jsstring) : jsstring :=
  match parts with
  | [] => []
  | [p] => p
  | p :: rest => p ++ sep ++ join_with sep rest
  end.

(** ToString.  An array is joined with commas, [null] and [undefined]
    elements printing as nothing; an object prints as [[object Object]]
    unless it has an own property [toString], which no JSON value makes
    callable, so that the object has no primitive value. *)
Fixpoint to_string (v : value) : outcome jsstring :=
  match v with
  | VUndef => Ok str_undefined
  | VNull => Ok str_null
  | VBool b => Ok (if b then str_true else str_false)
  | VNum x => Ok (number_to_string x)
  | VStr s => Ok s
  | VArr l =>
    parts ← (fix elems (l : list value) : outcome (list jsstring) :=
               match l with
               | [] => Ok []
               | x :: l' =>
                 s ← (if is_nullish x then Ok [] else to_string x);
                 r ← elems l';
                 Ok (s :: r)
               end) l;
    Ok (join_with [44%N] parts)
  | VObj props => if has_own props str_toString then Throw TypeError else Ok str_object
  end.

(** The string of an array element inside [join]. *)
Definition elem_to_string (x : value) : outcome jsstring :=
  if is_nullish x then Ok [] else to_string x.

(** ToNumber.  Arrays and objects go through their string. *)
Definition to_number (v : value) : outcome number :=
  match v with
  | VUndef => Ok nan
  | VNull => Ok pzero
  | VBool b => Ok (if b then of_Z 1 else pzero)
  | VNum x => Ok x
  | VStr s => Ok (string_to_number s)
  | VArr _ | VObj _ => s ← to_string v; Ok (string_to_number s)
  end.

(** [v <= x] for a number [x]: false when [v] converts to NaN. *)
Definition le_number (v : value) (x : number) : outcome bool :=
  n ← to_number v; Ok (num_leb n x).

(** ** Method calls on a receiver of any type

    [splitBody] calls [indexOf], [slice], [replace] and [trim] on its
    argument and on intermediate results.  Strings have all four; arrays
    have [indexOf] and [slice]; calling a method a value lacks is a
    TypeError. *)

(** [arr.indexOf(s)] for a string [s]: strict equality picks the elements
    that are that string. *)
Fixpoint array_indexOf_from (l : list value) (s : jsstring) (i : Z) : Z :=
  match l with
  | [] => -1
  | x :: l' =>
    match x with
    | VStr t => if bool_decide (t = s) then i else array_indexOf_from l' s (i + 1)
    | _ => array_indexOf_from l' s (i + 1)
    end
  end.

Definition call_indexOf (recv : value) (s : jsstring) : outcome Z :=
  match recv with
  | VStr t => Ok (indexOf t s)
  | VArr l => Ok (array_indexOf_from l s 0)
  | _ => Throw TypeError
  end.

(** [arr.slice(start, end)] follows the same index arithmetic as the
    string method. *)
Definition array_slice (l : list value) (start : Z) (end_ : option Z) : list value :=
  let len := Z.of_nat (length l) in
  let from := rel_index len start in
  let to := match end_ with None => len | Some e => rel_index len e end in
  if to <=? from then [] else take (Z.to_nat (to - from)) (drop (Z.to_nat from) l).

Definition call_slice (recv : value) (start : Z) (end_ : option Z) : outcome value :=
  match recv with
  | VStr t => Ok (VStr (slice t start end_))
  | VArr l => Ok (VArr (array_slice l start end_))
  | _ => Throw TypeError
  end.

Definition call_trim (recv : value) : outcome value :=
  match recv with
  | VStr t => Ok (VStr (trim t))
  | _ => Throw TypeError
  end.

Definition call_replace (recv : value) (pat repl : jsstring) : outcome value :=
  match recv with
  | VStr t => Ok (VStr (str_replace t pat repl))
  | _ => Throw TypeError
  end.

(** [recv.length] of a string or an array, as the script reads it after
    [indexOf] succeeded on the same receiver. *)
Definition get_length (recv : value) : outcome Z :=
  match recv with
  | VStr t => Ok (js_length t)
  | VArr l => Ok (Z.of_nat (length l))
  | _ => Throw TypeError
  end.

(** ** Values that JSON can denote *)

(** [json_value v]: [v] is a value [JSON.parse] can return: no
    [undefined] and no NaN.  (A decimal beyond the range of binary64
    reads as an infinity.) *)
Fixpoint json_value (v : value) : bool :=
  match v with
  | VUndef => false
  | VNull | VBool _ | VStr _ => true
  | VNum x => negb (is_nan x)
  | VArr l => forallb json_value l
  | VObj props => forallb (λ kv, json_value kv.2) props
  end.

(** [wf_value v]: the strings of [v], the names of properties among
    them, are strings of 16-bit code units. *)
Fixpoint wf_value (v : value) : bool :=
  match v with
  | VStr s => bool_decide (wf_string s)
  | VArr l => forallb wf_value l
  | VObj props => forallb (λ kv, bool_decide (wf_string kv.1) && wf_value kv.2) props
  | _ => true
  end.

(** [printable v]: no object reachable from [v] through arrays has an own
    property named [toString]. *)
Fixpoint printable (v : value) : bool :=
  match v with
  | VArr l => forallb printable l
  | VObj props => negb (has_own props str_toString)
  | _ => true
  end.

(** ** Equality of values

    Structural equality ([Object.is] on primitives, extended to arrays
    and objects property by property, in order), as a function. *)
Fixpoint value_eqb (v1 v2 : value) : bool :=
  match v1, v2 with
  | VUndef, VUndef | VNull, VNull => true
  | VBool a, VBool b => bool_decide (a = b)
  | VNum x, VNum y => bool_decide (x = y)
  | VStr s, VStr t => bool_decide (s = t)
  | VArr l1, VArr l2 =>
      (fix go (l1 l2 : list value) : bool :=
         match l1, l2 with
         | [], [] => true
         | x :: l1, y :: l2 => value_eqb x y && go l1 l2
         | _, _ => false
         end) l1 l2
  | VObj p1, VObj p2 =>
      (fix go (p1 p2 : list (jsstring * value)) : bool :=
         match p1, p2 with
         | [], [] => true
         | kx :: p1, ky :: p2 =>
             bool_decide (kx.1 = ky.1) && value_eqb kx.2 ky.2 && go p1 p2
         | _, _ => false
         end) p1 p2
  | _, _ => false
  end.

(** ** Facts on equality *)

Section value_equality.

Lemma value_eqb_eq (v1 v2 : value) : value_eqb v1 v2 = true ↔ v1 = v2.
Proof.
  revert v2.
  induction v1 as [| | | | |l IH|props IH] using value_ind; intros [];
    simpl; rewrite ?bool_decide_eq_true; try (split; congruence).
  - rename elems into l2. transitivity (l = l2); [|split; congruence].
    revert l2. induction IH as [|x l Hx _ IHl]; intros [|y l2]; try done.
    rewrite andb_true_iff, Hx, IHl. split; [by intros [-> ->]|by intros [= -> ->]].
  - rename props0 into p2. transitivity (props = p2); [|split; congruence].
    revert p2. induction IH as [|[k x] l Hx _ IHl]; intros [|[k' y] l2]; try done.
    rewrite !andb_true_iff, bool_decide_eq_true, Hx, IHl. simpl.
    split; [by intros [[-> ->] ->]|by intros [= -> -> ->]].
Qed.

#[export] Instance value_eq_dec : EqDecision value.
Proof.
  refine (λ v1 v2, cast_if (decide (value_eqb v1 v2 = true)));
    abstract (by rewrite <-value_eqb_eq).
Defined.

End value_equality.

(** ** Facts on truthiness and property access *)

Section value_facts.
Implicit Types (v a b : value) (key : jsstring).

Lemma to_boolean_js_or a b : to_boolean (js_or a b) = to_boolean a || to_boolean b.
Proof. unfold js_or. by destruct (to_boolean a) eqn:E; rewrite ?E. Qed.

Lemma js_or_truthy a b : to_boolean a = true → js_or a b = a.
Proof. unfold js_or. by intros ->. Qed.

Lemma js_or_falsy a b : to_boolean a = false → js_or a b = b.
Proof. unfold js_or. by intros ->. Qed.

(** With a string default, [x || "..."] is never [null] or [undefined]. *)
Lemma js_or_not_nullish a s : is_nullish (js_or a (VStr s)) = false.
Proof. unfold js_or. destruct a as [| | | | | |]; simpl; try done; by case_test. Qed.

Lemma nullish_falsy v : is_nullish v = true → to_boolean v = false.
Proof. by destruct v. Qed.

(** Optional chaining agrees with plain access wherever plain access does
    not throw, and yields [undefined] where it does. *)
Lemma get_prop_opt_get v key :
  get_prop v key = if is_nullish v then Throw TypeError else Ok (opt_get v key).
Proof. by destruct v. Qed.

Lemma get_prop_error v key e : get_prop v key = Throw e → e = TypeError.
Proof. destruct v; simpl; congruence. Qed.

Lemma get_prop_not_nullish v key : is_nullish v = false → get_prop v key = Ok (opt_get v key).
Proof. by destruct v. Qed.

Lemma opt_get_nullish v key : is_nullish v = true → opt_get v key = VUndef.
Proof. by destruct v. Qed.

Lemma opt_get_undef key : opt_get VUndef key = VUndef.
Proof. done. Qed.

Lemma own_prop_Some_in props key v : own_prop props key = Some v → (key, v) ∈ props.
Proof.
  induction props as [|[k w] props IH]; simpl; [done|].
  case_bool_decide as E; [intros [= ->]; subst; by left | intros H; right; auto].
Qed.

Lemma json_value_opt_get v key :
  json_value v = true → opt_get v key = VUndef ∨ json_value (opt_get v key) = true.
Proof.
  destruct v as [| | | | | |props]; simpl; auto. intros H.
  destruct (own_prop props key) as [w|] eqn:E; simpl; [right|by left].
  apply own_prop_Some_in in E.
  rewrite forallb_forall in H. apply (H (key, w)). by apply list_elem_of_In.
Qed.

End value_facts.

(** ** Facts on ToString and ToNumber *)

Section coercion_facts.
Implicit Types (v : value) (l : list value).

(** The string of an array is the join of the strings of its elements. *)
Lemma to_string_arr l :
  to_string (VArr l) = parts ← mapM elem_to_string l; Ok (join_with [44%N] parts).
Proof.
  simpl. set (elems := fix elems (l : list value) : outcome (list jsstring) := _).
  assert (∀ k, elems k = mapM elem_to_string k) as ->; [|done].
  induction k as [|x k IH]; simpl; [done|].
  unfold elem_to_string at 1. by rewrite IH.
Qed.

(** ToString can only fail with a TypeError. *)
Lemma to_string_error v e : to_string v = Throw e → e = TypeError.
Proof.
  induction v as [| | | | |l IH|props _] using value_ind; try done.
  - rewrite to_string_arr. intros [H|(? & _ & ?)]%outcome_bind_Throw; [|done].
    induction IH as [|x l Hx _ IHl]; simpl in H; [done|].
    apply outcome_bind_Throw in H as [H|(s & _ & H)].
    + unfold elem_to_string in H. destruct (is_nullish x); [done | by apply Hx].
    + apply outcome_bind_Throw in H as [H|(? & _ & ?)]; [by apply IHl | done].
  - simpl. by case_test; intros [= <-].
Qed.

Lemma mapM_elem_to_string_printable l :
  Forall (λ v, printable v = true → is_ok (to_string v) = true) l →
  forallb printable l = true →
  ∃ parts, mapM elem_to_string l = Ok parts.
Proof.
  induction 1 as [|x l Hx _ IHl]; simpl; [by eexists|].
  intros [Hpx Hpl]%andb_true_iff. destruct (IHl Hpl) as [parts ->].
  unfold elem_to_string. destruct (is_nullish x); simpl; [by eexists|].
  specialize (Hx Hpx). destruct (to_string x); [by eexists | done].
Qed.

(** A printable value has a string. *)
Lemma to_string_printable v : printable v = true → is_ok (to_string v) = true.
Proof.
  induction v as [| | | | |l IH|props _] using value_ind; try done.
  - intros Hp. rewrite to_string_arr.
    by destruct (mapM_elem_to_string_printable l IH Hp) as [parts ->].
  - simpl. by intros ->%negb_true_iff.
Qed.

Lemma join_with_wf sep parts :
  wf_string sep → Forall wf_string parts → wf_string (join_with sep parts).
Proof.
  intros Hsep. induction 1 as [|p parts Hp Hparts IH]; [constructor|]. simpl.
  destruct parts; [done|]. by repeat (apply Forall_app; split).
Qed.

(** The string of a value is a string of 16-bit code units when the
    strings of the value are. *)
Lemma to_string_wf v s : wf_value v = true → to_string v = Ok s → wf_string s.
Proof.
  revert s. induction v as [| |b|x|t|l IH|props _] using value_ind; intros s Hv.
  - intros [= <-]. compute_done.
  - intros [= <-]. compute_done.
  - intros [= <-]. destruct b; compute_done.
  - intros [= <-]. apply ascii_wf_string, number_to_string_ascii.
  - intros [= <-]. by apply bool_decide_eq_true in Hv.
  - rewrite to_string_arr. intros (parts & Hp & [= <-])%outcome_bind_Ok.
    apply join_with_wf; [by repeat constructor|]. eapply mapM_Ok_Forall; [|done].
    simpl in Hv. apply forallb_Forall in Hv.
    eapply list.Forall_impl; [apply Forall_and; split; [apply Hv|apply IH]|].
    intros v [Hw Hx] t. simpl in *. unfold elem_to_string.
    destruct (is_nullish v); [intros [= <-]; constructor|]. by apply Hx.
  - simpl. case_test; [done|]. intros [= <-]. compute_done.
Qed.

Lemma to_number_error v e : to_number v = Throw e → e = TypeError.
Proof.
  destruct v; try done; unfold to_number;
    intros [H|(? & _ & ?)]%outcome_bind_Throw; try done; by eapply to_string_error.
Qed.

Lemma to_number_printable v : printable v = true → is_ok (to_number v) = true.
Proof.
  intros H. pose proof (to_string_printable v H) as Hs.
  destruct v; try done; unfold to_number; by destruct (to_string _).
Qed.

(** A primitive never throws on conversion. *)
Lemma primitive_printable v :
  match v with VArr _ | VObj _ => False | _ => True end → printable v = true.
Proof. by destruct v. Qed.

End coercion_facts.

#[export] Hint Resolve to_string_printable to_number_printable js_or_not_nullish : js.
#[export] Hint Rewrite to_boolean_js_or : js.
