(* ===== verification/Tokenizer.v ===== *)
(** * Tokenizer: the HTML tokenizer on the markup of the selects
    ([innerHTML], script.js lines 12-13, 19-20 and 28)

    Markup assigned to [innerHTML] is first cut into tokens.  This file
    models the tokenizer of the HTML standard (13.2.5) as a state
    machine over code units, one definition per state:

    - the input stream preprocessed by normalising newlines (13.2.3.5);
    - the data state, the tag states and the attribute states;
    - character references (13.2.5.72-80): numeric references in full,
      decimal and hexadecimal, with the replacements of the numeric
      character reference end state, and, of the named references, the
      five the serialiser of the platform writes ([&amp;], [&lt;],
      [&gt;], [&quot;], [&nbsp;]), each with its semicolon.

    A character reference returns to the state it was met in, the data
    state or an attribute value ([ret]); the characters it stands for
    are emitted as tokens or appended to the value ([flush]).

    The tokenizer answers [None] where the standard leaves this
    fragment: a named reference other than the five (the table of 2231
    names is data of the platform), and comments, declarations and
    processing instructions ([<!], [<?], [</] before anything but a
    letter or [>]).  [tstep_declines] is the list of those cases.

    The invariant [tstate_wf] of the states gives the form of the
    tokens ([tokenize_wf]): no attribute twice in a tag, attribute
    names as the attribute name state leaves them, no U+0000 in a
    value. *)

From S2P Require Import Prelude JsString.
From stdpp Require Import strings.

Local Open Scope N_scope.

(** ** Tokens and tokenizer states *)

Definition attribute : Type := jsstring * jsstring.

Inductive token :=
  | TStart (name : jsstring) (attrs : list attribute) (self_closing : bool)
  | TEnd (name : jsstring)
  | TChar (c : N).

(** The tag token under construction: its attributes are those
    completed so far, in source order. *)
Record tag := Tag {
  tag_end : bool;
  tag_name : jsstring;
  tag_attrs : list attribute;
  tag_self : bool
}.

Inductive quote := DoubleQuoted | SingleQuoted | Unquoted.

(** The return state of a character reference: the data state, or the
    attribute value the reference was met in, with the tag and the
    attribute under construction. *)
Inductive ret :=
  | RetData
  | RetAttr (q : quote) (t : tag) (n v : jsstring).

(** The states of 13.2.5 that markup without comments reaches.  The
    attribute under construction is carried by the state: its name [n]
    and, in the value states, its value [v].  The states of a character
    reference carry the return state and what was consumed: the letters
    of a name, the letter [x] of a hexadecimal reference, the character
    reference code. *)
Inductive tstate :=
  | Data
  | CharRef (k : ret)
  | NamedRef (k : ret) (seen : jsstring)
  | NumericRef (k : ret)
  | HexRefStart (k : ret) (x : N)
  | HexRef (k : ret) (code : N)
  | DecRef (k : ret) (code : N)
  | TagOpen
  | EndTagOpen
  | TagName (t : tag)
  | BeforeAttrName (t : tag)
  | AttrName (t : tag) (n : jsstring)
  | AfterAttrName (t : tag) (n : jsstring)
  | BeforeAttrValue (t : tag) (n : jsstring)
  | AttrValue (q : quote) (t : tag) (n v : jsstring)
  | AfterAttrValue (t : tag)
  | SelfClosing (t : tag).

#[export] Instance token_eq_dec : EqDecision token.
Proof. solve_decision. Defined.
#[export] Instance tag_eq_dec : EqDecision tag.
Proof. solve_decision. Defined.
#[export] Instance quote_eq_dec : EqDecision quote.
Proof. solve_decision. Defined.
#[export] Instance ret_eq_dec : EqDecision ret.
Proof. solve_decision. Defined.
#[export] Instance tstate_eq_dec : EqDecision tstate.
Proof. solve_decision. Defined.

(** ** Characters *)

Definition is_html_space (c : N) : bool :=
  (c =? 9) || (c =? 10) || (c =? 12) || (c =? 32).

Definition is_ascii_upper (c : N) : bool := (65 <=? c) && (c <=? 90).
Definition is_ascii_alpha (c : N) : bool :=
  is_ascii_upper c || ((97 <=? c) && (c <=? 122)).
Definition is_ascii_digit (c : N) : bool := (48 <=? c) && (c <=? 57).
Definition is_ascii_alnum (c : N) : bool := is_ascii_alpha c || is_ascii_digit c.
Definition is_hex_digit (c : N) : bool :=
  is_ascii_digit c || ((65 <=? c) && (c <=? 70)) || ((97 <=? c) && (c <=? 102)).
Definition to_lower (c : N) : N := if is_ascii_upper c then c + 32 else c.

(** U+FFFD, which replaces U+0000 in names and values. *)
Definition replacement : N := 0xFFFD.

(** 13.2.3.5: CR LF and a lone CR become LF. *)
Fixpoint normalize_newlines (s : jsstring) : jsstring :=
  match s with
  | [] => []
  | c :: r =>
    if c =? 13 then
      10 :: match r with
            | d :: r' => if d =? 10 then normalize_newlines r' else normalize_newlines r
            | [] => []
            end
    else c :: normalize_newlines r
  end.

(** A text without a carriage return is its own preprocessed form. *)
Definition no_cr (s : jsstring) : bool := forallb (λ c, negb (c =? 13)) s.

(** ** Tags and attributes *)

Definition has_attr (n : jsstring) (attrs : list attribute) : bool :=
  bool_decide (n ∈ attrs.*1).

(** An attribute is complete: it is dropped when the tag already has
    one of that name. *)
Definition add_attr (n v : jsstring) (t : tag) : tag :=
  if has_attr n (tag_attrs t) then t
  else Tag (tag_end t) (tag_name t) (tag_attrs t ++ [(n, v)]) (tag_self t).

Definition emit (t : tag) : token :=
  if tag_end t then TEnd (tag_name t) else TStart (tag_name t) (tag_attrs t) (tag_self t).

Definition set_self (t : tag) : tag := Tag (tag_end t) (tag_name t) (tag_attrs t) true.

(** ** The tokenizer *)

Notation tresult := (option (tstate * list token)).

(** 13.2.5.1 Data state. *)
Definition data_step (c : N) : tresult :=
  if c =? 38 then Some (CharRef RetData, [])
  else if c =? 60 then Some (TagOpen, [])
  else Some (Data, [TChar c]).

(** 13.2.5.36-38 Attribute value states. *)
Definition attr_value_step (q : quote) (t : tag) (n v : jsstring) (c : N) : tresult :=
  if c =? 38 then Some (CharRef (RetAttr q t n v), [])
  else if c =? 0 then Some (AttrValue q t n (v ++ [replacement]), [])
  else
    match q with
    | DoubleQuoted =>
      if c =? 34 then Some (AfterAttrValue (add_attr n v t), [])
      else Some (AttrValue q t n (v ++ [c]), [])
    | SingleQuoted =>
      if c =? 39 then Some (AfterAttrValue (add_attr n v t), [])
      else Some (AttrValue q t n (v ++ [c]), [])
    | Unquoted =>
      if is_html_space c then Some (BeforeAttrName (add_attr n v t), [])
      else if c =? 62 then Some (Data, [emit (add_attr n v t)])
      else Some (AttrValue q t n (v ++ [c]), [])
    end.

(** 13.2.5.33 Attribute name state. *)
Definition attr_name_step (t : tag) (n : jsstring) (c : N) : tresult :=
  if is_html_space c then Some (AfterAttrName t n, [])
  else if c =? 47 then Some (SelfClosing (add_attr n [] t), [])
  else if c =? 62 then Some (Data, [emit (add_attr n [] t)])
  else if c =? 61 then Some (BeforeAttrValue t n, [])
  else if c =? 0 then Some (AttrName t (n ++ [replacement]), [])
  else Some (AttrName t (n ++ [to_lower c]), []).

(** 13.2.5.34 After attribute name state. *)
Definition after_attr_name_step (t : tag) (n : jsstring) (c : N) : tresult :=
  if is_html_space c then Some (AfterAttrName t n, [])
  else if c =? 47 then Some (SelfClosing (add_attr n [] t), [])
  else if c =? 61 then Some (BeforeAttrValue t n, [])
  else if c =? 62 then Some (Data, [emit (add_attr n [] t)])
  else attr_name_step (add_attr n [] t) [] c.

(** 13.2.5.32 Before attribute name state. *)
Definition before_attr_name_step (t : tag) (c : N) : tresult :=
  if is_html_space c then Some (BeforeAttrName t, [])
  else if c =? 47 then Some (SelfClosing t, [])
  else if c =? 62 then Some (Data, [emit t])
  else if c =? 61 then Some (AttrName t [c], [])
  else attr_name_step t [] c.

(** 13.2.5.35 Before attribute value state. *)
Definition before_attr_value_step (t : tag) (n : jsstring) (c : N) : tresult :=
  if is_html_space c then Some (BeforeAttrValue t n, [])
  else if c =? 34 then Some (AttrValue DoubleQuoted t n [], [])
  else if c =? 39 then Some (AttrValue SingleQuoted t n [], [])
  else if c =? 62 then Some (Data, [emit (add_attr n [] t)])
  else attr_value_step Unquoted t n [] c.

(** 13.2.5.39 After attribute value (quoted) state. *)
Definition after_attr_value_step (t : tag) (c : N) : tresult :=
  if is_html_space c then Some (BeforeAttrName t, [])
  else if c =? 47 then Some (SelfClosing t, [])
  else if c =? 62 then Some (Data, [emit t])
  else before_attr_name_step t c.

(** 13.2.5.40 Self-closing start tag state. *)
Definition self_closing_step (t : tag) (c : N) : tresult :=
  if c =? 62 then Some (Data, [emit (set_self t)])
  else before_attr_name_step t c.

(** 13.2.5.8 Tag name state. *)
Definition tag_name_step (t : tag) (c : N) : tresult :=
  let named s := Tag (tag_end t) (tag_name t ++ [s]) (tag_attrs t) (tag_self t) in
  if is_html_space c then Some (BeforeAttrName t, [])
  else if c =? 47 then Some (SelfClosing t, [])
  else if c =? 62 then Some (Data, [emit t])
  else if c =? 0 then Some (TagName (named replacement), [])
  else Some (TagName (named (to_lower c)), []).

(** 13.2.5.6 Tag open state. *)
Definition tag_open_step (c : N) : tresult :=
  if c =? 33 then None
  else if c =? 47 then Some (EndTagOpen, [])
  else if is_ascii_alpha c then tag_name_step (Tag false [] [] false) c
  else if c =? 63 then None
  else '(st, out) ← data_step c; Some (st, TChar 60 :: out).

(** 13.2.5.7 End tag open state. *)
Definition end_tag_open_step (c : N) : tresult :=
  if is_ascii_alpha c then tag_name_step (Tag true [] [] false) c
  else if c =? 62 then Some (Data, [])
  else None.

(** ** Character references *)

(** The characters a reference stands for go where the reference was
    met: to the tokens, or to the attribute value. *)
Definition flush (k : ret) (buf : jsstring) : tstate * list token :=
  match k with
  | RetData => (Data, TChar <$> buf)
  | RetAttr q t n v => (AttrValue q t n (v ++ buf), [])
  end.

(** "Flush code points consumed as a character reference.  Reconsume in
    the return state." *)
Definition return_step (k : ret) (buf : jsstring) (c : N) : tresult :=
  match k with
  | RetData => '(st, out) ← data_step c; Some (st, (TChar <$> buf) ++ out)
  | RetAttr q t n v => attr_value_step q t n (v ++ buf) c
  end.

(** The named references of the fragment, each with its semicolon, and
    the character each stands for. *)
Definition named_references : list (jsstring * N) :=
  Eval vm_compute in
  [(js "amp;", 38); (js "lt;", 60); (js "gt;", 62); (js "quot;", 34); (js "nbsp;", 160)].

(** The entry of a key in a table. *)
Fixpoint assoc {A B} `{EqDecision A} (k : A) (l : list (A * B)) : option B :=
  match l with
  | [] => None
  | (k', v) :: rest => if decide (k' = k) then Some v else assoc k rest
  end.

Definition named_lookup (name : jsstring) : option N := assoc name named_references.

Definition named_prefix (seen : jsstring) : bool :=
  existsb (λ e, starts_with seen e.1) named_references.

(** 13.2.5.73 Named character reference state, one code unit at a time:
    a name of the fragment is complete at its semicolon (no name of the
    table goes on after a semicolon, so the match is the longest);
    anything that leaves the five names needs the table. *)
Definition named_step (k : ret) (seen : jsstring) (c : N) : tresult :=
  let seen := seen ++ [c] in
  match named_lookup seen with
  | Some code => Some (flush k [code])
  | None => if named_prefix seen then Some (NamedRef k seen, []) else None
  end.

(** The table of 13.2.5.80: the numbers of the C1 controls that stand
    for a character of Windows-1252. *)
Definition c1_replacements : list (N * N) :=
  [(0x80, 0x20AC); (0x82, 0x201A); (0x83, 0x0192); (0x84, 0x201E); (0x85, 0x2026);
   (0x86, 0x2020); (0x87, 0x2021); (0x88, 0x02C6); (0x89, 0x2030); (0x8A, 0x0160);
   (0x8B, 0x2039); (0x8C, 0x0152); (0x8E, 0x017D); (0x91, 0x2018); (0x92, 0x2019);
   (0x93, 0x201C); (0x94, 0x201D); (0x95, 0x2022); (0x96, 0x2013); (0x97, 0x2014);
   (0x98, 0x02DC); (0x99, 0x2122); (0x9A, 0x0161); (0x9B, 0x203A); (0x9C, 0x0153);
   (0x9E, 0x017E); (0x9F, 0x0178)].

Definition is_surrogate (c : N) : bool := (0xD800 <=? c) && (c <=? 0xDFFF).

(** 13.2.5.80 Numeric character reference end state: the code point a
    character reference code stands for. *)
Definition numeric_end (code : N) : N :=
  if code =? 0 then replacement
  else if 0x10FFFF <? code then replacement
  else if is_surrogate code then replacement
  else default code (assoc code c1_replacements).

(** The code units of that code point. *)
Definition reference_units (code : N) : jsstring := literal_units (numeric_end code).

(** 13.2.5.78 and 79: the reference code grows by one digit, ends at a
    semicolon, and ends before anything else. *)
Definition hex_ref_step (k : ret) (code : N) (c : N) : tresult :=
  if is_hex_digit c then Some (HexRef k (code * 16 + hex_value c), [])
  else if c =? 59 then Some (flush k (reference_units code))
  else return_step k (reference_units code) c.

Definition dec_ref_step (k : ret) (code : N) (c : N) : tresult :=
  if is_ascii_digit c then Some (DecRef k (code * 10 + (c - 48)), [])
  else if c =? 59 then Some (flush k (reference_units code))
  else return_step k (reference_units code) c.

(** 13.2.5.76 and 77: without a digit there is no reference, and what
    was consumed is text. *)
Definition hex_ref_start_step (k : ret) (x : N) (c : N) : tresult :=
  if is_hex_digit c then hex_ref_step k 0 c else return_step k [38; 35; x] c.

Definition dec_ref_start_step (k : ret) (c : N) : tresult :=
  if is_ascii_digit c then dec_ref_step k 0 c else return_step k [38; 35] c.

(** 13.2.5.75 Numeric character reference state. *)
Definition numeric_ref_step (k : ret) (c : N) : tresult :=
  if (c =? 120) || (c =? 88) then Some (HexRefStart k c, [])
  else dec_ref_start_step k c.

(** 13.2.5.72 Character reference state: an ampersand followed by
    anything but a letter, a digit or [#] is text. *)
Definition is_reference_start (c : N) : bool := is_ascii_alnum c || (c =? 35).

Definition char_ref_step (k : ret) (c : N) : tresult :=
  if is_ascii_alnum c then named_step k [] c
  else if c =? 35 then Some (NumericRef k, [])
  else return_step k [38] c.

Definition tstep (st : tstate) (c : N) : tresult :=
  match st with
  | Data => data_step c
  | CharRef k => char_ref_step k c
  | NamedRef k seen => named_step k seen c
  | NumericRef k => numeric_ref_step k c
  | HexRefStart k x => hex_ref_start_step k x c
  | HexRef k code => hex_ref_step k code c
  | DecRef k code => dec_ref_step k code c
  | TagOpen => tag_open_step c
  | EndTagOpen => end_tag_open_step c
  | TagName t => tag_name_step t c
  | BeforeAttrName t => before_attr_name_step t c
  | AttrName t n => attr_name_step t n c
  | AfterAttrName t n => after_attr_name_step t n c
  | BeforeAttrValue t n => before_attr_value_step t n c
  | AttrValue q t n v => attr_value_step q t n v c
  | AfterAttrValue t => after_attr_value_step t c
  | SelfClosing t => self_closing_step t c
  end.

(** What a reference left unfinished at the end of the input stands
    for, in the data state: the text consumed, or the character of a
    numeric reference without its semicolon. *)
Definition pending_units (st : tstate) : option jsstring :=
  match st with
  | CharRef _ => Some [38]
  | NamedRef _ _ => None
  | NumericRef _ => Some [38; 35]
  | HexRefStart _ x => Some [38; 35; x]
  | HexRef _ code | DecRef _ code => Some (reference_units code)
  | _ => Some []
  end.

Definition return_of (st : tstate) : ret :=
  match st with
  | CharRef k | NamedRef k _ | NumericRef k | HexRefStart k _ | HexRef k _ | DecRef k _ => k
  | _ => RetData
  end.

(** End of input: the character tokens still due.  A tag that is not
    closed is dropped, with a reference inside one of its values; a
    name that is not complete needs the table. *)
Definition teof (st : tstate) : option (list token) :=
  match st with
  | TagOpen => Some [TChar 60]
  | EndTagOpen => Some [TChar 60; TChar 47]
  | _ =>
    buf ← pending_units st;
    Some (match return_of st with RetData => TChar <$> buf | RetAttr _ _ _ _ => [] end)
  end.

(** The tokens of a text, from a state on. *)
Fixpoint tokens_from (st : tstate) (s : jsstring) : option (list token) :=
  match s with
  | [] => teof st
  | c :: s' => '(st', out) ← tstep st c; (out ++.) <$> tokens_from st' s'
  end.

Definition tokenize (html : jsstring) : option (list token) :=
  tokens_from Data (normalize_newlines html).

(** The state after a text and the tokens emitted on the way. *)
Fixpoint trun (st : tstate) (s : jsstring) : tresult :=
  match s with
  | [] => Some (st, [])
  | c :: s' => '(st', out) ← tstep st c; '(st'', out') ← trun st' s'; Some (st'', out ++ out')
  end.


(** ** Well-formed tokens

    No tag token has two attributes of the same name; the name of an
    attribute is not empty and holds no space, [/], [>], U+0000 or
    upper-case letter, and [=] only in front; the value of an attribute
    holds no U+0000. *)
Definition no_nul (s : jsstring) : bool := forallb (λ c, negb (c =? 0)) s.

Definition name_unit (c : N) : bool :=
  negb (is_html_space c || (c =? 47) || (c =? 62) || (c =? 61) || (c =? 0)
        || is_ascii_upper c).

Definition attr_name_ok (n : jsstring) : bool :=
  match n with
  | [] => false
  | c :: r => (name_unit c || (c =? 61)) && forallb name_unit r
  end.

Definition attr_wf (a : attribute) : Prop := attr_name_ok a.1 = true ∧ no_nul a.2 = true.

Definition attrs_wf (attrs : list attribute) : Prop :=
  NoDup attrs.*1 ∧ Forall attr_wf attrs.

Definition tag_wf (t : tag) : Prop := attrs_wf (tag_attrs t).

Definition ret_wf (k : ret) : Prop :=
  match k with
  | RetData => True
  | RetAttr _ t n v => tag_wf t ∧ attr_wf (n, v)
  end.

Definition tstate_wf (st : tstate) : Prop :=
  match st with
  | Data | TagOpen | EndTagOpen => True
  | CharRef k | NamedRef k _ | NumericRef k | HexRef k _ | DecRef k _ => ret_wf k
  | HexRefStart k x => ret_wf k ∧ x ≠ 0
  | TagName t | BeforeAttrName t | AfterAttrValue t | SelfClosing t => tag_wf t
  | AttrName t n | AfterAttrName t n | BeforeAttrValue t n =>
    tag_wf t ∧ attr_name_ok n = true
  | AttrValue _ t n v => tag_wf t ∧ attr_wf (n, v)
  end.

Definition token_wf (tok : token) : Prop :=
  match tok with
  | TStart _ attrs _ => attrs_wf attrs
  | TEnd _ | TChar _ => True
  end.

(** The result of a step is well formed. *)
Definition step_wf (r : option (tstate * list token)) : Prop :=
  ∀ st out, r = Some (st, out) → tstate_wf st ∧ Forall token_wf out.


(** The cases in which the tokenizer does not answer: a markup
    declaration or a processing instruction, an end tag that is a
    comment, and a name that is none of the five. *)
Definition declines (st : tstate) (c : N) : bool :=
  match st with
  | TagOpen => (c =? 33) || (c =? 63)
  | EndTagOpen => negb (is_ascii_alpha c || (c =? 62))
  | CharRef _ => is_ascii_alnum c && negb (named_prefix [c])
  | NamedRef _ seen =>
    negb (bool_decide (is_Some (named_lookup (seen ++ [c])))) && negb (named_prefix (seen ++ [c]))
  | _ => false
  end.

(** The reference code of a run of digits, most significant first. *)
Definition code_from (base code : N) (digits : jsstring) : N :=
  foldl (λ code c, code * base + hex_value c) code digits.

Definition code_of (base : N) (digits : jsstring) : N := code_from base 0 digits.

(** A Unicode scalar value other than U+0000. *)
Definition is_scalar (c : N) : bool := (0 <? c) && (c <=? 0x10FFFF) && negb (is_surrogate c).

Create HintDb tokenizer.

(** ** What a numeric reference can stand for *)

Section scalar.

Lemma assoc_elem {A B} `{EqDecision A} (k : A) (l : list (A * B)) v :
  assoc k l = Some v → (k, v) ∈ l.
Proof.
  induction l as [|[k' v'] l IH]; [done|]. simpl. case_decide as E.
  - intros [= ->]. subst. apply list_elem_of_here.
  - intros H. by apply list_elem_of_further, IH.
Qed.

Lemma c1_replacements_scalar : Forall (λ e, is_scalar e.2 = true) c1_replacements.
Proof. by repeat constructor. Qed.

Lemma numeric_end_is_scalar code : is_scalar (numeric_end code) = true.
Proof.
  unfold numeric_end. destruct (N.eqb_spec code 0) as [->|H0]; [done|].
  destruct (N.ltb_spec 0x10FFFF code) as [Hl|Hl]; [done|].
  destruct (is_surrogate code) eqn:Es; [done|].
  destruct (assoc code c1_replacements) as [r|] eqn:E; simpl.
  - apply assoc_elem in E. pose proof c1_replacements_scalar as H.
    rewrite list.Forall_forall in H. apply (H _ E).
  - unfold is_scalar. rewrite Es. simpl. rewrite andb_true_r, andb_true_iff.
    split; [apply N.ltb_lt; lia | by apply N.leb_le].
Qed.

End scalar.

(** ** Tokens are well formed *)

Section wellformed_tokens.
Implicit Types (t : tag) (st : tstate) (c : N) (k : ret) (n v : jsstring).

Lemma tag_wf_nil e name self : tag_wf (Tag e name [] self).
Proof. split; [apply NoDup_nil_2 | constructor]. Qed.

Lemma add_attr_wf n v t : tag_wf t → attr_wf (n, v) → tag_wf (add_attr n v t).
Proof.
  unfold add_attr, has_attr, tag_wf. intros [Hd Ha] Hn. case_bool_decide as Hin; [done|].
  split; simpl.
  - rewrite fmap_app. apply NoDup_app. split_and!; [done| |apply NoDup_singleton].
    intros x Hx ->%list_elem_of_singleton. done.
  - apply Forall_app_2; [done | by constructor].
Qed.

Lemma emit_wf t : tag_wf t → token_wf (emit t).
Proof. unfold emit. by destruct (tag_end t). Qed.

Lemma chars_wf (s : jsstring) : Forall token_wf (TChar <$> s).
Proof. by apply Forall_fmap, Forall_true. Qed.

Lemma attr_wf_nil n : attr_name_ok n = true → attr_wf (n, []).
Proof. by split. Qed.

Lemma no_nul_app v buf : no_nul v = true → no_nul buf = true → no_nul (v ++ buf) = true.
Proof. intros Hv Hb. unfold no_nul in *. by rewrite forallb_app, Hv, Hb. Qed.

Lemma attr_wf_app n v buf : attr_wf (n, v) → no_nul buf = true → attr_wf (n, v ++ buf).
Proof. intros [Hn Hv] Hb. split; [done | by apply no_nul_app]. Qed.

Lemma attr_wf_snoc n v c : attr_wf (n, v) → (c =? 0) = false → attr_wf (n, v ++ [c]).
Proof. intros H Hc. apply attr_wf_app; [done|]. simpl. by rewrite Hc. Qed.

(** A code unit that can stand in a name, lower-cased. *)
Lemma name_unit_lower c :
  is_html_space c = false → (c =? 47) = false → (c =? 62) = false → (c =? 61) = false →
  (c =? 0) = false → name_unit (to_lower c) = true.
Proof.
  unfold name_unit, to_lower, is_html_space, is_ascii_upper.
  intros Hs H47 H62 H61 H0. apply orb_false_iff in Hs as [[[H9 H10]%orb_false_iff H12]%orb_false_iff H32].
  destruct (N.leb_spec 65 c), (N.leb_spec c 90); simpl;
    rewrite ?H9, ?H10, ?H12, ?H32, ?H47, ?H62, ?H61, ?H0; simpl; try done;
    try (by destruct (N.leb_spec 65 c), (N.leb_spec c 90); try lia).
  repeat match goal with
  | |- context [?x =? ?y] => destruct (N.eqb_spec x y); [lia|]
  end.
  by destruct (N.leb_spec 65 (c + 32)), (N.leb_spec (c + 32) 90); try lia.
Qed.

Lemma attr_name_ok_snoc n c :
  n = [] ∨ attr_name_ok n = true → name_unit c = true → attr_name_ok (n ++ [c]) = true.
Proof.
  intros [->|Hn] Hc; simpl; [by rewrite Hc|]. destruct n as [|d n]; [done|]. simpl in *.
  apply andb_true_iff in Hn as [-> Hn]. by rewrite forallb_app, Hn; simpl; rewrite Hc.
Qed.

Lemma attr_name_ok_equals c : (c =? 61) = true → attr_name_ok [c] = true.
Proof. intros H. simpl. by rewrite H, orb_true_r. Qed.

Hint Resolve tag_wf_nil add_attr_wf emit_wf attr_wf_nil attr_wf_snoc attr_wf_app
  name_unit_lower attr_name_ok_snoc attr_name_ok_equals : tokenizer.

Ltac step_cases :=
  repeat match goal with
  | |- step_wf (if ?b then _ else _) => destruct b eqn:?
  | |- step_wf (match ?q with DoubleQuoted => _ | _ => _ end) => destruct q
  end;
  try (by intros ? ?);
  try (intros ? ? [= <- <-]; split; [|repeat constructor]; simpl;
       repeat match goal with H : _ ∧ _ |- _ => destruct H end;
       eauto 6 with tokenizer).

Lemma attr_value_step_wf q t n v c :
  tag_wf t → attr_wf (n, v) → step_wf (attr_value_step q t n v c).
Proof. intros Ht Ha. unfold attr_value_step. step_cases. Qed.

(** The attribute name state, on a name that has begun or on a code
    unit that can begin one. *)
Lemma attr_name_step_wf t n c :
  tag_wf t →
  attr_name_ok n = true
  ∨ (n = [] ∧ is_html_space c = false ∧ (c =? 47) = false ∧ (c =? 62) = false
     ∧ (c =? 61) = false) →
  step_wf (attr_name_step t n c).
Proof.
  intros Ht [Hn|(-> & Hs & H47 & H62 & H61)]; unfold attr_name_step.
  - step_cases.
  - rewrite Hs, H47, H62, H61.
    destruct (c =? 0) eqn:H0; intros ? ? [= <- <-]; (split; [|constructor]);
      (split; [done|]); apply (attr_name_ok_snoc []); auto with tokenizer.
Qed.

Lemma after_attr_name_step_wf t n c :
  tag_wf t → attr_name_ok n = true → step_wf (after_attr_name_step t n c).
Proof.
  intros Ht Hn. unfold after_attr_name_step. step_cases.
  apply attr_name_step_wf; [auto with tokenizer|]. right. by split_and!.
Qed.

Lemma before_attr_name_step_wf t c : tag_wf t → step_wf (before_attr_name_step t c).
Proof.
  intros Ht. unfold before_attr_name_step. step_cases.
  apply attr_name_step_wf; [done|]. right. by split_and!.
Qed.

Lemma tag_name_step_wf t c : tag_wf t → step_wf (tag_name_step t c).
Proof. intros Ht. unfold tag_name_step. cbv zeta. step_cases. Qed.

Lemma data_step_wf c : step_wf (data_step c).
Proof. unfold data_step. step_cases. Qed.

Lemma step_wf_app (s : jsstring) r :
  step_wf r → step_wf ('(st, out) ← r; Some (st, (TChar <$> s) ++ out)).
Proof.
  intros Hr st out. destruct r as [[st' out']|]; [|done]. simpl. intros [= <- <-].
  destruct (Hr st' out' eq_refl). split; [done|]. apply Forall_app_2; [apply chars_wf|done].
Qed.

Lemma flush_wf k buf : ret_wf k → no_nul buf = true → step_wf (Some (flush k buf)).
Proof.
  intros Hk Hb st out [= H]. destruct k; simpl in H; injection H as <- <-.
  - split; [done | apply chars_wf].
  - destruct Hk. split; [|done]. split; [done | by apply attr_wf_app].
Qed.

Lemma return_step_wf k buf c : ret_wf k → no_nul buf = true → step_wf (return_step k buf c).
Proof.
  intros Hk Hb. destruct k; simpl.
  - apply step_wf_app, data_step_wf.
  - destruct Hk. apply attr_value_step_wf; [done | by apply attr_wf_app].
Qed.

Lemma named_lookup_no_nul name code : named_lookup name = Some code → no_nul [code] = true.
Proof.
  intros H%assoc_elem. unfold named_references in H. rewrite !elem_of_cons, elem_of_nil in H.
  by destruct H as [[= _ ->]|[[= _ ->]|[[= _ ->]|[[= _ ->]|[[= _ ->]|[]]]]]].
Qed.

Lemma named_step_wf k seen c : ret_wf k → step_wf (named_step k seen c).
Proof.
  intros Hk. unfold named_step. cbv zeta. destruct (named_lookup _) eqn:E.
  - apply flush_wf; [done | by eapply named_lookup_no_nul].
  - step_cases.
Qed.

(** The code units of a numeric reference hold no U+0000. *)
Lemma reference_units_no_nul code : no_nul (reference_units code) = true.
Proof.
  pose proof (numeric_end_is_scalar code) as Hs. unfold is_scalar in Hs.
  apply andb_true_iff in Hs as [[H0%N.ltb_lt _]%andb_true_iff _].
  unfold reference_units, literal_units, no_nul.
  destruct (N.ltb_spec (numeric_end code) 65536); cbn [forallb].
  - by rewrite (proj2 (N.eqb_neq _ 0)) by lia.
  - by repeat match goal with
       | |- context [?x + ?y =? 0] =>
           destruct (N.eqb_spec (x + y) 0) as [[? _]%N.eq_add_0|_]; [done|]
       end.
Qed.

Hint Resolve flush_wf return_step_wf reference_units_no_nul : tokenizer.

Lemma hex_ref_step_wf k code c : ret_wf k → step_wf (hex_ref_step k code c).
Proof. intros Hk. unfold hex_ref_step. step_cases; auto with tokenizer. Qed.

Lemma dec_ref_step_wf k code c : ret_wf k → step_wf (dec_ref_step k code c).
Proof. intros Hk. unfold dec_ref_step. step_cases; auto with tokenizer. Qed.

Lemma char_ref_step_wf k c : ret_wf k → step_wf (char_ref_step k c).
Proof.
  intros Hk. unfold char_ref_step. destruct (is_ascii_alnum c); [by apply named_step_wf|].
  step_cases. by apply return_step_wf.
Qed.

Lemma numeric_ref_step_wf k c : ret_wf k → step_wf (numeric_ref_step k c).
Proof.
  intros Hk. unfold numeric_ref_step, dec_ref_start_step.
  destruct (N.eqb_spec c 120) as [->|?]; [by intros ? ? [= <- <-]|].
  destruct (N.eqb_spec c 88) as [->|?]; [by intros ? ? [= <- <-]|]. simpl.
  destruct (is_ascii_digit c); [by apply dec_ref_step_wf | by apply return_step_wf].
Qed.

Lemma hex_ref_start_step_wf k x c : ret_wf k → x ≠ 0 → step_wf (hex_ref_start_step k x c).
Proof.
  intros Hk Hx. unfold hex_ref_start_step.
  destruct (is_hex_digit c); [by apply hex_ref_step_wf|]. apply return_step_wf; [done|].
  simpl. by rewrite (proj2 (N.eqb_neq x 0)).
Qed.

Lemma tag_open_step_wf c : step_wf (tag_open_step c).
Proof.
  unfold tag_open_step. step_cases.
  - apply tag_name_step_wf, tag_wf_nil.
  - apply (step_wf_app [60]), data_step_wf.
Qed.

Lemma tstep_wf st c : tstate_wf st → step_wf (tstep st c).
Proof.
  destruct st; simpl; intros Ht;
    try (by destruct Ht;
         eauto using data_step_wf, char_ref_step_wf, named_step_wf, numeric_ref_step_wf,
           hex_ref_start_step_wf, hex_ref_step_wf, dec_ref_step_wf, tag_open_step_wf,
           tag_name_step_wf, before_attr_name_step_wf, attr_name_step_wf,
           after_attr_name_step_wf, attr_value_step_wf);
    eauto using data_step_wf, char_ref_step_wf, named_step_wf, numeric_ref_step_wf,
      hex_ref_step_wf, dec_ref_step_wf, tag_open_step_wf, tag_name_step_wf,
      before_attr_name_step_wf.
  - unfold end_tag_open_step. step_cases. apply tag_name_step_wf, tag_wf_nil.
  - destruct Ht as [Ht Hn]. unfold before_attr_value_step. step_cases.
    apply attr_value_step_wf; auto with tokenizer.
  - unfold after_attr_value_step. step_cases. by apply before_attr_name_step_wf.
  - unfold self_closing_step. step_cases. by apply before_attr_name_step_wf.
Qed.

Lemma teof_wf st ts : teof st = Some ts → Forall token_wf ts.
Proof.
  unfold teof. destruct st; try (intros [= <-]; by repeat constructor);
    simpl; try done; intros [= <-]; destruct k; try apply chars_wf; by repeat constructor.
Qed.

Lemma tokens_from_wf st s ts :
  tstate_wf st → tokens_from st s = Some ts → Forall token_wf ts.
Proof.
  revert st ts. induction s as [|c s IH]; intros st ts Hst; simpl; [apply teof_wf|].
  destruct (tstep st c) as [[st' out]|] eqn:E; [|done]. simpl.
  destruct (tokens_from st' s) as [ts'|] eqn:E'; [|done]. intros [= <-].
  destruct (tstep_wf st c Hst st' out E). apply Forall_app_2; [done|]. by eapply IH.
Qed.

(** Every start tag the tokenizer gives has its attributes well
    formed: their names distinct, not empty and lower-case, their
    values without U+0000. *)
Theorem tokenize_wf html ts : tokenize html = Some ts → Forall token_wf ts.
Proof. by apply tokens_from_wf. Qed.

End wellformed_tokens.

(** ** Where the tokenizer answers *)

Section answers.
Implicit Types (st : tstate) (c : N) (k : ret).

Lemma data_step_answers c : is_Some (data_step c).
Proof. unfold data_step. by repeat case_match. Qed.

Lemma attr_value_step_answers q t n v c : is_Some (attr_value_step q t n v c).
Proof. unfold attr_value_step. by repeat case_match. Qed.

Lemma attr_name_step_answers t n c : is_Some (attr_name_step t n c).
Proof. unfold attr_name_step. by repeat case_match. Qed.

Lemma before_attr_name_step_answers t c : is_Some (before_attr_name_step t c).
Proof. unfold before_attr_name_step. repeat case_match; try done. apply attr_name_step_answers. Qed.

Lemma tag_name_step_answers t c : is_Some (tag_name_step t c).
Proof. unfold tag_name_step. cbv zeta. by repeat case_match. Qed.

Lemma return_step_answers k buf c : is_Some (return_step k buf c).
Proof.
  destruct k; simpl; [|apply attr_value_step_answers].
  by destruct (data_step_answers c) as [[st out] ->].
Qed.

Lemma named_step_declines k seen c :
  named_step k seen c = None
  ↔ named_lookup (seen ++ [c]) = None ∧ named_prefix (seen ++ [c]) = false.
Proof.
  unfold named_step. cbv zeta.
  destruct (named_lookup _), (named_prefix _); split; try done; by intros [??].
Qed.

Lemma hex_ref_step_answers k code c : is_Some (hex_ref_step k code c).
Proof. unfold hex_ref_step. repeat case_match; try done. apply return_step_answers. Qed.

Lemma dec_ref_step_answers k code c : is_Some (dec_ref_step k code c).
Proof. unfold dec_ref_step. repeat case_match; try done. apply return_step_answers. Qed.

(** No name of the fragment is a single letter. *)
Lemma named_lookup_unit c : named_lookup [c] = None.
Proof.
  unfold named_lookup, named_references. simpl.
  by repeat (rewrite decide_False by by intros [=]).
Qed.

End answers.

#[export] Hint Resolve data_step_answers attr_value_step_answers attr_name_step_answers
  before_attr_name_step_answers tag_name_step_answers return_step_answers
  hex_ref_step_answers dec_ref_step_answers : tokenizer.

(** The tokenizer declines a code unit exactly in the cases of
    [declines]: everywhere else it has a next state. *)
Theorem tstep_declines st c : tstep st c = None ↔ declines st c = true.
Proof.
  assert (∀ r : tresult, is_Some r → r = None ↔ false = true) as Hs
    by (by intros r [x ->]; split).
  destruct st; simpl; try by (apply Hs; eauto with tokenizer).
  - unfold char_ref_step. destruct (is_ascii_alnum c); simpl.
    + rewrite named_step_declines. simpl. rewrite named_lookup_unit, negb_true_iff.
      split; [by intros [??] | done].
    + apply Hs. destruct (c =? 35); eauto with tokenizer.
  - rewrite named_step_declines, andb_true_iff, !negb_true_iff, bool_decide_eq_false.
    rewrite <-eq_None_not_Some. done.
  - apply Hs. unfold numeric_ref_step, dec_ref_start_step.
    repeat case_match; eauto with tokenizer.
  - apply Hs. unfold hex_ref_start_step. case_match; eauto with tokenizer.
  - unfold tag_open_step. destruct (N.eqb_spec c 33) as [->|?]; [by split|].
    destruct (N.eqb_spec c 63) as [->|?]; [by split|]. apply Hs.
    destruct (c =? 47); [done|]. destruct (is_ascii_alpha c); [eauto with tokenizer|].
    by destruct (data_step_answers c) as [[??] ->].
  - unfold end_tag_open_step. destruct (is_ascii_alpha c); [apply Hs; eauto with tokenizer|].
    by destruct (c =? 62); split.
  - unfold after_attr_name_step. repeat case_match; eauto with tokenizer.
  - unfold before_attr_value_step. repeat case_match; eauto with tokenizer.
  - unfold after_attr_value_step. repeat case_match; eauto with tokenizer.
  - unfold self_closing_step. repeat case_match; eauto with tokenizer.
Qed.

(** ** Character references *)

Section references.
Implicit Types (k : ret) (code c : N) (digits rest : jsstring).

Lemma trun_app st s1 s2 :
  trun st (s1 ++ s2)
  = '(st1, out1) ← trun st s1; '(st2, out2) ← trun st1 s2; Some (st2, out1 ++ out2).
Proof.
  revert st. induction s1 as [|c s1 IH]; intros st; simpl.
  { by destruct (trun st s2) as [[??]|]. }
  destruct (tstep st c) as [[st' out]|]; [|done]. simpl. rewrite IH.
  destruct (trun st' s1) as [[st1 out1]|]; [|done]. simpl.
  destruct (trun st1 s2) as [[st2 out2]|]; [|done]. simpl. by rewrite app_assoc.
Qed.

(** A text that emits nothing, followed by another. *)
Lemma trun_seq st s1 s2 st1 :
  trun st s1 = Some (st1, []) → trun st (s1 ++ s2) = trun st1 s2.
Proof. intros H. rewrite trun_app, H. simpl. by destruct (trun st1 s2) as [[??]|]. Qed.

(** The tokens of a text are those emitted on the way, then those due
    at the end of the input. *)
Lemma tokens_from_trun st s rest st' out :
  trun st s = Some (st', out) → tokens_from st (s ++ rest) = (out ++.) <$> tokens_from st' rest.
Proof.
  revert st out. induction s as [|c s IH]; intros st out; simpl.
  { intros [= -> <-]. by destruct (tokens_from st' rest). }
  destruct (tstep st c) as [[st1 out1]|]; [|done]. simpl.
  destruct (trun st1 s) as [[st2 out2]|] eqn:E; [|done]. simpl. intros [= -> <-].
  rewrite (IH _ _ E). destruct (tokens_from st' rest); [|done]. simpl. by rewrite app_assoc.
Qed.

(** The five names: each stands for its character, in text and in an
    attribute value. *)
Lemma trun_named k name code :
  (name, code) ∈ named_references → trun (CharRef k) name = Some (flush k [code]).
Proof.
  unfold named_references. rewrite !elem_of_cons, elem_of_nil.
  intros [[= -> ->]|[[= -> ->]|[[= -> ->]|[[= -> ->]|[[= -> ->]|[]]]]]]; by destruct k.
Qed.

Lemma digit_value c : is_ascii_digit c = true → hex_value c = c - 48.
Proof. unfold hex_value, is_ascii_digit. by intros ->. Qed.

Lemma digit_hex c : is_ascii_digit c = true → is_hex_digit c = true.
Proof. unfold is_hex_digit. by intros ->. Qed.

Lemma trun_hex_digits k code digits :
  forallb is_hex_digit digits = true →
  trun (HexRef k code) digits = Some (HexRef k (code_from 16 code digits), []).
Proof.
  revert code. induction digits as [|c digits IH]; intros code; [done|]. simpl.
  intros [Hc Hd]%andb_true_iff. unfold hex_ref_step. rewrite Hc. simpl. by rewrite IH.
Qed.

Lemma trun_dec_digits k code digits :
  forallb is_ascii_digit digits = true →
  trun (DecRef k code) digits = Some (DecRef k (code_from 10 code digits), []).
Proof.
  revert code. induction digits as [|c digits IH]; intros code; [done|]. simpl.
  intros [Hc Hd]%andb_true_iff. unfold dec_ref_step. rewrite Hc. simpl.
  by rewrite IH, digit_value.
Qed.

Lemma trun_semicolon st k code :
  st = HexRef k code ∨ st = DecRef k code →
  trun st [59] = Some (flush k (reference_units code)).
Proof. intros [->| ->]; simpl; by destruct (flush k _) as [? out]; rewrite app_nil_r. Qed.

End references.

(** A hexadecimal reference written in full stands for the character of
    its code, in text and in an attribute value: after the ampersand,
    [#x], hexadecimal digits and a semicolon flush the code units of
    the code the digits give. *)
Theorem hex_reference k x digits :
  x = 120 ∨ x = 88 → digits ≠ [] → forallb is_hex_digit digits = true →
  trun (CharRef k) (35 :: x :: digits ++ [59])
  = Some (flush k (reference_units (code_of 16 digits))).
Proof.
  intros Hx Hn Hd. destruct digits as [|d digits]; [done|]. clear Hn.
  apply andb_true_iff in Hd as [Hd Hds].
  assert (trun (CharRef k) [35; x; d] = Some (HexRef k (hex_value d), [])) as H3.
  { destruct Hx as [-> | ->]; simpl; unfold hex_ref_start_step, hex_ref_step; by rewrite Hd. }
  change (35 :: x :: (d :: digits) ++ [59]) with ([35; x; d] ++ digits ++ [59]).
  rewrite (trun_seq _ _ _ _ H3), (trun_seq _ _ _ _ (trun_hex_digits _ _ _ Hds)).
  apply trun_semicolon. by left.
Qed.

(** A decimal reference written in full, likewise. *)
Theorem dec_reference k digits :
  digits ≠ [] → forallb is_ascii_digit digits = true →
  trun (CharRef k) (35 :: digits ++ [59])
  = Some (flush k (reference_units (code_of 10 digits))).
Proof.
  intros Hn Hd. destruct digits as [|d digits]; [done|]. clear Hn.
  apply andb_true_iff in Hd as [Hd Hds].
  assert (trun (CharRef k) [35; d] = Some (DecRef k (hex_value d), [])) as H2.
  { simpl. unfold char_ref_step, numeric_ref_step, dec_ref_start_step, dec_ref_step.
    assert (d ≠ 120 ∧ d ≠ 88) as [??].
    { unfold is_ascii_digit in Hd. apply andb_true_iff in Hd as [_ ?%N.leb_le]. lia. }
    rewrite Hd, digit_value by done. simpl.
    by rewrite (proj2 (N.eqb_neq d 120)), (proj2 (N.eqb_neq d 88)). }
  change (35 :: (d :: digits) ++ [59]) with ([35; d] ++ digits ++ [59]).
  rewrite (trun_seq _ _ _ _ H2), (trun_seq _ _ _ _ (trun_dec_digits _ _ _ Hds)).
  apply trun_semicolon. by right.
Qed.


(** C36. Whatever the digits of a numeric reference, the character it
    stands for is a Unicode scalar value other than U+0000: zero, a
    surrogate and a code beyond U+10FFFF are replaced by U+FFFD.  It is
    one code unit, or a surrogate pair for a character outside the
    basic plane. *)
Theorem reference_units_wf code :
  is_scalar (numeric_end code) = true
  ∧ wf_string (reference_units code) ∧ (1 ≤ length (reference_units code) ≤ 2)%nat.
Proof.
  pose proof (numeric_end_is_scalar code) as Hs. split; [done|]. unfold is_scalar in Hs.
  apply andb_true_iff in Hs as [[_ H]%andb_true_iff _]. apply N.leb_le in H.
  unfold reference_units, literal_units. destruct (N.ltb_spec (numeric_end code) 65536).
  - split; [by repeat constructor | simpl; lia].
  - split; [|simpl; lia]. repeat constructor.
    + pose proof (N.Div0.div_le_upper_bound (numeric_end code - 65536) 1024 1024). lia.
    + pose proof (N.mod_upper_bound (numeric_end code - 65536) 1024). lia.
Qed.

(** ** Concrete runs *)

Section examples.

(** References in text: decimal, hexadecimal, a code of Windows-1252,
    a character outside the basic plane, a code that is no character,
    and a reference without its semicolon. *)
Example tokenize_references :
  tokenize (js "&#65;&#x42;&#X43;") = Some (TChar <$> js "ABC")
  ∧ tokenize (js "&#128;") = Some [TChar 0x20AC]
  ∧ tokenize (js "&#x1F600;") = Some [TChar 0xD83D; TChar 0xDE00]
  ∧ tokenize (js "&#0;&#xD800;&#x110000;") = Some [TChar 0xFFFD; TChar 0xFFFD; TChar 0xFFFD]
  ∧ tokenize (js "&#65 &#x;&#;&") = Some (TChar <$> js "A &#x;&#;&")
  ∧ tokenize (js "&amp;&lt;&gt;&quot;&nbsp;") = Some (TChar <$> [38; 60; 62; 34; 160]).
Proof. by_compute. Qed.

(** In an attribute value a reference is part of the value; a carriage
    return written as a reference is not normalised. *)
Example tokenize_reference_in_value :
  tokenize (js "<option value='&#65;&amp;&#13;'>")
  = Some [TStart (js "option") [(js "value", [65; 38; 13])] false].
Proof. by_compute. Qed.

(** Where the tokenizer does not answer. *)
Example tokenize_declined :
  tokenize (js "&copy;") = None ∧ tokenize (js "&amp") = None
  ∧ tokenize (js "<!-- c -->") = None ∧ tokenize (js "<?x?>") = None
  ∧ tokenize (js "</ x>") = None.
Proof. by_compute. Qed.

Lemma tokenize_wf_witness :
  Forall token_wf
    [TStart (js "option") [(js "value", js "1"); (js "disabled", [])] false; TChar 97].
Proof. apply (tokenize_wf (js "<option value=1 value=2 disabled>a")). vm_compute. reflexivity. Defined.

Lemma hex_reference_witness :
  trun (CharRef RetData) (js "#x1F600;") = Some (Data, [TChar 0xD83D; TChar 0xDE00]).
Proof. apply (hex_reference RetData 120 (js "1F600")); [by left | done | done]. Defined.

Lemma dec_reference_witness :
  trun (CharRef (RetAttr DoubleQuoted (Tag false [] [] false) (js "value") (js "R"))) (js "#38;")
  = Some (AttrValue DoubleQuoted (Tag false [] [] false) (js "value") (js "R&"), []).
Proof.
  apply (dec_reference (RetAttr DoubleQuoted (Tag false [] [] false) (js "value") (js "R"))
           (js "38")); done.
Defined.

End examples.
