(* ===== verification/Markup.v ===== *)
(** * Markup: the HTML assigned to the two selects ([innerHTML],
    script.js lines 12-13, 19-20 and 28)

    [loadTypes] fills the selects by assigning markup to [innerHTML] and
    copies the markup of one select to the other by reading [innerHTML]
    back; [runScore] then reads the [value] of each select.  What the
    user can pick, and what [value] reads, is decided by the browser's
    HTML parser.  This file models the part of it that the markup of the
    script exercises, following the HTML standard, on top of the
    tokenizer of [Tokenizer]:

    - tree construction inside a [select] for [option] tags and text;
    - the [value], [text], [disabled] and [selected] properties of an
      option, the value of the select (the selectedness setting
      algorithm for a single-selection select of display size 1) and
      the options the user can pick;
    - the serialisation of the children, which reading [innerHTML]
      returns.

    The parser answers [None] where the tokenizer does, and on tags
    other than [option]: what a select makes of them differs between
    revisions of the standard.  The class [Browser] is what the rest of
    the development assumes of the platform: a parser and a serialiser
    that agree with this file wherever it answers.

    Two round trips are proved.  Markup as the script writes it, with
    nothing escaped, reads back as written when the names are safe
    ([safe_name]: no quote, [<], CR or U+0000, and no ampersand that
    could start a character reference).  Markup as the platform
    serialises it reads back as the nodes it was written from
    ([parse_serialize]) when the nodes are in canonical form
    ([canonical]) and hold no carriage return.  The children the
    parser builds are in canonical form ([parse_canonical], from the
    invariant of the tokenizer and the invariant [builder_wf] of tree
    construction), so copying [innerHTML] from one select to the other
    copies the options ([copy_inner_html]). *)

From S2P Require Import Prelude JsString Tokenizer.
From stdpp Require Import strings.

Local Open Scope N_scope.

(** ** Tree construction inside a select *)

(** The children of the select: options with their attributes and text,
    and text outside options. *)
Inductive node :=
  | NOption (attrs : list attribute) (text : jsstring)
  | NText (text : jsstring).

#[export] Instance node_eq_dec : EqDecision node.
Proof. solve_decision. Defined.

Definition str_option : jsstring := Eval vm_compute in js "option".
Definition str_value : jsstring := Eval vm_compute in js "value".
Definition str_disabled : jsstring := Eval vm_compute in js "disabled".
Definition str_selected : jsstring := Eval vm_compute in js "selected".

(** The tree under construction: the children so far, last first, and
    whether the last one is an option that is still open. *)
Definition builder : Type := bool * list node.

Definition add_char (c : N) (b : builder) : builder :=
  match b with
  | (true, NOption attrs text :: rest) => (true, NOption attrs (text ++ [c]) :: rest)
  | (o, NText text :: rest) => (o, NText (text ++ [c]) :: rest)
  | (o, acc) => (o, NText [c] :: acc)
  end.

(** One token: a character is inserted (U+0000 is ignored), an [option]
    start tag closes the open option and opens one, an [option] end tag
    closes the open option.  Other tags are outside the fragment. *)
Definition feed (b : builder) (t : token) : option builder :=
  match t with
  | TChar c => Some (if c =? 0 then b else add_char c b)
  | TStart name attrs _ =>
    if bool_decide (name = str_option) then Some (true, NOption attrs [] :: b.2) else None
  | TEnd name =>
    if bool_decide (name = str_option) then Some (false, b.2) else None
  end.

Fixpoint feed_all (b : builder) (ts : list token) : option builder :=
  match ts with
  | [] => Some b
  | t :: ts' => b' ← feed b t; feed_all b' ts'
  end.

(** ** The parser: tokenizer and tree construction in step *)

Definition pstate : Type := tstate * builder.

Definition pstep (p : pstate) (c : N) : option pstate :=
  '(st, out) ← tstep p.1 c; b ← feed_all p.2 out; Some (st, b).

Fixpoint parse_run (p : pstate) (s : jsstring) : option pstate :=
  match s with
  | [] => Some p
  | c :: s' => p' ← pstep p c; parse_run p' s'
  end.

Definition parse_end (p : pstate) : option (list node) :=
  ts ← teof p.1; b ← feed_all p.2 ts; Some (reverse b.2).

Definition pstart : pstate := (Data, (false, [])).

(** The children of a select after markup is assigned to [innerHTML]. *)
Definition parse_fragment (html : jsstring) : option (list node) :=
  parse_run pstart (normalize_newlines html) ≫= parse_end.

(** ** Options *)

Record option_el := OptionEl {
  opt_value : jsstring;
  opt_text : jsstring;
  opt_disabled : bool;
  opt_selected : bool
}.

#[export] Instance option_el_eq_dec : EqDecision option_el.
Proof. solve_decision. Defined.

Fixpoint attr_lookup (n : jsstring) (attrs : list attribute) : option jsstring :=
  match attrs with
  | [] => None
  | (k, v) :: rest => if bool_decide (k = n) then Some v else attr_lookup n rest
  end.

(** ASCII whitespace, and "strip and collapse ASCII whitespace". *)
Definition is_ascii_space (c : N) : bool := is_html_space c || (c =? 13).

Fixpoint collapse (after_space : bool) (s : jsstring) : jsstring :=
  match s with
  | [] => []
  | c :: r =>
    if is_ascii_space c
    then (if after_space then collapse true r else 32 :: collapse true r)
    else c :: collapse false r
  end.

Definition strip_collapse (s : jsstring) : jsstring :=
  collapse false (drop_while_end is_ascii_space (drop_while is_ascii_space s)).

(** The option element of a node: [value] is the attribute if there is
    one and the text otherwise. *)
Definition option_of (attrs : list attribute) (text : jsstring) : option_el :=
  let t := strip_collapse text in
  OptionEl (default t (attr_lookup str_value attrs)) t
    (bool_decide (is_Some (attr_lookup str_disabled attrs)))
    (bool_decide (is_Some (attr_lookup str_selected attrs))).

Definition options_of (nodes : list node) : list option_el :=
  omap (λ n, match n with
             | NOption attrs text => Some (option_of attrs text)
             | NText _ => None
             end) nodes.

(** The [value] of the select once the options are in place: that of
    the last option marked [selected], else that of the first option
    that is not disabled, else the empty string. *)
Definition select_value (opts : list option_el) : jsstring :=
  match last (filter (λ o, opt_selected o = true) opts) with
  | Some o => opt_value o
  | None =>
    match filter (λ o, opt_disabled o = false) opts with
    | o :: _ => opt_value o
    | [] => []
    end
  end.

(** The values the user can give the select: those of the options that
    are not disabled. *)
Definition choosable (opts : list option_el) : list jsstring :=
  opt_value <$> filter (λ o, opt_disabled o = false) opts.

(** ** Serialisation *)

Definition str_amp : jsstring := Eval vm_compute in js "&amp;".
Definition str_nbsp : jsstring := Eval vm_compute in js "&nbsp;".
Definition str_quot : jsstring := Eval vm_compute in js "&quot;".
Definition str_lt : jsstring := Eval vm_compute in js "&lt;".
Definition str_gt : jsstring := Eval vm_compute in js "&gt;".
Definition str_option_open : jsstring := Eval vm_compute in js "<option".
Definition str_option_close : jsstring := Eval vm_compute in js "</option>".

(** "Escaping a string", in attribute mode or not. *)
Definition escape_unit (attr_mode : bool) (c : N) : jsstring :=
  if c =? 38 then str_amp
  else if c =? 160 then str_nbsp
  else if attr_mode then (if c =? 34 then str_quot else [c])
  else if c =? 60 then str_lt
  else if c =? 62 then str_gt
  else [c].

Definition escape (attr_mode : bool) (s : jsstring) : jsstring :=
  s ≫= escape_unit attr_mode.

Definition serialize_attr (a : attribute) : jsstring :=
  [32] ++ a.1 ++ [61; 34] ++ escape true a.2 ++ [34].

Definition serialize_node (n : node) : jsstring :=
  match n with
  | NOption attrs text =>
    str_option_open ++ concat (serialize_attr <$> attrs) ++ [62]
      ++ escape false text ++ str_option_close
  | NText text => escape false text
  end.

Definition serialize (nodes : list node) : jsstring :=
  concat (serialize_node <$> nodes).

(** Nodes whose serialisation does not depend on the revision of the
    standard: no angle bracket in an attribute value. *)
Definition stable_attr (a : attribute) : bool :=
  forallb (λ c, negb ((c =? 60) || (c =? 62))) a.2.

Definition stable (nodes : list node) : bool :=
  forallb (λ n, match n with
                | NOption attrs _ => forallb stable_attr attrs
                | NText _ => true
                end) nodes.

(** ** The platform

    What the development assumes of the browser: the options of a
    select after markup is assigned to its [innerHTML], and the string
    its [innerHTML] then reads, are those of this file wherever the
    parser answers. *)
Class Browser := {
  select_options : jsstring → list option_el;
  inner_html : jsstring → jsstring;
  select_options_parsed html nodes :
    parse_fragment html = Some nodes → select_options html = options_of nodes;
  inner_html_parsed html nodes :
    parse_fragment html = Some nodes → stable nodes = true →
    inner_html html = serialize nodes
}.

(** A browser to run examples on: no option, and the markup as it was
    assigned, where the parser does not answer. *)
Definition reference_browser : Browser := {|
  select_options html := default [] (options_of <$> parse_fragment html);
  inner_html html := default html (serialize <$> parse_fragment html);
  select_options_parsed := ltac:(intros html nodes H; simpl; by rewrite H);
  inner_html_parsed := ltac:(intros html nodes H _; simpl; by rewrite H)
|}.

(** Markup the script could have written for an option: the value in
    double quotes, then the text, nothing escaped. *)
Definition str_option_value : jsstring := Eval vm_compute in js "<option value=\x22".

Definition print_option (v text : jsstring) : jsstring :=
  str_option_value ++ v ++ [34; 62] ++ text ++ str_option_close.

(** A string that reads back as itself both as a double-quoted attribute
    value and as text: no U+0000, CR, quote or [<], and no ampersand
    before a letter, a digit or [#], which could start a character
    reference. *)
Definition safe_unit (c : N) : bool :=
  negb ((c =? 0) || (c =? 13) || (c =? 34) || (c =? 60)).

(** What follows cannot continue a character reference. *)
Definition starts_plain (s : jsstring) : bool :=
  match s with
  | c :: _ => negb (is_reference_start c)
  | [] => false
  end.

(** What follows, if anything, cannot continue a character reference. *)
Definition no_reference (s : jsstring) : bool :=
  match s with
  | c :: _ => negb (is_reference_start c)
  | [] => true
  end.

Fixpoint safe_name (s : jsstring) : bool :=
  match s with
  | [] => true
  | c :: r => safe_unit c && (if c =? 38 then no_reference r else true) && safe_name r
  end.

(** ** Nodes as the parser builds them *)

Definition attrs_ok (attrs : list attribute) : bool :=
  bool_decide (NoDup attrs.*1) && forallb (λ a, attr_name_ok a.1 && no_nul a.2) attrs.

(** The children of a select in the form tree construction gives them:
    no empty text and no two texts in a row. *)
Fixpoint canonical (after_text : bool) (nodes : list node) : bool :=
  match nodes with
  | [] => true
  | NOption attrs text :: rest => attrs_ok attrs && no_nul text && canonical false rest
  | NText text :: rest =>
    negb after_text && bool_decide (text ≠ []) && no_nul text && canonical true rest
  end.

(** Children that hold no carriage return. *)
Definition cr_free (nodes : list node) : bool :=
  forallb (λ nd, match nd with
                 | NOption attrs text =>
                   forallb (λ a, no_cr a.1 && no_cr a.2) attrs && no_cr text
                 | NText text => no_cr text
                 end) nodes.

Definition head_is_text (acc : list node) : bool :=
  match acc with
  | NText _ :: _ => true
  | _ => false
  end.

(** The builder between two tokens: the children built so far are in
    canonical form, and an open option is the last of them. *)
Definition builder_wf (b : builder) : bool :=
  canonical false (reverse b.2)
  && (negb b.1 || match b.2 with NOption _ _ :: _ => true | _ => false end).

(** The tag token of an option with its attributes. *)
Definition option_tag (attrs : list attribute) : tag := Tag false str_option attrs false.

(** The tokens a node is built from. *)
Definition tokens_of (n : node) : list token :=
  match n with
  | NOption attrs text => TStart str_option attrs false :: (TChar <$> text) ++ [TEnd str_option]
  | NText text => TChar <$> text
  end.

(** ** The parser is the tokenizer followed by tree construction *)

Section pipeline.
Implicit Types (st : tstate) (b : builder) (s : jsstring) (ts : list token).

Lemma feed_all_app b ts1 ts2 :
  feed_all b (ts1 ++ ts2) = feed_all b ts1 ≫= λ b', feed_all b' ts2.
Proof.
  revert b. induction ts1 as [|t ts1 IH]; intros b; [done|]. simpl.
  destruct (feed b t) as [b'|]; [apply IH | done].
Qed.

Lemma parse_run_tokens st b s :
  parse_run (st, b) s ≫= parse_end
  = tokens_from st s ≫= λ ts, b' ← feed_all b ts; Some (reverse b'.2).
Proof.
  revert st b. induction s as [|c s IH]; intros st b; [done|].
  simpl. unfold pstep. simpl. destruct (tstep st c) as [[st' out]|]; [|done]. simpl.
  destruct (tokens_from st' s) as [ts|] eqn:E; simpl.
  - rewrite feed_all_app. destruct (feed_all b out) as [b1|]; [|done]. simpl.
    by rewrite IH, E.
  - destruct (feed_all b out) as [b1|]; [|done]. simpl. by rewrite IH, E.
Qed.

(** The parser after a text: the state of the tokenizer, and the tree
    fed with the tokens emitted on the way. *)
Lemma parse_run_trun st b s :
  parse_run (st, b) s = '(st', out) ← trun st s; b' ← feed_all b out; Some (st', b').
Proof.
  revert st b. induction s as [|c s IH]; intros st b; [done|].
  simpl. unfold pstep. simpl. destruct (tstep st c) as [[st1 out1]|]; [|done]. simpl.
  destruct (feed_all b out1) as [b1|] eqn:E1; simpl.
  - rewrite IH. destruct (trun st1 s) as [[st2 out2]|]; [|done]. simpl.
    by rewrite feed_all_app, E1.
  - destruct (trun st1 s) as [[st2 out2]|]; [|done]. simpl. by rewrite feed_all_app, E1.
Qed.

Lemma parse_run_app p s1 s2 :
  parse_run p (s1 ++ s2) = parse_run p s1 ≫= λ p', parse_run p' s2.
Proof.
  revert p. induction s1 as [|c s1 IH]; intros p; [done|]. simpl.
  destruct (pstep p c) as [p'|]; [apply IH | done].
Qed.

End pipeline.

(** The parser is the tokenizer followed by tree construction. *)
Theorem parse_fragment_tokens html :
  parse_fragment html
  = tokenize html ≫= λ ts, b ← feed_all (false, []) ts; Some (reverse b.2).
Proof. apply parse_run_tokens. Qed.

(** ** Markup that reads back as written *)

Section safe_markup.
Implicit Types (b : builder) (s v text rest : jsstring) (acc : list node).

Lemma normalize_newlines_safe s : no_cr s = true → normalize_newlines s = s.
Proof.
  induction s as [|c s IH]; [done|]. simpl.
  intros [Hc Hs]%andb_true_iff. destruct (c =? 13); [done|]. by rewrite IH.
Qed.

Lemma safe_name_cons c r :
  safe_name (c :: r) = true →
  c ≠ 0 ∧ c ≠ 13 ∧ c ≠ 34 ∧ c ≠ 60 ∧ (c = 38 → r = [] ∨ starts_plain r = true)
  ∧ safe_name r = true.
Proof.
  simpl. intros [[Hc Ha]%andb_true_iff Hr]%andb_true_iff. unfold safe_unit in Hc.
  destruct (N.eqb_spec c 0), (N.eqb_spec c 13), (N.eqb_spec c 34), (N.eqb_spec c 60);
    try done.
  split_and!; try done. intros ->. destruct r; [by left|by right].
Qed.

Lemma safe_name_no_cr s : safe_name s = true → no_cr s = true.
Proof.
  induction s as [|c s IH]; [done|]. intros (_ & Hc & _ & _ & _ & Hs)%safe_name_cons.
  simpl. rewrite IH by done. by destruct (N.eqb_spec c 13).
Qed.

Lemma starts_plain_app s rest :
  s = [] ∨ starts_plain s = true → starts_plain rest = true → starts_plain (s ++ rest) = true.
Proof. intros [->|H] Hr; [done|]. by destruct s. Qed.

(** An ampersand before something that starts no reference is text. *)
Lemma trun_ampersand k rest :
  starts_plain rest = true →
  trun (CharRef k) rest = trun (flush k [38]).1 rest ≫= λ r, Some (r.1, (flush k [38]).2 ++ r.2).
Proof.
  destruct rest as [|c rest]; [done|]. simpl. intros Hc%negb_true_iff.
  unfold char_ref_step, is_reference_start in *. apply orb_false_iff in Hc as [-> ->].
  destruct k; simpl.
  - destruct (data_step c) as [[st out]|]; [|done]. simpl.
    by destruct (trun st rest) as [[st' out']|].
  - destruct (attr_value_step q t n (v ++ [38]) c) as [[st out]|]; [|done]. simpl.
    by destruct (trun st rest) as [[st' out']|].
Qed.

(** Safe text is emitted as it is. *)
Lemma trun_text text rest :
  safe_name text = true → starts_plain rest = true →
  trun Data (text ++ rest) = '(st, out) ← trun Data rest; Some (st, (TChar <$> text) ++ out).
Proof.
  intros Ht Hr. induction text as [|c text IH]; simpl.
  { by destruct (trun Data rest) as [[??]|]. }
  apply safe_name_cons in Ht as (_ & _ & _ & H60 & Ha & Ht). specialize (IH Ht).
  unfold data_step. destruct (N.eqb_spec c 38) as [->|_]; simpl.
  - rewrite trun_ampersand by by apply starts_plain_app, Hr; apply Ha.
    simpl. rewrite IH. by destruct (trun Data rest) as [[??]|].
  - rewrite (proj2 (N.eqb_neq c 60)) by done. simpl. rewrite IH.
    by destruct (trun Data rest) as [[??]|].
Qed.

(** A safe double-quoted attribute value is taken as it is. *)
Lemma trun_value t n v0 v rest :
  safe_name v = true → starts_plain rest = true →
  trun (AttrValue DoubleQuoted t n v0) (v ++ rest)
  = trun (AttrValue DoubleQuoted t n (v0 ++ v)) rest.
Proof.
  intros Hv Hr. revert v0. induction v as [|c v IH]; intros v0; [by rewrite app_nil_r|].
  apply safe_name_cons in Hv as (H0 & _ & H34 & _ & Ha & Hv). specialize (IH Hv).
  simpl. unfold attr_value_step. destruct (N.eqb_spec c 38) as [->|_]; simpl.
  - rewrite trun_ampersand by by apply starts_plain_app, Hr; apply Ha.
    simpl. rewrite IH, <-app_assoc. by destruct (trun _ rest) as [[??]|].
  - rewrite (proj2 (N.eqb_neq c 0)), (proj2 (N.eqb_neq c 34)) by done. simpl.
    rewrite IH, <-app_assoc. by destruct (trun _ rest) as [[??]|].
Qed.

(** The tokens of one option written with [print_option]. *)
Lemma trun_option v text :
  safe_name v = true → safe_name text = true →
  trun Data (print_option v text) = Some (Data, tokens_of (NOption [(str_value, v)] text)).
Proof.
  intros Hv Ht. unfold print_option.
  rewrite (trun_seq Data str_option_value _
             (AttrValue DoubleQuoted (Tag false str_option [] false) str_value [])) by done.
  rewrite trun_value, trun_app by done.
  assert (trun (AttrValue DoubleQuoted (Tag false str_option [] false) str_value ([] ++ v))
            [34; 62] = Some (Data, [TStart str_option [(str_value, v)] false])) as -> by done.
  cbn [mbind option_bind]. rewrite trun_text by done.
  by assert (trun Data str_option_close = Some (Data, [TEnd str_option])) as -> by done.
Qed.

(** The tree after an option is fed: the option, closed, whatever was
    open before it. *)
Lemma feed_option b attrs text :
  forallb (λ c, negb (c =? 0)) text = true →
  feed_all b (tokens_of (NOption attrs text)) = Some (false, NOption attrs text :: b.2).
Proof.
  intros Ht. destruct b as [o acc]. cbn [tokens_of feed_all feed]. rewrite bool_decide_true by done.
  cbn [mbind option_bind snd]. rewrite feed_all_app.
  assert (∀ t0, feed_all (true, NOption attrs t0 :: acc) (TChar <$> text)
                = Some (true, NOption attrs (t0 ++ text) :: acc)) as ->.
  { induction text as [|c text IH]; intros t0; [by rewrite app_nil_r|].
    simpl in Ht. apply andb_true_iff in Ht as [Hc Ht]. apply negb_true_iff in Hc.
    cbn [fmap list_fmap feed_all feed]. rewrite Hc. cbn [mbind option_bind add_char].
    by rewrite IH, <-app_assoc. }
  cbn [mbind option_bind feed_all feed]. by rewrite bool_decide_true.
Qed.

Lemma safe_name_no_nul s : safe_name s = true → forallb (λ c, negb (c =? 0)) s = true.
Proof.
  induction s as [|c s IH]; [done|]. intros (Hc & _ & _ & _ & _ & Hs)%safe_name_cons.
  simpl. rewrite IH by done. by destruct (N.eqb_spec c 0).
Qed.

(** One option written with [print_option] becomes one option node,
    whatever was open before it. *)
Lemma parse_run_option b v text :
  safe_name v = true → safe_name text = true →
  parse_run (Data, b) (print_option v text)
  = Some (Data, (false, NOption [(str_value, v)] text :: b.2)).
Proof.
  intros Hv Ht. rewrite parse_run_trun, trun_option by done. cbn [mbind option_bind].
  by rewrite feed_option by by apply safe_name_no_nul.
Qed.

Lemma parse_run_options b (ovs : list (jsstring * jsstring)) :
  Forall (λ ov, safe_name ov.1 = true ∧ safe_name ov.2 = true) ovs →
  ∃ o, parse_run (Data, b) (concat ((λ ov, print_option ov.1 ov.2) <$> ovs))
       = Some (Data, (o, reverse ((λ ov, NOption [(str_value, ov.1)] ov.2) <$> ovs) ++ b.2)).
Proof.
  revert b. induction ovs as [|[v text] ovs IH]; intros b H.
  { exists b.1. by destruct b. }
  apply Forall_cons_iff in H as [[Hv Ht] H]. simpl in Hv, Ht.
  destruct (IH (false, NOption [(str_value, v)] text :: b.2) H) as [o Ho].
  exists o. rewrite fmap_cons. cbn [concat]. rewrite parse_run_app, parse_run_option by done.
  simpl mbind. etrans; [exact Ho|]. cbn [snd].
  by rewrite fmap_cons, reverse_cons, <-app_assoc.
Qed.

Lemma no_cr_app s1 s2 : no_cr (s1 ++ s2) = no_cr s1 && no_cr s2.
Proof. apply forallb_app. Qed.

Lemma no_cr_options (ovs : list (jsstring * jsstring)) :
  Forall (λ ov, safe_name ov.1 = true ∧ safe_name ov.2 = true) ovs →
  no_cr (concat ((λ ov, print_option ov.1 ov.2) <$> ovs)) = true.
Proof.
  induction 1 as [|[v text] ovs [Hv Ht] _ IH]; [done|].
  rewrite fmap_cons. cbn [concat fst snd] in *. rewrite no_cr_app, IH, andb_true_r.
  unfold print_option.
  by rewrite !no_cr_app, (safe_name_no_cr v), (safe_name_no_cr text) by done.
Qed.

(** Markup that ends in the data state, followed by options written
    with [print_option]: the nodes of the markup, then one option node
    per option, with the value and the text as they were written. *)
Lemma parse_fragment_options prefix b (ovs : list (jsstring * jsstring)) :
  no_cr prefix = true →
  parse_run pstart prefix = Some (Data, b) →
  Forall (λ ov, safe_name ov.1 = true ∧ safe_name ov.2 = true) ovs →
  parse_fragment (prefix ++ concat ((λ ov, print_option ov.1 ov.2) <$> ovs))
  = Some (reverse b.2 ++ ((λ ov, NOption [(str_value, ov.1)] ov.2) <$> ovs)).
Proof.
  intros Hp Hb Hs. unfold parse_fragment.
  rewrite normalize_newlines_safe by by rewrite no_cr_app, Hp, no_cr_options.
  rewrite parse_run_app, Hb. simpl mbind.
  destruct (parse_run_options b ovs Hs) as [o ->]. unfold parse_end. simpl.
  by rewrite reverse_app, reverse_involutive.
Qed.

(** Options written with [print_option] from safe values and texts
    parse to those options. *)
Theorem parse_print_options (ovs : list (jsstring * jsstring)) :
  Forall (λ ov, safe_name ov.1 = true ∧ safe_name ov.2 = true) ovs →
  parse_fragment (concat ((λ ov, print_option ov.1 ov.2) <$> ovs))
  = Some ((λ ov, NOption [(str_value, ov.1)] ov.2) <$> ovs).
Proof. intros Hs. by apply (parse_fragment_options [] (false, [])). Qed.

End safe_markup.

(** ** Markup that the platform wrote reads back as the nodes *)

Section serialised.
Implicit Types (t : tag) (n v text : jsstring) (attrs : list attribute) (acc : list node).

Lemma trun_escape_unit c : trun Data (escape_unit false c) = Some (Data, [TChar c]).
Proof.
  unfold escape_unit. destruct (N.eqb_spec c 38) as [->|?]; [done|].
  destruct (N.eqb_spec c 160) as [->|?]; [done|]. simpl.
  destruct (N.eqb_spec c 60) as [->|?]; [done|]. destruct (N.eqb_spec c 62) as [->|?]; [done|].
  simpl. unfold data_step. by rewrite (proj2 (N.eqb_neq c 38)), (proj2 (N.eqb_neq c 60)).
Qed.

(** Escaped text is emitted as the text. *)
Lemma trun_escape_text text : trun Data (escape false text) = Some (Data, TChar <$> text).
Proof.
  unfold escape. induction text as [|c text IH]; [done|].
  rewrite bind_cons, trun_app, trun_escape_unit. cbn [mbind option_bind]. by rewrite IH.
Qed.

Lemma trun_escape_attr t n v c :
  c ≠ 0 →
  trun (AttrValue DoubleQuoted t n v) (escape_unit true c)
  = Some (AttrValue DoubleQuoted t n (v ++ [c]), []).
Proof.
  intros H0. unfold escape_unit. destruct (N.eqb_spec c 38) as [->|?]; [done|].
  destruct (N.eqb_spec c 160) as [->|?]; [done|]. simpl.
  destruct (N.eqb_spec c 34) as [->|?]; [done|]. simpl. unfold attr_value_step.
  by rewrite (proj2 (N.eqb_neq c 38)), (proj2 (N.eqb_neq c 0)), (proj2 (N.eqb_neq c 34)).
Qed.

Lemma no_nul_cons c s : no_nul (c :: s) = true → c ≠ 0 ∧ no_nul s = true.
Proof. simpl. intros [Hc Hs]%andb_true_iff. by destruct (N.eqb_spec c 0). Qed.

Lemma no_cr_cons c s : no_cr (c :: s) = true → c ≠ 13 ∧ no_cr s = true.
Proof. simpl. intros [Hc Hs]%andb_true_iff. by destruct (N.eqb_spec c 13). Qed.

(** An escaped attribute value is read as the value. *)
Lemma trun_escape_value t n v0 v :
  no_nul v = true →
  trun (AttrValue DoubleQuoted t n v0) (escape true v)
  = Some (AttrValue DoubleQuoted t n (v0 ++ v), []).
Proof.
  unfold escape. revert v0. induction v as [|c v IH]; intros v0; [by rewrite app_nil_r|].
  intros (H0 & Hv)%no_nul_cons. rewrite bind_cons.
  rewrite (trun_seq _ _ _ _ (trun_escape_attr t n v0 c H0)), IH by done.
  by rewrite <-app_assoc.
Qed.

Lemma name_unit_inv c :
  name_unit c = true →
  is_html_space c = false ∧ c ≠ 47 ∧ c ≠ 62 ∧ c ≠ 61 ∧ c ≠ 0 ∧ to_lower c = c.
Proof.
  unfold name_unit, to_lower. destruct (is_html_space c); [done|].
  destruct (N.eqb_spec c 47), (N.eqb_spec c 62), (N.eqb_spec c 61), (N.eqb_spec c 0),
    (is_ascii_upper c); done.
Qed.

Lemma attr_name_step_unit t n c :
  name_unit c = true → attr_name_step t n c = Some (AttrName t (n ++ [c]), []).
Proof.
  intros (Hs & ? & ? & ? & ? & Hl)%name_unit_inv. unfold attr_name_step.
  by rewrite Hs, (proj2 (N.eqb_neq c 47)), (proj2 (N.eqb_neq c 62)),
    (proj2 (N.eqb_neq c 61)), (proj2 (N.eqb_neq c 0)), Hl.
Qed.

Lemma trun_name_units t n0 n :
  forallb name_unit n = true → trun (AttrName t n0) n = Some (AttrName t (n0 ++ n), []).
Proof.
  revert n0. induction n as [|c n IH]; intros n0; [by rewrite app_nil_r|].
  intros [Hc Hn]%andb_true_iff. cbn [trun tstep]. rewrite attr_name_step_unit by done.
  cbn [mbind option_bind]. by rewrite IH, <-app_assoc.
Qed.

(** An attribute name is read as it is written. *)
Lemma trun_attr_name t n :
  attr_name_ok n = true → trun (BeforeAttrName t) n = Some (AttrName t n, []).
Proof.
  destruct n as [|c n]; [done|]. intros [Hc Hn]%andb_true_iff.
  assert (tstep (BeforeAttrName t) c = Some (AttrName t [c], [])) as Hs.
  { simpl. unfold before_attr_name_step. apply orb_true_iff in Hc as [Hc| ->%N.eqb_eq]; [|done].
    pose proof (attr_name_step_unit t [] c Hc) as Hu.
    apply name_unit_inv in Hc as (-> & ? & ? & ? & _).
    by rewrite (proj2 (N.eqb_neq c 47)), (proj2 (N.eqb_neq c 62)), (proj2 (N.eqb_neq c 61)). }
  cbn [trun]. rewrite Hs. cbn [mbind option_bind]. by rewrite trun_name_units.
Qed.

(** One attribute as the serialiser writes it, after the tag name or
    after another attribute. *)
Lemma trun_attr st t n v :
  st = TagName t ∨ st = AfterAttrValue t → attr_name_ok n = true → no_nul v = true →
  trun st (serialize_attr (n, v)) = Some (AfterAttrValue (add_attr n v t), []).
Proof.
  intros Hst Hn Hv. unfold serialize_attr. cbn [fst snd].
  rewrite (trun_seq st [32] _ (BeforeAttrName t)) by by destruct Hst as [-> | ->].
  rewrite (trun_seq _ _ _ _ (trun_attr_name t n Hn)).
  rewrite (trun_seq (AttrName t n) [61; 34] _ (AttrValue DoubleQuoted t n [])) by done.
  rewrite (trun_seq _ _ _ _ (trun_escape_value t n [] v Hv)). simpl.
  unfold attr_value_step. simpl. done.
Qed.

Lemma add_attr_fresh n v t :
  n ∉ (tag_attrs t).*1 →
  add_attr n v t = Tag (tag_end t) (tag_name t) (tag_attrs t ++ [(n, v)]) (tag_self t).
Proof. intros Hn. unfold add_attr, has_attr. by rewrite bool_decide_false. Qed.

(** The attributes of a tag as the serialiser writes them. *)
Lemma trun_attrs st attrs0 attrs :
  st = TagName (option_tag attrs0) ∨ st = AfterAttrValue (option_tag attrs0) →
  NoDup (attrs0 ++ attrs).*1 →
  forallb (λ a, attr_name_ok a.1 && no_nul a.2) attrs = true →
  ∃ st', trun st (concat (serialize_attr <$> attrs)) = Some (st', [])
         ∧ (st' = TagName (option_tag (attrs0 ++ attrs))
            ∨ st' = AfterAttrValue (option_tag (attrs0 ++ attrs))).
Proof.
  revert st attrs0. induction attrs as [|[n v] attrs IH]; intros st attrs0 Hst Hd Ha.
  { exists st. by rewrite app_nil_r. }
  simpl in Ha. apply andb_true_iff in Ha as [[Hn Hv]%andb_true_iff Ha].
  destruct (IH (AfterAttrValue (option_tag (attrs0 ++ [(n, v)]))) (attrs0 ++ [(n, v)]))
    as (st' & Hrun & Hst'); [by right | by rewrite <-app_assoc | done |].
  exists st'. rewrite <-app_assoc in Hst'. split; [|exact Hst'].
  rewrite fmap_cons. cbn [concat].
  rewrite (trun_seq _ _ _ _ (trun_attr st _ n v Hst Hn Hv)), add_attr_fresh; [exact Hrun|].
  rewrite fmap_app, fmap_cons in Hd. apply NoDup_app in Hd as (_ & Hd & _).
  intros Hin. apply (Hd n Hin). apply list_elem_of_here.
Qed.

Lemma attrs_ok_inv attrs :
  attrs_ok attrs = true →
  NoDup attrs.*1 ∧ forallb (λ a, attr_name_ok a.1 && no_nul a.2) attrs = true.
Proof. by intros [?%bool_decide_eq_true ?]%andb_true_iff. Qed.

(** The serialisation of a node gives the tokens of the node. *)
Lemma trun_serialize_node nd :
  canonical false [nd] = true → trun Data (serialize_node nd) = Some (Data, tokens_of nd).
Proof.
  destruct nd as [attrs text|text]; cbn [serialize_node canonical];
    [|intros _; apply trun_escape_text].
  rewrite andb_true_r. intros [[Hd Ha]%attrs_ok_inv _]%andb_true_iff.
  destruct (trun_attrs (TagName (option_tag [])) [] attrs) as (st & Hst & Hst'); try done.
  { by left. }
  rewrite (trun_seq Data str_option_open _ (TagName (option_tag []))) by done.
  rewrite (trun_seq _ _ _ _ Hst). cbn [app trun].
  assert (tstep st 62 = Some (Data, [TStart str_option attrs false])) as ->
    by by destruct Hst' as [-> | ->].
  cbn [mbind option_bind]. rewrite trun_app, trun_escape_text. cbn [mbind option_bind].
  by assert (trun Data str_option_close = Some (Data, [TEnd str_option])) as -> by done.
Qed.

Lemma canonical_cons after nd nodes :
  canonical after (nd :: nodes) = true →
  canonical false [nd] = true ∧ canonical (head_is_text [nd]) nodes = true.
Proof.
  destruct nd as [attrs text|text]; simpl; rewrite !andb_true_r.
  - by intros [? ?]%andb_true_iff.
  - by intros [[[_ ->]%andb_true_iff ->]%andb_true_iff ?]%andb_true_iff.
Qed.

(** The serialisation of the children gives their tokens, in order. *)
Lemma trun_serialize after nodes :
  canonical after nodes = true → trun Data (serialize nodes) = Some (Data, nodes ≫= tokens_of).
Proof.
  unfold serialize. revert after. induction nodes as [|nd nodes IH]; intros after; [done|].
  intros [Hn Hr]%canonical_cons. rewrite fmap_cons, bind_cons. cbn [concat].
  rewrite trun_app, trun_serialize_node by done. cbn [mbind option_bind].
  by rewrite (IH _ Hr).
Qed.

(** Text outside an option becomes one text node. *)
Lemma feed_text acc text :
  head_is_text acc = false → text ≠ [] → no_nul text = true →
  feed_all (false, acc) (TChar <$> text) = Some (false, NText text :: acc).
Proof.
  intros Ha Hn Hc. destruct text as [|c text]; [done|]. clear Hn.
  apply no_nul_cons in Hc as (H0 & Hc). cbn [fmap list_fmap feed_all feed].
  rewrite (proj2 (N.eqb_neq c 0)) by done. cbn [mbind option_bind].
  assert (add_char c (false, acc) = (false, NText [c] :: acc)) as ->
    by by destruct acc as [|[]].
  change (c :: text) with ([c] ++ text). generalize [c] as t0. clear H0.
  induction text as [|d text IH]; intros t0; [by rewrite app_nil_r|].
  apply no_nul_cons in Hc as (H0 & Hc). cbn [fmap list_fmap feed_all feed].
  rewrite (proj2 (N.eqb_neq d 0)) by done. cbn [mbind option_bind add_char].
  by rewrite IH, <-app_assoc.
Qed.

(** The tree fed with the tokens of canonical nodes holds the nodes. *)
Lemma feed_nodes acc nodes :
  canonical (head_is_text acc) nodes = true →
  feed_all (false, acc) (nodes ≫= tokens_of) = Some (false, reverse nodes ++ acc).
Proof.
  revert acc. induction nodes as [|nd nodes IH]; intros acc; [done|].
  rewrite bind_cons, feed_all_app, reverse_cons, <-app_assoc. destruct nd as [attrs text|text].
  - cbn [canonical]. intros [[_ Ht]%andb_true_iff Hr]%andb_true_iff.
    rewrite feed_option by done. cbn [mbind option_bind snd]. by apply IH.
  - cbn [canonical tokens_of].
    intros [[[Ha%negb_true_iff Hn%bool_decide_eq_true]%andb_true_iff Ht]%andb_true_iff Hr]
      %andb_true_iff.
    rewrite feed_text by done. cbn [mbind option_bind]. by apply IH.
Qed.

Lemma escape_no_cr m s : no_cr s = true → no_cr (escape m s) = true.
Proof.
  unfold escape. induction s as [|c s IH]; [done|]. intros (Hc & Hs)%no_cr_cons.
  unfold no_cr in *. rewrite bind_cons, forallb_app, IH, andb_true_r by done.
  unfold escape_unit. repeat case_match; try done; simpl; by rewrite (proj2 (N.eqb_neq c 13)).
Qed.

Lemma serialize_attrs_no_cr attrs :
  forallb (λ a, no_cr a.1 && no_cr a.2) attrs = true →
  no_cr (concat (serialize_attr <$> attrs)) = true.
Proof.
  induction attrs as [|[n v] attrs IH]; [done|]. cbn [forallb fst snd].
  intros [[Hn Hv]%andb_true_iff Ha]%andb_true_iff.
  rewrite fmap_cons. cbn [concat]. rewrite no_cr_app, IH, andb_true_r by done.
  unfold serialize_attr. cbn [fst snd].
  by rewrite !no_cr_app, Hn, (escape_no_cr true v) by done.
Qed.

(** The serialisation of nodes without a carriage return has none. *)
Lemma serialize_no_cr nodes : cr_free nodes = true → no_cr (serialize nodes) = true.
Proof.
  unfold serialize. induction nodes as [|nd nodes IH]; [done|]. cbn [cr_free forallb].
  intros [Hn Hr]%andb_true_iff. rewrite fmap_cons. cbn [concat].
  rewrite no_cr_app, (IH Hr), andb_true_r. clear IH Hr.
  destruct nd as [attrs text|text]; cbn [serialize_node].
  - apply andb_true_iff in Hn as [Ha Ht].
    by rewrite !no_cr_app, (serialize_attrs_no_cr attrs), (escape_no_cr false text) by done.
  - by apply escape_no_cr.
Qed.

End serialised.

(** ** What tree construction builds *)

Section built.
Implicit Types (b : builder) (acc nodes : list node) (ts : list token).

Lemma canonical_app a nodes1 nodes2 :
  canonical a (nodes1 ++ nodes2)
  = canonical a nodes1
    && canonical (match last nodes1 with Some nd => head_is_text [nd] | None => a end) nodes2.
Proof.
  revert a. induction nodes1 as [|nd nodes1 IH]; intros a; [done|].
  rewrite last_cons. destruct nd; cbn [app canonical]; rewrite IH, <-!andb_assoc;
    by destruct (last nodes1).
Qed.

(** One more child at the end of the children built so far. *)
Lemma canonical_built nd acc :
  canonical false (reverse (nd :: acc))
  = canonical false (reverse acc) && canonical (head_is_text acc) [nd].
Proof.
  rewrite reverse_cons, canonical_app, last_reverse. by destruct acc as [|[]].
Qed.

Lemma attrs_ok_wf attrs : attrs_wf attrs → attrs_ok attrs = true.
Proof.
  intros [Hd Ha]. apply andb_true_iff. split; [by apply bool_decide_eq_true|].
  induction Ha as [|a attrs [Hn Hv] _ IH]; [done|]. apply NoDup_cons in Hd as [_ Hd].
  simpl. by rewrite Hn, Hv, IH.
Qed.

Lemma no_nul_snoc s c : c ≠ 0 → no_nul (s ++ [c]) = no_nul s.
Proof.
  intros Hc%N.eqb_neq. unfold no_nul. rewrite forallb_app. simpl. by rewrite Hc, andb_true_r.
Qed.

Lemma add_char_wf c b : c ≠ 0 → builder_wf b = true → builder_wf (add_char c b) = true.
Proof.
  intros Hc. pose proof (proj2 (N.eqb_neq c 0) Hc) as Hc'.
  destruct b as [o [|[attrs text|text] acc]]; unfold builder_wf; cbn [fst snd].
  - destruct o; [done|]. simpl. by rewrite Hc'.
  - rewrite canonical_built.
    destruct o; cbn [add_char fst snd]; rewrite !canonical_built;
      cbn [canonical head_is_text negb orb].
    + by rewrite no_nul_snoc.
    + intros [-> _]%andb_true_iff. simpl. by rewrite Hc'.
  - rewrite canonical_built. destruct o; [by rewrite andb_false_r|].
    cbn [add_char fst snd]. rewrite canonical_built. cbn [canonical negb orb].
    rewrite no_nul_snoc, !andb_true_r by done.
    intros [-> [[-> _]%andb_true_iff ->]%andb_true_iff]%andb_true_iff. simpl.
    rewrite andb_true_r. apply bool_decide_eq_true. by intros [_ ?]%app_eq_nil.
Qed.

(** Tree construction keeps the builder well formed on well-formed
    tokens. *)
Lemma feed_wf b t b' :
  builder_wf b = true → token_wf t → feed b t = Some b' → builder_wf b' = true.
Proof.
  intros Hb Ht. destruct t as [name attrs self|name|c]; simpl.
  - case_bool_decide; [|done]. intros [= <-]. unfold builder_wf in *. cbn [fst snd].
    apply andb_true_iff in Hb as [Hb _].
    by rewrite canonical_built, Hb; cbn [canonical]; rewrite attrs_ok_wf.
  - case_bool_decide; [|done]. intros [= <-]. unfold builder_wf in *. cbn [fst snd].
    by apply andb_true_iff in Hb as [-> _].
  - intros [= <-]. destruct (N.eqb_spec c 0); [done | by apply add_char_wf].
Qed.

Lemma feed_all_wf b ts b' :
  builder_wf b = true → Forall token_wf ts → feed_all b ts = Some b' → builder_wf b' = true.
Proof.
  intros Hb Hts. revert b Hb. induction Hts as [|t ts Ht _ IH]; intros b Hb; simpl.
  - by intros [= <-].
  - destruct (feed b t) as [b1|] eqn:E; [|done]. simpl. eauto using feed_wf.
Qed.

(** The children the parser gives are in canonical form: no attribute
    twice in an option, attribute names without upper-case letter,
    space, slash or angle bracket, no U+0000 in a value or a text, no
    empty text and no two texts in a row. *)
Lemma parse_canonical html nodes :
  parse_fragment html = Some nodes → canonical false nodes = true.
Proof.
  rewrite parse_fragment_tokens. destruct (tokenize html) as [ts|] eqn:E; [|done]. simpl.
  destruct (feed_all _ ts) as [b|] eqn:Eb; [|done]. intros [= <-].
  by destruct (andb_prop _ _ (feed_all_wf (false, []) ts b eq_refl (tokenize_wf _ _ E) Eb)).
Qed.

End built.

(** What the platform serialises reads back: the markup that
    [innerHTML] returns for children in canonical form (as tree
    construction builds them) that hold no carriage return parses to
    those children, attributes and texts unchanged, whatever other
    characters they hold. *)
Lemma parse_serialize nodes :
  canonical false nodes = true → cr_free nodes = true →
  parse_fragment (serialize nodes) = Some nodes.
Proof.
  intros Hc Hr. unfold parse_fragment, pstart.
  rewrite normalize_newlines_safe by by apply serialize_no_cr.
  rewrite parse_run_trun, (trun_serialize _ _ Hc). cbn [mbind option_bind].
  rewrite (feed_nodes [] nodes Hc). unfold parse_end. simpl.
  by rewrite app_nil_r, reverse_involutive.
Qed.

(** C10. Copying [innerHTML] copies the options (lines 12 and 20,
    [selB.innerHTML = selA.innerHTML]), on any browser: where the
    parser answers for the markup of the first select, with children
    that hold no carriage return and no angle bracket in an attribute
    value, the string read from [innerHTML] parses to these same
    children, so that the second select gets the options of the
    first. *)
Theorem copy_inner_html {browser : Browser} html nodes :
  parse_fragment html = Some nodes → stable nodes = true → cr_free nodes = true →
  parse_fragment (inner_html html) = Some nodes
  ∧ select_options (inner_html html) = select_options html.
Proof.
  intros Hp Hs Hr. rewrite (inner_html_parsed html nodes Hp Hs).
  pose proof (parse_serialize nodes (parse_canonical html nodes Hp) Hr) as Hq.
  by rewrite (select_options_parsed _ _ Hq), (select_options_parsed _ _ Hp).
Qed.

(** ** The value of the select and what can be picked *)

Section selection.
Implicit Types (opts : list option_el) (o : option_el).

Lemma options_of_app (l1 l2 : list node) :
  options_of (l1 ++ l2) = options_of l1 ++ options_of l2.
Proof. apply omap_app. Qed.

(** The value of a select is the empty string or the value of one of
    its options. *)
Lemma select_value_elem opts :
  select_value opts = [] ∨ select_value opts ∈ opt_value <$> opts.
Proof.
  unfold select_value.
  destruct (last (filter _ opts)) as [o|] eqn:El.
  - right. apply list_elem_of_fmap. exists o. split; [done|].
    apply last_Some in El as [l El].
    assert (o ∈ filter (λ o, opt_selected o = true) opts) as Ho
      by (rewrite El; apply elem_of_app; right; by apply list_elem_of_singleton).
    by apply list_elem_of_filter in Ho as [_ ?].
  - destruct (filter (λ o, opt_disabled o = false) opts) as [|o l] eqn:Ef; [by left|].
    right. apply list_elem_of_fmap. exists o. split; [done|].
    assert (o ∈ filter (λ o, opt_disabled o = false) opts) as Ho
      by (rewrite Ef; apply elem_of_cons; by left).
    by apply list_elem_of_filter in Ho as [_ ?].
Qed.

(** What can be picked is the value of an option. *)
Lemma choosable_values opts name : name ∈ choosable opts → name ∈ opt_value <$> opts.
Proof.
  unfold choosable. intros (o & -> & [_ Ho]%list_elem_of_filter)%list_elem_of_fmap.
  apply list_elem_of_fmap. by exists o.
Qed.

(** A placeholder that is selected and disabled, followed by options
    that are neither: the value is the placeholder's, and the options
    after it are what can be picked. *)
Lemma select_value_placeholder o opts :
  opt_selected o = true → Forall (λ o', opt_selected o' = false) opts →
  select_value (o :: opts) = opt_value o.
Proof.
  intros Ho Hn. unfold select_value. rewrite filter_cons_True by done.
  replace (filter (λ o, opt_selected o = true) opts) with (@nil option_el); [done|].
  symmetry. induction Hn as [|o' opts Ho' _ IH]; [done|].
  rewrite filter_cons_False by congruence. done.
Qed.

Lemma choosable_placeholder o opts :
  opt_disabled o = true → Forall (λ o', opt_disabled o' = false) opts →
  choosable (o :: opts) = opt_value <$> opts.
Proof.
  intros Ho Hn. unfold choosable. rewrite filter_cons_False by congruence.
  f_equal. induction Hn as [|o' opts Ho' _ IH]; [done|].
  rewrite filter_cons_True by done. by rewrite IH.
Qed.

End selection.

(** ** Concrete runs *)

Section examples.

(** A placeholder of the script: one option with three attributes. *)
Example parse_placeholder :
  parse_fragment (js "<option value=\x22\x22 disabled selected>...</option>")
  = Some [NOption [(str_value, []); (str_disabled, []); (str_selected, [])] (js "...")].
Proof. vm_compute. reflexivity. Qed.

(** Tag and attribute names are lower-cased, a repeated attribute is
    dropped, an unquoted value ends at a space, a missing end tag is
    implied by the next option, and CR LF is one line feed. *)
Example parse_lenient :
  parse_fragment (js "<OPTION Value=1 value=2 DISABLED>a\r\nb<option>  c   d ")
  = Some [NOption [(str_value, js "1"); (str_disabled, [])] (js "a\nb");
          NOption [] (js "  c   d ")]
  ∧ options_of [NOption [] (js "  c   d ")] = [OptionEl (js "c d") (js "c d") false false].
Proof. by_compute. Qed.

(** A value with a quote ends the attribute: what follows is read as
    attributes and tags. *)
Example parse_quote_in_value :
  options_of <$> parse_fragment (print_option (js "x\x22 selected=\x22") (js "t"))
  = Some [OptionEl (js "x") (js "t") false true].
Proof. vm_compute. reflexivity. Qed.

(** Character references are read.  Outside the fragment: a named
    reference that is none of the five, a comment, another tag. *)
Example parse_unanswered :
  parse_fragment (js "a&amp;b &#x41;") = Some [NText (js "a&b A")]
  ∧ parse_fragment (js "a & b") = Some [NText (js "a & b")]
  ∧ parse_fragment (js "&copy;") = None
  ∧ parse_fragment (js "<!-- c -->") = None
  ∧ parse_fragment (js "<b>x</b>") = None.
Proof. by_compute. Qed.

(** The value of a select: the last option marked selected, else the
    first that is not disabled. *)
Example select_value_table :
  select_value [] = []
  ∧ select_value [OptionEl (js "a") [] true false; OptionEl (js "b") [] false false] = js "b"
  ∧ select_value [OptionEl (js "a") [] false true; OptionEl (js "b") [] true true] = js "b"
  ∧ select_value [OptionEl (js "a") [] true false] = [].
Proof. by_compute. Qed.

Lemma parse_print_options_witness :
  parse_fragment (print_option (js "A") (js "Q & A") ++ print_option [] (js "it's") ++ [])
  = Some [NOption [(str_value, js "A")] (js "Q & A"); NOption [(str_value, [])] (js "it's")].
Proof.
  apply (parse_print_options [(js "A", js "Q & A"); ([], js "it's")]).
  repeat constructor.
Defined.

(** Children with characters the serialiser escapes: they read back
    as they were. *)
Lemma parse_serialize_witness :
  parse_fragment
    (serialize [NOption [(str_value, js "a\x22<&>b"); (str_selected, [])] (js "1 < 2 & 3");
                NText (js "R&D")])
  = Some [NOption [(str_value, js "a\x22<&>b"); (str_selected, [])] (js "1 < 2 & 3");
          NText (js "R&D")].
Proof. by apply parse_serialize. Defined.

(** A select with an escaped value, an escaped text and a text after
    the option, copied to another on the reference browser. *)
Lemma copy_inner_html_witness :
  parse_fragment
    (@inner_html reference_browser
       (js "<OPTION value='a&amp;\x22b' selected>1 &lt; 2 &#38; 3</option>R&amp;D"))
  = Some [NOption [(str_value, js "a&\x22b"); (str_selected, [])] (js "1 < 2 & 3");
          NText (js "R&D")]
  ∧ @select_options reference_browser
      (@inner_html reference_browser
         (js "<OPTION value='a&amp;\x22b' selected>1 &lt; 2 &#38; 3</option>R&amp;D"))
    = @select_options reference_browser
        (js "<OPTION value='a&amp;\x22b' selected>1 &lt; 2 &#38; 3</option>R&amp;D").
Proof. apply (@copy_inner_html reference_browser); vm_compute; reflexivity. Defined.

(** A carriage return written as a character reference is in the value
    of the option, and is a line feed once the markup has been read
    back through [innerHTML]. *)
Example carriage_return_not_kept :
  let nodes := [NOption [(str_value, [97; 13; 98])] []] in
  parse_fragment (js "<option value='a&#13;b'>") = Some nodes
  ∧ parse_fragment (serialize nodes) = Some [NOption [(str_value, [97; 10; 98])] []].
Proof. by_compute. Qed.

(** A value and a text that hold a character reference are read as
    the character. *)
Example parse_reference_in_option :
  options_of <$> parse_fragment (print_option (js "&#65;") (js "&#65;"))
  = Some [OptionEl (js "A") (js "A") false false].
Proof. vm_compute. reflexivity. Qed.

(** A name with an ampersand that starts no reference is safe; one that
    could start a reference is not. *)
Example safe_name_table :
  safe_name (js "Q & A") = true ∧ safe_name (js "A&") = true
  ∧ safe_name (js "R&D") = false ∧ safe_name (js "&#65;") = false
  ∧ safe_name (js "a\x22b") = false ∧ safe_name (js "a<b") = false.
Proof. by_compute. Qed.

End examples.
