(* ===== verification/SplitBody.v ===== *)
(** * SplitBody: the text segmenter ([splitBody], script.js lines 67-77)

    [splitBody] cuts the narrative of a scoring payload into a "strengths"
    part and a "cautions" part.  It tries six divider strings in a fixed
    order and cuts at the first one whose first occurrence is at an index
    greater than 0; failing that, a text of at most 140 code units is
    returned whole, and a longer one is cut at the middle code unit.

    The function is modelled twice.  [splitBody_str] is its behaviour on a
    string: the divider list, one iteration of the loop ([try_divider]),
    the loop ([split_at_dividers]) and the length rule, as pure functions.
    [splitBody] is the function as the script has it, on an argument of
    any type (the caller passes whatever the payload holds): every method
    call is dispatched on the receiver and may throw.  The refinement
    theorem shows that the second computes the first on strings and what
    it does on every other argument; the other theorems
    give the result on every branch, show that the two parts are disjoint
    pieces of the input in order, that no divider is accepted at index 0,
    the priority of the dividers, where the parts are trimmed and where
    they are not, and on which arguments the function throws. *)

From S2P Require Import Prelude Effects JsString JsNumber JsValue.
From stdpp Require Import strings.

Local Open Scope Z_scope.

(** Line 69: the dividers, in priority order. *)
Definition dividers : list jsstring :=
  Eval vm_compute in
    js <$> ["\n—\n"; "\n---\n"; "\n◇\n"; "\n■注意"; "注意："; "【注意】"]%string.

(** Lines 71-72, one iteration of the loop: the divider [d] is accepted
    when its first occurrence is at an index greater than 0; the text
    before it and the text from it on, with the divider removed, are
    trimmed. *)
Definition try_divider (text d : jsstring) : option (jsstring * jsstring) :=
  let idx := indexOf text d in
  if 0 <? idx
  then Some (trim (slice text 0 (Some idx)),
             trim (str_replace (slice text idx None) d []))
  else None.

(** Lines 70-73: the loop over the dividers returns at the first one
    accepted. *)
Fixpoint split_at_dividers (text : jsstring) (ds : list jsstring)
    : option (jsstring * jsstring) :=
  match ds with
  | [] => None
  | d :: ds' =>
    match try_divider text d with
    | Some r => Some r
    | None => split_at_dividers text ds'
    end
  end.

(** Lines 67-77 on a string argument.  [text.length] is an integer, so
    [Math.floor(text.length / 2)] is the integer quotient. *)
Definition splitBody_str (text : jsstring) : jsstring * jsstring :=
  if bool_decide (text = []) then ([], [])
  else match split_at_dividers text dividers with
       | Some r => r
       | None =>
         if js_length text <=? 140 then (text, [])
         else let mid := js_length text / 2 in
              (trim (slice text 0 (Some mid)), trim (slice text mid None))
       end.

(** ** The function on an argument of any type *)

(** Lines 71-72: the two elements of the returned array are evaluated in
    order, each method call on what the previous one returned. *)
Definition try_divider_any (text : value) (d : jsstring)
    : outcome (option (value * value)) :=
  idx ← call_indexOf text d;
  if 0 <? idx then
    a ← call_slice text 0 (Some idx) ≫= call_trim;
    b ← (call_slice text idx None ≫= λ t, call_replace t d []) ≫= call_trim;
    Ok (Some (a, b))
  else Ok None.

(** Lines 70-73. *)
Fixpoint loop_any (text : value) (ds : list jsstring)
    : outcome (option (value * value)) :=
  match ds with
  | [] => Ok None
  | d :: ds' =>
    r ← try_divider_any text d;
    match r with
    | Some p => Ok (Some p)
    | None => loop_any text ds'
    end
  end.

(** Lines 67-77. *)
Definition splitBody (text : value) : outcome (value * value) :=
  if negb (to_boolean text) then Ok (VStr [], VStr [])
  else
    r ← loop_any text dividers;
    match r with
    | Some p => Ok p
    | None =>
      len ← get_length text;
      if len <=? 140 then Ok (text, VStr [])
      else
        let mid := len / 2 in
        a ← call_slice text 0 (Some mid) ≫= call_trim;
        b ← call_slice text mid None ≫= call_trim;
        Ok (a, b)
    end.

(** [rejected text d]: the loop passes over [d]. *)
Definition rejected (text d : jsstring) : Prop := indexOf text d ≤ 0.

#[export] Instance rejected_dec text d : Decision (rejected text d) :=
  Z_le_dec _ _.

(** [cut_at text d pre post]: [d] first occurs in [text] after the
    non-empty [pre], and [post] follows it. *)
Definition cut_at (text d pre post : jsstring) : Prop :=
  text = pre ++ d ++ post ∧ pre ≠ [] ∧ indexOf text d = js_length pre.

(** [in_order text a b]: [a] and [b] are disjoint pieces of [text], [a]
    before [b]. *)
Definition in_order (text a b : jsstring) : Prop :=
  ∃ u v w, text = u ++ a ++ v ++ b ++ w.

(** ** One divider *)

Section try_divider_facts.
Implicit Types (text d pre post a b : jsstring).

(** [text.slice(idx).replace(d, "")] is the text after the divider. *)
Lemma slice_replace_divider text d :
  0 ≤ indexOf text d →
  str_replace (slice text (indexOf text d) None) d []
  = drop (Z.to_nat (indexOf text d) + length d) text.
Proof.
  intros H. rewrite slice_drop by done.
  pose proof (indexOf_nonneg_find _ _ H) as [k Hk]%find_sub_Some_prefix.
  rewrite <-(drop_drop text (length d)), Hk.
  by rewrite str_replace_head, drop_app_length.
Qed.

Lemma try_divider_Some text d a b :
  try_divider text d = Some (a, b) →
  ∃ pre post, cut_at text d pre post ∧ a = trim pre ∧ b = trim post.
Proof.
  unfold try_divider; cbv zeta. case_test; [|done]. bool_to_prop.
  intros [= <- <-].
  exists (take (Z.to_nat (indexOf text d)) text),
         (drop (Z.to_nat (indexOf text d) + length d) text).
  pose proof (indexOf_range text d) as [|[_ Hr]]; [lia|].
  unfold js_length in Hr.
  repeat split.
  - apply indexOf_split. lia.
  - intros E%(f_equal length). rewrite length_take in E. simpl in E. lia.
  - unfold js_length. rewrite length_take. lia.
  - by rewrite slice_take by lia.
  - by rewrite slice_replace_divider by lia.
Qed.

Lemma try_divider_None text d : try_divider text d = None ↔ indexOf text d ≤ 0.
Proof. unfold try_divider; cbv zeta. case_test; bool_to_prop; split; (done || lia). Qed.

(** A text that begins with the divider is not cut at it, whatever
    follows: only the first occurrence is looked at. *)
Lemma try_divider_at_0 d rest : try_divider (d ++ rest) d = None.
Proof. apply try_divider_None. by rewrite indexOf_app_0. Qed.

End try_divider_facts.

(** ** The loop *)

Section loop_facts.
Implicit Types (text d pre post a b : jsstring) (ds : list jsstring).

Lemma split_at_dividers_None text ds :
  split_at_dividers text ds = None ↔ Forall (rejected text) ds.
Proof.
  induction ds as [|d ds IH]; simpl; [done|].
  unfold rejected at 1. rewrite Forall_cons, <-IH, <-try_divider_None.
  destruct (try_divider text d); intuition congruence.
Qed.

(** The loop returns the cut at the first accepted divider. *)
Lemma split_at_dividers_first text ds1 d ds2 :
  Forall (rejected text) ds1 →
  split_at_dividers text (ds1 ++ d :: ds2)
  = match try_divider text d with
    | Some r => Some r
    | None => split_at_dividers text ds2
    end.
Proof.
  induction 1 as [|d' ds1 Hd _ IH]; simpl; [done|].
  apply try_divider_None in Hd. by rewrite Hd.
Qed.

Lemma split_at_dividers_Some text ds r :
  split_at_dividers text ds = Some r →
  ∃ ds1 d ds2, ds = ds1 ++ d :: ds2 ∧ Forall (rejected text) ds1
               ∧ try_divider text d = Some r.
Proof.
  induction ds as [|d ds IH]; simpl; [done|].
  destruct (try_divider text d) as [r'|] eqn:E.
  - intros [= ->]. by exists [], d, ds.
  - intros (ds1 & d' & ds2 & -> & H1 & H2)%IH.
    exists (d :: ds1), d', ds2. split_and!; [done| |done].
    constructor; [by apply try_divider_None | done].
Qed.

Lemma in_order_trim pre mid post :
  in_order (pre ++ mid ++ post) (trim pre) (trim post).
Proof.
  destruct (trim_decomp pre) as (a1 & a2 & Ha & _).
  destruct (trim_decomp post) as (b1 & b2 & Hb & _).
  exists a1, (a2 ++ mid ++ b1), b2.
  rewrite Ha at 1. rewrite Hb at 1. by simplify_list_eq.
Qed.

(** The cut at a divider is determined by the text and the divider. *)
Lemma cut_at_inj text d pre post pre' post' :
  cut_at text d pre post → cut_at text d pre' post' → pre = pre' ∧ post = post'.
Proof.
  intros (H1 & _ & I1) (H2 & _ & I2).
  assert (length pre = length pre') as Hl by (unfold js_length in *; lia).
  rewrite H1 in H2. apply app_inj_1 in H2 as [-> H2]; [|done].
  by apply app_inv_head in H2.
Qed.

End loop_facts.

(** ** The function *)

Section splitBody_facts.
Implicit Types (text d pre post a b : jsstring) (ds : list jsstring).

Lemma splitBody_str_nonempty text :
  text ≠ [] →
  splitBody_str text
  = match split_at_dividers text dividers with
    | Some r => r
    | None =>
      if js_length text <=? 140 then (text, [])
      else (trim (slice text 0 (Some (js_length text / 2))),
            trim (slice text (js_length text / 2) None))
    end.
Proof. intros H. unfold splitBody_str. by rewrite bool_decide_eq_false_2. Qed.

Lemma accepted_nonempty text d : 0 < indexOf text d → text ≠ [].
Proof.
  intros H ->. pose proof (indexOf_range [] d) as [|[_ Hr]]; [lia|].
  unfold js_length in Hr. simpl in Hr. lia.
Qed.

(** An empty narrative yields two empty parts. *)
Theorem splitBody_str_empty : splitBody_str [] = ([], []).
Proof. reflexivity. Qed.

(** C3. When a divider is accepted (its first occurrence is at an index
    greater than 0) and every divider of higher priority is rejected, the
    text is cut at the first occurrence of that divider: strengths is the
    trimmed text before it, cautions the trimmed text after it, and the
    divider itself is in neither. *)
Theorem splitBody_str_divider text ds1 d ds2 :
  dividers = ds1 ++ d :: ds2 →
  Forall (rejected text) ds1 →
  0 < indexOf text d →
  ∃ pre post, cut_at text d pre post ∧ splitBody_str text = (trim pre, trim post).
Proof.
  intros Hds H1 Hd.
  rewrite splitBody_str_nonempty by by eapply accepted_nonempty.
  rewrite Hds, split_at_dividers_first by done.
  destruct (try_divider text d) as [[a b]|] eqn:E.
  - apply try_divider_Some in E as (pre & post & Hc & -> & ->). eauto.
  - apply try_divider_None in E. lia.
Qed.

(** C38. With no divider accepted, a text of at most 140 code units is
    returned whole as strengths, untrimmed, with empty cautions. *)
Theorem splitBody_str_short text :
  Forall (rejected text) dividers → js_length text ≤ 140 →
  splitBody_str text = (text, []).
Proof.
  intros H%split_at_dividers_None Hl.
  destruct (decide (text = [])) as [->|Hne]; [done|].
  rewrite splitBody_str_nonempty, H by done.
  by rewrite (proj2 (Z.leb_le _ _)).
Qed.

(** With no divider accepted, a text of more than 140 code units is
    cut at the code unit of index floor(length / 2), and both halves are
    trimmed. *)
Theorem splitBody_str_long text :
  Forall (rejected text) dividers → 140 < js_length text →
  splitBody_str text
  = (trim (take (Z.to_nat (js_length text / 2)) text),
     trim (drop (Z.to_nat (js_length text / 2)) text)).
Proof.
  intros H%split_at_dividers_None Hl.
  assert (text ≠ []) by (intros ->; unfold js_length in Hl; simpl in Hl; lia).
  rewrite splitBody_str_nonempty, H by done.
  rewrite (proj2 (Z.leb_gt _ _)) by done.
  assert (0 ≤ js_length text / 2) by (apply Z.div_pos; lia).
  by rewrite slice_take, slice_drop.
Qed.

(** C23. On every input the two parts are disjoint pieces of the text, the
    strengths part before the cautions part: nothing is invented, nothing
    is reordered, nothing is shown twice. *)
Theorem splitBody_str_in_order text :
  in_order text (splitBody_str text).1 (splitBody_str text).2.
Proof.
  destruct (decide (text = [])) as [->|Hne]; [by exists [], [], []|].
  rewrite splitBody_str_nonempty by done.
  destruct (split_at_dividers text dividers) as [[a b]|] eqn:E.
  - apply split_at_dividers_Some in E as (_ & d & _ & _ & _ & E).
    apply try_divider_Some in E as (pre & post & (Ht & _) & -> & ->).
    rewrite Ht at 1. apply in_order_trim.
  - case_test; simpl.
    + exists [], [], []. by simplify_list_eq.
    + assert (0 ≤ js_length text / 2)
        by (apply Z.div_pos; [apply js_length_nonneg | lia]).
      rewrite slice_take, slice_drop by done.
      rewrite <-(take_drop (Z.to_nat (js_length text / 2)) text) at 1.
      apply (in_order_trim _ []).
Qed.

(** A divider at the very start of the text is never a cut point,
    even when the same divider occurs again further on. *)
Theorem divider_at_start_ignored d rest ds :
  split_at_dividers (d ++ rest) (d :: ds) = split_at_dividers (d ++ rest) ds.
Proof. simpl. by rewrite try_divider_at_0. Qed.

(** Whenever the text is cut (at a divider or at the middle), both
    parts come out trimmed. *)
Theorem splitBody_str_trimmed text :
  ¬ Forall (rejected text) dividers ∨ 140 < js_length text →
  trimmed (splitBody_str text).1 = true ∧ trimmed (splitBody_str text).2 = true.
Proof.
  intros Hc.
  assert (text ≠ []) as Hne.
  { intros ->. destruct Hc as [Hc|Hc]; [|unfold js_length in Hc; simpl in Hc; lia].
    apply Hc. by apply split_at_dividers_None. }
  rewrite splitBody_str_nonempty by done.
  destruct (split_at_dividers text dividers) as [[a b]|] eqn:E.
  - apply split_at_dividers_Some in E as (_ & d & _ & _ & _ & E).
    apply try_divider_Some in E as (pre & post & _ & -> & ->).
    split; apply trimmed_trim.
  - apply split_at_dividers_None in E.
    destruct Hc as [Hc|Hc]; [done|].
    rewrite (proj2 (Z.leb_gt _ _)) by done. split; apply trimmed_trim.
Qed.

End splitBody_facts.

(** ** The function on any argument *)

Section any_facts.
Implicit Types (text : value) (s d : jsstring) (l : list value).

Lemma try_divider_any_string s d :
  try_divider_any (VStr s) d
  = Ok ((λ p, (VStr p.1, VStr p.2)) <$> try_divider s d).
Proof. unfold try_divider_any, try_divider; simpl. by case_test. Qed.

Lemma loop_any_string s ds :
  loop_any (VStr s) ds = Ok ((λ p, (VStr p.1, VStr p.2)) <$> split_at_dividers s ds).
Proof.
  induction ds as [|d ds IH]; simpl; [done|].
  rewrite try_divider_any_string. simpl. by destruct (try_divider s d).
Qed.

(** On a string argument the function as written computes
    [splitBody_str] and does not throw. *)
Lemma splitBody_string s :
  splitBody (VStr s) = Ok (VStr (splitBody_str s).1, VStr (splitBody_str s).2).
Proof.
  unfold splitBody, splitBody_str. destruct s as [|c s]; [done|].
  change (negb (to_boolean (VStr (c :: s)))) with false.
  rewrite loop_any_string, bool_decide_eq_false_2  by done.
  destruct (split_at_dividers (c :: s) dividers) as [[a b]|]; simpl; [done|].
  by case_test.
Qed.

(** A falsy argument (absent, [null], [false], 0, NaN, the empty string)
    yields two empty strings. *)
Lemma splitBody_falsy text : to_boolean text = false → splitBody text = Ok (VStr [], VStr []).
Proof. unfold splitBody. by intros ->. Qed.

Lemma try_divider_any_array l d :
  try_divider_any (VArr l) d
  = if 0 <? array_indexOf_from l d 0 then Throw TypeError else Ok None.
Proof. unfold try_divider_any; simpl. by case_test. Qed.

Lemma loop_any_array l ds :
  loop_any (VArr l) ds
  = if existsb (λ d, 0 <? array_indexOf_from l d 0) ds then Throw TypeError else Ok None.
Proof.
  induction ds as [|d ds IH]; simpl; [done|].
  rewrite try_divider_any_array. by case_test.
Qed.

(** On an array (which has [indexOf], [slice] and [length] but no
    [trim]) the function returns the array itself as strengths when no
    divider is an element at an index greater than 0 and the array has at
    most 140 elements, and throws a TypeError otherwise. *)
Lemma splitBody_array l :
  splitBody (VArr l)
  = if existsb (λ d, 0 <? array_indexOf_from l d 0) dividers then Throw TypeError
    else if Z.of_nat (length l) <=? 140 then Ok (VArr l, VStr [])
    else Throw TypeError.
Proof.
  unfold splitBody. change (negb (to_boolean (VArr l))) with false.
  rewrite loop_any_array. case_test; [done|]. simpl. by case_test.
Qed.

(** A truthy argument that is neither a string nor an array has no
    [indexOf] to call: the function throws a TypeError. *)
Lemma splitBody_not_indexable text :
  to_boolean text = true →
  match text with VStr _ | VArr _ => False | _ => True end →
  splitBody text = Throw TypeError.
Proof. unfold splitBody. intros -> H. by destruct text. Qed.

(** C4. Refinement: the function as written, with every method call
    dispatched on the receiver, is [splitBody_str] on a string and does
    not throw there; a falsy argument gives two empty strings; an array
    comes back whole when it has at most 140 elements and no divider is
    an element of it at an index greater than 0; every other argument
    ends in a TypeError. *)
Theorem splitBody_cases text :
  splitBody text
  = if to_boolean text then
      match text with
      | VStr s => Ok (VStr (splitBody_str s).1, VStr (splitBody_str s).2)
      | VArr l =>
        if existsb (λ d, 0 <? array_indexOf_from l d 0) dividers then Throw TypeError
        else if Z.of_nat (length l) <=? 140 then Ok (VArr l, VStr [])
        else Throw TypeError
      | _ => Throw TypeError
      end
    else Ok (VStr [], VStr []).
Proof.
  destruct (to_boolean text) eqn:Hb; [|by apply splitBody_falsy].
  destruct text; auto using splitBody_string, splitBody_array, splitBody_not_indexable.
Qed.

(** The only exception the function throws is a TypeError. *)
Lemma splitBody_error text e : splitBody text = Throw e → e = TypeError.
Proof.
  destruct (to_boolean text) eqn:Hb; [|by rewrite splitBody_falsy].
  destruct text as [| | | |s|l|];
    try (rewrite splitBody_not_indexable by done; congruence).
  - by rewrite splitBody_string.
  - rewrite splitBody_array. repeat case_test; congruence.
Qed.

(** The function completes normally exactly on falsy arguments, on
    strings, and on arrays of at most 140 elements in which no divider is
    an element at an index greater than 0. *)
Theorem splitBody_ok_iff text :
  is_ok (splitBody text) = true ↔
  to_boolean text = false
  ∨ match text with
    | VStr _ => True
    | VArr l => existsb (λ d, 0 <? array_indexOf_from l d 0) dividers = false
                ∧ Z.of_nat (length l) ≤ 140
    | _ => False
    end.
Proof.
  destruct (to_boolean text) eqn:Hb.
  2: { rewrite splitBody_falsy by done. split; auto. }
  destruct text as [| | | |s|l|];
    try (rewrite splitBody_not_indexable by done; split; [done | by intros [|]]).
  - rewrite splitBody_string. split; auto.
  - rewrite splitBody_array. destruct (existsb _ dividers); simpl.
    + split; [done | by intros [|[? _]]].
    + destruct (Z.leb_spec (Z.of_nat (length l)) 140); simpl.
      * split; auto.
      * split; [done | intros [|[_ ?]]; [done | lia]].
Qed.

End any_facts.

(** ** Concrete runs *)

Section examples.

(** The end-to-end narrative of the specification. *)
Example splitBody_str_spec_scenario :
  splitBody_str (js "Strength text\n—\nCaution text")
  = (js "Strength text", js "Caution text").
Proof. reflexivity. Qed.

(** Priority is by position in the divider list, not in the text: the
    note marker comes first in this text, the em-dash line still wins. *)
Example splitBody_str_priority :
  splitBody_str (js "a 注意：b\n—\nc") = (js "a 注意：b", js "c").
Proof. reflexivity. Qed.

(** A leading divider is skipped although it occurs a second time. *)
Example splitBody_str_leading_divider :
  splitBody_str (js "\n---\nabc\n---\ndef") = (js "\n---\nabc\n---\ndef", []).
Proof. reflexivity. Qed.

(** The short branch returns the text as it is: leading and trailing
    white space stays. *)
Example splitBody_str_short_untrimmed :
  splitBody_str (js " a ") = (js " a ", []) ∧ trim (js " a ") = js "a".
Proof. split; reflexivity. Qed.

Lemma splitBody_str_divider_witness :
  ∃ pre post,
    cut_at (js "Strength text\n—\nCaution text") (js "\n—\n") pre post
    ∧ splitBody_str (js "Strength text\n—\nCaution text") = (trim pre, trim post).
Proof.
  apply (splitBody_str_divider _ [] _ (tail dividers));
    [reflexivity | constructor | compute_done].
Defined.

Lemma splitBody_str_short_witness :
  splitBody_str (js "Calm and steady.") = (js "Calm and steady.", []).
Proof. apply splitBody_str_short; compute_done. Defined.

Lemma splitBody_str_long_witness :
  splitBody_str (replicate 71 97%N ++ [32%N] ++ replicate 71 98%N)
  = (replicate 71 97%N, replicate 71 98%N).
Proof.
  exact (splitBody_str_long (replicate 71 97%N ++ [32%N] ++ replicate 71 98%N)
           ltac:(compute_done) ltac:(compute_done)).
Defined.

Lemma splitBody_str_trimmed_witness :
  trimmed (splitBody_str (js " x \n◇\n y ")).1 = true
  ∧ trimmed (splitBody_str (js " x \n◇\n y ")).2 = true.
Proof. apply splitBody_str_trimmed. left. compute_done. Defined.

(** A number as narrative has no [indexOf]. *)
Example splitBody_number : splitBody (VNum (of_Z 5)) = Throw TypeError.
Proof. reflexivity. Qed.

(** An empty array is truthy and is returned as it is: the caller then
    shows its string, which is empty. *)
Example splitBody_empty_array : splitBody (VArr []) = Ok (VArr [], VStr []).
Proof. reflexivity. Qed.

End examples.
