(* ===== verification/Dom.v ===== *)
(** * Dom: the page and the session state

    The script keeps its state in two places: the document (the elements
    it finds with [document.querySelector] and writes to) and the object
    [state = { chart, types }] of line 7.  This file models both as one
    record, [world], and gives the primitive operations on it that the
    handlers are made of: [query] for the helper [$] of line 4, and the
    property writes [el.textContent = v], [el.innerHTML = s],
    [el.style.display = s] and [el.style.width = s], the reads
    [el.innerHTML] and [el.value], and [el.addEventListener].

    An element records how its children were last set: as text
    ([textContent]) or as markup ([innerHTML]).  Assigning markup gives
    the element the value a select takes from the options the markup
    parses to, and reading [innerHTML] back returns the serialisation of
    the children, both through the interface [Browser] of [Markup].  A
    write through a selector that
    matches no element is a write to a property of [null] and throws a
    TypeError.  [style.width] keeps its previous value when it is given a
    string that is not a non-negative CSS percentage, as CSS declarations
    do. *)

From S2P Require Import Prelude Effects JsString JsNumber JsValue Tokenizer Markup.
From stdpp Require Import gmap strings.

Local Open Scope Z_scope.

(** The children of an element, by the property that set them. *)
Inductive content :=
  | Text (s : jsstring)
  | Markup (html : jsstring).

#[export] Instance content_eq_dec : EqDecision content.
Proof. solve_decision. Defined.

(** The event handlers of the script. *)
Inductive handler := HInit | HRunScore.

#[export] Instance handler_eq_dec : EqDecision handler.
Proof. solve_decision. Defined.

Record element := Element {
  el_content : content;
  el_display : jsstring;          (* style.display *)
  el_width : jsstring;            (* style.width *)
  el_value : jsstring;            (* value of a form control *)
  el_click : list handler         (* click listeners, in registration order *)
}.

#[export] Instance element_eq_dec : EqDecision element.
Proof. solve_decision. Defined.

(** An element as the page's markup declares it, before any script ran. *)
Definition blank_element : element := Element (Text []) [] [] [] [].

(** The radar chart instance held in [state.chart]: whether it was
    created on a canvas, the type and the options it was created with,
    the data object it was last given, and how many times it was drawn
    (once at creation, once per [update()]). *)
Record chart := Chart {
  chart_canvas : bool;
  chart_kind : jsstring;
  chart_data : value;
  chart_options : value;
  chart_draws : nat
}.

(** The document and the [state] object of line 7. *)
Record world := World {
  doc : gmap jsstring element;
  st_chart : option chart;        (* state.chart, null at start *)
  st_types : value                (* state.types, [] at start *)
}.

(** The element after its children are replaced by the text [s]: a
    select is left without an option, and its value is the empty
    string. *)
Definition with_text (s : jsstring) (el : element) : element :=
  Element (Text s) (el_display el) (el_width el) [] (el_click el).
Definition with_display (s : jsstring) (el : element) : element :=
  Element (el_content el) s (el_width el) (el_value el) (el_click el).
Definition with_width (s : jsstring) (el : element) : element :=
  Element (el_content el) (el_display el) s (el_value el) (el_click el).
Definition with_value (s : jsstring) (el : element) : element :=
  Element (el_content el) (el_display el) (el_width el) s (el_click el).
Definition with_click (hs : list handler) (el : element) : element :=
  Element (el_content el) (el_display el) (el_width el) (el_value el) hs.

Definition set_doc (d : gmap jsstring element) (w : world) : world :=
  World d (st_chart w) (st_types w).
Definition set_chart (c : option chart) (w : world) : world :=
  World (doc w) c (st_types w).
Definition set_types (t : value) (w : world) : world :=
  World (doc w) (st_chart w) t.

(** [update_el sel f w]: the element [sel] selects, if any, changed by [f]. *)
Definition update_el (sel : jsstring) (f : element → element) (w : world) : world :=
  set_doc (alter f sel (doc w)) w.

(** [f] at the element selected by [s], the identity elsewhere: what
    [update_el s f] does to the element a selector [sel] finds. *)
Definition on_sel (s : jsstring) (f : element → element) (sel : jsstring)
    (el : element) : element :=
  if decide (s = sel) then f el else el.

(** Line 4: [$(sel)], the first element matching [sel] or [null]. *)
Definition query (sel : jsstring) : prog world (option element) :=
  w ← get_state; mret (doc w !! sel).

(** The conversion of a value assigned to [textContent], a nullable
    string attribute: [null] and [undefined] become the empty string. *)
Definition dom_string (v : value) : outcome jsstring :=
  if is_nullish v then Ok [] else to_string v.

(** [$(sel).textContent = v] *)
Definition set_textContent (sel : jsstring) (v : value) : prog world unit :=
  el ← query sel;
  match el with
  | None => throw TypeError
  | Some _ =>
    s ← lift (dom_string v);
    modify_state (update_el sel (with_text s))
  end.

Section markup.
Context {browser : Browser}.

(** The element after its children are replaced by parsed markup.  The
    script assigns markup to the two [select] elements only: the
    options are those the browser parses, and the value of the control
    is the one the new options select. *)
Definition with_markup (html : jsstring) (el : element) : element :=
  Element (Markup html) (el_display el) (el_width el)
    (select_value (select_options html)) (el_click el).

(** The options of a select, by the property that set its children. *)
Definition options_of_el (el : element) : list option_el :=
  match el_content el with
  | Markup html => select_options html
  | Text _ => []
  end.

(** What [innerHTML] reads: the serialisation of the children. *)
Definition markup_of (el : element) : jsstring :=
  match el_content el with
  | Markup html => inner_html html
  | Text s => escape false s
  end.

(** [$(sel).innerHTML = html] *)
Definition set_innerHTML (sel : jsstring) (html : jsstring) : prog world unit :=
  el ← query sel;
  match el with
  | None => throw TypeError
  | Some _ => modify_state (update_el sel (with_markup html))
  end.

(** [$(sel).innerHTML] *)
Definition get_innerHTML (sel : jsstring) : prog world jsstring :=
  el ← query sel;
  match el with
  | None => throw TypeError
  | Some e => mret (markup_of e)
  end.

End markup.

(** [$(sel).value] *)
Definition get_value (sel : jsstring) : prog world jsstring :=
  el ← query sel;
  match el with
  | None => throw TypeError
  | Some e => mret (el_value e)
  end.

(** [EventTarget.addEventListener]: a listener already registered for the
    event is not added a second time. *)
Definition add_listener (h : handler) (hs : list handler) : list handler :=
  if bool_decide (h ∈ hs) then hs else hs ++ [h].

(** [$(sel).addEventListener("click", h)] *)
Definition add_click_listener (sel : jsstring) (h : handler) : prog world unit :=
  el ← query sel;
  match el with
  | None => throw TypeError
  | Some e => modify_state (update_el sel (with_click (add_listener h (el_click e))))
  end.

(** A CSS number: digits with an optional fraction of at least one digit
    and an optional exponent; no sign (a negative width is not valid). *)
Definition css_number (s : jsstring) : bool :=
  let '(_, ni, r1) := span_digits 10 s 0 0 in
  let '(nf, r2, dot_ok) :=
    match r1 with
    | c :: r =>
      if (c =? 46)%N
      then let '(_, n, r') := span_digits 10 r 0 0 in (n, r', 0 <? n)
      else (0, r1, true)
    | [] => (0, r1, true)
    end in
  dot_ok && (0 <? ni + nf) && bool_decide (is_Some (parse_exponent r2)).

(** A non-negative CSS percentage. *)
Definition css_percentage (s : jsstring) : bool :=
  match reverse s with
  | c :: r => (c =? 37)%N && css_number (reverse r)
  | [] => false
  end.

(** The effect of assigning [s] to [style.width]: kept only if valid. *)
Definition update_width (sel s : jsstring) (w : world) : world :=
  if css_percentage s then update_el sel (with_width s) w else w.

(** [$(sel).style.width = s] *)
Definition set_style_width (sel : jsstring) (s : jsstring) : prog world unit :=
  el ← query sel;
  match el with
  | None => throw TypeError
  | Some _ => modify_state (update_width sel s)
  end.

(** [el.style.display = s] for an element already found; [s] is one of
    the keywords [block] and [none]. *)
Definition set_style_display (sel : jsstring) (s : jsstring) : prog world unit :=
  modify_state (update_el sel (with_display s)).

(** What a handler keeps of the [state] object. *)
Definition keep_types : relation world := λ w w', st_types w' = st_types w.
Definition keep_chart : relation world := λ w w', st_chart w' = st_chart w.

(** The catalog held in [state.types] holds strings of 16-bit code
    units only; [keep_wf] relates a state to those in which it still
    does. *)
Definition types_ok (w : world) : Prop := wf_value (st_types w) = true.
Definition keep_wf : relation world := λ w w', types_ok w → types_ok w'.

(** A relation between the states before and after that no write to an
    element disturbs. *)
Class Kept (keep : relation world) := {
  kept_preorder :: PreOrder keep;
  kept_update_el sel f w : keep w (update_el sel f w)
}.

(** [frame_with keep sels w w']: from [w] to [w'] only elements selected
    by [sels] changed, no element appeared or disappeared, and [keep]
    relates the two states.  [frame] keeps [state.types]. *)
Definition frame_with (keep : relation world) (sels : list jsstring) : relation world :=
  λ w w',
    (∀ sel, sel ∉ sels → doc w' !! sel = doc w !! sel)
    ∧ dom (doc w') = dom (doc w)
    ∧ keep w w'.

Notation frame := (frame_with keep_types).

(** [all_elements Q w]: every element of the page satisfies [Q], which
    may depend on the selector.  [keeps I] relates a state to the states
    in which [I] still holds if it held. *)
Definition all_elements (Q : jsstring → element → Prop) (w : world) : Prop :=
  map_Forall Q (doc w).

Definition keeps (I : world → Prop) : relation world := λ w w', I w → I w'.

(** A property of elements that the writes to content, markup and style
    maintain. *)
Class WriteClosed {browser : Browser} (Q : jsstring → element → Prop) := {
  closed_text sel s el : Q sel el → Q sel (with_text s el);
  closed_markup sel h el : Q sel el → Q sel (with_markup h el);
  closed_display sel s el : Q sel el → Q sel (with_display s el);
  closed_width sel s el : Q sel el → Q sel (with_width s el)
}.

(** ** Facts on the primitive writes *)

Section dom_facts.
Implicit Types (w : world) (sel : jsstring) (el : element) (f : element → element).

Lemma update_el_lookup sel f w :
  doc (update_el sel f w) !! sel = f <$> doc w !! sel.
Proof. unfold update_el. simpl. by rewrite lookup_alter_eq. Qed.

Lemma update_el_lookup_ne sel (sel2 : jsstring) f w :
  sel ≠ sel2 → doc (update_el sel f w) !! sel2 = doc w !! sel2.
Proof. intros. unfold update_el. simpl. by rewrite lookup_alter_ne. Qed.

Lemma on_sel_eq s f el : on_sel s f s el = f el.
Proof. unfold on_sel. by rewrite decide_True. Qed.

Lemma on_sel_ne s f sel el : s ≠ sel → on_sel s f sel el = el.
Proof. intros. unfold on_sel. by rewrite decide_False. Qed.

Lemma update_el_lookup_on s f w sel :
  doc (update_el s f w) !! sel = on_sel s f sel <$> doc w !! sel.
Proof.
  unfold on_sel. case_decide as H.
  - subst. apply update_el_lookup.
  - rewrite update_el_lookup_ne by done. by destruct (doc w !! sel).
Qed.

Lemma update_el_chart sel f w : st_chart (update_el sel f w) = st_chart w.
Proof. done. Qed.

Lemma update_el_types sel f w : st_types (update_el sel f w) = st_types w.
Proof. done. Qed.

(** A write through a selector that matches nothing changes nothing. *)
Lemma update_el_missing sel f w : doc w !! sel = None → update_el sel f w = w.
Proof. intros H. unfold update_el. rewrite alter_id' by done. by destruct w. Qed.

(** No write adds or removes an element. *)
Lemma update_el_dom sel f w : dom (doc (update_el sel f w)) = dom (doc w).
Proof. unfold update_el. simpl. apply leibniz_equiv, dom_alter. Qed.

Lemma update_el_is_Some sel (sel2 : jsstring) f w :
  is_Some (doc (update_el sel f w) !! sel2) ↔ is_Some (doc w !! sel2).
Proof. by rewrite <-!elem_of_dom, update_el_dom. Qed.

Lemma update_width_is_Some sel (sel2 : jsstring) s w :
  is_Some (doc (update_width sel s w) !! sel2) ↔ is_Some (doc w !! sel2).
Proof. unfold update_width. case_test; [apply update_el_is_Some | done]. Qed.

Lemma update_width_lookup_ne sel (sel2 : jsstring) s w :
  sel ≠ sel2 → doc (update_width sel s w) !! sel2 = doc w !! sel2.
Proof. intros. unfold update_width. case_test; [by apply update_el_lookup_ne | done]. Qed.

Lemma update_width_lookup_on s v w sel :
  doc (update_width s v w) !! sel
  = on_sel s (if css_percentage v then with_width v else id) sel <$> doc w !! sel.
Proof.
  unfold update_width. destruct (css_percentage v); [apply update_el_lookup_on|].
  unfold on_sel. by case_decide; destruct (doc w !! sel).
Qed.

End dom_facts.

#[export] Hint Rewrite update_el_lookup update_el_chart update_el_types : js.
#[export] Hint Rewrite update_el_lookup_ne using done : js.

(** ** Run equations

    Each primitive applied to a state, as a case analysis on the element
    looked up and on the conversion of the value written. *)

Section run_equations.
Context {browser : Browser}.
Implicit Types (w : world) (sel : jsstring) (v : value).

Lemma query_run sel w : query sel w = (Ok (doc w !! sel), w).
Proof. done. Qed.

Lemma lift_run {A} (m : outcome A) w : lift m w = (m, w).
Proof. done. Qed.

Lemma set_textContent_run sel v w :
  set_textContent sel v w
  = match doc w !! sel with
    | None => (Throw TypeError, w)
    | Some _ =>
      match dom_string v with
      | Ok s => (Ok (), update_el sel (with_text s) w)
      | Throw e => (Throw e, w)
      end
    end.
Proof.
  unfold set_textContent. rewrite prog_bind_run, query_run.
  destruct (doc w !! sel); [|done].
  rewrite prog_bind_run, lift_run. by destruct (dom_string v).
Qed.

Lemma set_innerHTML_run sel html w :
  set_innerHTML sel html w
  = match doc w !! sel with
    | None => (Throw TypeError, w)
    | Some _ => (Ok (), update_el sel (with_markup html) w)
    end.
Proof.
  unfold set_innerHTML. rewrite prog_bind_run, query_run.
  by destruct (doc w !! sel).
Qed.

Lemma get_innerHTML_run sel w :
  get_innerHTML sel w
  = match doc w !! sel with
    | None => (Throw TypeError, w)
    | Some e => (Ok (markup_of e), w)
    end.
Proof.
  unfold get_innerHTML. rewrite prog_bind_run, query_run.
  by destruct (doc w !! sel).
Qed.

Lemma get_value_run sel w :
  get_value sel w
  = match doc w !! sel with
    | None => (Throw TypeError, w)
    | Some e => (Ok (el_value e), w)
    end.
Proof.
  unfold get_value. rewrite prog_bind_run, query_run.
  by destruct (doc w !! sel).
Qed.

Lemma add_click_listener_run sel h w :
  add_click_listener sel h w
  = match doc w !! sel with
    | None => (Throw TypeError, w)
    | Some e => (Ok (), update_el sel (with_click (add_listener h (el_click e))) w)
    end.
Proof.
  unfold add_click_listener. rewrite prog_bind_run, query_run.
  by destruct (doc w !! sel).
Qed.

Lemma set_style_width_run sel s w :
  set_style_width sel s w
  = match doc w !! sel with
    | None => (Throw TypeError, w)
    | Some _ => (Ok (), update_width sel s w)
    end.
Proof.
  unfold set_style_width. rewrite prog_bind_run, query_run.
  by destruct (doc w !! sel).
Qed.

Lemma set_style_display_run sel s w :
  set_style_display sel s w = (Ok (), update_el sel (with_display s) w).
Proof. done. Qed.

(** A string written as text is stored as it is. *)
Lemma set_textContent_str sel s w :
  is_Some (doc w !! sel) →
  set_textContent sel (VStr s) w = (Ok (), update_el sel (with_text s) w).
Proof. intros [el H]. by rewrite set_textContent_run, H. Qed.

Lemma dom_string_error v e : dom_string v = Throw e → e = TypeError.
Proof. unfold dom_string. case_test; [done | apply to_string_error]. Qed.

Lemma dom_string_str s : dom_string (VStr s) = Ok s.
Proof. done. Qed.

End run_equations.

(** ** Exceptions and frames of the primitives *)

#[export] Instance keep_types_kept : Kept keep_types.
Proof. split; [split|]; [by intros w | intros w1 w2 w3; unfold keep_types; congruence | done]. Qed.

#[export] Instance keep_chart_kept : Kept keep_chart.
Proof. split; [split|]; [by intros w | intros w1 w2 w3; unfold keep_chart; congruence | done]. Qed.

#[export] Instance keep_wf_kept : Kept keep_wf.
Proof. split; [split|]; unfold keep_wf; [by intros w | intros w1 w2 w3; tauto | done]. Qed.

#[export] Instance frame_preorder keep `{!Kept keep} sels : PreOrder (frame_with keep sels).
Proof.
  split.
  - intros w. split_and!; [done..|reflexivity].
  - intros w1 w2 w3 (H1 & D1 & T1) (H2 & D2 & T2). split_and!.
    + intros sel Hs. by rewrite H2, H1.
    + by rewrite D2.
    + by etransitivity.
Qed.

Lemma frame_set_chart sels c w : frame sels w (set_chart c w).
Proof. done. Qed.

Lemma frame_set_types sels t w : frame_with keep_chart sels w (set_types t w).
Proof. done. Qed.

(** A frame is a frame for every larger set of selectors. *)
Lemma frame_weaken keep sels1 sels2 w w' :
  sels1 ⊆ sels2 → frame_with keep sels1 w w' → frame_with keep sels2 w w'.
Proof. intros Hs (H & D & K). split_and!; [|done..]. intros sel Hn. apply H. auto. Qed.

Section primitive_frames.
Context {browser : Browser} (keep : relation world) `{!Kept keep} (sels : list jsstring).
Implicit Types (w : world) (sel : jsstring) (v : value).
Notation frame := (frame_with keep sels).

Lemma frame_update_el sel f w : sel ∈ sels → frame w (update_el sel f w).
Proof.
  intros Hs. split_and!; [|apply update_el_dom|apply kept_update_el].
  intros sel2 Hn. apply update_el_lookup_ne. by intros ->.
Qed.

Lemma frame_update_width sel s w : sel ∈ sels → frame w (update_width sel s w).
Proof.
  intros. unfold update_width. case_test; [by apply frame_update_el | reflexivity].
Qed.

Lemma preserves_query sel : preserves frame (query sel).
Proof. intros w. simpl. reflexivity. Qed.

Lemma preserves_set_textContent sel v :
  sel ∈ sels → preserves frame (set_textContent sel v).
Proof.
  intros Hs w. rewrite set_textContent_run.
  destruct (doc w !! sel); [|done].
  destruct (dom_string v); [by apply frame_update_el | reflexivity].
Qed.

Lemma preserves_set_innerHTML sel html :
  sel ∈ sels → preserves frame (set_innerHTML sel html).
Proof.
  intros Hs w. rewrite set_innerHTML_run.
  destruct (doc w !! sel); [by apply frame_update_el | reflexivity].
Qed.

Lemma preserves_get_innerHTML sel : preserves frame (get_innerHTML sel).
Proof. intros w. rewrite get_innerHTML_run. destruct (doc w !! sel); reflexivity. Qed.

Lemma preserves_get_value sel : preserves frame (get_value sel).
Proof. intros w. rewrite get_value_run. destruct (doc w !! sel); reflexivity. Qed.

Lemma preserves_add_click_listener sel h :
  sel ∈ sels → preserves frame (add_click_listener sel h).
Proof.
  intros Hs w. rewrite add_click_listener_run.
  destruct (doc w !! sel); [by apply frame_update_el | reflexivity].
Qed.

Lemma preserves_set_style_width sel s :
  sel ∈ sels → preserves frame (set_style_width sel s).
Proof.
  intros Hs w. rewrite set_style_width_run.
  destruct (doc w !! sel); [by apply frame_update_width | reflexivity].
Qed.

Lemma preserves_set_style_display sel s :
  sel ∈ sels → preserves frame (set_style_display sel s).
Proof. intros Hs w. by apply frame_update_el. Qed.

End primitive_frames.

#[export] Instance keeps_preorder (I : world → Prop) : PreOrder (keeps I).
Proof. split; unfold keeps; [by intros w | intros w1 w2 w3; auto]. Qed.

Section primitive_invariants.
Context {browser : Browser} (Q : jsstring → element → Prop) `{!WriteClosed Q}.
Implicit Types (w : world) (sel : jsstring) (v : value).
Notation inv := (keeps (all_elements Q)).

Lemma all_elements_update_el sel f w :
  (∀ el, doc w !! sel = Some el → Q sel el → Q sel (f el)) → inv w (update_el sel f w).
Proof.
  intros Hf Hw sel2 el2. unfold update_el. simpl.
  destruct (decide (sel = sel2)) as [<-|Hne].
  - rewrite lookup_alter_eq. intros (el & Hel & ->)%fmap_Some.
    apply Hf; [done|]. by eapply Hw.
  - rewrite lookup_alter_ne by done. apply Hw.
Qed.

Lemma all_elements_update_width sel s w : inv w (update_width sel s w).
Proof.
  unfold update_width. case_test; [|done].
  apply all_elements_update_el. intros el _. apply closed_width.
Qed.

Lemma invariant_query sel : preserves inv (query sel).
Proof. by intros w. Qed.

Lemma invariant_set_textContent sel v : preserves inv (set_textContent sel v).
Proof.
  intros w. rewrite set_textContent_run.
  destruct (doc w !! sel); [|done]. destruct (dom_string v); [|done].
  apply all_elements_update_el. intros el _. apply closed_text.
Qed.

Lemma invariant_set_innerHTML sel html : preserves inv (set_innerHTML sel html).
Proof.
  intros w. rewrite set_innerHTML_run. destruct (doc w !! sel); [|done].
  apply all_elements_update_el. intros el _. apply closed_markup.
Qed.

Lemma invariant_get_innerHTML sel : preserves inv (get_innerHTML sel).
Proof. intros w. rewrite get_innerHTML_run. by destruct (doc w !! sel). Qed.

Lemma invariant_get_value sel : preserves inv (get_value sel).
Proof. intros w. rewrite get_value_run. by destruct (doc w !! sel). Qed.

Lemma invariant_set_style_width sel s : preserves inv (set_style_width sel s).
Proof.
  intros w. rewrite set_style_width_run. destruct (doc w !! sel); [|done].
  apply all_elements_update_width.
Qed.

Lemma invariant_set_style_display sel s : preserves inv (set_style_display sel s).
Proof. intros w. apply all_elements_update_el. intros el _. apply closed_display. Qed.

Lemma invariant_add_click_listener sel h :
  (∀ el, Q sel el → Q sel (with_click (add_listener h (el_click el)) el)) →
  preserves inv (add_click_listener sel h).
Proof.
  intros Hc w. rewrite add_click_listener_run.
  destruct (doc w !! sel) as [e|] eqn:E; [|done].
  apply all_elements_update_el. intros el Hel. simplify_eq. apply Hc.
Qed.

Lemma invariant_set_types t : preserves inv (modify_state (set_types t)).
Proof. intros w Hw. exact Hw. Qed.

End primitive_invariants.

Section primitive_errors.
Context {browser : Browser}.
Implicit Types (w : world) (sel : jsstring) (v : value).

Notation type_errors := (throws_only (λ e, e = TypeError)).

Lemma type_errors_query sel : type_errors (query sel).
Proof. by intros w e w'. Qed.

Lemma type_errors_set_textContent sel v : type_errors (set_textContent sel v).
Proof.
  intros w e w'. rewrite set_textContent_run.
  destruct (doc w !! sel); [|by intros [= <- _]].
  destruct (dom_string v) eqn:E; [done|]. intros [= <- _]. by eapply dom_string_error.
Qed.

Lemma type_errors_set_innerHTML sel html : type_errors (set_innerHTML sel html).
Proof.
  intros w e w'. rewrite set_innerHTML_run.
  destruct (doc w !! sel); [done | by intros [= <- _]].
Qed.

Lemma type_errors_get_innerHTML sel : type_errors (get_innerHTML sel).
Proof.
  intros w e w'. rewrite get_innerHTML_run.
  destruct (doc w !! sel); [done | by intros [= <- _]].
Qed.

Lemma type_errors_get_value sel : type_errors (get_value sel).
Proof.
  intros w e w'. rewrite get_value_run.
  destruct (doc w !! sel); [done | by intros [= <- _]].
Qed.

Lemma type_errors_add_click_listener sel h : type_errors (add_click_listener sel h).
Proof.
  intros w e w'. rewrite add_click_listener_run.
  destruct (doc w !! sel); [done | by intros [= <- _]].
Qed.

Lemma type_errors_set_style_width sel s : type_errors (set_style_width sel s).
Proof.
  intros w e w'. rewrite set_style_width_run.
  destruct (doc w !! sel); [done | by intros [= <- _]].
Qed.

Lemma type_errors_set_style_display sel s : type_errors (set_style_display sel s).
Proof. by intros w e w'. Qed.

Lemma set_textContent_Ok_inv sel v w u w' :
  set_textContent sel v w = (Ok u, w') →
  is_Some (doc w !! sel)
  ∧ ∃ s, dom_string v = Ok s ∧ w' = update_el sel (with_text s) w.
Proof.
  rewrite set_textContent_run. destruct (doc w !! sel) eqn:E; [|done].
  destruct (dom_string v) as [s|]; [|done]. intros [= _ <-]. eauto.
Qed.

Lemma set_style_width_Ok_inv sel s w u w' :
  set_style_width sel s w = (Ok u, w') →
  is_Some (doc w !! sel) ∧ w' = update_width sel s w.
Proof.
  rewrite set_style_width_run. destruct (doc w !! sel) eqn:E; [|done].
  intros [= _ <-]. eauto.
Qed.

End primitive_errors.

#[export] Hint Resolve keep_types_kept keep_chart_kept frame_preorder
  frame_update_el frame_update_width frame_set_chart frame_set_types
  preserves_query preserves_set_textContent preserves_set_innerHTML
  preserves_get_innerHTML preserves_get_value preserves_add_click_listener
  preserves_set_style_width preserves_set_style_display
  type_errors_query type_errors_set_textContent type_errors_set_innerHTML
  type_errors_get_innerHTML type_errors_get_value type_errors_add_click_listener
  type_errors_set_style_width type_errors_set_style_display
  keeps_preorder invariant_query invariant_set_textContent invariant_set_innerHTML
  invariant_get_innerHTML invariant_get_value invariant_set_style_width
  invariant_set_style_display invariant_set_types : js.
#[export] Hint Extern 1 (_ ∈ _) => compute_done : js.
