(* ===== verification/Api.v ===== *)
(** * Api: the service the page talks to (script.js lines 2, 15-16, 125-130)

    The base URL of the scoring service is read once, when the script is
    loaded: [(window.API_BASE || "").replace(/\/+$/, "")].  This file
    models that expression ([api_base], with the search of the regular
    expression written out in [strip_slashes]), the two URLs the script
    builds from it, the body of the scoring request
    ([JSON.stringify({typeA, typeB})], with the quoting of JSON strings),
    and the requests and responses that cross the network.  The network
    itself is not part of the program: a response is an input of the
    handlers that await it. *)

From S2P Require Import Prelude Effects JsString JsNumber JsValue.
From stdpp Require Import strings.

Local Open Scope N_scope.

(** ** The base URL *)

Definition slash : code_unit := 47.

(** [/\/+$/] matches at the start of [s] when [s] is a non-empty run of
    slashes: [\/+] takes slashes greedily and [$] holds only at the end
    of the input (the expression has no [m] flag). *)
Definition slashes_to_end (s : jsstring) : bool :=
  negb (is_nil s) && forallb (N.eqb slash) s.

(** [s.replace(/\/+$/, "")]: the search tries the start positions from
    left to right; at the first one where the expression matches, the
    match (which reaches the end of [s]) is replaced by the empty string. *)
Fixpoint strip_slashes (s : jsstring) : jsstring :=
  match s with
  | [] => []
  | c :: r => if slashes_to_end s then [] else c :: strip_slashes r
  end.

(** Line 2.  [cfg] is [window.API_BASE] ([undefined] when config.js does
    not define it).  A truthy value that is not a string has no
    [replace] method: the script stops with a TypeError before it
    registers anything. *)
Definition api_base (cfg : value) : outcome jsstring :=
  match js_or cfg (VStr []) with
  | VStr s => Ok (strip_slashes s)
  | _ => Throw TypeError
  end.

(** Lines 15 and 125: [`${API}/types`] and [`${API}/score`]. *)
Definition types_url (api : jsstring) : jsstring := api ++ js "/types".
Definition score_url (api : jsstring) : jsstring := api ++ js "/score".

(** ** The body of the scoring request *)

(** The lower-case hexadecimal digit of [n < 16]. *)
Definition hex_digit (n : N) : code_unit := if n <? 10 then 48 + n else 87 + n.

(** UnicodeEscape: backslash, [u], four hexadecimal digits. *)
Definition unicode_escape (c : code_unit) : jsstring :=
  [92; 117; hex_digit (c / 4096); hex_digit (c / 256 mod 16);
   hex_digit (c / 16 mod 16); hex_digit (c mod 16)].

Definition is_high_surrogate (c : code_unit) : bool := (0xD800 <=? c) && (c <=? 0xDBFF).
Definition is_low_surrogate (c : code_unit) : bool := (0xDC00 <=? c) && (c <=? 0xDFFF).

(** QuoteJSONString on one code unit that is not part of a surrogate
    pair: the two-character escapes, a [\u] escape for the other control
    characters and for a lone surrogate, the code unit itself otherwise. *)
Definition quote_unit (c : code_unit) : jsstring :=
  if c =? 8 then [92; 98]
  else if c =? 9 then [92; 116]
  else if c =? 10 then [92; 110]
  else if c =? 12 then [92; 102]
  else if c =? 13 then [92; 114]
  else if c =? 34 then [92; 34]
  else if c =? 92 then [92; 92]
  else if (c <? 32) || is_high_surrogate c || is_low_surrogate c then unicode_escape c
  else [c].

(** QuoteJSONString without the enclosing quotes: a high surrogate
    followed by a low one is a code point and is copied. *)
Fixpoint quote_units (s : jsstring) : jsstring :=
  match s with
  | [] => []
  | c :: r =>
    if is_high_surrogate c then
      match r with
      | d :: r' =>
        if is_low_surrogate d then c :: d :: quote_units r'
        else unicode_escape c ++ quote_units r
      | [] => unicode_escape c
      end
    else quote_unit c ++ quote_units r
  end.

Definition json_quote (s : jsstring) : jsstring := [34] ++ quote_units s ++ [34].

(** Line 128: [JSON.stringify({ typeA: a, typeB: b })]. *)
Definition score_body (a b : jsstring) : jsstring :=
  js "{\x22typeA\x22:" ++ json_quote a ++ js ",\x22typeB\x22:" ++ json_quote b ++ js "}".

(** ** Requests and responses *)

(** Lines 15 and 125-129: the two requests the script issues. *)
Inductive request :=
  | GetTypes (url : jsstring)
  | PostScore (url : jsstring) (body : jsstring).

#[export] Instance request_eq_dec : EqDecision request.
Proof. solve_decision. Defined.

(** What comes back: [fetch] rejects (no connection, a blocked
    cross-origin request), or it resolves to a response with a status
    ([res.ok]) and a body, which [res.json()] parses: [None] is a body
    that is not JSON. *)
Inductive response :=
  | Rejected
  | Replied (ok : bool) (body : option value).

(** [await fetch(...)] followed by [await res.json()], as the handler
    sees them: the status and the parsed body, or the exception of the
    first of the two promises that is rejected.  Nothing of the page is
    read or written between the two. *)
Definition await_json (r : response) : outcome (bool * value) :=
  match r with
  | Rejected => Throw NetworkError
  | Replied ok (Some v) => Ok (ok, v)
  | Replied ok None => Throw SyntaxError
  end.

(** A response whose body, if it has one, holds strings of 16-bit code
    units only. *)
Definition wf_response (r : response) : Prop :=
  match r with
  | Replied _ (Some v) => wf_value v = true
  | _ => True
  end.

(** ** Reading the body back *)

(** What a JSON parser makes of the characters after an opening quote:
    the string up to the closing quote, and what follows it.  It is the
    service's side of the exchange, used to state that the body of a
    scoring request determines the two types. *)
Definition unescape_unit (e : code_unit) : option code_unit :=
  if e =? 98 then Some 8
  else if e =? 116 then Some 9
  else if e =? 110 then Some 10
  else if e =? 102 then Some 12
  else if e =? 114 then Some 13
  else if e =? 34 then Some 34
  else if e =? 92 then Some 92
  else if e =? 47 then Some 47
  else None.

Definition is_hex (c : code_unit) : bool :=
  ((48 <=? c) && (c <=? 57)) || ((97 <=? c) && (c <=? 102)) || ((65 <=? c) && (c <=? 70)).

Definition hex4 (h1 h2 h3 h4 : code_unit) : option code_unit :=
  if is_hex h1 && is_hex h2 && is_hex h3 && is_hex h4
  then Some (hex_value h1 * 4096 + hex_value h2 * 256 + hex_value h3 * 16 + hex_value h4)
  else None.

Definition push (c : code_unit) (r : option (jsstring * jsstring))
    : option (jsstring * jsstring) :=
  r ≫= λ '(t, rest), Some (c :: t, rest).

Fixpoint read_string (s : jsstring) : option (jsstring * jsstring) :=
  match s with
  | [] => None
  | c :: r =>
    if c =? 34 then Some ([], r)
    else if c =? 92 then
      match r with
      | e :: r' =>
        if e =? 117 then
          match r' with
          | h1 :: h2 :: h3 :: h4 :: r'' =>
            hex4 h1 h2 h3 h4 ≫= λ u, push u (read_string r'')
          | _ => None
          end
        else unescape_unit e ≫= λ u, push u (read_string r')
      | [] => None
      end
    else if c <? 32 then None
    else push c (read_string r)
  end.

(** [expect p s]: what follows the prefix [p] of [s]. *)
Definition expect (p s : jsstring) : option jsstring :=
  if starts_with p s then Some (drop (length p) s) else None.

Definition body_open : jsstring := Eval vm_compute in js "{\x22typeA\x22:\x22".
Definition body_between : jsstring := Eval vm_compute in js ",\x22typeB\x22:\x22".

(** The two types of a scoring request, read from its body. *)
Definition read_score_body (body : jsstring) : option (jsstring * jsstring) :=
  r1 ← expect body_open body;
  '(a, r2) ← read_string r1;
  r3 ← expect body_between r2;
  '(b, r4) ← read_string r3;
  if is_nil (drop 1 r4) && bool_decide (r4 = js "}") then Some (a, b) else None.

(** ** Facts *)

Section base_facts.
Implicit Types (s : jsstring) (c : code_unit).

Lemma slashes_to_end_cons c s :
  slashes_to_end (c :: s) = (slash =? c) && forallb (N.eqb slash) s.
Proof. done. Qed.

(** The regular-expression search computes the removal of the trailing
    run of slashes. *)
Lemma strip_slashes_drop_while_end s :
  strip_slashes s = drop_while_end (N.eqb slash) s.
Proof.
  induction s as [|c s IH]; [done|].
  cbn [strip_slashes]. by rewrite drop_while_end_cons, IH.
Qed.

Lemma all_slashes_replicate (k : jsstring) :
  Forall (λ c, (slash =? c) = true) k → k = replicate (length k) slash.
Proof.
  induction 1 as [|c k Hc _ IH]; [done|]. apply N.eqb_eq in Hc as <-.
  simpl. by rewrite <-IH.
Qed.

Lemma no_trail_last (f : code_unit → bool) s :
  no_trail f s = true ↔ ∀ c, last s = Some c → f c = false.
Proof.
  unfold no_trail. rewrite <-head_reverse. destruct (reverse s) as [|c r]; simpl.
  - by split.
  - rewrite negb_true_iff. split; [by intros ? ? [= <-] | auto].
Qed.

(** The base URL is the configured one without its trailing slashes: it
    is the only prefix of the configured text that is followed by
    slashes alone and does not end in one. *)
Theorem strip_slashes_spec s t :
  strip_slashes s = t ↔
  (∃ n, s = t ++ replicate n slash) ∧ last t ≠ Some slash.
Proof.
  rewrite strip_slashes_drop_while_end. split.
  - intros <-. split.
    + destruct (drop_while_end_decomp (N.eqb slash) s) as (k & Hk & Hall).
      exists (length k). by rewrite <-all_slashes_replicate.
    + intros H. by apply (no_trail_last (N.eqb slash)) in H; [|apply no_trail_drop_while_end].
  - intros [[n ->] Hl]. rewrite drop_while_end_app_Forall.
    + apply drop_while_end_no_trail, no_trail_last. intros c Hc.
      apply N.eqb_neq. by intros <-.
    + apply Forall_replicate. by apply N.eqb_eq.
Qed.

Lemma strip_slashes_idemp s : strip_slashes (strip_slashes s) = strip_slashes s.
Proof.
  rewrite !strip_slashes_drop_while_end.
  apply drop_while_end_no_trail, no_trail_drop_while_end.
Qed.

Lemma api_base_str s : api_base (VStr s) = Ok (strip_slashes s).
Proof. by destruct s. Qed.

(** A configuration that is falsy (absent, [null], the empty string, 0)
    gives the empty base, which every handler takes as "not configured";
    so does a configuration made of slashes only. *)
Lemma api_base_unset cfg : to_boolean cfg = false → api_base cfg = Ok [].
Proof. intros H. unfold api_base, js_or. by rewrite H. Qed.

Lemma api_base_error cfg e : api_base cfg = Throw e → e = TypeError.
Proof. unfold api_base. destruct (js_or cfg (VStr [])); congruence. Qed.

End base_facts.

(** ** The request body determines the two types *)

Section quote_facts.
Implicit Types (s t rest : jsstring) (c n : N).

Lemma hex_digit_value n : n < 16 → hex_value (hex_digit n) = n ∧ is_hex (hex_digit n) = true.
Proof.
  intros Hn. unfold hex_digit, hex_value, is_hex.
  destruct (N.ltb_spec n 10).
  - replace (48 <=? 48 + n) with true by (symmetry; apply N.leb_le; lia).
    replace (48 + n <=? 57) with true by (symmetry; apply N.leb_le; lia).
    simpl. split; [lia | done].
  - replace (48 <=? 87 + n) with true by (symmetry; apply N.leb_le; lia).
    replace (87 + n <=? 57) with false by (symmetry; apply N.leb_gt; lia).
    replace (97 <=? 87 + n) with true by (symmetry; apply N.leb_le; lia).
    replace (87 + n <=? 102) with true by (symmetry; apply N.leb_le; lia).
    simpl. split; [lia | done].
Qed.

Lemma hex4_digits c :
  c < 65536 →
  hex4 (hex_digit (c / 4096)) (hex_digit (c / 256 mod 16))
       (hex_digit (c / 16 mod 16)) (hex_digit (c mod 16)) = Some c.
Proof.
  intros Hc. unfold hex4.
  assert (c / 4096 < 16) as H1 by (apply N.Div0.div_lt_upper_bound; lia).
  pose proof (N.mod_upper_bound (c / 256) 16 ltac:(done)) as H2.
  pose proof (N.mod_upper_bound (c / 16) 16 ltac:(done)) as H3.
  pose proof (N.mod_upper_bound c 16 ltac:(done)) as H4.
  destruct (hex_digit_value _ H1) as [-> ->], (hex_digit_value _ H2) as [-> ->],
    (hex_digit_value _ H3) as [-> ->], (hex_digit_value _ H4) as [-> ->].
  simpl. f_equal.
  pose proof (N.div_mod c 16 ltac:(done)).
  pose proof (N.div_mod (c / 16) 16 ltac:(done)).
  pose proof (N.div_mod (c / 256) 16 ltac:(done)).
  replace (c / 16 / 16) with (c / 256) in * by (by rewrite N.Div0.div_div).
  replace (c / 256 / 16) with (c / 4096) in * by (by rewrite N.Div0.div_div).
  lia.
Qed.

Lemma read_string_escape c rest :
  c < 65536 → read_string (unicode_escape c ++ rest) = push c (read_string rest).
Proof. intros Hc. unfold unicode_escape. cbn. by rewrite hex4_digits. Qed.

Lemma read_string_literal c rest :
  32 ≤ c → c ≠ 34 → c ≠ 92 → read_string (c :: rest) = push c (read_string rest).
Proof.
  intros H1 H2 H3. cbn.
  rewrite (proj2 (N.eqb_neq c 34)), (proj2 (N.eqb_neq c 92)) by done.
  by rewrite (proj2 (N.ltb_ge c 32)).
Qed.

Lemma surrogate_literal c :
  is_high_surrogate c || is_low_surrogate c = true → 32 ≤ c ∧ c ≠ 34 ∧ c ≠ 92.
Proof.
  unfold is_high_surrogate, is_low_surrogate.
  rewrite orb_true_iff, !andb_true_iff, !N.leb_le. lia.
Qed.

(** A quoted code unit is read back as that code unit. *)
Lemma read_string_quote_unit c rest :
  c < 65536 → read_string (quote_unit c ++ rest) = push c (read_string rest).
Proof.
  intros Hc. unfold quote_unit.
  repeat (case_test; [match goal with H : (_ =? _) = true |- _ =>
                        apply N.eqb_eq in H as -> end; done|]).
  case_test; [by apply read_string_escape|].
  repeat match goal with H : (_ =? _) = false |- _ => apply N.eqb_neq in H end.
  match goal with H : _ || _ || _ = false |- _ =>
    apply orb_false_iff in H as [[H _]%orb_false_iff _]; apply N.ltb_ge in H end.
  by apply read_string_literal.
Qed.

Lemma read_string_quote_units_fuel k s rest :
  (length s ≤ k)%nat → wf_string s →
  read_string (quote_units s ++ 34 :: rest) = Some (s, rest).
Proof.
  revert s. induction k as [|k IH]; intros s Hk Hs.
  { destruct s; [done | simpl in Hk; lia]. }
  destruct s as [|c s]; [done|].
  apply Forall_cons_iff in Hs as [Hc Hs]. simpl in Hk. cbn [quote_units].
  destruct (is_high_surrogate c) eqn:Eh.
  - destruct s as [|d s].
    { rewrite read_string_escape by done. by simpl. }
    destruct (is_low_surrogate d) eqn:El.
    + apply Forall_cons_iff in Hs as [Hd Hs]. simpl in Hk.
      destruct (surrogate_literal c) as (? & ? & ?); [by rewrite Eh|].
      destruct (surrogate_literal d) as (? & ? & ?); [by rewrite El, orb_true_r|].
      cbn [app]. rewrite !read_string_literal by done.
      rewrite IH by (done || lia). done.
    + rewrite <-app_assoc, read_string_escape by done.
      rewrite IH by (done || lia). done.
  - rewrite <-app_assoc, read_string_quote_unit by done.
    rewrite IH by (done || lia). done.
Qed.

Lemma read_string_quote_units s rest :
  wf_string s → read_string (quote_units s ++ 34 :: rest) = Some (s, rest).
Proof. by apply (read_string_quote_units_fuel (length s)). Qed.

Lemma expect_app p s : expect p (p ++ s) = Some s.
Proof. unfold expect. by rewrite starts_with_app, drop_app_length. Qed.

Lemma score_body_eq a b :
  score_body a b
  = body_open ++ quote_units a ++ 34 :: (body_between ++ quote_units b ++ 34 :: js "}").
Proof. unfold score_body, json_quote. by rewrite <-!app_assoc. Qed.

(** Round trip: a parser that reads the body of a scoring request back
    finds the two types that were selected. *)
Theorem read_score_body_stringify a b :
  wf_string a → wf_string b → read_score_body (score_body a b) = Some (a, b).
Proof.
  intros Ha Hb. unfold read_score_body.
  rewrite score_body_eq, expect_app. cbn [mbind option_bind].
  rewrite read_string_quote_units by done. cbn [mbind option_bind].
  rewrite expect_app. cbn [mbind option_bind].
  by rewrite read_string_quote_units.
Qed.

End quote_facts.

(** ** Concrete runs *)

Section examples.

(** The base URL for some configurations. *)
Example api_base_table :
  api_base (VStr (js "https://api.example/")) = Ok (js "https://api.example")
  ∧ api_base (VStr (js "https://api.example/v1///")) = Ok (js "https://api.example/v1")
  ∧ api_base (VStr (js "https://api.example")) = Ok (js "https://api.example")
  ∧ api_base (VStr (js "//")) = Ok []
  ∧ api_base VUndef = Ok []
  ∧ api_base VNull = Ok []
  ∧ api_base (VNum (of_Z 8080)) = Throw TypeError.
Proof. by_compute. Qed.

Example score_body_sample :
  score_body (js "A") (js "B") = js "{\x22typeA\x22:\x22A\x22,\x22typeB\x22:\x22B\x22}".
Proof. by_compute. Qed.

(** Quotes, backslashes, control characters and lone surrogates are
    escaped; a surrogate pair is copied. *)
Example json_quote_sample :
  json_quote ([34; 92; 10; 1; 0xD800; 0xD83D; 0xDE00])
  = js "\x22\\\x22\\\\\\n\\u0001\\ud800" ++ [0xD83D; 0xDE00; 34].
Proof. by_compute. Qed.

Lemma read_score_body_stringify_witness :
  read_score_body (score_body (js "A\x22") [0xD800; 10]) = Some (js "A\x22", [0xD800; 10]).
Proof.
  apply read_score_body_stringify; unfold wf_string; repeat constructor.
Defined.

End examples.
