(* ===== verification/Utf8.v ===== *)
(** * Utf8: strings on the wire (the body given to [fetch], script.js
    line 128; the body read by [res.json()], lines 16 and 130)

    A JavaScript string is a sequence of 16-bit code units; the network
    carries bytes.  [fetch] sends a string body as UTF-8: the string is
    first read as Unicode scalar values, a surrogate that has no partner
    becoming U+FFFD, and each scalar value is encoded in one to four
    bytes.  [res.json()] decodes the bytes of the body as UTF-8 before
    it parses them: a byte order mark at the start is dropped, every
    ill-formed sequence becomes U+FFFD, and the scalar values are
    written back as code units.  This file models both directions after
    the Encoding standard, the decoder as its state machine on bytes.

    The theorems: the bytes of a scalar value decode to it; a string
    without lone surrogates comes back from the bytes unchanged but for
    a byte order mark at its start; what [JSON.stringify] prints has no
    lone surrogate, whatever the strings it is given, so that the body
    of a scoring request crosses the wire unchanged. *)

From S2P Require Import Prelude JsString JsNumber JsValue Api.
From stdpp Require Import strings.

Local Open Scope N_scope.

(** ** From code units to scalar values and back *)

Definition replacement_char : N := 0xFFFD.

(** The scalar values of a string: a high surrogate followed by a low
    one is one value, any other surrogate is replaced. *)
Fixpoint code_points (s : jsstring) : list N :=
  match s with
  | [] => []
  | c :: r =>
    if is_high_surrogate c then
      match r with
      | d :: r' =>
        if is_low_surrogate d
        then (0x10000 + N.shiftl (c - 0xD800) 10 + (d - 0xDC00)) :: code_points r'
        else replacement_char :: code_points r
      | [] => [replacement_char]
      end
    else if is_low_surrogate c then replacement_char :: code_points r
    else c :: code_points r
  end.

(** The code units of a scalar value. *)
Definition utf16_units (cp : N) : jsstring :=
  if cp <? 0x10000 then [cp]
  else [0xD800 + N.shiftr (cp - 0x10000) 10; 0xDC00 + N.land (cp - 0x10000) 0x3FF].

Definition of_code_points (cps : list N) : jsstring := cps ≫= utf16_units.

(** [well_formed s]: no surrogate of [s] is without its partner. *)
Fixpoint well_formed (s : jsstring) : bool :=
  match s with
  | [] => true
  | c :: r =>
    if is_high_surrogate c then
      match r with
      | d :: r' => is_low_surrogate d && well_formed r'
      | [] => false
      end
    else negb (is_low_surrogate c) && well_formed r
  end.

(** A Unicode scalar value. *)
Definition scalar (cp : N) : Prop := cp < 0x110000 ∧ ¬ (0xD800 ≤ cp ≤ 0xDFFF).

(** A code unit that is no surrogate. *)
Definition plain (c : code_unit) : Prop :=
  c < 65536 ∧ is_high_surrogate c = false ∧ is_low_surrogate c = false.

(** A string of 16-bit code units without lone surrogates: the strings
    that are sequences of scalar values. *)
Definition unicode_string (s : jsstring) : Prop := wf_string s ∧ well_formed s = true.

(** The conversion of a string body to a sequence of scalar values
    ([String.prototype.toWellFormed]). *)
Definition to_well_formed (s : jsstring) : jsstring := of_code_points (code_points s).

(** ** The encoder *)

(** The bytes of a scalar value. *)
Definition encode_point (cp : N) : list N :=
  if cp <? 0x80 then [cp]
  else if cp <? 0x800 then
    [0xC0 + N.shiftr cp 6; 0x80 + N.land cp 0x3F]
  else if cp <? 0x10000 then
    [0xE0 + N.shiftr cp 12; 0x80 + N.land (N.shiftr cp 6) 0x3F; 0x80 + N.land cp 0x3F]
  else
    [0xF0 + N.shiftr cp 18; 0x80 + N.land (N.shiftr cp 12) 0x3F;
     0x80 + N.land (N.shiftr cp 6) 0x3F; 0x80 + N.land cp 0x3F].

Definition encode_points (cps : list N) : list N := cps ≫= encode_point.

(** The bytes [fetch] sends for a string body. *)
Definition utf8_encode (s : jsstring) : list N := encode_points (code_points s).

(** ** The decoder *)

(** The state of the decoder: the bits of the code point read so far,
    the number of continuation bytes seen and needed, and the bounds on
    the next byte. *)
Record decoder := Decoder {
  dec_point : N;
  dec_seen : N;
  dec_needed : N;
  dec_lower : N;
  dec_upper : N
}.

#[export] Instance decoder_eq_dec : EqDecision decoder.
Proof. solve_decision. Defined.

Definition idle : decoder := Decoder 0 0 0 0x80 0xBF.

(** A byte when no continuation is needed. *)
Definition lead_step (b : N) : decoder * list N :=
  if b <=? 0x7F then (idle, [b])
  else if (0xC2 <=? b) && (b <=? 0xDF) then (Decoder (N.land b 0x1F) 0 1 0x80 0xBF, [])
  else if (0xE0 <=? b) && (b <=? 0xEF) then
    (Decoder (N.land b 0xF) 0 2
       (if b =? 0xE0 then 0xA0 else 0x80) (if b =? 0xED then 0x9F else 0xBF), [])
  else if (0xF0 <=? b) && (b <=? 0xF4) then
    (Decoder (N.land b 0x7) 0 3
       (if b =? 0xF0 then 0x90 else 0x80) (if b =? 0xF4 then 0x8F else 0xBF), [])
  else (idle, [replacement_char]).

(** One byte: the new state and the scalar values that are complete.
    A byte that cannot continue the sequence ends it with U+FFFD and is
    read again as a first byte. *)
Definition decode_step (d : decoder) (b : N) : decoder * list N :=
  if dec_needed d =? 0 then lead_step b
  else if (b <? dec_lower d) || (dec_upper d <? b) then
    let '(d', out) := lead_step b in (d', replacement_char :: out)
  else
    let cp := N.lor (N.shiftl (dec_point d) 6) (N.land b 0x3F) in
    if dec_seen d + 1 =? dec_needed d then (idle, [cp])
    else (Decoder cp (dec_seen d + 1) (dec_needed d) 0x80 0xBF, []).

Fixpoint decode_from (d : decoder) (bs : list N) : list N :=
  match bs with
  | [] => if dec_needed d =? 0 then [] else [replacement_char]
  | b :: bs' => let '(d', out) := decode_step d b in out ++ decode_from d' bs'
  end.

(** The states the decoder reaches: between two sequences it is [idle];
    inside a sequence the bits read so far and the bounds on the next
    byte leave only scalar values to come. *)
Definition decoder_ok (d : decoder) : Prop :=
  let p := dec_point d in
  let std := dec_lower d = 0x80 ∧ dec_upper d = 0xBF in
  d = idle
  ∨ (dec_needed d = 1 ∧ dec_seen d = 0 ∧ 2 ≤ p < 32 ∧ std)
  ∨ (dec_needed d = 2 ∧ dec_seen d = 0 ∧ p < 16
     ∧ dec_lower d = (if p =? 0 then 0xA0 else 0x80)
     ∧ dec_upper d = (if p =? 13 then 0x9F else 0xBF))
  ∨ (dec_needed d = 2 ∧ dec_seen d = 1 ∧ 0x20 ≤ p < 0x400 ∧ ¬ (0x360 ≤ p ≤ 0x37F) ∧ std)
  ∨ (dec_needed d = 3 ∧ dec_seen d = 0 ∧ p < 5
     ∧ dec_lower d = (if p =? 0 then 0x90 else 0x80)
     ∧ dec_upper d = (if p =? 4 then 0x8F else 0xBF))
  ∨ (dec_needed d = 3 ∧ dec_seen d = 1 ∧ 0x10 ≤ p < 0x110 ∧ std)
  ∨ (dec_needed d = 3 ∧ dec_seen d = 2 ∧ 0x400 ≤ p < 0x4400 ∧ std).

(** The byte order mark at the start is not part of the text. *)
Definition strip_bom (bs : list N) : list N :=
  match bs with
  | b1 :: b2 :: b3 :: r => if (b1 =? 0xEF) && (b2 =? 0xBB) && (b3 =? 0xBF) then r else bs
  | _ => bs
  end.

(** The string [res.json()] parses, from the bytes of the body. *)
Definition utf8_decode (bs : list N) : jsstring :=
  of_code_points (decode_from idle (strip_bom bs)).

(** The byte order mark as a code unit. *)
Definition bom : code_unit := 0xFEFF.

(** A string without a byte order mark at its start. *)
Definition drop_bom (s : jsstring) : jsstring :=
  match s with
  | c :: r => if c =? bom then r else s
  | [] => []
  end.

(** ** Arithmetic of the bit operations *)

#[local] Ltac Zify.zify_post_hook ::= Z.to_euclidean_division_equations.

(** Decides the comparisons of the goal by arithmetic. *)
Ltac compare :=
  repeat match goal with
  | |- context [?a <=? ?b] =>
    first [rewrite (proj2 (N.leb_le a b)) by lia | rewrite (proj2 (N.leb_gt a b)) by lia]
  | |- context [?a <? ?b] =>
    first [rewrite (proj2 (N.ltb_lt a b)) by lia | rewrite (proj2 (N.ltb_ge a b)) by lia]
  | |- context [?a =? ?b] =>
    first [rewrite (proj2 (N.eqb_eq a b)) by lia | rewrite (proj2 (N.eqb_neq a b)) by lia]
  end.

Lemma land_shifted (p x k : N) : x < 2 ^ k → N.land (p * 2 ^ k) x = 0.
Proof.
  intros Hx. apply N.bits_inj. intros n. rewrite N.land_spec, N.bits_0.
  destruct (decide (n < k)); [by rewrite N.mul_pow2_bits_low|].
  destruct (decide (x = 0)) as [->|]; [by rewrite N.bits_0, andb_false_r|].
  rewrite (N.bits_above_log2 x n), andb_false_r; [done|].
  apply N.lt_le_trans with k; [apply N.log2_lt_pow2; lia | lia].
Qed.

Lemma lor_shiftl (p x k : N) : x < 2 ^ k → N.lor (N.shiftl p k) x = p * 2 ^ k + x.
Proof.
  intros Hx. rewrite N.shiftl_mul_pow2.
  by rewrite <-N.lxor_lor, <-N.add_nocarry_lxor by by apply land_shifted.
Qed.

Lemma land_3F a : N.land a 0x3F = a mod 64.
Proof. apply (N.land_ones a 6). Qed.
Lemma land_1F a : N.land a 0x1F = a mod 32.
Proof. apply (N.land_ones a 5). Qed.
Lemma land_F a : N.land a 0xF = a mod 16.
Proof. apply (N.land_ones a 4). Qed.
Lemma land_7 a : N.land a 0x7 = a mod 8.
Proof. apply (N.land_ones a 3). Qed.
Lemma land_3FF a : N.land a 0x3FF = a mod 1024.
Proof. apply (N.land_ones a 10). Qed.

(** ** The steps of the decoder *)

Lemma lead_step_ascii b : b < 0x80 → lead_step b = (idle, [b]).
Proof. intros. unfold lead_step. by compare. Qed.

Lemma lead_step_two x :
  2 ≤ x < 32 → lead_step (0xC0 + x) = (Decoder x 0 1 0x80 0xBF, []).
Proof.
  intros. unfold lead_step. rewrite land_1F. compare. cbn [andb]. do 2 f_equal. lia.
Qed.

Lemma lead_step_three x :
  x < 16 →
  lead_step (0xE0 + x) =
  (Decoder x 0 2 (if x =? 0 then 0xA0 else 0x80) (if x =? 13 then 0x9F else 0xBF), []).
Proof.
  intros. unfold lead_step. rewrite land_F. replace ((0xE0 + x) mod 16) with x by lia.
  destruct (decide (x = 0)) as [->|]; [done|].
  destruct (decide (x = 13)) as [->|]; [done|]. by compare.
Qed.

Lemma lead_step_four x :
  x < 5 →
  lead_step (0xF0 + x) =
  (Decoder x 0 3 (if x =? 0 then 0x90 else 0x80) (if x =? 4 then 0x8F else 0xBF), []).
Proof.
  intros. unfold lead_step. rewrite land_7. replace ((0xF0 + x) mod 8) with x by lia.
  destruct (decide (x = 0)) as [->|]; [done|].
  destruct (decide (x = 4)) as [->|]; [done|]. by compare.
Qed.

(** The bytes that start no sequence: a continuation byte, the first
    bytes [C0] and [C1] of an overlong form, and [F5] and above. *)
Lemma lead_step_invalid b :
  0x80 ≤ b < 0xC2 ∨ 0xF5 ≤ b → lead_step b = (idle, [replacement_char]).
Proof. intros [?|?]; unfold lead_step; by compare. Qed.

(** A byte within the bounds continues the sequence: six more bits. *)
Lemma decode_step_continue p seen needed lo hi y :
  y < 64 → lo ≤ 0x80 + y ≤ hi → needed ≠ 0 →
  decode_step (Decoder p seen needed lo hi) (0x80 + y) =
  if seen + 1 =? needed then (idle, [p * 64 + y])
  else (Decoder (p * 64 + y) (seen + 1) needed 0x80 0xBF, []).
Proof.
  intros Hy Hb Hn. unfold decode_step.
  cbn [dec_needed dec_lower dec_upper dec_point dec_seen].
  rewrite land_3F. replace ((0x80 + y) mod 64) with y by lia.
  rewrite lor_shiftl by (simpl; lia). change (2 ^ 6) with 64.
  by rewrite (proj2 (N.eqb_neq needed 0)), (proj2 (N.ltb_ge _ lo)), (proj2 (N.ltb_ge hi _)) by lia.
Qed.

(** A byte outside the bounds ends the sequence and starts the next. *)
Lemma decode_step_reject d b :
  dec_needed d ≠ 0 → ¬ (dec_lower d ≤ b ≤ dec_upper d) →
  decode_step d b = ((lead_step b).1, replacement_char :: (lead_step b).2).
Proof.
  intros Hn Hb. unfold decode_step. rewrite (proj2 (N.eqb_neq _ 0)) by done.
  destruct (N.ltb_spec b (dec_lower d)), (N.ltb_spec (dec_upper d) b);
    try lia; cbn [orb]; by destruct (lead_step b).
Qed.

Lemma decode_from_idle b rest :
  decode_from idle (b :: rest) = (lead_step b).2 ++ decode_from (lead_step b).1 rest.
Proof. cbn. by destruct (lead_step b). Qed.

Lemma decode_ascii b rest :
  b < 0x80 → decode_from idle (b :: rest) = b :: decode_from idle rest.
Proof. intros. by rewrite decode_from_idle, lead_step_ascii. Qed.

Lemma decode_last p seen lo hi y rest :
  y < 64 → lo ≤ 0x80 + y ≤ hi →
  decode_from (Decoder p seen (seen + 1) lo hi) (0x80 + y :: rest) =
  p * 64 + y :: decode_from idle rest.
Proof.
  intros. cbn [decode_from]. rewrite decode_step_continue by lia. by rewrite N.eqb_refl.
Qed.

Lemma decode_more p seen needed lo hi y rest :
  y < 64 → lo ≤ 0x80 + y ≤ hi → seen + 1 < needed →
  decode_from (Decoder p seen needed lo hi) (0x80 + y :: rest) =
  decode_from (Decoder (p * 64 + y) (seen + 1) needed 0x80 0xBF) rest.
Proof.
  intros. cbn [decode_from]. rewrite decode_step_continue by lia.
  by rewrite (proj2 (N.eqb_neq _ _)) by lia.
Qed.

(** ** The bytes of a scalar value decode to it *)

(** The bounds that a first byte sets on the second admit the second
    byte of a scalar value. *)
Lemma second_byte3 cp :
  0x800 ≤ cp < 0x10000 → ¬ (0xD800 ≤ cp ≤ 0xDFFF) →
  (if cp / 4096 =? 0 then 0xA0 else 0x80) ≤ 0x80 + (cp / 64) mod 64
    ≤ (if cp / 4096 =? 13 then 0x9F else 0xBF).
Proof.
  intros. destruct (decide (cp / 4096 = 0)) as [E|]; [rewrite E; cbn; lia|].
  destruct (decide (cp / 4096 = 13)) as [E|]; [rewrite E; cbn; lia|].
  rewrite (proj2 (N.eqb_neq _ 0)), (proj2 (N.eqb_neq _ 13)) by done. lia.
Qed.

Lemma second_byte4 cp :
  0x10000 ≤ cp < 0x110000 →
  (if cp / 262144 =? 0 then 0x90 else 0x80) ≤ 0x80 + (cp / 4096) mod 64
    ≤ (if cp / 262144 =? 4 then 0x8F else 0xBF).
Proof.
  intros. destruct (decide (cp / 262144 = 0)) as [E|]; [rewrite E; cbn; lia|].
  destruct (decide (cp / 262144 = 4)) as [E|]; [rewrite E; cbn; lia|].
  rewrite (proj2 (N.eqb_neq _ 0)), (proj2 (N.eqb_neq _ 4)) by done. lia.
Qed.

(** [encode_point] with the shifts and masks as quotients and
    remainders. *)
Lemma encode_point_eq cp :
  encode_point cp =
  if cp <? 0x80 then [cp]
  else if cp <? 0x800 then [0xC0 + cp / 64; 0x80 + cp mod 64]
  else if cp <? 0x10000 then [0xE0 + cp / 4096; 0x80 + (cp / 64) mod 64; 0x80 + cp mod 64]
  else [0xF0 + cp / 262144; 0x80 + (cp / 4096) mod 64; 0x80 + (cp / 64) mod 64;
        0x80 + cp mod 64].
Proof. unfold encode_point. by rewrite !N.shiftr_div_pow2, !land_3F. Qed.

Lemma decode_encode_point cp rest :
  scalar cp → decode_from idle (encode_point cp ++ rest) = cp :: decode_from idle rest.
Proof.
  intros [Hlt Hs]. rewrite encode_point_eq.
  destruct (N.ltb_spec cp 0x80); [by apply decode_ascii|].
  destruct (N.ltb_spec cp 0x800).
  { cbn [app]. rewrite decode_from_idle, lead_step_two by lia.
    cbn [fst snd app]. rewrite (decode_last _ 0) by lia. f_equal. lia. }
  destruct (N.ltb_spec cp 0x10000).
  { cbn [app]. rewrite decode_from_idle, lead_step_three by lia.
    cbn [fst snd app]. rewrite decode_more; [|lia|by apply second_byte3|done].
    rewrite (decode_last _ 1) by lia. f_equal. lia. }
  cbn [app]. rewrite decode_from_idle, lead_step_four by lia.
  cbn [fst snd app]. rewrite decode_more; [|lia|by apply second_byte4|done].
  rewrite decode_more by first [done | lia].
  rewrite (decode_last _ 2) by lia. f_equal. lia.
Qed.

Lemma decode_encode_points cps :
  Forall scalar cps → decode_from idle (encode_points cps) = cps.
Proof.
  unfold encode_points. induction 1 as [|cp cps Hcp _ IH]; [done|].
  by rewrite bind_cons, decode_encode_point, IH.
Qed.

(** ** What the decoder yields, whatever the bytes *)

Lemma decoder_ok_idle : decoder_ok idle.
Proof. by left. Qed.

Lemma scalar_replacement : scalar replacement_char.
Proof. unfold scalar, replacement_char. lia. Qed.

Lemma lead_step_ok b : decoder_ok (lead_step b).1 ∧ Forall scalar (lead_step b).2.
Proof.
  destruct (decide (b < 0x80)).
  { rewrite lead_step_ascii by done. split; [apply decoder_ok_idle|].
    repeat constructor; unfold scalar; lia. }
  destruct (decide (0xC2 ≤ b ≤ 0xDF)).
  { replace b with (0xC0 + (b - 0xC0)) by lia. rewrite lead_step_two by lia.
    split; [|done]. right; left. cbn. lia. }
  destruct (decide (0xE0 ≤ b ≤ 0xEF)).
  { replace b with (0xE0 + (b - 0xE0)) by lia. rewrite lead_step_three by lia.
    split; [|done]. do 2 right; left. cbn. split_and!; [done..|lia|done|done]. }
  destruct (decide (0xF0 ≤ b ≤ 0xF4)).
  { replace b with (0xF0 + (b - 0xF0)) by lia. rewrite lead_step_four by lia.
    split; [|done]. do 4 right; left. cbn. split_and!; [done..|lia|done|done]. }
  rewrite lead_step_invalid by lia.
  split; [apply decoder_ok_idle|]. repeat constructor; apply scalar_replacement.
Qed.


(** ** Surrogate pairs *)

(** Induction on a string two code units at a time. *)
Lemma pairs_ind (P : jsstring → Prop) :
  P [] → (∀ c, P [c]) → (∀ c d r, P r → P (d :: r) → P (c :: d :: r)) → ∀ s, P s.
Proof.
  intros H0 H1 H2 s. enough (P s ∧ ∀ c, P (c :: s)) by tauto.
  induction s as [|d r [IH1 IH2]]; [by split|split; [done|]]. intros c. by apply H2.
Qed.

Lemma surrogate_range c :
  (is_high_surrogate c = true ↔ 0xD800 ≤ c ≤ 0xDBFF)
  ∧ (is_low_surrogate c = true ↔ 0xDC00 ≤ c ≤ 0xDFFF).
Proof.
  unfold is_high_surrogate, is_low_surrogate. rewrite !andb_true_iff, !N.leb_le. tauto.
Qed.

Lemma high_surrogate_inv c : is_high_surrogate c = true → 0xD800 ≤ c ≤ 0xDBFF.
Proof. apply surrogate_range. Qed.

Lemma low_surrogate_inv c : is_low_surrogate c = true → 0xDC00 ≤ c ≤ 0xDFFF.
Proof. apply surrogate_range. Qed.

Lemma not_surrogate_inv c :
  is_high_surrogate c = false → is_low_surrogate c = false → ¬ (0xD800 ≤ c ≤ 0xDFFF).
Proof.
  intros Hh Hl [H1 H2]. destruct (decide (c ≤ 0xDBFF)).
  - by rewrite (proj2 (proj1 (surrogate_range c))) in Hh.
  - by rewrite (proj2 (proj2 (surrogate_range c))) in Hl by lia.
Qed.

Lemma pair_scalar c d :
  is_high_surrogate c = true → is_low_surrogate d = true →
  0x10000 ≤ 0x10000 + N.shiftl (c - 0xD800) 10 + (d - 0xDC00) < 0x110000.
Proof.
  intros Hc%high_surrogate_inv Hd%low_surrogate_inv.
  rewrite N.shiftl_mul_pow2. change (2 ^ 10) with 1024. lia.
Qed.

Lemma utf16_units_pair c d :
  is_high_surrogate c = true → is_low_surrogate d = true →
  utf16_units (0x10000 + N.shiftl (c - 0xD800) 10 + (d - 0xDC00)) = [c; d].
Proof.
  intros Hc Hd. pose proof (pair_scalar c d Hc Hd) as Hp.
  apply high_surrogate_inv in Hc. apply low_surrogate_inv in Hd.
  unfold utf16_units. rewrite (proj2 (N.ltb_ge _ _)) by lia.
  rewrite N.shiftl_mul_pow2, N.shiftr_div_pow2, land_3FF in *. change (2 ^ 10) with 1024 in *.
  f_equal; [|f_equal]; lia.
Qed.

(** The scalar values of a string of 16-bit code units. *)
Lemma code_points_scalar s : wf_string s → Forall scalar (code_points s).
Proof.
  induction s as [|c|c d r IH1 IH2] using pairs_ind; intros Hs; [done|..].
  - apply Forall_cons_iff in Hs as [Hc _]. cbn.
    do 2 (case_test; [by constructor; [apply scalar_replacement|]|]).
    constructor; [split; [lia|by apply not_surrogate_inv]|done].
  - pose proof Hs as [Hc [Hd Hr]%Forall_cons_iff]%Forall_cons_iff.
    pose proof (IH2 ltac:(by constructor)) as IH2'. cbn [code_points] in *.
    destruct (is_high_surrogate c) eqn:Eh.
    + destruct (is_low_surrogate d) eqn:El.
      * constructor; [|by apply IH1]. pose proof (pair_scalar c d Eh El).
        unfold scalar. lia.
      * constructor; [apply scalar_replacement|done].
    + destruct (is_low_surrogate c) eqn:El; (constructor; [|done]).
      * apply scalar_replacement.
      * split; [lia|by apply not_surrogate_inv].
Qed.

(** A string without lone surrogates is the string of its scalar values. *)
Lemma to_well_formed_id s : wf_string s → well_formed s = true → to_well_formed s = s.
Proof.
  unfold to_well_formed, of_code_points.
  induction s as [|c|c d r IH1 IH2] using pairs_ind; intros Hs Hw; [done|..].
  - apply Forall_cons_iff in Hs as [Hc _]. cbn in *.
    destruct (is_high_surrogate c); [done|]. destruct (is_low_surrogate c); [done|].
    cbn. unfold utf16_units. by rewrite (proj2 (N.ltb_lt _ _)).
  - pose proof Hs as [Hc [Hd Hr]%Forall_cons_iff]%Forall_cons_iff.
    cbn [code_points well_formed] in *. destruct (is_high_surrogate c) eqn:Eh.
    + apply andb_true_iff in Hw as [El Hw]. rewrite El, bind_cons, IH1 by done.
      by rewrite utf16_units_pair.
    + apply andb_true_iff in Hw as [El%negb_true_iff Hw]. rewrite El, bind_cons.
      specialize (IH2 ltac:(by constructor) Hw). cbn [code_points] in IH2. rewrite IH2.
      unfold utf16_units. by rewrite (proj2 (N.ltb_lt _ _)).
Qed.

Lemma well_formed_cons c s :
  is_high_surrogate c = false → is_low_surrogate c = false →
  well_formed (c :: s) = well_formed s.
Proof. intros Hh Hl. cbn. by rewrite Hh, Hl. Qed.

Lemma well_formed_app s t :
  well_formed s = true → well_formed t = true → well_formed (s ++ t) = true.
Proof.
  induction s as [|c|c d r IH1 IH2] using pairs_ind; intros Hs Ht; [done|..].
  - cbn in Hs. destruct (is_high_surrogate c) eqn:Eh; [done|].
    apply andb_true_iff in Hs as [El%negb_true_iff _]. cbn [app]. by rewrite well_formed_cons.
  - cbn [well_formed app] in *. destruct (is_high_surrogate c) eqn:Eh.
    + apply andb_true_iff in Hs as [-> Hs]. by apply IH1.
    + apply andb_true_iff in Hs as [-> Hs]. by apply IH2.
Qed.

Lemma well_formed_plain s : Forall plain s → well_formed s = true.
Proof.
  induction 1 as [|c s (_ & Hh & Hl) _ IH]; [done|]. by rewrite well_formed_cons.
Qed.

(** ** The round trip of a string *)

Lemma strip_bom_other b rest : b ≠ 0xEF → strip_bom (b :: rest) = b :: rest.
Proof.
  intros Hb. destruct rest as [|b2 [|b3 r]]; [done..|].
  cbn. by rewrite (proj2 (N.eqb_neq b _)).
Qed.

Lemma strip_bom_point cp rest :
  scalar cp → cp ≠ bom → strip_bom (encode_point cp ++ rest) = encode_point cp ++ rest.
Proof.
  intros [Hlt Hs] Hb. unfold bom in Hb. unfold encode_point.
  rewrite !N.shiftr_div_pow2, !land_3F. change (2 ^ 6) with 64. change (2 ^ 12) with 4096.
  change (2 ^ 18) with 262144.
  destruct (N.ltb_spec cp 128); [apply strip_bom_other; lia|].
  destruct (N.ltb_spec cp 2048); [apply strip_bom_other; lia|].
  destruct (N.ltb_spec cp 65536); [|apply strip_bom_other; lia].
  cbn [app strip_bom]. destruct (_ && _) eqn:E; [|done].
  apply andb_true_iff in E as [[?%N.eqb_eq ?%N.eqb_eq]%andb_true_iff ?%N.eqb_eq]. lia.
Qed.

Lemma code_points_bom r : code_points (bom :: r) = bom :: code_points r.
Proof. done. Qed.

Lemma encode_points_bom cps : encode_points (bom :: cps) = 0xEF :: 0xBB :: 0xBF :: encode_points cps.
Proof. done. Qed.

(** The first scalar value of a string that does not start with the
    byte order mark is not the byte order mark. *)
Lemma code_points_head c r :
  c ≠ bom → ∃ cp cps, code_points (c :: r) = cp :: cps ∧ cp ≠ bom.
Proof.
  intros Hc. cbn [code_points]. destruct (is_high_surrogate c) eqn:Eh.
  - destruct r as [|d r]; [by eexists _, _|]. destruct (is_low_surrogate d) eqn:El.
    + eexists _, _. split; [done|]. pose proof (pair_scalar c d Eh El). unfold bom. lia.
    + by eexists _, _.
  - destruct (is_low_surrogate c); by eexists _, _.
Qed.

Lemma strip_bom_encode s : wf_string s → strip_bom (utf8_encode s) = utf8_encode (drop_bom s).
Proof.
  intros Hs. destruct s as [|c r]; [done|]. unfold drop_bom, utf8_encode.
  destruct (c =? bom) eqn:E; [by apply N.eqb_eq in E as ->|apply N.eqb_neq in E].
  destruct (code_points_head c r E) as (cp & cps & Hcp & Hb).
  apply code_points_scalar in Hs. rewrite Hcp in *. apply Forall_cons_iff in Hs as [Hs _].
  unfold encode_points. rewrite bind_cons. by apply strip_bom_point.
Qed.

Lemma wf_string_drop_bom s : wf_string s → wf_string (drop_bom s).
Proof.
  intros Hs. destruct s as [|c r]; [done|]. cbn. destruct (c =? bom); [|done].
  by apply Forall_cons_iff in Hs as [_ ?].
Qed.

Lemma well_formed_drop_bom s : well_formed s = true → well_formed (drop_bom s) = true.
Proof.
  intros Hs. destruct s as [|c r]; [done|]. cbn [drop_bom].
  destruct (c =? bom) eqn:E; [|done]. by apply N.eqb_eq in E as ->.
Qed.

(** What [res.json()] reads from the bytes [fetch] sends for a string:
    the string with its lone surrogates replaced and without a byte
    order mark at its start. *)
Theorem utf8_decode_encode s :
  wf_string s → utf8_decode (utf8_encode s) = to_well_formed (drop_bom s).
Proof.
  intros Hs. unfold utf8_decode. rewrite strip_bom_encode by done. unfold utf8_encode.
  by rewrite decode_encode_points by by apply code_points_scalar, wf_string_drop_bom.
Qed.

(** Round trip: a string without lone surrogates crosses the wire
    unchanged but for a byte order mark at its start. *)
Theorem utf8_round_trip s :
  unicode_string s → utf8_decode (utf8_encode s) = drop_bom s.
Proof.
  intros [Hs Hw]. rewrite utf8_decode_encode by done.
  by apply to_well_formed_id; [apply wf_string_drop_bom|apply well_formed_drop_bom].
Qed.

Lemma unicode_string_app s t : unicode_string s → unicode_string t → unicode_string (s ++ t).
Proof.
  intros [Hs Hs'] [Ht Ht']. split; [by apply Forall_app|by apply well_formed_app].
Qed.

Lemma unicode_string_plain s : Forall plain s → unicode_string s.
Proof.
  intros Hs. split; [|by apply well_formed_plain].
  eapply Forall_impl; [done|]. by intros c [? _].
Qed.

Lemma plain_below c : c < 0xD800 → plain c.
Proof.
  intros Hc. unfold plain, is_high_surrogate, is_low_surrogate.
  rewrite !(proj2 (N.leb_gt 0xD800 c)), !(proj2 (N.leb_gt 0xDC00 c)) by lia. split; [lia|done].
Qed.

Lemma unicode_string_below s : forallb (λ c, c <? 0xD800) s = true → unicode_string s.
Proof.
  intros Hs. apply unicode_string_plain, Forall_forall. intros c Hc.
  apply plain_below, N.ltb_lt. by apply (proj1 (forallb_forall _ s) Hs), list_elem_of_In.
Qed.

(** A constant string of code units that are not surrogates. *)
Ltac plain_units := apply unicode_string_below; vm_compute; reflexivity.

Lemma hex_digit_plain n : n < 16 → plain (hex_digit n).
Proof. intros Hn. apply plain_below. unfold hex_digit. case_test; lia. Qed.

Lemma unicode_escape_plain c : c < 65536 → Forall plain (unicode_escape c).
Proof.
  intros Hc. unfold unicode_escape.
  repeat (constructor; [first [apply hex_digit_plain; lia | by apply plain_below]|]). constructor.
Qed.

Lemma quote_unit_plain c : c < 65536 → Forall plain (quote_unit c).
Proof.
  intros Hc. unfold quote_unit.
  repeat (case_test; [by repeat (constructor; [by apply plain_below|])|]).
  case_test; [by apply unicode_escape_plain|].
  match goal with H : _ || _ || _ = false |- _ =>
    apply orb_false_iff in H as [[_ ?]%orb_false_iff ?] end.
  by repeat constructor.
Qed.

(** What [JSON.stringify] prints for a string has no lone surrogate. *)
Lemma quote_units_unicode s : wf_string s → unicode_string (quote_units s).
Proof.
  induction s as [|c|c d r IH1 IH2] using pairs_ind; intros Hs; [done|..].
  - apply Forall_cons_iff in Hs as [Hc _]. cbn. rewrite app_nil_r.
    case_test; apply unicode_string_plain;
      first [by apply unicode_escape_plain | by apply quote_unit_plain].
  - pose proof Hs as [Hc [Hd Hr]%Forall_cons_iff]%Forall_cons_iff.
    specialize (IH2 ltac:(by constructor)). cbn [quote_units] in *.
    destruct (is_high_surrogate c) eqn:Eh.
    + destruct (is_low_surrogate d) eqn:El.
      * destruct (IH1 Hr) as [H1 H2]. split; [by repeat constructor|].
        cbn [well_formed]. by rewrite Eh, El.
      * apply unicode_string_app; [|done]. by apply unicode_string_plain, unicode_escape_plain.
    + apply unicode_string_app; [|done]. by apply unicode_string_plain, quote_unit_plain.
Qed.

Lemma json_quote_unicode s : wf_string s → unicode_string (json_quote s).
Proof.
  intros Hs. unfold json_quote.
  apply unicode_string_app; [plain_units|].
  apply unicode_string_app; [by apply quote_units_unicode|plain_units].
Qed.

Lemma score_body_unicode a b : wf_string a → wf_string b → unicode_string (score_body a b).
Proof.
  intros Ha Hb. unfold score_body.
  apply unicode_string_app; [plain_units|].
  apply unicode_string_app; [by apply json_quote_unicode|].
  apply unicode_string_app; [plain_units|].
  apply unicode_string_app; [by apply json_quote_unicode|plain_units].
Qed.

(** ** The decoder on arbitrary bytes *)

(** The states inside a sequence, one at a time. *)
Ltac decoder_cases H :=
  destruct H as [H|[H|[H|[H|[H|H]]]]];
  [destruct H as (-> & -> & H & -> & ->) | destruct H as (-> & -> & H & -> & ->)
  |destruct H as (-> & -> & H & ? & -> & ->) | destruct H as (-> & -> & H & -> & ->)
  |destruct H as (-> & -> & H & -> & ->) | destruct H as (-> & -> & H & -> & ->)].

Lemma decode_step_idle b : decode_step idle b = lead_step b.
Proof. done. Qed.

(** Inside a sequence the bounds admit continuation bytes only. *)
Lemma decoder_ok_bounds d :
  decoder_ok d → d ≠ idle → dec_needed d ≠ 0 ∧ 0x80 ≤ dec_lower d ∧ dec_upper d ≤ 0xBF.
Proof.
  intros [->|H] Hd; [done|]. destruct d as [p seen needed lo hi]. cbn in *.
  decoder_cases H; repeat case_test; lia.
Qed.

Lemma continue_ok p seen needed lo hi y :
  decoder_ok (Decoder p seen needed lo hi) → needed ≠ 0 → y < 64 → lo ≤ 0x80 + y ≤ hi →
  if seen + 1 =? needed then scalar (p * 64 + y)
  else decoder_ok (Decoder (p * 64 + y) (seen + 1) needed 0x80 0xBF).
Proof.
  intros [[=]|H] Hn Hy Hb; [lia|]. cbn in H.
  destruct (N.eqb_spec (seen + 1) needed) as [E|E]; [|right]; cbn; unfold scalar;
    decoder_cases H; try lia;
    try (destruct (N.eqb_spec p 0), (N.eqb_spec p 13)); try destruct (N.eqb_spec p 4); lia.
Qed.

Lemma decode_step_ok d b :
  decoder_ok d → decoder_ok (decode_step d b).1 ∧ Forall scalar (decode_step d b).2.
Proof.
  intros Hd. destruct (decide (d = idle)) as [->|Hi]; [apply lead_step_ok|].
  destruct (decoder_ok_bounds d Hd Hi) as (Hn & Hlo & Hhi).
  destruct (decide (dec_lower d ≤ b ≤ dec_upper d)) as [Hb|Hb].
  - destruct d as [p seen needed lo hi]. cbn in *.
    replace b with (0x80 + (b - 0x80)) in * by lia.
    rewrite decode_step_continue by lia.
    pose proof (continue_ok p seen needed lo hi (b - 0x80) Hd Hn ltac:(lia) Hb) as H.
    destruct (seen + 1 =? needed); [|done].
    split; [apply decoder_ok_idle|by apply Forall_singleton].
  - rewrite decode_step_reject by done. destruct (lead_step_ok b) as [H1 H2].
    split; [done|constructor; [apply scalar_replacement|done]].
Qed.

(** Whatever the bytes, the decoder yields scalar values. *)
Lemma decode_from_scalar d bs : decoder_ok d → Forall scalar (decode_from d bs).
Proof.
  revert d. induction bs as [|b bs IH]; intros d Hd.
  - cbn. case_test; [done|]. apply Forall_singleton, scalar_replacement.
  - cbn [decode_from]. destruct (decode_step_ok d b Hd) as [H1 H2].
    destruct (decode_step d b) as [d' out]. apply Forall_app. split; [done|by apply IH].
Qed.

Lemma utf16_units_unicode cp : scalar cp → unicode_string (utf16_units cp).
Proof.
  intros [Hlt Hs]. unfold utf16_units. destruct (N.ltb_spec cp 0x10000).
  - apply unicode_string_plain. repeat constructor; [done|..];
      unfold is_high_surrogate, is_low_surrogate;
      destruct (N.leb_spec 0xD800 cp), (N.leb_spec cp 0xDBFF), (N.leb_spec 0xDC00 cp),
        (N.leb_spec cp 0xDFFF); try done; lia.
  - rewrite N.shiftr_div_pow2, land_3FF. change (2 ^ 10) with 1024.
    split; [repeat constructor; lia|]. cbn. unfold is_high_surrogate, is_low_surrogate.
    by compare.
Qed.

Lemma of_code_points_unicode cps : Forall scalar cps → unicode_string (of_code_points cps).
Proof.
  unfold of_code_points. induction 1 as [|cp cps Hcp _ IH]; [by split; [constructor|]|].
  rewrite bind_cons. by apply unicode_string_app; [apply utf16_units_unicode|].
Qed.

Lemma utf8_decode_wf bs : wf_string (utf8_decode bs).
Proof. apply of_code_points_unicode, decode_from_scalar, decoder_ok_idle. Qed.

(** C27. Whatever the bytes of the body, the text that is parsed is a
    string of 16-bit code units without lone surrogates. *)
Theorem utf8_decode_unicode bs : unicode_string (utf8_decode bs).
Proof. apply of_code_points_unicode, decode_from_scalar, decoder_ok_idle. Qed.

(** ** The bytes of a string *)

Ltac case_ltb :=
  match goal with |- context [?a <? ?b] => destruct (N.ltb_spec a b) end.

Lemma encode_point_bytes cp :
  cp < 0x110000 → Forall (λ b, b < 256) (encode_point cp).
Proof.
  intros Hcp. rewrite encode_point_eq.
  repeat case_ltb; repeat (constructor; [lia|]); constructor.
Qed.

Lemma encode_point_length cp :
  length (encode_point cp) = if cp <? 0x80 then 1%nat else if cp <? 0x800 then 2%nat
                             else if cp <? 0x10000 then 3%nat else 4%nat.
Proof. rewrite encode_point_eq. by repeat case_ltb. Qed.

Lemma encode_unit_length cp :
  cp < 0x10000 → (1 ≤ length (encode_point cp) ≤ 3)%nat.
Proof.
  intros Hcp. rewrite encode_point_length. repeat case_ltb; lia.
Qed.

Lemma encode_points_cons cp cps :
  encode_points (cp :: cps) = encode_point cp ++ encode_points cps.
Proof. done. Qed.

Lemma encode_replacement_length : length (encode_point replacement_char) = 3%nat.
Proof. done. Qed.

Lemma utf8_encode_length s :
  wf_string s → (length s ≤ length (utf8_encode s) ≤ 3 * length s)%nat.
Proof.
  unfold utf8_encode.
  induction s as [|c|c d r IH1 IH2] using pairs_ind; intros Hs; [cbn; lia|..].
  - apply Forall_cons_iff in Hs as [Hc _]. pose proof (encode_unit_length c Hc).
    cbn [code_points]. repeat case_test;
      rewrite encode_points_cons, length_app, ?encode_replacement_length; cbn; lia.
  - pose proof Hs as [Hc [Hd Hr]%Forall_cons_iff]%Forall_cons_iff.
    specialize (IH1 Hr). specialize (IH2 ltac:(by constructor)).
    pose proof (encode_unit_length c Hc). cbn [code_points length] in *.
    destruct (is_high_surrogate c) eqn:Eh; [destruct (is_low_surrogate d) eqn:El|].
    + pose proof (pair_scalar c d Eh El).
      rewrite encode_points_cons, length_app, encode_point_length.
      rewrite !(proj2 (N.ltb_ge _ _)) by lia. lia.
    + rewrite encode_points_cons, length_app, encode_replacement_length. lia.
    + destruct (is_low_surrogate c);
        rewrite encode_points_cons, length_app, ?encode_replacement_length; lia.
Qed.

(** What [fetch] sends are bytes, at least one and at most three for
    each code unit of the string. *)
Theorem utf8_encode_bytes s :
  wf_string s →
  Forall (λ b, b < 256) (utf8_encode s)
  ∧ (length s ≤ length (utf8_encode s) ≤ 3 * length s)%nat.
Proof.
  intros Hs. split; [|by apply utf8_encode_length].
  apply Forall_bind. eapply Forall_impl; [by apply code_points_scalar|].
  intros cp [Hcp _]. by apply encode_point_bytes.
Qed.

(** C17. Round trip of a string over the network: what is decoded from
    the bytes [fetch] sends for a string of 16-bit code units is that
    string with each lone surrogate replaced by U+FFFD and without a
    byte order mark at its start; a string without lone surrogates comes
    back unchanged but for the byte order mark. *)
Theorem utf8_wire s :
  wf_string s →
  utf8_decode (utf8_encode s) = to_well_formed (drop_bom s)
  ∧ (well_formed s = true → utf8_decode (utf8_encode s) = drop_bom s).
Proof.
  intros Hs. split; [by apply utf8_decode_encode|]. intros Hw. by apply utf8_round_trip.
Qed.

(** ** Concrete runs *)

(** One to four bytes for a scalar value; U+FFFD for a surrogate
    without its partner. *)
Example utf8_encode_table :
  utf8_encode (js "aé€😀") = [97; 195; 169; 226; 130; 172; 240; 159; 152; 128]
  ∧ utf8_encode [0xD83D; 0xDE00] = [240; 159; 152; 128]
  ∧ utf8_encode [0xD800] = [0xEF; 0xBF; 0xBD]
  ∧ utf8_encode [0xDE00; 0xD83D] = [0xEF; 0xBF; 0xBD; 0xEF; 0xBF; 0xBD].
Proof. by_compute. Qed.

(** The byte order mark is dropped; an overlong form, an encoded
    surrogate, a sequence cut short and a value above U+10FFFF are
    replaced, one U+FFFD for each byte that cannot go on. *)
Example utf8_decode_table :
  utf8_decode [0xEF; 0xBB; 0xBF; 0x41] = [0x41]
  ∧ utf8_decode [0xF0; 0x9F; 0x98; 0x80] = [0xD83D; 0xDE00]
  ∧ utf8_decode [0xC0; 0x80] = [0xFFFD; 0xFFFD]
  ∧ utf8_decode [0xED; 0xA0; 0x80] = [0xFFFD; 0xFFFD; 0xFFFD]
  ∧ utf8_decode [0xE2; 0x82] = [0xFFFD]
  ∧ utf8_decode [0xE2; 0x82; 0x41] = [0xFFFD; 0x41]
  ∧ utf8_decode [0xF4; 0x90; 0x80; 0x80] = [0xFFFD; 0xFFFD; 0xFFFD; 0xFFFD].
Proof. by_compute. Qed.

Lemma utf8_wire_witness :
  utf8_decode (utf8_encode [0xFEFF; 0xD800; 0x41]) = to_well_formed (drop_bom [0xFEFF; 0xD800; 0x41])
  ∧ (well_formed [0xFEFF; 0xD800; 0x41] = true →
     utf8_decode (utf8_encode [0xFEFF; 0xD800; 0x41]) = drop_bom [0xFEFF; 0xD800; 0x41]).
Proof. apply utf8_wire. by repeat constructor. Defined.

Lemma utf8_encode_bytes_witness :
  Forall (λ b, b < 256) (utf8_encode [0xD83D; 0xDE00; 0x41])
  ∧ (length [0xD83D; 0xDE00; 0x41]%N ≤ length (utf8_encode [0xD83D; 0xDE00; 0x41]%N)
     ≤ 3 * length [0xD83D; 0xDE00; 0x41]%N)%nat.
Proof. apply utf8_encode_bytes. by repeat constructor. Defined.
