(* ===== verification/Json.v ===== *)
(** * Json: the body of a response ([res.json()], script.js lines 16 and
    130; [res.ok], line 131)

    Both handlers read the body of the response with [await res.json()],
    which parses the text of the body as JSON and rejects with a
    SyntaxError when it is not.  This file models the parser after the
    JSON grammar of ECMA-404 as [JSON.parse] applies it: the four white
    space characters, the three literals, numbers without a leading zero
    or a bare point, strings with their escapes ([read_string] of [Api]),
    arrays and objects without a trailing comma.  A number is the
    binary64 value nearest to the decimal written; a name that occurs
    twice in an object keeps its first position and its last value.

    The parser is a recursive descent, one function per production, on
    fuel: [parse_value] answers [Exhausted] when the fuel is used up,
    and the theorems show that the fuel [json_parse] gives it never is.
    What reaches the handlers is then [receive]: the rejection of
    [fetch], or the status and the value parsed from the bytes of the
    body, decoded as UTF-8 ([utf8_decode] of [Utf8]).  In the other
    direction [transmit] gives the message [fetch] sends for a request.

    The theorems: how much of the text each production reads, from
    which the descent terminates within its fuel; what is read holds no
    [undefined], no NaN and, from a text of 16-bit code units, 16-bit
    code units only; what [JSON.stringify] prints for the request and
    for a catalog reads back, also through the bytes on the wire.

    The limit an engine puts on the depth of nesting is not modelled. *)

From S2P Require Import Prelude Effects JsString JsNumber JsValue Api Utf8.
From stdpp Require Import strings.

Local Open Scope N_scope.

(** ** Results of a parser *)

Inductive parsed (A : Type) :=
  | Parsed (a : A) (rest : jsstring)
  | Invalid
  | Exhausted.
Arguments Parsed {A} a rest.
Arguments Invalid {A}.
Arguments Exhausted {A}.

(** ** White space and literals *)

Definition is_json_space (c : code_unit) : bool :=
  (c =? 9) || (c =? 10) || (c =? 13) || (c =? 32).

Fixpoint skip_ws (s : jsstring) : jsstring :=
  match s with
  | c :: r => if is_json_space c then skip_ws r else s
  | [] => []
  end.

Definition lit_null : jsstring := Eval vm_compute in js "null".
Definition lit_true : jsstring := Eval vm_compute in js "true".
Definition lit_false : jsstring := Eval vm_compute in js "false".

Definition parse_literal (lit : jsstring) (v : value) (s : jsstring) : parsed value :=
  match expect lit s with
  | Some r => Parsed v r
  | None => Invalid
  end.

(** ** Numbers *)

(** The sign: a minus or nothing. *)
Definition parse_minus (s : jsstring) : bool * jsstring :=
  match s with
  | c :: r => if c =? 45 then (true, r) else (false, s)
  | [] => (false, s)
  end.

(** The fraction: a point followed by at least one digit, or nothing.
    The digits extend the significand [ip]; the result counts them. *)
Definition parse_fraction (ip : Z) (s : jsstring) : option (Z * Z * jsstring) :=
  match s with
  | c :: r =>
    if c =? 46 then
      let '(m, nf, r') := span_digits 10 r ip 0 in
      if (nf =? 0)%Z then None else Some (m, nf, r')
    else Some (ip, 0%Z, s)
  | [] => Some (ip, 0%Z, s)
  end.

(** The exponent: [e] or [E], a sign or none, at least one digit; or
    nothing. *)
Definition parse_exp (s : jsstring) : option (Z * jsstring) :=
  match s with
  | c :: r =>
    if (c =? 101) || (c =? 69) then
      let '(neg, r1) :=
        match r with
        | c' :: r' => if c' =? 43 then (false, r')
                      else if c' =? 45 then (true, r') else (false, r)
        | [] => (false, r)
        end in
      let '(v, n, r2) := span_digits 10 r1 0 0 in
      if (n =? 0)%Z then None else Some (if neg then (- v)%Z else v, r2)
    else Some (0%Z, s)
  | [] => Some (0%Z, s)
  end.

(** A number: the integer part is [0] or starts with another digit. *)
Definition parse_number (s : jsstring) : option (number * jsstring) :=
  let '(sign, r0) := parse_minus s in
  let '(ip, ni, r1) := span_digits 10 r0 0 0 in
  if (ni =? 0)%Z || ((1 <? ni)%Z && starts_with [48] r0) then None
  else
    '(m, nf, r2) ← parse_fraction ip r1;
    '(e, r3) ← parse_exp r2;
    Some (of_decimal sign m (e - nf), r3).

(** ** Objects *)

(** [set_prop k v props]: the property [k] set to [v]; a property that
    exists keeps its place. *)
Fixpoint set_prop (k : jsstring) (v : value) (props : list (jsstring * value))
    : list (jsstring * value) :=
  match props with
  | [] => [(k, v)]
  | (k', v') :: ps =>
    if bool_decide (k' = k) then (k, v) :: ps else (k', v') :: set_prop k v ps
  end.

(** The name of a member and the colon after it. *)
Definition parse_name (s : jsstring) : option (jsstring * jsstring) :=
  match skip_ws s with
  | c :: r =>
    if c =? 34 then
      '(k, r1) ← read_string r;
      match skip_ws r1 with
      | c1 :: r2 => if c1 =? 58 then Some (k, r2) else None
      | [] => None
      end
    else None
  | [] => None
  end.

(** ** Values *)

(** What follows a value in an array or an object: a comma, the closing
    bracket [close], or an error. *)
Inductive separator := Comma (rest : jsstring) | Close (rest : jsstring) | Neither.

Definition parse_separator (close : code_unit) (s : jsstring) : separator :=
  match skip_ws s with
  | c :: r => if c =? 44 then Comma r else if c =? close then Close r else Neither
  | [] => Neither
  end.

(** [parse_elems elem fuel s acc]: the elements of an array after the
    opening bracket, when the array is not empty, each read by [elem];
    [acc] holds the elements read so far, the last one first. *)
Fixpoint parse_elems (elem : jsstring → parsed value) (fuel : nat) (s : jsstring)
    (acc : list value) : parsed value :=
  match fuel with
  | O => Exhausted
  | S fuel =>
    match elem s with
    | Parsed v r =>
      match parse_separator 93 r with
      | Comma r' => parse_elems elem fuel r' (v :: acc)
      | Close r' => Parsed (VArr (reverse (v :: acc))) r'
      | Neither => Invalid
      end
    | Invalid => Invalid
    | Exhausted => Exhausted
    end
  end.

(** [parse_members elem fuel s acc]: the members of an object after the
    opening brace, when the object is not empty. *)
Fixpoint parse_members (elem : jsstring → parsed value) (fuel : nat) (s : jsstring)
    (acc : list (jsstring * value)) : parsed value :=
  match fuel with
  | O => Exhausted
  | S fuel =>
    match parse_name s with
    | Some (k, r) =>
      match elem r with
      | Parsed v r' =>
        match parse_separator 125 r' with
        | Comma r'' => parse_members elem fuel r'' (set_prop k v acc)
        | Close r'' => Parsed (VObj (set_prop k v acc)) r''
        | Neither => Invalid
        end
      | Invalid => Invalid
      | Exhausted => Exhausted
      end
    | None => Invalid
    end
  end.

(** [parse_value fuel s]: the value at the start of [s], after white
    space, and what follows it.  The fuel bounds the depth of nesting
    and, in an array or an object, the number of elements. *)
Fixpoint parse_value (fuel : nat) (s : jsstring) : parsed value :=
  match fuel with
  | O => Exhausted
  | S fuel =>
    match skip_ws s with
    | [] => Invalid
    | c :: r =>
      if c =? 34 then
        match read_string r with
        | Some (t, r') => Parsed (VStr t) r'
        | None => Invalid
        end
      else if c =? 91 then
        match skip_ws r with
        | c' :: r' =>
          if c' =? 93 then Parsed (VArr []) r'
          else parse_elems (parse_value fuel) fuel r []
        | [] => Invalid
        end
      else if c =? 123 then
        match skip_ws r with
        | c' :: r' =>
          if c' =? 125 then Parsed (VObj []) r'
          else parse_members (parse_value fuel) fuel r []
        | [] => Invalid
        end
      else if c =? 110 then parse_literal lit_null VNull (c :: r)
      else if c =? 116 then parse_literal lit_true (VBool true) (c :: r)
      else if c =? 102 then parse_literal lit_false (VBool false) (c :: r)
      else
        match parse_number (c :: r) with
        | Some (x, r') => Parsed (VNum x) r'
        | None => Invalid
        end
    end
  end.

(** The fuel of [json_parse]: one unit for each code unit of the text,
    and one to start with. *)
Definition json_fuel (s : jsstring) : nat := S (length s).

(** [JSON.parse(s)]: one value, with white space around it and nothing
    else; [None] is a SyntaxError. *)
Definition json_parse (s : jsstring) : option value :=
  match parse_value (json_fuel s) s with
  | Parsed v r => if is_nil (skip_ws r) then Some v else None
  | _ => None
  end.

(** ** What a handler receives *)

(** What the network gives back to [fetch]: a failure, or a status and
    the bytes of a body. *)
Inductive wire :=
  | Failed
  | Answered (status : N) (body : list N).

(** [res.ok]: a status from 200 to 299. *)
Definition status_ok (status : N) : bool := (200 <=? status) && (status <=? 299).

(** [await fetch(...)] and [await res.json()] on what came back. *)
Definition receive (x : wire) : response :=
  match x with
  | Failed => Rejected
  | Answered status body => Replied (status_ok status) (json_parse (utf8_decode body))
  end.

(** What [fetch] puts on the network for a request: the method, the
    URL, the content type the script declares and the bytes of the
    body. *)
Record message := Message {
  msg_method : jsstring;
  msg_url : jsstring;
  msg_content_type : option jsstring;
  msg_body : list N
}.

Definition str_GET : jsstring := Eval vm_compute in js "GET".
Definition str_POST : jsstring := Eval vm_compute in js "POST".
Definition str_json_type : jsstring := Eval vm_compute in js "application/json".

(** Lines 15 and 125-129: [fetch(url)] is a GET without a body;
    [fetch(url, { method, headers, body })] sends the string body as
    UTF-8. *)
Definition transmit (q : request) : message :=
  match q with
  | GetTypes url => Message str_GET url None []
  | PostScore url body => Message str_POST url (Some str_json_type) (utf8_encode body)
  end.

(** ** What the service is expected to send *)

(** An array of strings as [JSON.stringify] prints it. *)
Definition json_names (names : list jsstring) : jsstring :=
  [91] ++ join_with [44] (json_quote <$> names) ++ [93].

(** The object a scoring request denotes. *)
Definition k_typeA : jsstring := Eval vm_compute in js "typeA".
Definition k_typeB : jsstring := Eval vm_compute in js "typeB".

Definition score_object (a b : jsstring) : value :=
  VObj [(k_typeA, VStr a); (k_typeB, VStr b)].

(** ** The width of the code units read *)

(** [wf_parsed p]: the value read and the text left hold 16-bit code
    units only. *)
Definition wf_parsed (p : parsed value) : Prop :=
  match p with
  | Parsed v r => wf_value v = true ∧ wf_string r
  | _ => True
  end.

(** ** How much of the text a parser reads *)

(** [within n p]: what the result [p] leaves is shorter than [n]. *)
Definition within {A} (n : nat) (p : parsed A) : Prop :=
  match p with
  | Parsed _ r => (length r < n)%nat
  | _ => True
  end.

(** [consuming elem]: [elem] takes at least one code unit of what it
    reads. *)
Definition consuming (elem : jsstring → parsed value) : Prop :=
  ∀ s, within (length s) (elem s).

Section lengths.
Implicit Types (s r : jsstring) (c : code_unit).

Lemma within_mono {A} n m (p : parsed A) : (n ≤ m)%nat → within n p → within m p.
Proof. destruct p; simpl; [lia|done..]. Qed.

Lemma skip_ws_length s : (length (skip_ws s) ≤ length s)%nat.
Proof. induction s as [|c s IH]; simpl; [done|]. destruct (is_json_space c); simpl; lia. Qed.

Lemma skip_ws_cons s c r : skip_ws s = c :: r → (length r < length s)%nat.
Proof. intros E. pose proof (skip_ws_length s) as H. rewrite E in H. simpl in H. lia. Qed.

Lemma span_digits_length radix s acc n a n' r :
  span_digits radix s acc n = (a, n', r) →
  (length r ≤ length s)%nat ∧ ((n < n')%Z → (length r < length s)%nat)
  ∧ (n ≤ n')%Z.
Proof.
  revert acc n. induction s as [|c s IH]; intros acc n; simpl.
  - intros [= <- <- <-]. simpl. lia.
  - destruct (digit_in radix c).
    + intros E. apply IH in E. lia.
    + intros [= <- <- <-]. simpl. lia.
Qed.

Lemma push_length c (o : option (jsstring * jsstring)) t r n :
  (∀ t' r', o = Some (t', r') → (length r' < n)%nat) →
  push c o = Some (t, r) → (length r < n)%nat.
Proof. destruct o as [[t' r']|]; simpl; [|done]. intros H [= <- <-]. eauto. Qed.

Lemma read_string_length s t r : read_string s = Some (t, r) → (length r < length s)%nat.
Proof.
  remember (length s) as n eqn:Hn. revert s t r Hn.
  induction (lt_wf n) as [n _ IH]. intros [|c s] t r -> ; simpl; [done|].
  assert (∀ s' t' r', (length s' ≤ length s)%nat →
            read_string s' = Some (t', r') → (length r' < S (length s))%nat) as Hrec.
  { intros s' t' r' Hs E.
    pose proof (IH (length s') ltac:(simpl; lia) s' t' r' eq_refl E). lia. }
  destruct (c =? 34); [intros [= <- <-]; lia|].
  destruct (c =? 92).
  - destruct s as [|e s]; [done|]. destruct (e =? 117).
    + destruct s as [|h1 [|h2 [|h3 [|h4 s]]]]; try done.
      destruct (hex4 h1 h2 h3 h4); simpl; [|done].
      apply push_length. intros t' r'. apply Hrec. simpl. lia.
    + destruct (unescape_unit e); simpl; [|done].
      apply push_length. intros t' r'. apply Hrec. simpl. lia.
  - destruct (c <? 32); [done|]. apply push_length. intros t' r'. by apply Hrec.
Qed.

Lemma expect_length p s r : expect p s = Some r → length r = (length s - length p)%nat.
Proof. unfold expect. destruct (starts_with p s); [|done]. intros [= <-]. apply length_drop. Qed.

Lemma parse_literal_within lit v c r :
  lit ≠ [] → within (S (length r)) (parse_literal lit v (c :: r)).
Proof.
  intros Hl. unfold parse_literal. destruct (expect lit (c :: r)) as [r'|] eqn:E; [|done].
  apply expect_length in E. destruct lit; [done|]. simpl in *. lia.
Qed.

Lemma parse_minus_length s sign r :
  parse_minus s = (sign, r) → (length r ≤ length s)%nat.
Proof.
  destruct s as [|c s]; simpl; [by intros [= <- <-]|].
  destruct (c =? 45); intros [= <- <-]; simpl; lia.
Qed.

Lemma parse_fraction_length ip s m nf r :
  parse_fraction ip s = Some (m, nf, r) → (length r ≤ length s)%nat.
Proof.
  destruct s as [|c s]; simpl; [by intros [= <- <- <-]|].
  destruct (c =? 46); [|intros [= <- <- <-]; simpl; lia].
  destruct (span_digits 10 s ip 0) as [[m' nf'] r'] eqn:E.
  apply span_digits_length in E. destruct (nf' =? 0)%Z; [done|].
  intros [= <- <- <-]. simpl. lia.
Qed.

Lemma parse_exp_length s e r : parse_exp s = Some (e, r) → (length r ≤ length s)%nat.
Proof.
  destruct s as [|c s]; simpl; [by intros [= <- <-]|].
  destruct ((c =? 101) || (c =? 69)); [|intros [= <- <-]; simpl; lia].
  destruct (match s with
            | [] => (false, s)
            | c' :: r' => if c' =? 43 then (false, r')
                          else if c' =? 45 then (true, r') else (false, s)
            end) as [neg r1] eqn:E1.
  assert (length r1 ≤ length s)%nat.
  { destruct s as [|c' s']; [by injection E1 as <- <-|].
    destruct (c' =? 43), (c' =? 45); injection E1 as <- <-; simpl; lia. }
  destruct (span_digits 10 r1 0 0) as [[v n] r2] eqn:E2.
  apply span_digits_length in E2. destruct (n =? 0)%Z; [done|].
  intros [= <- <-]. simpl. lia.
Qed.

Lemma parse_number_length s x r : parse_number s = Some (x, r) → (length r < length s)%nat.
Proof.
  unfold parse_number. destruct (parse_minus s) as [sign r0] eqn:E0.
  apply parse_minus_length in E0.
  destruct (span_digits 10 r0 0 0) as [[ip ni] r1] eqn:E1.
  apply span_digits_length in E1 as (? & Hlt & ?).
  destruct (ni =? 0)%Z eqn:Hni; [done|]. cbn [orb].
  destruct ((1 <? ni)%Z && starts_with [48] r0); [done|].
  destruct (parse_fraction ip r1) as [[[m nf] r2]|] eqn:E2; [|done].
  apply parse_fraction_length in E2. simpl.
  destruct (parse_exp r2) as [[e r3]|] eqn:E3; [|done].
  apply parse_exp_length in E3. simpl. intros [= <- <-].
  assert (0 < ni)%Z as Hpos by lia. apply Hlt in Hpos. lia.
Qed.

Lemma parse_number_not_nan s x r : parse_number s = Some (x, r) → is_nan x = false.
Proof.
  unfold parse_number. destruct (parse_minus s) as [sign r0].
  destruct (span_digits 10 r0 0 0) as [[ip ni] r1].
  destruct (_ || _); [done|].
  destruct (parse_fraction ip r1) as [[[m nf] r2]|]; [|done]. simpl.
  destruct (parse_exp r2) as [[e r3]|]; [|done]. simpl.
  intros [= <- <-]. apply of_decimal_not_nan.
Qed.

Lemma parse_name_length s k r : parse_name s = Some (k, r) → (length r < length s)%nat.
Proof.
  unfold parse_name. destruct (skip_ws s) as [|c r0] eqn:E0; [done|].
  apply skip_ws_cons in E0. destruct (c =? 34); [|done].
  destruct (read_string r0) as [[k' r1]|] eqn:E1; [|done]. simpl.
  apply read_string_length in E1.
  destruct (skip_ws r1) as [|c1 r2] eqn:E2; [done|]. apply skip_ws_cons in E2.
  destruct (c1 =? 58); [|done]. intros [= <- <-]. lia.
Qed.

Lemma parse_separator_length close s :
  match parse_separator close s with
  | Comma r | Close r => (length r < length s)%nat
  | Neither => True
  end.
Proof.
  unfold parse_separator. destruct (skip_ws s) as [|c r] eqn:E; [done|].
  apply skip_ws_cons in E. by destruct (c =? 44), (c =? close).
Qed.

End lengths.

(** ** The descent *)

Section descent.
Implicit Types (s r : jsstring) (fuel : nat) (v : value) (elem : jsstring → parsed value).

(** What is read takes at least one code unit. *)
Lemma parse_elems_within elem fuel s acc :
  consuming elem → within (length s) (parse_elems elem fuel s acc).
Proof.
  intros He. revert s acc. induction fuel as [|fuel IH]; intros s acc; [done|].
  cbn [parse_elems]. pose proof (He s) as Hv.
  destruct (elem s) as [v r| |]; [|done..]. simpl in Hv.
  pose proof (parse_separator_length 93 r) as Hs.
  destruct (parse_separator 93 r) as [r'|r'|]; [|simpl; lia|done].
  eapply within_mono, IH. lia.
Qed.

Lemma parse_members_within elem fuel s acc :
  consuming elem → within (length s) (parse_members elem fuel s acc).
Proof.
  intros He. revert s acc. induction fuel as [|fuel IH]; intros s acc; [done|].
  cbn [parse_members].
  destruct (parse_name s) as [[k r]|] eqn:En; [|done]. apply parse_name_length in En.
  pose proof (He r) as Hv. destruct (elem r) as [v r'| |]; [|done..]. simpl in Hv.
  pose proof (parse_separator_length 125 r') as Hs.
  destruct (parse_separator 125 r') as [r''|r''|]; [|simpl; lia|done].
  eapply within_mono, IH. lia.
Qed.

Lemma parse_value_consuming fuel : consuming (parse_value fuel).
Proof.
  induction fuel as [|fuel IH]; intros s; [done|].
  cbn [parse_value]. destruct (skip_ws s) as [|c r] eqn:E; [done|].
  apply skip_ws_cons in E. apply (within_mono (S (length r))); [lia|].
  destruct (c =? 34).
  { destruct (read_string r) as [[t r']|] eqn:Er; [|done].
    apply read_string_length in Er. simpl. lia. }
  destruct (c =? 91).
  { destruct (skip_ws r) as [|c' r'] eqn:E'; [done|]. apply skip_ws_cons in E'.
    destruct (c' =? 93); [simpl; lia|].
    eapply within_mono, parse_elems_within; [lia|done]. }
  destruct (c =? 123).
  { destruct (skip_ws r) as [|c' r'] eqn:E'; [done|]. apply skip_ws_cons in E'.
    destruct (c' =? 125); [simpl; lia|].
    eapply within_mono, parse_members_within; [lia|done]. }
  destruct (c =? 110); [by apply parse_literal_within|].
  destruct (c =? 116); [by apply parse_literal_within|].
  destruct (c =? 102); [by apply parse_literal_within|].
  destruct (parse_number (c :: r)) as [[x r']|] eqn:En; [|done].
  apply parse_number_length in En. simpl in *. lia.
Qed.

Lemma parse_value_within fuel s v r :
  parse_value fuel s = Parsed v r → (length r < length s)%nat.
Proof. intros E. pose proof (parse_value_consuming fuel s) as H. by rewrite E in H. Qed.

Lemma parse_literal_runs lit v s : parse_literal lit v s ≠ Exhausted.
Proof. unfold parse_literal. by destruct (expect lit s). Qed.

(** One unit of fuel for each code unit is enough. *)
Lemma parse_elems_enough elem fuel s acc :
  consuming elem → (∀ s', (length s' ≤ length s)%nat → elem s' ≠ Exhausted) →
  (length s < fuel)%nat → parse_elems elem fuel s acc ≠ Exhausted.
Proof.
  intros He. revert s acc. induction fuel as [|fuel IH]; intros s acc Hr Hf; [lia|].
  cbn [parse_elems]. pose proof (Hr s ltac:(done)) as Hv. pose proof (He s) as Hw.
  destruct (elem s) as [v r| |]; [|done..]. simpl in Hw.
  pose proof (parse_separator_length 93 r) as Hs.
  destruct (parse_separator 93 r) as [r'|r'|]; [|done..].
  apply IH; [|lia]. intros s' Hs'. apply Hr. lia.
Qed.

Lemma parse_members_enough elem fuel s acc :
  consuming elem → (∀ s', (length s' ≤ length s)%nat → elem s' ≠ Exhausted) →
  (length s < fuel)%nat → parse_members elem fuel s acc ≠ Exhausted.
Proof.
  intros He. revert s acc. induction fuel as [|fuel IH]; intros s acc Hr Hf; [lia|].
  cbn [parse_members].
  destruct (parse_name s) as [[k r]|] eqn:En; [|done]. apply parse_name_length in En.
  pose proof (Hr r ltac:(lia)) as Hv. pose proof (He r) as Hw.
  destruct (elem r) as [v r'| |]; [|done..]. simpl in Hw.
  pose proof (parse_separator_length 125 r') as Hs.
  destruct (parse_separator 125 r') as [r''|r''|]; [|done..].
  apply IH; [|lia]. intros s' Hs'. apply Hr. lia.
Qed.

Lemma parse_value_enough fuel s : (length s < fuel)%nat → parse_value fuel s ≠ Exhausted.
Proof.
  revert s. induction fuel as [|fuel IH]; intros s Hf; [lia|].
  cbn [parse_value]. destruct (skip_ws s) as [|c r] eqn:E; [done|].
  apply skip_ws_cons in E.
  destruct (c =? 34); [by destruct (read_string r) as [[]|]|].
  destruct (c =? 91).
  { destruct (skip_ws r) as [|c' r']; [done|]. destruct (c' =? 93); [done|].
    apply parse_elems_enough; [apply parse_value_consuming| |lia].
    intros s' Hs'. apply IH. lia. }
  destruct (c =? 123).
  { destruct (skip_ws r) as [|c' r']; [done|]. destruct (c' =? 125); [done|].
    apply parse_members_enough; [apply parse_value_consuming| |lia].
    intros s' Hs'. apply IH. lia. }
  repeat (case_match; [apply parse_literal_runs|]).
  by destruct (parse_number (c :: r)) as [[]|].
Qed.

(** A result that was reached does not change with more fuel. *)
Lemma parse_elems_more elem elem' fuel n s acc :
  (∀ s', elem s' ≠ Exhausted → elem' s' = elem s') →
  parse_elems elem fuel s acc ≠ Exhausted →
  parse_elems elem' (fuel + n) s acc = parse_elems elem fuel s acc.
Proof.
  intros He. revert s acc. induction fuel as [|fuel IH]; intros s acc; [done|].
  cbn [parse_elems Nat.add].
  destruct (elem s) as [v r| |] eqn:E; [|by rewrite He, E by by rewrite E|done].
  rewrite He, E by by rewrite E.
  destruct (parse_separator 93 r) as [r'|r'|]; [|done..]. apply IH.
Qed.

Lemma parse_members_more elem elem' fuel n s acc :
  (∀ s', elem s' ≠ Exhausted → elem' s' = elem s') →
  parse_members elem fuel s acc ≠ Exhausted →
  parse_members elem' (fuel + n) s acc = parse_members elem fuel s acc.
Proof.
  intros He. revert s acc. induction fuel as [|fuel IH]; intros s acc; [done|].
  cbn [parse_members Nat.add]. destruct (parse_name s) as [[k r]|]; [|done].
  destruct (elem r) as [v r'| |] eqn:E; [|by rewrite He, E by by rewrite E|done].
  rewrite He, E by by rewrite E.
  destruct (parse_separator 125 r') as [r''|r''|]; [|done..]. apply IH.
Qed.

Lemma parse_value_more fuel n s :
  parse_value fuel s ≠ Exhausted → parse_value (fuel + n) s = parse_value fuel s.
Proof.
  revert s. induction fuel as [|fuel IH]; intros s; [done|].
  cbn [parse_value Nat.add]. destruct (skip_ws s) as [|c r]; [done|].
  destruct (c =? 34); [done|].
  destruct (c =? 91).
  { destruct (skip_ws r) as [|c' r']; [done|]. destruct (c' =? 93); [done|].
    by apply parse_elems_more. }
  destruct (c =? 123); [|done].
  destruct (skip_ws r) as [|c' r']; [done|]. destruct (c' =? 125); [done|].
  by apply parse_members_more.
Qed.

Lemma set_prop_json_value k v props :
  json_value v = true → forallb (λ kv, json_value kv.2) props = true →
  forallb (λ kv, json_value kv.2) (set_prop k v props) = true.
Proof.
  intros Hv. induction props as [|[k' v'] ps IH]; simpl; [by rewrite Hv|].
  intros [Hv' Hps]%andb_true_iff. destruct (bool_decide (k' = k)); simpl.
  - by rewrite Hv.
  - by rewrite Hv', IH.
Qed.

(** What is read holds no [undefined] and no NaN. *)
Lemma parse_elems_json_value elem fuel s acc v r :
  (∀ s' v' r', elem s' = Parsed v' r' → json_value v' = true) →
  forallb json_value acc = true →
  parse_elems elem fuel s acc = Parsed v r → json_value v = true.
Proof.
  intros He. revert s acc. induction fuel as [|fuel IH]; intros s acc Hacc; [done|].
  cbn [parse_elems]. destruct (elem s) as [v0 r0| |] eqn:E; [|done..]. apply He in E.
  destruct (parse_separator 93 r0) as [r'|r'|]; [| |done].
  - apply IH. simpl. by rewrite E.
  - intros [= <- <-]. cbn [json_value]. rewrite forallb_reverse. simpl. by rewrite E.
Qed.

Lemma parse_members_json_value elem fuel s acc v r :
  (∀ s' v' r', elem s' = Parsed v' r' → json_value v' = true) →
  forallb (λ kv, json_value kv.2) acc = true →
  parse_members elem fuel s acc = Parsed v r → json_value v = true.
Proof.
  intros He. revert s acc. induction fuel as [|fuel IH]; intros s acc Hacc; [done|].
  cbn [parse_members]. destruct (parse_name s) as [[k r0]|]; [|done].
  destruct (elem r0) as [v0 r1| |] eqn:E; [|done..]. apply He in E.
  destruct (parse_separator 125 r1) as [r'|r'|]; [| |done].
  - apply IH. by apply set_prop_json_value.
  - intros [= <- <-]. by apply set_prop_json_value.
Qed.

Lemma parse_value_json_value fuel s v r :
  parse_value fuel s = Parsed v r → json_value v = true.
Proof.
  revert s v r. induction fuel as [|fuel IH]; intros s v r; [done|].
  cbn [parse_value]. destruct (skip_ws s) as [|c r0]; [done|].
  destruct (c =? 34); [destruct (read_string r0) as [[]|]; by intros [= <- <-]|].
  destruct (c =? 91).
  { destruct (skip_ws r0) as [|c' r']; [done|].
    destruct (c' =? 93); [by intros [= <- <-]|]. by apply parse_elems_json_value. }
  destruct (c =? 123).
  { destruct (skip_ws r0) as [|c' r']; [done|].
    destruct (c' =? 125); [by intros [= <- <-]|]. by apply parse_members_json_value. }
  unfold parse_literal.
  repeat (case_match; [case_match; by intros [= <- <-]|]).
  destruct (parse_number (c :: r0)) as [[x r']|] eqn:En; [|done].
  intros [= <- <-]. simpl. by rewrite (parse_number_not_nan _ _ _ En).
Qed.

End descent.

(** ** [JSON.parse] *)

(** ** Strings of 16-bit code units

    The parser makes its strings of code units of the text and of the
    code units that escapes denote, all of 16 bits when the text is. *)

Section widths.
Implicit Types (s r t : jsstring) (c : code_unit) (v : value).

Lemma wf_string_tail c s : wf_string (c :: s) → wf_string s.
Proof. by intros [_ ?]%Forall_cons_iff. Qed.

Lemma skip_ws_wf s : wf_string s → wf_string (skip_ws s).
Proof.
  induction s as [|c s IH]; simpl; [done|]. intros Hs.
  destruct (is_json_space c); [by apply IH, (wf_string_tail c)|done].
Qed.

Lemma span_digits_wf radix s acc n a n' r :
  wf_string s → span_digits radix s acc n = (a, n', r) → wf_string r.
Proof.
  revert acc n. induction s as [|c s IH]; intros acc n Hs; simpl.
  - by intros [= <- <- <-].
  - destruct (digit_in radix c); [apply IH; by apply (wf_string_tail c)|by intros [= <- <- <-]].
Qed.

Lemma hex_value_bound c : hex_value c < 16.
Proof.
  unfold hex_value.
  destruct (N.leb_spec 48 c), (N.leb_spec c 57), (N.leb_spec 97 c), (N.leb_spec c 102),
    (N.leb_spec 65 c), (N.leb_spec c 70); simpl; lia.
Qed.

Lemma hex4_wf h1 h2 h3 h4 u : hex4 h1 h2 h3 h4 = Some u → u < 65536.
Proof.
  unfold hex4. case_test; [|done]. intros [= <-].
  pose proof (hex_value_bound h1). pose proof (hex_value_bound h2).
  pose proof (hex_value_bound h3). pose proof (hex_value_bound h4). lia.
Qed.

Lemma unescape_unit_wf e u : unescape_unit e = Some u → u < 65536.
Proof. unfold unescape_unit. repeat case_test; intros [= <-]; lia. Qed.

Lemma push_wf c (o : option (jsstring * jsstring)) t r :
  c < 65536 → (∀ t' r', o = Some (t', r') → wf_string t' ∧ wf_string r') →
  push c o = Some (t, r) → wf_string t ∧ wf_string r.
Proof.
  destruct o as [[t' r']|]; simpl; [|done]. intros Hc H [= <- <-].
  destruct (H t' r' eq_refl). split; [by constructor|done].
Qed.

Lemma read_string_wf s t r :
  wf_string s → read_string s = Some (t, r) → wf_string t ∧ wf_string r.
Proof.
  remember (length s) as n eqn:Hn. revert s t r Hn.
  induction (lt_wf n) as [n _ IH]. intros [|c s] t r -> Hs; simpl; [done|].
  apply Forall_cons_iff in Hs as [Hc Hs].
  assert (∀ s' t' r', (length s' ≤ length s)%nat → wf_string s' →
            read_string s' = Some (t', r') → wf_string t' ∧ wf_string r') as Hrec.
  { intros s' t' r' Hl. by apply (IH (length s') ltac:(simpl; lia) s' t' r' eq_refl). }
  destruct (c =? 34); [intros [= <- <-]; by split; [constructor|]|].
  destruct (c =? 92).
  - destruct s as [|e s]; [done|]. apply Forall_cons_iff in Hs as [He Hs]. destruct (e =? 117).
    + destruct s as [|h1 [|h2 [|h3 [|h4 s]]]]; try done.
      destruct (hex4 h1 h2 h3 h4) as [u|] eqn:Eu; simpl; [|done].
      apply push_wf; [by eapply hex4_wf|]. intros t' r'. apply Hrec; [simpl; lia|].
      by do 4 apply wf_string_tail in Hs.
    + destruct (unescape_unit e) as [u|] eqn:Eu; simpl; [|done].
      apply push_wf; [by eapply unescape_unit_wf|]. intros t' r'. apply Hrec; [simpl; lia|done].
  - destruct (c <? 32); [done|]. apply push_wf; [done|]. intros t' r'. by apply Hrec.
Qed.

Lemma expect_wf p s r : wf_string s → expect p s = Some r → wf_string r.
Proof. unfold expect. intros Hs. case_test; [|done]. intros [= <-]. by apply Forall_drop. Qed.

Lemma parse_literal_wf lit v s :
  wf_string s → wf_value v = true → wf_parsed (parse_literal lit v s).
Proof.
  intros Hs Hv. unfold parse_literal. destruct (expect lit s) as [r|] eqn:E; [|done].
  split; [done|by eapply expect_wf].
Qed.

Lemma parse_minus_wf s sign r : wf_string s → parse_minus s = (sign, r) → wf_string r.
Proof.
  intros Hs. destruct s as [|c s]; simpl; [by intros [= <- <-]|].
  destruct (c =? 45); intros [= <- <-]; [by apply (wf_string_tail c)|done].
Qed.

Lemma parse_fraction_wf ip s m nf r :
  wf_string s → parse_fraction ip s = Some (m, nf, r) → wf_string r.
Proof.
  intros Hs. destruct s as [|c s]; simpl; [by intros [= <- <- <-]|].
  destruct (c =? 46); [|by intros [= <- <- <-]].
  destruct (span_digits 10 s ip 0) as [[m' nf'] r'] eqn:E.
  apply span_digits_wf in E; [|by apply (wf_string_tail c)].
  destruct (nf' =? 0)%Z; [done|]. by intros [= <- <- <-].
Qed.

Lemma parse_exp_wf s e r : wf_string s → parse_exp s = Some (e, r) → wf_string r.
Proof.
  intros Hs. destruct s as [|c s]; simpl; [by intros [= <- <-]|].
  destruct ((c =? 101) || (c =? 69)); [|by intros [= <- <-]].
  apply wf_string_tail in Hs.
  destruct (match s with
            | [] => (false, s)
            | c' :: r' => if c' =? 43 then (false, r')
                          else if c' =? 45 then (true, r') else (false, s)
            end) as [neg r1] eqn:E1.
  assert (wf_string r1).
  { destruct s as [|c' s']; [by injection E1 as <- <-|].
    destruct (c' =? 43), (c' =? 45); injection E1 as <- <-;
      done || by apply (wf_string_tail c'). }
  destruct (span_digits 10 r1 0 0) as [[v n] r2] eqn:E2.
  apply span_digits_wf in E2; [|done]. destruct (n =? 0)%Z; [done|]. by intros [= <- <-].
Qed.

Lemma parse_number_wf s x r : wf_string s → parse_number s = Some (x, r) → wf_string r.
Proof.
  intros Hs. unfold parse_number. destruct (parse_minus s) as [sign r0] eqn:E0.
  apply parse_minus_wf in E0; [|done].
  destruct (span_digits 10 r0 0 0) as [[ip ni] r1] eqn:E1.
  apply span_digits_wf in E1; [|done]. destruct (_ || _); [done|].
  destruct (parse_fraction ip r1) as [[[m nf] r2]|] eqn:E2; [|done].
  apply parse_fraction_wf in E2; [|done]. simpl.
  destruct (parse_exp r2) as [[e r3]|] eqn:E3; [|done].
  apply parse_exp_wf in E3; [|done]. simpl. by intros [= <- <-].
Qed.

Lemma parse_name_wf s k r :
  wf_string s → parse_name s = Some (k, r) → wf_string k ∧ wf_string r.
Proof.
  intros Hs%skip_ws_wf. unfold parse_name. destruct (skip_ws s) as [|c r0]; [done|].
  apply wf_string_tail in Hs. destruct (c =? 34); [|done].
  destruct (read_string r0) as [[k' r1]|] eqn:E1; [|done]. simpl.
  apply read_string_wf in E1 as [Hk Hr%skip_ws_wf]; [|done].
  destruct (skip_ws r1) as [|c1 r2]; [done|]. apply wf_string_tail in Hr.
  destruct (c1 =? 58); [|done]. by intros [= <- <-].
Qed.

Lemma parse_separator_wf close s :
  wf_string s →
  match parse_separator close s with
  | Comma r | Close r => wf_string r
  | Neither => True
  end.
Proof.
  intros Hs%skip_ws_wf. unfold parse_separator. destruct (skip_ws s) as [|c r]; [done|].
  apply wf_string_tail in Hs. by destruct (c =? 44), (c =? close).
Qed.

Lemma set_prop_wf k v props :
  wf_string k → wf_value v = true → wf_value (VObj props) = true →
  wf_value (VObj (set_prop k v props)) = true.
Proof.
  intros Hk%(bool_decide_eq_true_2 _) Hv. cbn [wf_value].
  induction props as [|[k' v'] ps IH]; cbn [set_prop forallb fst snd].
  - intros _. by rewrite Hk, Hv.
  - intros [H1 H2]%andb_true_iff. destruct (bool_decide (k' = k)); cbn [forallb fst snd].
    + by rewrite Hk, Hv, H2.
    + by rewrite H1, IH.
Qed.

Lemma parse_elems_wf elem fuel s acc :
  (∀ s', wf_string s' → wf_parsed (elem s')) →
  wf_string s → forallb wf_value acc = true →
  wf_parsed (parse_elems elem fuel s acc).
Proof.
  intros He. revert s acc. induction fuel as [|fuel IH]; intros s acc Hs Hacc; [done|].
  cbn [parse_elems]. pose proof (He s Hs) as Hv.
  destruct (elem s) as [v r| |]; [|done..]. destruct Hv as [Hv Hr].
  pose proof (parse_separator_wf 93 r Hr) as Hsep.
  destruct (parse_separator 93 r) as [r'|r'|]; [| |done].
  - apply IH; [done|]. simpl. by rewrite Hv.
  - split; [|done]. cbn [wf_value]. rewrite forallb_reverse. simpl. by rewrite Hv.
Qed.

Lemma parse_members_wf elem fuel s acc :
  (∀ s', wf_string s' → wf_parsed (elem s')) →
  wf_string s → wf_value (VObj acc) = true →
  wf_parsed (parse_members elem fuel s acc).
Proof.
  intros He. revert s acc. induction fuel as [|fuel IH]; intros s acc Hs Hacc; [done|].
  cbn [parse_members]. destruct (parse_name s) as [[k r]|] eqn:En; [|done].
  apply parse_name_wf in En as [Hk Hr]; [|done]. pose proof (He r Hr) as Hv.
  destruct (elem r) as [v r'| |]; [|done..]. destruct Hv as [Hv Hr'].
  pose proof (parse_separator_wf 125 r' Hr') as Hsep.
  destruct (parse_separator 125 r') as [r''|r''|]; [| |done].
  - apply IH; [done|]. by apply set_prop_wf.
  - split; [|done]. by apply set_prop_wf.
Qed.

Lemma parse_value_wf fuel s : wf_string s → wf_parsed (parse_value fuel s).
Proof.
  revert s. induction fuel as [|fuel IH]; intros s Hs%skip_ws_wf; [done|].
  cbn [parse_value]. destruct (skip_ws s) as [|c r]; [done|].
  pose proof (wf_string_tail _ _ Hs) as Hr.
  destruct (c =? 34).
  { destruct (read_string r) as [[t r']|] eqn:Er; [|done].
    apply read_string_wf in Er as [Ht Hr']; [|done]. split; [|done].
    by apply bool_decide_eq_true_2. }
  destruct (c =? 91).
  { pose proof (skip_ws_wf r Hr) as Hr'. destruct (skip_ws r) as [|c' r']; [done|].
    destruct (c' =? 93); [split; [done|by apply (wf_string_tail c')]|].
    by apply parse_elems_wf. }
  destruct (c =? 123).
  { pose proof (skip_ws_wf r Hr) as Hr'. destruct (skip_ws r) as [|c' r']; [done|].
    destruct (c' =? 125); [split; [done|by apply (wf_string_tail c')]|].
    by apply parse_members_wf. }
  do 3 (case_test; [by apply parse_literal_wf|]).
  destruct (parse_number (c :: r)) as [[x r']|] eqn:En; [|done].
  split; [done|by apply (parse_number_wf (c :: r) x)].
Qed.

(** What [JSON.parse] reads from a string of 16-bit code units holds
    strings of 16-bit code units. *)
Lemma json_parse_wf s v : wf_string s → json_parse s = Some v → wf_value v = true.
Proof.
  intros Hs. unfold json_parse. pose proof (parse_value_wf (json_fuel s) s Hs) as H.
  destruct (parse_value (json_fuel s) s) as [v' r| |]; [|done..].
  case_test; [|done]. intros [= <-]. apply H.
Qed.

(** What a handler receives holds strings of 16-bit code units only,
    whatever the bytes of the body. *)
Lemma receive_wf x : wf_response (receive x).
Proof.
  destruct x as [|status body]; simpl; [done|].
  destruct (json_parse (utf8_decode body)) as [v|] eqn:E; [|done].
  eapply json_parse_wf; [apply utf8_decode_wf|done].
Qed.

End widths.

Section json_parse_facts.
Implicit Types (s r : jsstring) (fuel : nat) (v : value).

(** C26. The descent terminates within its fuel: on no text is the fuel of
    [json_parse] used up, and any more fuel gives the same result. *)
Theorem parse_value_terminates s n :
  parse_value (json_fuel s + n) s ≠ Exhausted
  ∧ parse_value (json_fuel s + n) s = parse_value (json_fuel s) s.
Proof.
  assert (parse_value (json_fuel s) s ≠ Exhausted) as H
    by (apply parse_value_enough; unfold json_fuel; lia).
  by rewrite parse_value_more.
Qed.

(** A value found with some fuel, with nothing but white space after
    it, is the value of the text. *)
Lemma json_parse_at fuel s v r :
  parse_value fuel s = Parsed v r → is_nil (skip_ws r) = true → json_parse s = Some v.
Proof.
  intros E Hr. unfold json_parse.
  assert (parse_value (json_fuel s) s = Parsed v r) as ->; [|by rewrite Hr].
  assert (parse_value (json_fuel s) s ≠ Exhausted) as H
    by (apply parse_value_enough; unfold json_fuel; lia).
  destruct (decide (fuel ≤ json_fuel s)%nat) as [Hle|Hgt].
  - replace (json_fuel s) with (fuel + (json_fuel s - fuel))%nat by lia.
    rewrite parse_value_more; [done|]. by rewrite E.
  - replace fuel with (json_fuel s + (fuel - json_fuel s))%nat in E by lia.
    by rewrite parse_value_more in E.
Qed.

(** What [JSON.parse] returns is a JSON value: it holds no [undefined]
    and no NaN. *)
Theorem json_parse_json_value s v : json_parse s = Some v → json_value v = true.
Proof.
  unfold json_parse. destruct (parse_value (json_fuel s) s) as [v' r| |] eqn:E; [|done..].
  destruct (is_nil (skip_ws r)); [|done]. intros [= <-].
  by eapply parse_value_json_value.
Qed.

(** Nothing, and white space alone, is a SyntaxError. *)
Lemma json_parse_blank s : skip_ws s = [] → json_parse s = None.
Proof. intros H. unfold json_parse, json_fuel. cbn [parse_value]. by rewrite H. Qed.

(** Text after the value is a SyntaxError. *)
Lemma json_parse_trailing s v c r r' :
  parse_value (json_fuel s) s = Parsed v r → skip_ws r = c :: r' → json_parse s = None.
Proof. intros E H. unfold json_parse. by rewrite E, H. Qed.

End json_parse_facts.

(** ** Reading what [JSON.stringify] prints *)

Section printed.
Implicit Types (s t rest : jsstring) (fuel : nat) (names : list jsstring).

Lemma parse_value_quoted fuel t rest :
  wf_string t → parse_value (S fuel) (json_quote t ++ rest) = Parsed (VStr t) rest.
Proof.
  intros Ht. unfold json_quote. rewrite <-!app_assoc. cbn.
  by rewrite read_string_quote_units.
Qed.

Lemma parse_name_quoted t rest :
  wf_string t → parse_name (json_quote t ++ 58 :: rest) = Some (t, rest).
Proof.
  intros Ht. unfold parse_name, json_quote. rewrite <-!app_assoc. cbn.
  by rewrite read_string_quote_units.
Qed.

Lemma parse_value_object fuel t rest :
  parse_value (S fuel) (123 :: json_quote t ++ rest)
  = parse_members (parse_value fuel) fuel (json_quote t ++ rest) [].
Proof. unfold json_quote. by rewrite <-!app_assoc. Qed.

Lemma parse_value_array fuel t rest :
  parse_value (S fuel) (91 :: json_quote t ++ rest)
  = parse_elems (parse_value fuel) fuel (json_quote t ++ rest) [].
Proof. unfold json_quote. by rewrite <-!app_assoc. Qed.

Lemma parse_members_quoted f fuel k t rest acc :
  wf_string k → wf_string t →
  parse_members (parse_value (S f)) (S fuel) (json_quote k ++ 58 :: json_quote t ++ rest) acc
  = match parse_separator 125 rest with
    | Comma r => parse_members (parse_value (S f)) fuel r (set_prop k (VStr t) acc)
    | Close r => Parsed (VObj (set_prop k (VStr t) acc)) r
    | Neither => Invalid
    end.
Proof.
  intros Hk Ht. cbn [parse_members].
  by rewrite parse_name_quoted, parse_value_quoted.
Qed.

Lemma parse_elems_quoted f fuel t rest acc :
  wf_string t →
  parse_elems (parse_value (S f)) (S fuel) (json_quote t ++ rest) acc
  = match parse_separator 93 rest with
    | Comma r => parse_elems (parse_value (S f)) fuel r (VStr t :: acc)
    | Close r => Parsed (VArr (reverse (VStr t :: acc))) r
    | Neither => Invalid
    end.
Proof. intros Ht. cbn [parse_elems]. by rewrite parse_value_quoted. Qed.

Lemma parse_separator_comma close rest : parse_separator close (44 :: rest) = Comma rest.
Proof. done. Qed.

Lemma score_body_members a b :
  score_body a b
  = 123 :: json_quote k_typeA ++ 58 :: json_quote a ++
    44 :: json_quote k_typeB ++ 58 :: json_quote b ++ [125].
Proof.
  rewrite score_body_eq. unfold json_quote at 2 4.
  generalize (quote_units a) (quote_units b). intros qa qb.
  rewrite <-!app_assoc. by vm_compute.
Qed.

(** Round trip of the request: [JSON.parse] of the body of a scoring
    request is the object with the two types that were selected,
    whatever code units they hold. *)
Lemma json_parse_score_body a b :
  wf_string a → wf_string b → json_parse (score_body a b) = Some (score_object a b).
Proof.
  intros Ha Hb. apply (json_parse_at 3 _ _ []); [|done].
  assert (wf_string k_typeA ∧ wf_string k_typeB) as [HA HB]
    by (split; by repeat constructor).
  rewrite score_body_members, parse_value_object.
  rewrite parse_members_quoted, parse_separator_comma by done.
  by rewrite parse_members_quoted.
Qed.

Lemma parse_elems_names f fuel names rest acc :
  names ≠ [] → Forall wf_string names →
  parse_elems (parse_value (S f)) (length names + fuel)
    (join_with [44] (json_quote <$> names) ++ 93 :: rest) acc
  = Parsed (VArr (reverse acc ++ (VStr <$> names))) rest.
Proof.
  revert acc. induction names as [|t [|t' names] IH]; intros acc Hne Hwf; [done|..].
  - apply Forall_cons_iff in Hwf as [Ht _]. cbn [join_with fmap list_fmap length Nat.add].
    rewrite parse_elems_quoted by done.
    change (parse_separator 93 (93 :: rest)) with (Close rest). cbn beta iota.
    by rewrite reverse_cons.
  - apply Forall_cons_iff in Hwf as [Ht Hwf].
    change (join_with [44] (json_quote <$> t :: t' :: names))
      with (json_quote t ++ [44] ++ join_with [44] (json_quote <$> t' :: names)).
    rewrite <-!app_assoc. cbn [length Nat.add app].
    rewrite parse_elems_quoted, parse_separator_comma by done.
    rewrite IH by done. by rewrite reverse_cons, <-app_assoc.
Qed.

Lemma join_quote_head t names :
  ∃ r, join_with [44] (json_quote <$> t :: names) = json_quote t ++ r.
Proof. destruct names; [exists []; by rewrite app_nil_r | by eexists]. Qed.

(** Round trip of the catalog: an array of strings printed as
    [JSON.stringify] prints it is read as the array of those strings. *)
Lemma json_parse_names names :
  Forall wf_string names → json_parse (json_names names) = Some (VArr (VStr <$> names)).
Proof.
  intros Hwf. destruct names as [|t names]; [done|].
  apply (json_parse_at (S (S (length names + 1))) _ _ []); [|done].
  destruct (join_quote_head t names) as [r Hr]. unfold json_names. cbn [app].
  rewrite Hr, <-app_assoc, parse_value_array, app_assoc, <-Hr.
  by apply (parse_elems_names (length names + 1) 1 (t :: names) [] []).
Qed.

Lemma json_names_unicode names : Forall wf_string names → unicode_string (json_names names).
Proof.
  intros Hwf. unfold json_names. apply unicode_string_app; [plain_units|].
  apply unicode_string_app; [|plain_units].
  induction Hwf as [|t names Ht _ IH]; [plain_units|]. cbn [fmap list_fmap join_with].
  destruct names as [|t' names]; [by apply json_quote_unicode|].
  apply unicode_string_app; [by apply json_quote_unicode|].
  by apply unicode_string_app; [plain_units|].
Qed.

(** Round trip of the request over the network: a service that
    decodes the bytes [fetch] sends for a scoring request and parses
    them as JSON finds the object with the two types that were selected,
    whatever code units they hold. *)
Lemma score_body_received a b :
  wf_string a → wf_string b →
  json_parse (utf8_decode (utf8_encode (score_body a b))) = Some (score_object a b).
Proof.
  intros Ha Hb. rewrite utf8_round_trip by by apply score_body_unicode.
  by apply json_parse_score_body.
Qed.

(** The catalog over the network: the bytes of an array of strings
    printed as [JSON.stringify] prints it are received as the array of
    those strings. *)
Lemma receive_json_names status names :
  Forall wf_string names →
  receive (Answered status (utf8_encode (json_names names)))
  = Replied (status_ok status) (Some (VArr (VStr <$> names))).
Proof.
  intros Hwf. cbn [receive].
  rewrite utf8_round_trip by by apply json_names_unicode.
  f_equal. by apply json_parse_names.
Qed.
End printed.

(** ** Concrete runs *)

Section examples.

(** Texts that are JSON, with the value read. *)
Example json_parse_accepts :
  json_parse (js " [ ] ") = Some (VArr [])
  ∧ json_parse (js "[[[[]]]]") = Some (VArr [VArr [VArr [VArr []]]])
  ∧ json_parse (js "{\x22a\x22:{\x22b\x22:[true,false,null]}}")
    = Some (VObj [(js "a", VObj [(js "b", VArr [VBool true; VBool false; VNull])])])
  ∧ json_parse (js "-0") = Some (VNum nzero)
  ∧ json_parse (js "1e999") = Some (VNum pinf)
  ∧ json_parse (js "100") = Some (VNum (of_Z 100))
  ∧ json_parse (js "1E2") = Some (VNum (of_Z 100))
  ∧ json_parse (js "0.06") = Some (VNum (of_decimal false 6 (-2)))
  ∧ json_parse (js "\x22\\u0041\\n\x22") = Some (VStr [65; 10]).
Proof. by_compute. Qed.

(** Texts that are not: a SyntaxError. *)
Example json_parse_rejects :
  Forall (λ s, json_parse s = None)
    [js ""; js " "; js "[1,]"; js "[1 2]"; js "{,}"; js "{\x22a\x22}"; js "{a:1}";
     js "01"; js "1."; js ".5"; js "+1"; js "-"; js "1e"; js "0x10"; js "NaN";
     js "Infinity"; js "undefined"; js "nul"; js "null x"; js "'a'"; js "[[[[";
     js "\x22a"; js "[\x22\\x\x22]"].
Proof. repeat (constructor; [by vm_compute|]). constructor. Qed.

(** A name that occurs twice keeps its first position and its last
    value. *)
Example json_parse_duplicate :
  json_parse (js "{\x22a\x22:1,\x22b\x22:2,\x22a\x22:3}")
  = Some (VObj [(js "a", VNum (of_Z 3)); (js "b", VNum (of_Z 2))]).
Proof. by_compute. Qed.

(** [res.ok] by status. *)
Example status_ok_table :
  status_ok <$> [0; 199; 200; 204; 299; 300; 304; 404; 500]
  = [false; false; true; true; true; false; false; false; false].
Proof. done. Qed.

(** An error response of the service as the handler receives it. *)
Example receive_error :
  receive (Answered 422 (utf8_encode (js "{\x22detail\x22:\x22unknown type\x22}")))
  = Replied false (Some (VObj [(js "detail", VStr (js "unknown type"))])).
Proof. by_compute. Qed.

(** A page of HTML in place of JSON, as a proxy may answer. *)
Example receive_html :
  receive (Answered 200 (utf8_encode (js "<!DOCTYPE html><html></html>")))
  = Replied true None.
Proof. by_compute. Qed.

Lemma json_parse_json_value_witness :
  json_value (VArr [VNum pinf; VStr (js "A")]) = true.
Proof. by apply (json_parse_json_value (js "[1e999,\x22A\x22]")). Defined.

Lemma json_parse_names_witness :
  json_parse (json_names [js "A"; js "B C"]) = Some (VArr [VStr (js "A"); VStr (js "B C")]).
Proof. apply (json_parse_names [js "A"; js "B C"]). by repeat constructor. Defined.

End examples.
