(* ===== verification/Stringify.v ===== *)
(** * Stringify: [JSON.stringify] (script.js line 128) and what
    [JSON.parse] reads back

    [runScore] sends [JSON.stringify({ typeA: a, typeB: b })] and the
    handlers read what the service sends with [res.json()].  [Api]
    models the first on the one shape the script prints.  This file
    models [JSON.stringify] on every value of [JsValue]
    (SerializeJSONProperty without a replacer and without indentation:
    [undefined] has no text, is left out of an object and prints as
    [null] in an array; a number that is not finite prints as [null]),
    and proves that [JSON.parse] of [Json] reads back what it prints.

    The round trip holds on the values [sendable] describes: no
    [undefined], strings of 16-bit code units, no property twice in an
    object, and numbers that are finite, not [-0], and whose printed
    digits denote them ([prints]).  The last condition is a test on
    the digits [shortest_digits] of [JsNumber] finds.  Seventeen
    digits identify a binary64 value, so the test should hold of every
    number; that is not proved here, and the test is run number by
    number.  What is proved for every number is
    the layout: whichever of the four notations of Number::toString is
    used, plain, with a point, with leading zeros or with an exponent,
    the grammar of JSON reads the digits and the exponent back. *)

From S2P Require Import Prelude Effects JsString JsNumber JsValue Api Utf8 Json.
From stdpp Require Import strings.
From Stdlib Require Import SpecFloat.
From Stdlib Require DecimalPos DecimalFacts.

Local Open Scope N_scope.

(** ** [JSON.stringify] *)

(** SerializeJSONProperty on a number. *)
Definition json_number (x : number) : jsstring :=
  if is_finite x then number_to_string x else lit_null.

(** A member of an object: the quoted name, a colon and the text of the
    value. *)
Definition json_member (k t : jsstring) : jsstring := json_quote k ++ [58] ++ t.

(** SerializeJSONProperty, SerializeJSONArray and SerializeJSONObject:
    [None] is [undefined]. *)
Fixpoint json_stringify (v : value) : option jsstring :=
  match v with
  | VUndef => None
  | VNull => Some lit_null
  | VBool b => Some (if b then lit_true else lit_false)
  | VNum x => Some (json_number x)
  | VStr s => Some (json_quote s)
  | VArr l =>
    Some ([91] ++ join_with [44] ((λ x, default lit_null (json_stringify x)) <$> l) ++ [93])
  | VObj props =>
    Some ([123]
          ++ join_with [44] (omap (λ kv, json_member kv.1 <$> json_stringify kv.2) props)
          ++ [125])
  end.

(** ** What reads back *)

Definition is_digit (c : code_unit) : bool := (48 <=? c) && (c <=? 57).

(** The number a string of decimal digits denotes, on top of [acc]. *)
Definition digits_acc (ds : jsstring) (acc : Z) : Z :=
  fold_left (λ a c, (a * 10 + (Z.of_N c - 48))%Z) ds acc.

(** [leads p s]: [s] starts with a code unit that satisfies [p]. *)
Definition leads (p : code_unit → bool) (s : jsstring) : bool :=
  match s with
  | c :: _ => p c
  | [] => false
  end.

(** What can follow a number: anything but a digit, a point and the
    mark of an exponent. *)
Definition stops (rest : jsstring) : bool :=
  negb (leads (λ c, is_digit c || (c =? 46) || (c =? 101) || (c =? 69)) rest).

(** The text of a JSON number: a sign, an integer part, a fraction and
    an exponent. *)
Definition exponent_text (ex : Z) : jsstring :=
  [101] ++ (if (0 <=? ex)%Z then [43] else [45]) ++ dec_digits (Z.abs ex).

Definition number_text (sign : bool) (ip fr : jsstring) (ex : option Z) : jsstring :=
  (if sign then [45] else []) ++ ip ++ (if is_nil fr then [] else 46 :: fr)
  ++ from_option exponent_text [] ex.

(** [prints x]: [x] is finite and not [-0], and the digits and the
    exponent Number::toString lays out denote it. *)
Definition prints (x : number) : bool :=
  match x with
  | S754_zero s => negb s
  | S754_finite s m e =>
    let '(sd, n) := shortest_digits m e in
    (0 <? sd)%Z && bool_decide (of_decimal s sd (n - num_digits sd) = x)
  | _ => false
  end.

(** The values [JSON.parse] reads back as they were before
    [JSON.stringify]. *)
Fixpoint sendable (v : value) : bool :=
  match v with
  | VUndef => false
  | VNull | VBool _ => true
  | VNum x => prints x
  | VStr s => bool_decide (wf_string s)
  | VArr l => forallb sendable l
  | VObj props =>
    bool_decide (NoDup props.*1)
    && forallb (λ kv, bool_decide (wf_string kv.1) && sendable kv.2) props
  end.

(** A code unit a value can start with, as opposed to white space and
    to the closing bracket or brace that [parse_value] looks for first. *)
Definition starts_value (c : code_unit) : bool :=
  (c <? 128) && negb (is_json_space c || (c =? 93) || (c =? 125)).

(** Fuel that is enough for [parse_value] on the text of a value. *)
Fixpoint parse_fuel (v : value) : nat :=
  match v with
  | VArr l => S (length l + sum_list (parse_fuel <$> l))
  | VObj props => S (length props + sum_list ((λ kv, parse_fuel kv.2) <$> props))
  | _ => 1
  end.

(** [reads fuel v]: [v] has a text, which starts as a value does and
    which [parse_value] with fuel [fuel] reads back as [v] before
    whatever can follow a number. *)
Definition reads (fuel : nat) (v : value) : Prop :=
  ∃ t, json_stringify v = Some t ∧ leads starts_value t = true
       ∧ ∀ rest, stops rest = true → parse_value fuel (t ++ rest) = Parsed v rest.

(** A sample value: every kind of value [JSON.parse] can return. *)
Definition sample_value : value :=
  VObj [(js "a", VArr [VNum (of_decimal false 876 (-1)); VNum (of_decimal true 5 (-7));
                       VNum (of_decimal false 12 19); VNum (of_decimal false 12 20);
                       VNum (of_Z 150); VNull]);
        (js "b\n", VStr (js "x\x22y"));
        (js "", VObj [(js "t", VBool true); (js "f", VBool false)]);
        (js "e", VArr [VArr []; VObj []])].

(** ** Digits *)

Section digits.
Implicit Types (ds rest : jsstring) (acc n z : Z) (c : code_unit).
Local Open Scope Z_scope.

Lemma digit_in_digit c : is_digit c = true → digit_in 10 c = Some (Z.of_N c - 48).
Proof.
  unfold is_digit, digit_in. intros H. rewrite H.
  apply andb_true_iff in H as [_ H%N.leb_le].
  destruct (Z.ltb_spec (Z.of_N c - 48) 10); [done|lia].
Qed.

Lemma digit_in_other c : is_digit c = false → digit_in 10 c = None.
Proof.
  unfold is_digit, digit_in. intros ->.
  destruct (N.leb_spec 97 c), (N.leb_spec c 102), (N.leb_spec 65 c), (N.leb_spec c 70);
    simpl; try done; by destruct (Z.ltb_spec (Z.of_N c - 87) 10); try lia;
    by destruct (Z.ltb_spec (Z.of_N c - 55) 10); try lia.
Qed.

Lemma digits_acc_app ds1 ds2 acc :
  digits_acc (ds1 ++ ds2) acc = digits_acc ds2 (digits_acc ds1 acc).
Proof. apply fold_left_app. Qed.

(** The digits of a string are read up to the first code unit that is
    not a digit. *)
Lemma span_digits_app ds rest acc n :
  forallb is_digit ds = true → leads is_digit rest = false →
  span_digits 10 (ds ++ rest) acc n = (digits_acc ds acc, n + js_length ds, rest).
Proof.
  intros Hds Hr. revert acc n Hds.
  induction ds as [|c ds IH]; intros acc n Hds.
  - simpl. rewrite Z.add_0_r. destruct rest as [|c r]; [done|]. simpl.
    by rewrite digit_in_other.
  - simpl in Hds. apply andb_true_iff in Hds as [Hc Hds]. simpl.
    rewrite digit_in_digit, IH by done. unfold js_length. simpl length. f_equal. f_equal. lia.
Qed.

Lemma digits_acc_cons c ds acc :
  digits_acc (c :: ds) acc = digits_acc ds (acc * 10 + (Z.of_N c - 48)).
Proof. done. Qed.

Lemma js_length_cons c ds : js_length (c :: ds) = 1 + js_length ds.
Proof. unfold js_length. simpl length. lia. Qed.

Lemma pow10_succ k : 0 ≤ k → 10 ^ (1 + k) = 10 * 10 ^ k.
Proof. intros Hk. by rewrite Z.pow_add_r. Qed.

Lemma digits_acc_shift ds acc :
  digits_acc ds acc = acc * 10 ^ js_length ds + digits_acc ds 0.
Proof.
  revert acc. induction ds as [|c ds IH]; intros acc; [unfold js_length; simpl; lia|].
  rewrite !digits_acc_cons, IH, (IH (0 * 10 + _)), js_length_cons.
  rewrite pow10_succ by apply js_length_nonneg. lia.
Qed.

Lemma digits_acc_bound ds :
  forallb is_digit ds = true → 0 ≤ digits_acc ds 0 < 10 ^ js_length ds.
Proof.
  induction ds as [|c ds IH]; [done|]. cbn [forallb]. intros [Hc Hds]%andb_true_iff.
  rewrite digits_acc_cons, digits_acc_shift, js_length_cons.
  rewrite pow10_succ by apply js_length_nonneg. specialize (IH Hds).
  apply andb_true_iff in Hc as [H1%N.leb_le H2%N.leb_le]. nia.
Qed.

Lemma digits_acc_zeros k acc :
  digits_acc (replicate k 48%N) acc = acc * 10 ^ Z.of_nat k.
Proof.
  revert acc. induction k as [|k IH]; intros acc; [simpl; lia|].
  unfold digits_acc in *. simpl. rewrite IH, Nat2Z.inj_succ, Z.pow_succ_r by lia. lia.
Qed.

Lemma is_digit_zeros k : forallb is_digit (replicate k 48%N) = true.
Proof. induction k; [done|]. simpl. by rewrite IHk. Qed.

Lemma uint_units_digits d : forallb is_digit (uint_units d) = true.
Proof. induction d; simpl; by rewrite ?IHd. Qed.

Lemma uint_units_acc d p :
  digits_acc (uint_units d) (Zpos p) = Zpos (Pos.of_uint_acc d p).
Proof.
  revert p. induction d; intros p; [done|..]; unfold digits_acc in *; simpl;
    rewrite <-IHd; f_equal; lia.
Qed.

Lemma uint_units_value d : digits_acc (uint_units d) 0 = Z.of_N (Pos.of_uint d).
Proof.
  induction d; [done|..]; unfold digits_acc in *; simpl; [done|..];
    by rewrite <-uint_units_acc.
Qed.

Lemma dec_digits_digits z : forallb is_digit (dec_digits z) = true.
Proof. destruct z; [done| apply uint_units_digits | done]. Qed.

(** The decimal digits of a natural number denote it. *)
Lemma dec_digits_value z : 0 ≤ z → digits_acc (dec_digits z) 0 = z.
Proof.
  destruct z as [|p|p]; [done| |lia]. intros _. simpl.
  by rewrite uint_units_value, DecimalPos.Unsigned.of_to.
Qed.

Lemma nzhead_head d : match Decimal.nzhead d with Decimal.D0 _ => False | _ => True end.
Proof. induction d; done. Qed.

(** They start with a digit other than zero when the number is not
    zero. *)
Lemma dec_digits_head z : 0 < z → ∃ c ds, dec_digits z = c :: ds ∧ c ≠ 48%N.
Proof.
  destruct z as [|p|p]; [lia| |lia]. intros _. simpl.
  pose proof (DecimalPos.Unsigned.to_of (Pos.to_uint p)) as H.
  rewrite DecimalPos.Unsigned.of_to in H. simpl in H.
  pose proof (DecimalPos.Unsigned.to_uint_nonzero p) as Hz.
  pose proof (nzhead_head (Pos.to_uint p)) as Hn.
  rewrite H in Hz |- *. unfold Decimal.unorm in *.
  destruct (Decimal.nzhead (Pos.to_uint p)); simpl; try done; by eexists _, _.
Qed.

Lemma num_digits_positive z : 1 ≤ num_digits z.
Proof.
  unfold num_digits. destruct (decide (0 < z)) as [Hz|Hz].
  - destruct (dec_digits_head z Hz) as (c & ds & -> & _). simpl. lia.
  - destruct z; [simpl; lia|lia|simpl; lia].
Qed.

(** The number of digits of a positive number is its decimal
    logarithm, rounded down, plus one. *)
Lemma num_digits_bounds z : 0 < z → 10 ^ (num_digits z - 1) ≤ z < 10 ^ num_digits z.
Proof.
  intros Hz. pose proof (dec_digits_value z ltac:(lia)) as Hv.
  pose proof (dec_digits_digits z) as Hd.
  destruct (dec_digits_head z Hz) as (c & ds & E & Hc).
  change (num_digits z) with (js_length (dec_digits z)). rewrite E in *.
  cbn [forallb] in Hd. apply andb_true_iff in Hd as [Hcd Hd].
  pose proof (digits_acc_bound ds Hd) as Hb.
  rewrite digits_acc_cons, digits_acc_shift in Hv. rewrite js_length_cons.
  replace (1 + js_length ds - 1) with (js_length ds) by lia.
  rewrite pow10_succ by apply js_length_nonneg.
  apply andb_true_iff in Hcd as [H1%N.leb_le H2%N.leb_le]. nia.
Qed.

Lemma num_digits_unique z k : 0 < z → 10 ^ (k - 1) ≤ z < 10 ^ k → num_digits z = k.
Proof.
  intros Hz [Hl Hu]. destruct (num_digits_bounds z Hz) as [Hl' Hu'].
  pose proof (num_digits_positive z) as Hp.
  assert (0 < k) as Hk.
  { destruct (decide (0 < k)); [done|]. exfalso.
    destruct (decide (k = 0)) as [->|]; [simpl in Hu; lia|].
    rewrite Z.pow_neg_r in Hu by lia. lia. }
  destruct (Z.lt_trichotomy (num_digits z) k) as [H|[H|H]]; [|done|].
  - assert (10 ^ num_digits z ≤ 10 ^ (k - 1)) by (apply Z.pow_le_mono_r; lia). lia.
  - assert (10 ^ k ≤ 10 ^ (num_digits z - 1)) by (apply Z.pow_le_mono_r; lia). lia.
Qed.

Lemma num_digits_shift z j : 0 < z → 0 ≤ j → num_digits (z * 10 ^ j) = num_digits z + j.
Proof.
  intros Hz Hj. destruct (num_digits_bounds z Hz) as [Hl Hu].
  pose proof (num_digits_positive z) as Hp.
  assert (0 < 10 ^ j) by (apply Z.pow_pos_nonneg; lia).
  apply num_digits_unique; [nia|].
  replace (num_digits z + j - 1) with (num_digits z - 1 + j) by lia.
  rewrite !Z.pow_add_r by lia. nia.
Qed.

End digits.

(** ** Numbers *)

Section numbers.
Implicit Types (ip fr ds rest tail : jsstring) (sign : bool) (x : number) (c : code_unit).

(** A decimal with trailing zeros in its significand is the decimal
    with the exponent raised. *)
Lemma of_decimal_shift sign m j :
  (0 < m)%Z → (0 ≤ j)%Z → of_decimal sign (m * 10 ^ j) 0 = of_decimal sign m j.
Proof.
  intros Hm Hj. assert (0 < m * 10 ^ j)%Z as Hp by (apply Z.mul_pos_pos; lia).
  unfold of_decimal. destruct m as [|p|p]; [lia| |lia].
  destruct (Z.pos p * 10 ^ j)%Z as [|q|q] eqn:E; [lia| |lia]. rewrite <-E.
  rewrite num_digits_shift, Z.add_0_r by lia.
  rewrite (proj2 (Z.leb_le 0 j) Hj). simpl (0 <=? 0)%Z. cbv iota.
  by rewrite Z.pow_0_r, !Z.mul_1_r.
Qed.

Lemma stops_no_digit rest : stops rest = true → leads is_digit rest = false.
Proof. destruct rest as [|c r]; [done|]. unfold stops. simpl. by destruct (is_digit c). Qed.

Lemma stops_no_point rest : stops rest = true → leads (N.eqb 46) rest = false.
Proof.
  destruct rest as [|c r]; [done|]. unfold stops. cbn [leads]. intros H.
  destruct (N.eqb_spec 46 c) as [<-|]; [by vm_compute in H|done].
Qed.

Lemma parse_exp_none rest : stops rest = true → parse_exp rest = Some (0%Z, rest).
Proof.
  destruct rest as [|c r]; [done|]. unfold stops, parse_exp. cbn [leads]. intros H.
  destruct (N.eqb_spec c 101) as [->|]; [by vm_compute in H|].
  destruct (N.eqb_spec c 69) as [->|]; [by vm_compute in H|done].
Qed.

(** The exponent is read back. *)
Lemma parse_exp_text ex rest :
  stops rest = true → parse_exp (exponent_text ex ++ rest) = Some (ex, rest).
Proof.
  intros Hr. unfold exponent_text, parse_exp. cbn [app N.eqb Pos.eqb orb].
  assert (span_digits 10 (dec_digits (Z.abs ex) ++ rest) 0 0
          = (Z.abs ex, js_length (dec_digits (Z.abs ex)), rest)) as E.
  { rewrite span_digits_app by (by apply dec_digits_digits || by apply stops_no_digit).
    by rewrite dec_digits_value by lia. }
  pose proof (num_digits_positive (Z.abs ex)) as Hn. unfold num_digits in Hn.
  destruct (Z.leb_spec 0 ex); cbn [app N.eqb Pos.eqb]; rewrite E;
    (destruct (Z.eqb_spec (js_length (dec_digits (Z.abs ex))) 0) as [H0|_];
     [unfold js_length in H0; lia|]); do 2 f_equal; lia.
Qed.

(** The fraction is read back on top of the integer part. *)
Lemma parse_fraction_text ipv fr tail :
  forallb is_digit fr = true → leads is_digit tail = false →
  leads (N.eqb 46) tail = false →
  parse_fraction ipv ((if is_nil fr then [] else 46 :: fr) ++ tail)
  = Some (digits_acc fr ipv, js_length fr, tail).
Proof.
  intros Hfr Hd Hp. destruct fr as [|c fr].
  - destruct tail as [|c r]; [done|]. cbn [app is_nil parse_fraction leads] in *.
    destruct (N.eqb_spec c 46) as [->|]; [by vm_compute in Hp|done].
  - cbn [is_nil]. change ((46 :: c :: fr) ++ tail) with (46 :: ((c :: fr) ++ tail)).
    cbn [parse_fraction N.eqb Pos.eqb]. rewrite span_digits_app by done.
    rewrite js_length_cons.
    destruct (Z.eqb_spec (0 + (1 + js_length fr)) 0) as [H0|_];
      [pose proof (js_length_nonneg fr); lia|]. do 3 f_equal.
Qed.

Lemma parse_minus_text sign ip tail :
  leads is_digit ip = true →
  parse_minus ((if sign then [45] else []) ++ ip ++ tail) = (sign, ip ++ tail).
Proof.
  destruct sign; [done|]. destruct ip as [|c ip]; [done|]. cbn [leads app parse_minus].
  intros Hc. destruct (N.eqb_spec c 45) as [->|]; [by vm_compute in Hc|done].
Qed.

Lemma leads_exponent p ex rest :
  p 101 = false → leads p rest = false →
  leads p (from_option exponent_text [] ex ++ rest) = false.
Proof. by destruct ex. Qed.

Lemma leads_fraction p fr tail :
  p 46 = false → leads p tail = false →
  leads p ((if is_nil fr then [] else 46 :: fr) ++ tail) = false.
Proof. by destruct fr. Qed.

Lemma parse_exp_option ex rest :
  stops rest = true →
  parse_exp (from_option exponent_text [] ex ++ rest) = Some (default 0%Z ex, rest).
Proof. destruct ex; [apply parse_exp_text | apply parse_exp_none]. Qed.

Lemma starts_with_leads ip tail :
  leads is_digit ip = true → starts_with [48] (ip ++ tail) = starts_with [48] ip.
Proof. by destruct ip. Qed.

(** A number in the notation of JSON is read back: the digits of the
    integer part and of the fraction make the significand, and the
    length of the fraction lowers the exponent. *)
Lemma parse_number_text sign ip fr ex rest :
  forallb is_digit ip = true → leads is_digit ip = true →
  (1 <? js_length ip)%Z && starts_with [48] ip = false →
  forallb is_digit fr = true → stops rest = true →
  parse_number (number_text sign ip fr ex ++ rest)
  = Some (of_decimal sign (digits_acc (ip ++ fr) 0) (default 0%Z ex - js_length fr), rest).
Proof.
  intros Hip Hl Hz Hfr Hr. unfold number_text, parse_number. rewrite <-!app_assoc.
  pose proof (stops_no_digit _ Hr) as Hd. pose proof (stops_no_point _ Hr) as Hp.
  rewrite parse_minus_text, span_digits_app, starts_with_leads, Z.add_0_l, Hz
    by auto using leads_fraction, leads_exponent.
  destruct (Z.eqb_spec (js_length ip) 0) as [H0|_];
    [destruct ip; [done|rewrite js_length_cons in H0; pose proof (js_length_nonneg ip); lia]|].
  cbn [orb]. rewrite parse_fraction_text by auto using leads_exponent. cbn [mbind option_bind].
  rewrite parse_exp_option by done. cbn [mbind option_bind]. by rewrite digits_acc_app.
Qed.

End numbers.

(** ** The four notations of Number::toString *)

Section layouts.
Implicit Types (ds rest : jsstring) (sign : bool) (sd n : Z).
Local Open Scope Z_scope.

(** A text that is a JSON number with the given parts is read back. *)
Lemma parse_number_as sign ip fr ex rest t m q :
  (if sign then [45%N] else []) ++ t = number_text sign ip fr ex →
  forallb is_digit ip = true → leads is_digit ip = true →
  (1 <? js_length ip) && starts_with [48%N] ip = false →
  forallb is_digit fr = true → stops rest = true →
  of_decimal sign (digits_acc (ip ++ fr) 0) (default 0 ex - js_length fr) = of_decimal sign m q →
  parse_number ((if sign then [45%N] else []) ++ t ++ rest) = Some (of_decimal sign m q, rest).
Proof.
  intros E Hip Hl Hz Hfr Hr <-. rewrite app_assoc, E. by apply parse_number_text.
Qed.

Lemma leads_digits sd : 0 < sd → leads is_digit (dec_digits sd) = true.
Proof.
  intros Hsd. pose proof (dec_digits_digits sd) as Hd.
  destruct (dec_digits_head sd Hsd) as (c & ds & E & _). rewrite E in *.
  cbn [forallb leads] in *. by apply andb_true_iff in Hd as [-> _].
Qed.

Lemma no_leading_zero sd tail : 0 < sd → starts_with [48%N] (dec_digits sd ++ tail) = false.
Proof.
  intros Hsd. destruct (dec_digits_head sd Hsd) as (c & ds & -> & Hc).
  cbn [app starts_with]. by rewrite bool_decide_eq_false_2.
Qed.

Lemma js_length_replicate k c : js_length (replicate k c) = Z.of_nat k.
Proof. unfold js_length. by rewrite length_replicate. Qed.

Lemma digits_acc_padded k ds : digits_acc (replicate k 48%N ++ ds) 0 = digits_acc ds 0.
Proof. by rewrite digits_acc_app, digits_acc_zeros. Qed.

(** Plain notation, the digits followed by zeros. *)
Lemma read_plain sign sd n rest :
  0 < sd → num_digits sd ≤ n → stops rest = true →
  parse_number ((if sign then [45%N] else [])
                ++ (dec_digits sd ++ replicate (Z.to_nat (n - num_digits sd)) 48%N) ++ rest)
  = Some (of_decimal sign sd (n - num_digits sd), rest).
Proof.
  intros Hsd Hn Hr.
  apply (parse_number_as sign (dec_digits sd ++ replicate (Z.to_nat (n - num_digits sd)) 48%N)
           [] None); try done.
  - unfold number_text. simpl. by rewrite !app_nil_r.
  - by rewrite forallb_app, dec_digits_digits, is_digit_zeros.
  - pose proof (leads_digits sd Hsd). by destruct (dec_digits sd).
  - by rewrite no_leading_zero, andb_false_r.
  - rewrite app_nil_r, digits_acc_app, digits_acc_zeros, dec_digits_value by lia.
    rewrite Z2Nat.id by lia. simpl. by apply of_decimal_shift; lia.
Qed.

(** Plain notation with a point among the digits. *)
Lemma read_point sign sd n rest :
  0 < sd → 0 < n < num_digits sd → stops rest = true →
  parse_number ((if sign then [45%N] else [])
                ++ (take (Z.to_nat n) (dec_digits sd) ++ [46%N] ++ drop (Z.to_nat n) (dec_digits sd))
                ++ rest)
  = Some (of_decimal sign sd (n - num_digits sd), rest).
Proof.
  intros Hsd Hn Hr. change (num_digits sd) with (js_length (dec_digits sd)) in *.
  assert (js_length (drop (Z.to_nat n) (dec_digits sd)) = js_length (dec_digits sd) - n) as Hl
    by (unfold js_length in *; rewrite length_drop; lia).
  pose proof (dec_digits_digits sd) as Hd. pose proof (leads_digits sd Hsd) as Hlead.
  pose proof (no_leading_zero sd [] Hsd) as Hz. rewrite app_nil_r in Hz.
  apply (parse_number_as sign (take (Z.to_nat n) (dec_digits sd))
           (drop (Z.to_nat n) (dec_digits sd)) None); try done.
  - unfold number_text. destruct (drop _ _) eqn:E; [unfold js_length in *; simpl in Hl; lia|].
    simpl. by rewrite app_nil_r.
  - apply forallb_Forall, Forall_take. by apply forallb_Forall.
  - destruct (dec_digits sd), (Z.to_nat n) eqn:E; try done; lia.
  - destruct (dec_digits sd) as [|c l]; [done|]. destruct (Z.to_nat n) eqn:E; [lia|].
    cbn [take starts_with] in *. by rewrite Hz, andb_false_r.
  - apply forallb_Forall, Forall_drop. by apply forallb_Forall.
  - rewrite take_drop, dec_digits_value, Hl by lia. f_equal. cbn [from_option id]. lia.
Qed.

(** A fraction below one, with zeros after the point. *)
Lemma read_fraction sign sd n rest :
  0 < sd → n ≤ 0 → stops rest = true →
  parse_number ((if sign then [45%N] else [])
                ++ ([48%N; 46%N] ++ replicate (Z.to_nat (- n)) 48%N ++ dec_digits sd) ++ rest)
  = Some (of_decimal sign sd (n - num_digits sd), rest).
Proof.
  intros Hsd Hn Hr.
  apply (parse_number_as sign [48%N] (replicate (Z.to_nat (- n)) 48%N ++ dec_digits sd) None);
    try done.
  - unfold number_text. destruct (dec_digits_head sd Hsd) as (c & ds & -> & _).
    destruct (replicate _ _); simpl; by rewrite ?app_nil_r.
  - by rewrite forallb_app, dec_digits_digits, is_digit_zeros.
  - change ([48%N] ++ ?l) with (replicate 1 48%N ++ l).
    rewrite !digits_acc_padded, dec_digits_value, js_length_app, js_length_replicate by lia.
    f_equal. change (num_digits sd) with (js_length (dec_digits sd)). cbn [from_option id]. lia.
Qed.

(** Exponential notation. *)
Lemma read_exponent sign sd n c ds rest :
  0 < sd → dec_digits sd = c :: ds → stops rest = true →
  parse_number ((if sign then [45%N] else [])
                ++ (number_text false [c] ds (Some (n - 1))) ++ rest)
  = Some (of_decimal sign sd (n - num_digits sd), rest).
Proof.
  intros Hsd E Hr. pose proof (dec_digits_digits sd) as Hd.
  pose proof (dec_digits_value sd ltac:(lia)) as Hv.
  change (num_digits sd) with (js_length (dec_digits sd)). rewrite E in *.
  cbn [forallb] in Hd. apply andb_true_iff in Hd as [Hc Hd].
  apply (parse_number_as sign [c] ds (Some (n - 1))); try done.
  - by cbn [forallb]; rewrite Hc.
  - change ([c] ++ ds) with (c :: ds). rewrite Hv, js_length_cons. f_equal.
    cbn [from_option id]. lia.
Qed.

(** Whichever notation Number::toString chooses for the digits [sd]
    and the exponent [n], the number read back is [sd * 10 ^ (n - k)],
    [k] being the number of digits. *)
Lemma format_digits_read sign sd n rest :
  0 < sd → stops rest = true →
  parse_number ((if sign then [45%N] else []) ++ format_digits (dec_digits sd) n ++ rest)
  = Some (of_decimal sign sd (n - num_digits sd), rest).
Proof.
  intros Hsd Hr. unfold format_digits. change (js_length (dec_digits sd)) with (num_digits sd).
  pose proof (num_digits_positive sd).
  destruct (Z.leb_spec (num_digits sd) n), (Z.leb_spec n 21), (Z.ltb_spec 0 n),
    (Z.ltb_spec (-6) n), (Z.leb_spec n 0); cbn [andb]; try lia;
    try (by apply read_plain); try (by apply read_point; [|lia|]);
    try (by apply read_fraction);
    destruct (dec_digits_head sd Hsd) as (c & ds & E & _); rewrite E;
    destruct ds; exact (read_exponent sign sd n c _ rest Hsd E Hr).
Qed.

(** A number that prints is read back from its text, whatever follows
    that can follow a number. *)
Lemma parse_number_printed x rest :
  prints x = true → stops rest = true →
  parse_number (number_to_string x ++ rest) = Some (x, rest).
Proof.
  intros Hx Hr. destruct x as [[]| | |s m e]; try done.
  - by apply (parse_number_as false [48%N] [] None rest [48%N] 0 0).
  - unfold prints in Hx. unfold number_to_string.
    destruct (shortest_digits m e) as [sd n].
    apply andb_true_iff in Hx as [Hsd%Z.ltb_lt Hx%bool_decide_eq_true].
    rewrite <-app_assoc, <-Hx at 1. rewrite format_digits_read by done. by rewrite Hx.
Qed.

End layouts.

(** ** Values *)

Section values.
Implicit Types (v x : value) (t rest : jsstring) (l : list value)
  (props acc : list (jsstring * value)) (fuel n : nat).

Lemma parse_number_leads s (y : number) r :
  parse_number s = Some (y, r) → leads (λ c, is_digit c || (c =? 45)) s = true.
Proof.
  destruct s as [|c s]; [done|]. unfold parse_number. cbn [leads parse_minus].
  destruct (N.eqb_spec c 45) as [->|]; [done|]. rewrite orb_false_r.
  destruct (is_digit c) eqn:E; [done|]. cbn [span_digits]. by rewrite digit_in_other.
Qed.

(** A text that starts with a number is read as that number. *)
Lemma parse_value_number fuel s (y : number) r :
  parse_number s = Some (y, r) → parse_value (S fuel) s = Parsed (VNum y) r.
Proof.
  intros E. pose proof (parse_number_leads _ _ _ E) as Hl.
  destruct s as [|c s]; [done|]. cbn [leads] in Hl. cbn [parse_value].
  assert (is_json_space c = false ∧ (c =? 34) = false ∧ (c =? 91) = false
          ∧ (c =? 123) = false ∧ (c =? 110) = false ∧ (c =? 116) = false
          ∧ (c =? 102) = false) as (Hs & H1 & H2 & H3 & H4 & H5 & H6).
  { apply orb_true_iff in Hl as [[H1%N.leb_le H2%N.leb_le]%andb_true_iff| ->%N.eqb_eq];
      [|done]. unfold is_json_space. split_and!; repeat (apply orb_false_iff; split);
      apply N.eqb_neq; lia. }
  cbn [skip_ws]. by rewrite Hs, H1, H2, H3, H4, H5, H6, E.
Qed.

Lemma stringify_leads v t :
  sendable v = true → json_stringify v = Some t → leads starts_value t = true.
Proof.
  destruct v as [| |[]|y|s|l|props]; try done; try by intros _ [= <-].
  cbn [sendable json_stringify]. intros Hy [= <-]. unfold json_number.
  replace (is_finite y) with true by by destruct y.
  pose proof (parse_number_printed y [] Hy eq_refl) as E. rewrite app_nil_r in E.
  apply parse_number_leads in E. destruct (number_to_string y) as [|c r]; [done|].
  cbn [leads] in *. unfold starts_value, is_json_space.
  apply orb_true_iff in E as [[H1%N.leb_le H2%N.leb_le]%andb_true_iff| ->%N.eqb_eq]; [|done].
  apply andb_true_iff. split; [apply N.ltb_lt; lia|].
  apply negb_true_iff. repeat (apply orb_false_iff; split); apply N.eqb_neq; lia.
Qed.

Lemma skip_ws_leads s : leads starts_value s = true → skip_ws s = s.
Proof.
  destruct s as [|c s]; [done|]. cbn [leads skip_ws]. unfold starts_value.
  destruct (is_json_space c); [by rewrite andb_false_r|done].
Qed.

Lemma set_prop_fresh k v acc : k ∉ acc.*1 → set_prop k v acc = acc ++ [(k, v)].
Proof.
  induction acc as [|[k' v'] acc IH]; [done|]. rewrite fmap_cons, not_elem_of_cons.
  intros [Hk Hacc]. cbn [set_prop fst app]. rewrite bool_decide_eq_false_2 by done.
  by rewrite IH.
Qed.

Lemma leads_app p s1 s2 : leads p s1 = true → leads p (s1 ++ s2) = true.
Proof. by destruct s1. Qed.

Lemma join_with_head sep t (ts : list jsstring) : ∃ r, join_with sep (t :: ts) = t ++ r.
Proof. destruct ts; [exists []; by rewrite app_nil_r | by eexists]. Qed.

Lemma leads_join p sep t (ts : list jsstring) rest :
  leads p t = true → leads p (join_with sep (t :: ts) ++ rest) = true.
Proof.
  intros Ht. destruct (join_with_head sep t ts) as [r ->]. by apply leads_app, leads_app.
Qed.

Lemma join_with_cons sep t u (us : list jsstring) :
  join_with sep (t :: u :: us) = t ++ sep ++ join_with sep (u :: us).
Proof. done. Qed.

Lemma join_with_fmap {A} sep (f : A → jsstring) (a b : A) (k : list A) :
  join_with sep (f <$> a :: b :: k) = f a ++ sep ++ join_with sep (f <$> b :: k).
Proof. done. Qed.

(** After an opening bracket or brace that is not closed at once, the
    elements or the members are read. *)
Lemma parse_value_open_array fuel s :
  leads starts_value s = true →
  parse_value (S fuel) (91 :: s) = parse_elems (parse_value fuel) fuel s [].
Proof.
  intros Hs. cbn [parse_value skip_ws is_json_space N.eqb Pos.eqb orb].
  rewrite skip_ws_leads by done. destruct s as [|c s]; [done|]. cbn [leads] in Hs.
  unfold starts_value in Hs. by destruct (c <? 128), (is_json_space c), (c =? 93).
Qed.

Lemma parse_value_open_object fuel s :
  leads starts_value s = true →
  parse_value (S fuel) (123 :: s) = parse_members (parse_value fuel) fuel s [].
Proof.
  intros Hs. cbn [parse_value skip_ws is_json_space N.eqb Pos.eqb orb].
  rewrite skip_ws_leads by done. destruct s as [|c s]; [done|]. cbn [leads] in Hs.
  unfold starts_value in Hs.
  by destruct (c <? 128), (is_json_space c), (c =? 93), (c =? 125).
Qed.

(** The elements of an array are read in order. *)
Lemma parse_elems_printed F Fc l (vs : list value) rest :
  Forall (reads F) l → l ≠ [] → (length l ≤ Fc)%nat →
  parse_elems (parse_value F) Fc
    (join_with [44] ((λ x, default lit_null (json_stringify x)) <$> l) ++ 93 :: rest) vs
  = Parsed (VArr (reverse vs ++ l)) rest.
Proof.
  intros Hl. revert Fc vs. induction Hl as [|x l (t & Et & _ & Hx) Hl IH]; [done|].
  intros Fc vs _ Hlen. destruct Fc as [|Fc]; [simpl in Hlen; lia|].
  destruct l as [|y l].
  - cbn [fmap list_fmap join_with parse_elems]. rewrite Et. cbn [from_option id].
    rewrite Hx by done.
    change (parse_separator 93 (93 :: rest)) with (Close rest). cbn iota.
    by rewrite reverse_cons.
  - rewrite join_with_fmap, Et. cbn [from_option id]. rewrite <-!app_assoc.
    cbn [parse_elems]. rewrite Hx by done. cbn [app]. rewrite parse_separator_comma.
    rewrite IH by (done || simpl in *; lia). by rewrite reverse_cons, <-app_assoc.
Qed.

(** The members of an object are read in order, none replacing
    another. *)
Lemma parse_members_printed F Fc props acc rest :
  Forall (λ kv, wf_string kv.1 ∧ reads F kv.2) props → props ≠ [] → (length props ≤ Fc)%nat →
  NoDup (acc ++ props).*1 →
  parse_members (parse_value F) Fc
    (join_with [44] (omap (λ kv, json_member kv.1 <$> json_stringify kv.2) props)
     ++ 125 :: rest) acc
  = Parsed (VObj (acc ++ props)) rest.
Proof.
  intros Hl. revert Fc acc.
  induction Hl as [|[k x] props [Hk (t & Et & _ & Hx)] Hl IH]; [done|].
  intros Fc acc _ Hlen Hd. destruct Fc as [|Fc]; [simpl in Hlen; lia|].
  assert (k ∉ acc.*1) as Hfresh.
  { rewrite fmap_app, fmap_cons in Hd. apply NoDup_app in Hd as (_ & Hd & _).
    intros Hin. apply (Hd _ Hin). by left. }
  cbn [omap list_omap fst snd] in *. rewrite Et. cbn [fmap option_fmap option_map].
  unfold json_member at 1. destruct props as [|[k' y] props].
  - cbn [omap list_omap join_with parse_members]. rewrite <-!app_assoc. cbn [app].
    rewrite parse_name_quoted, Hx by done.
    change (parse_separator 125 (125 :: rest)) with (Close rest). cbn iota.
    by rewrite set_prop_fresh.
  - destruct (Forall_cons_1 _ _ _ Hl) as [[_ (t' & Et' & _)] _]. cbn [snd] in Et'.
    cbn [omap list_omap fst snd]. rewrite Et'. cbn [fmap option_fmap option_map].
    rewrite join_with_cons, <-!app_assoc. cbn [parse_members app].
    rewrite parse_name_quoted, Hx by done.
    rewrite parse_separator_comma.
    specialize (IH Fc (acc ++ [(k, x)])). cbn [omap list_omap fst snd] in IH.
    rewrite Et' in IH. cbn [fmap option_fmap option_map] in IH.
    rewrite set_prop_fresh, IH by (done || simpl in *; lia || by rewrite <-app_assoc).
    by rewrite <-app_assoc.
Qed.

Lemma sum_list_elem {A} (f : A → nat) (a : A) (k : list A) :
  a ∈ k → (f a ≤ sum_list (f <$> k))%nat.
Proof. induction 1; rewrite fmap_cons; simpl; lia. Qed.

(** The fuel of an array or an object is enough for each element. *)
Lemma reads_elems {A} (f : A → value) (k : list A) n :
  Forall (λ a, sendable (f a) = true → ∀ m, reads (parse_fuel (f a) + m) (f a)) k →
  Forall (λ a, sendable (f a) = true) k →
  Forall (λ a, reads (length k + sum_list ((λ a, parse_fuel (f a)) <$> k) + n) (f a)) k.
Proof.
  rewrite !list.Forall_forall. intros IH Hs a Ha.
  pose proof (sum_list_elem (λ a, parse_fuel (f a)) a k Ha) as Hw. simpl in Hw.
  replace (length k + sum_list ((λ a, parse_fuel (f a)) <$> k) + n)%nat
    with (parse_fuel (f a) + (length k + sum_list ((λ a, parse_fuel (f a)) <$> k) + n - parse_fuel (f a)))%nat
    by lia.
  by apply IH; [|apply Hs].
Qed.

Lemma reads_literal lit v n :
  json_stringify v = Some lit → leads starts_value lit = true →
  (∀ rest, parse_value (S n) (lit ++ rest) = parse_literal lit v (lit ++ rest)) →
  reads (S n) v.
Proof.
  intros E Hl Hp. exists lit. split_and!; [done..|]. intros rest _.
  rewrite Hp. unfold parse_literal. by rewrite expect_app.
Qed.

(** Every value that can be sent is read back from its text, with the
    fuel [parse_fuel] or more. *)
Lemma stringify_reads v : sendable v = true → ∀ n, reads (parse_fuel v + n) v.
Proof.
  induction v as [| |b|y|s|l IH|props IH] using value_ind; cbn [sendable]; intros Hv n;
    try done.
  - by apply (reads_literal lit_null).
  - destruct b; [by apply (reads_literal lit_true) | by apply (reads_literal lit_false)].
  - eexists. split_and!; [done|by apply (stringify_leads (VNum y))|]. intros rest Hr.
    unfold json_number. replace (is_finite y) with true by by destruct y.
    by apply parse_value_number, parse_number_printed.
  - apply bool_decide_eq_true in Hv. eexists. split_and!; [done..|]. intros rest _.
    by apply parse_value_quoted.
  - apply forallb_Forall in Hv.
    exists ([91] ++ join_with [44] ((λ x, default lit_null (json_stringify x)) <$> l) ++ [93]).
    split_and!; [done..|]. intros rest _.
    pose proof (reads_elems id l n IH Hv) as Hl. rewrite <-!app_assoc.
    destruct l as [|x l]; [done|]. destruct (Forall_cons_1 _ _ _ Hl) as [(t & Et & Ht & _) _].
    cbn [parse_fuel Nat.add app]. rewrite parse_value_open_array.
    + by apply (parse_elems_printed _ _ _ []); [..|simpl; lia].
    + rewrite fmap_cons. cbn beta. simpl in Et. rewrite Et. by apply leads_join.
  - apply andb_true_iff in Hv as [Hd%bool_decide_eq_true Hv]. apply forallb_Forall in Hv.
    exists ([123] ++ join_with [44]
                       (omap (λ kv, json_member kv.1 <$> json_stringify kv.2) props) ++ [125]).
    split_and!; [done..|]. intros rest _.
    pose proof (reads_elems snd props n IH ltac:(eapply Forall_impl; [exact Hv|];
      by intros kv [_ ?]%andb_true_iff)) as Hl. rewrite <-!app_assoc.
    destruct props as [|[k x] props]; [done|].
    destruct (Forall_cons_1 _ _ _ Hl) as [(t & Et & Ht & _) _].
    cbn [parse_fuel Nat.add app]. rewrite parse_value_open_object.
    + apply (parse_members_printed _ _ _ []); [|done|simpl; lia|done].
      apply Forall_and. split; [|done]. eapply Forall_impl; [exact Hv|].
      by intros kv [?%bool_decide_eq_true _]%andb_true_iff.
    + cbn [omap list_omap fst snd]. simpl in Et. rewrite Et.
      cbn [fmap option_fmap option_map]. by apply leads_join.
Qed.

End values.

(** ** The round trip *)

Section round_trip.
Implicit Types (v : value) (t : jsstring).

(** Every value that can be sent has a text. *)
Lemma stringify_is_Some v : v ≠ VUndef → is_Some (json_stringify v).
Proof. by destruct v. Qed.

(** A value that can be sent has a text that starts as a value does
    and that [JSON.parse] reads back. *)
Lemma stringify_parses v :
  sendable v = true →
  ∃ t, json_stringify v = Some t ∧ leads starts_value t = true ∧ json_parse t = Some v.
Proof.
  intros Hv. destruct (stringify_reads v Hv 0) as (t & Et & Hl & Hp).
  exists t. split_and!; [done..|].
  apply (json_parse_at (parse_fuel v + 0) t v []); [|done].
  rewrite <-(app_nil_r t) at 1. by apply Hp.
Qed.

(** C11. [JSON.parse] reads back what [JSON.stringify] prints: for a
    value without [undefined], with strings of 16-bit code units, no
    property twice in an object and numbers that print, the text has
    that value, whatever characters the strings hold, however the
    arrays and objects nest and whichever notation each number is
    printed in. *)
Theorem json_parse_stringify v :
  sendable v = true → json_stringify v ≫= json_parse = Some v.
Proof. intros Hv. by destruct (stringify_parses v Hv) as (t & -> & _ & Hp). Qed.

Lemma ascii_unicode t : ascii t → unicode_string t.
Proof.
  intros Ht. apply unicode_string_plain. eapply Forall_impl; [exact Ht|].
  intros c Hc. apply plain_below. simpl in Hc. lia.
Qed.

Lemma unicode_join (ts : list jsstring) :
  Forall unicode_string ts → unicode_string (join_with [44] ts).
Proof.
  induction 1 as [|t ts Ht Hts IH]; [plain_units|]. destruct ts as [|t' ts]; [done|].
  rewrite join_with_cons. apply unicode_string_app; [done|].
  by apply unicode_string_app; [plain_units|].
Qed.

Lemma unicode_bracketed (o c : code_unit) t :
  o < 128 → c < 128 → unicode_string t → unicode_string ([o] ++ t ++ [c]).
Proof.
  intros Ho Hc Ht.
  apply unicode_string_app; [apply ascii_unicode; by repeat constructor|].
  apply unicode_string_app; [done|apply ascii_unicode; by repeat constructor].
Qed.

(** The text printed holds no lone surrogate: it is a Unicode string,
    which UTF-8 encodes without loss. *)
Lemma stringify_unicode v t :
  wf_value v = true → json_stringify v = Some t → unicode_string t.
Proof.
  revert t. induction v as [| |b|y|s|l IH|props IH] using value_ind;
    cbn [wf_value json_stringify]; intros t Hv [= <-].
  - plain_units.
  - destruct b; plain_units.
  - unfold json_number. destruct (is_finite y); [|plain_units].
    apply ascii_unicode, number_to_string_ascii.
  - apply bool_decide_eq_true in Hv. by apply json_quote_unicode.
  - apply unicode_bracketed; [done..|]. apply unicode_join, Forall_fmap.
    apply forallb_Forall in Hv. rewrite list.Forall_forall in *. intros x Hx. simpl.
    destruct (json_stringify x) as [t|] eqn:E; [|plain_units].
    apply (IH x Hx t); [by apply Hv|done].
  - apply unicode_bracketed; [done..|]. apply unicode_join.
    apply forallb_Forall in Hv. induction props as [|[k x] props IHp]; [done|].
    apply Forall_cons_iff in IH as [IHx IH]. apply Forall_cons_iff in Hv as [Hx Hv].
    cbn [fst snd] in *. apply andb_true_iff in Hx as [Hk%bool_decide_eq_true Hx].
    cbn [omap list_omap fst snd]. destruct (json_stringify x) as [t|]; [|by apply IHp].
    cbn [fmap option_fmap option_map]. constructor; [|by apply IHp].
    apply unicode_string_app; [by apply json_quote_unicode|].
    apply unicode_string_app; [plain_units|by apply IHx].
Qed.

Lemma sendable_wf v : sendable v = true → wf_value v = true.
Proof.
  induction v as [| |b|y|s|l IH|props IH] using value_ind; cbn [sendable wf_value]; try done.
  - rewrite !forallb_Forall, !list.Forall_forall in *. auto.
  - intros [_ Hv]%andb_true_iff. rewrite !forallb_Forall, !list.Forall_forall in *.
    intros kv Hkv. destruct (andb_prop _ _ (Hv kv Hkv)) as [-> Hx]. by apply (IH kv Hkv).
Qed.

Lemma drop_bom_leads t : leads starts_value t = true → drop_bom t = t.
Proof.
  destruct t as [|c t]; [done|]. cbn [leads drop_bom]. unfold starts_value.
  intros [Hc%N.ltb_lt _]%andb_true_iff. destruct (N.eqb_spec c bom) as [->|]; [done|done].
Qed.

(** A value over the network: the bytes of its text, decoded and
    parsed by [res.json()], are the value. *)
Lemma stringify_received status v t :
  sendable v = true → json_stringify v = Some t →
  receive (Answered status (utf8_encode t)) = Replied (status_ok status) (Some v).
Proof.
  intros Hv Et. destruct (stringify_parses v Hv) as (t' & Et' & Hl & Hp).
  rewrite Et in Et'. injection Et' as <-.
  cbn [receive]. rewrite utf8_round_trip by by eapply stringify_unicode, Et; apply sendable_wf.
  by rewrite drop_bom_leads, Hp.
Qed.

(** The body of the scoring request and the catalog as [Api] and
    [Json] print them are what [json_stringify] prints. *)
Lemma score_body_stringify a b : json_stringify (score_object a b) = Some (score_body a b).
Proof.
  unfold score_object, score_body. cbn [json_stringify omap list_omap fst snd].
  cbn [fmap option_fmap option_map]. unfold json_member.
  generalize (json_quote a) (json_quote b). intros qa qb. f_equal.
  rewrite join_with_cons. cbn [join_with]. rewrite <-!app_assoc. by vm_compute.
Qed.

Lemma json_names_stringify names :
  json_stringify (VArr (VStr <$> names)) = Some (json_names names).
Proof.
  cbn [json_stringify]. unfold json_names. by rewrite <-list_fmap_compose.
Qed.

End round_trip.

(** ** Concrete runs *)

Section examples.

(** The numbers from 0 to 100 with at most one digit after the point,
    and the natural numbers up to 1000, print. *)
Lemma prints_tenths k : (0 ≤ k ≤ 1000)%Z → prints (of_decimal false k (-1)) = true.
Proof.
  intros Hk.
  assert (forallb (λ k, prints (of_decimal false k (-1))) (seqZ 0 1001) = true) as H
    by (vm_compute; reflexivity).
  rewrite forallb_Forall, list.Forall_forall in H. apply H, elem_of_seqZ. lia.
Qed.

Lemma prints_natural k : (0 ≤ k ≤ 1000)%Z → prints (of_Z k) = true.
Proof.
  intros Hk.
  assert (forallb (λ k, prints (of_Z k)) (seqZ 0 1001) = true) as H
    by (vm_compute; reflexivity).
  rewrite forallb_Forall, list.Forall_forall in H. apply H, elem_of_seqZ. lia.
Qed.

(** The four notations, the escapes of a string and the nesting of
    arrays and objects, printed and read back. *)
Example stringify_sample :
  json_stringify sample_value
  = Some (js "{\x22a\x22:[87.6,-5e-7,120000000000000000000,1.2e+21,150,null],\x22b\\n\x22:\x22x\\\x22y\x22,\x22\x22:{\x22t\x22:true,\x22f\x22:false},\x22e\x22:[[],{}]}")
  ∧ sendable sample_value = true.
Proof. by_compute. Qed.

Lemma json_parse_stringify_witness :
  json_stringify sample_value ≫= json_parse = Some sample_value.
Proof. apply json_parse_stringify. vm_compute. reflexivity. Defined.

(** What does not read back as it was: [undefined] and a number that
    is not finite print as [null] in an array and are left out of an
    object, [-0] prints as [0], and of a name that comes twice the
    last value is read. *)
Example stringify_lossy :
  json_stringify (VArr [VUndef; VNum nan; VNum pinf; VNum nzero]) ≫= json_parse
  = Some (VArr [VNull; VNull; VNull; VNum pzero])
  ∧ json_stringify (VObj [(js "a", VUndef); (js "b", VNum nan)]) ≫= json_parse
    = Some (VObj [(js "b", VNull)])
  ∧ json_stringify (VObj [(js "a", VBool true); (js "a", VBool false)]) ≫= json_parse
    = Some (VObj [(js "a", VBool false)])
  ∧ json_stringify VUndef = None.
Proof. by_compute. Qed.

(** Numbers in the four notations, read back from a text followed by
    a comma. *)
Example parse_number_notations :
  (λ x, parse_number (number_to_string x ++ [44]))
    <$> [of_Z 150; of_decimal false 876 (-1); of_decimal false 6 (-2);
         of_decimal false 1 21; of_decimal true 5 (-7)]
  = (λ x, Some (x, [44]))
    <$> [of_Z 150; of_decimal false 876 (-1); of_decimal false 6 (-2);
         of_decimal false 1 21; of_decimal true 5 (-7)].
Proof. by_compute. Qed.

End examples.
