(* ===== verification/Render.v ===== *)
(** * Render: the result interpreter ([setNote], [ensureRadar],
    [renderResult]; script.js lines 5, 35-65 and 79-117)

    [renderResult] turns the payload of the scoring service into what the
    page shows: the title, the catch line, the hybrid badge, the radar
    chart, the strengths and cautions cards, and the confidence bar.  It
    is a sequence of DOM writes; a write to a missing element or a
    conversion of a value that has no string throws, and the writes made
    before the throw stay.  The definitions follow the statements of the
    script in order.  The display values are also given as pure functions
    of the payload ([title_of], [has_hybrid], [axis_data], [clamp_conf],
    [conf_text]), which the theorems relate to the final state of the
    page: [renderResult] refines [interpret] followed by [present], and a
    second result replaces the first ([same_view]).  The chart is what
    [ensureRadar] hands to the chart library: the type and the options
    at creation, the data object at creation and at each update
    ([radar_chart]). *)

From S2P Require Import Prelude Effects JsString JsNumber JsValue Tokenizer Markup SplitBody Dom.
From stdpp Require Import gmap strings.

Local Open Scope Z_scope.

(** ** Constants of the script *)

Definition sel_note : jsstring := Eval vm_compute in js "#note".
Definition sel_radarCanvas : jsstring := Eval vm_compute in js "#radarCanvas".
Definition sel_summaryTitle : jsstring := Eval vm_compute in js "#summaryTitle".
Definition sel_summaryCatch : jsstring := Eval vm_compute in js "#summaryCatch".
Definition sel_summaryMeta : jsstring := Eval vm_compute in js "#summaryMeta".
Definition sel_cardStrengths : jsstring := Eval vm_compute in js "#cardStrengths".
Definition sel_cardCautions : jsstring := Eval vm_compute in js "#cardCautions".
Definition sel_barFill : jsstring := Eval vm_compute in js "#barFill".
Definition sel_confNum : jsstring := Eval vm_compute in js "#confNum".
Definition sel_hybrid : jsstring := Eval vm_compute in js "#hybrid".

Definition k_macro : jsstring := Eval vm_compute in js "macro".
Definition k_top : jsstring := Eval vm_compute in js "top".
Definition k_micro : jsstring := Eval vm_compute in js "micro".
Definition k_type : jsstring := Eval vm_compute in js "type".
Definition k_copy : jsstring := Eval vm_compute in js "copy".
Definition k_catch : jsstring := Eval vm_compute in js "catch".
Definition k_second : jsstring := Eval vm_compute in js "second".
Definition k_margin : jsstring := Eval vm_compute in js "margin".
Definition k_scores : jsstring := Eval vm_compute in js "scores".
Definition k_body : jsstring := Eval vm_compute in js "body".
Definition k_confidence : jsstring := Eval vm_compute in js "confidence".

Definition str_dash : jsstring := Eval vm_compute in js "-".
Definition str_sep : jsstring := Eval vm_compute in js " / ".
Definition str_emdash : jsstring := Eval vm_compute in js "—".
Definition str_hybrid : jsstring := Eval vm_compute in js "ハイブリッド傾向".
Definition str_block : jsstring := Eval vm_compute in js "block".
Definition str_none : jsstring := Eval vm_compute in js "none".
Definition str_percent : jsstring := Eval vm_compute in js "%".

(** Line 38: the five axes, in display order. *)
Definition axis_labels : list jsstring :=
  Eval vm_compute in js <$> ["共感"; "調和"; "依存"; "刺激"; "信頼"]%string.

(** Lines 40 and 42-46: the label and the styling of the one dataset. *)
Definition dataset_label : jsstring := Eval vm_compute in js "合算スコア".

Definition dataset_style : list (jsstring * value) :=
  Eval vm_compute in
  [(js "borderWidth", VNum (of_Z 2));
   (js "fill", VBool true);
   (js "borderColor", VStr (js "rgba(255,106,165,0.9)"));
   (js "backgroundColor", VStr (js "rgba(255,106,165,0.25)"));
   (js "pointBackgroundColor", VStr (js "rgba(255,106,165,1)"))].

Definition k_labels : jsstring := Eval vm_compute in js "labels".
Definition k_datasets : jsstring := Eval vm_compute in js "datasets".
Definition k_label : jsstring := Eval vm_compute in js "label".
Definition k_data : jsstring := Eval vm_compute in js "data".

(** Lines 37-48: the data object of the chart for the five points. *)
Definition radar_data (points : list value) : value :=
  VObj [(k_labels, VArr (VStr <$> axis_labels));
        (k_datasets,
         VArr [VObj ((k_label, VStr dataset_label) :: (k_data, VArr points)
                     :: dataset_style)])].

(** Lines 49-62: the options of the chart. *)
Definition radar_options : value :=
  Eval vm_compute in
  VObj [(js "responsive", VBool true);
        (js "maintainAspectRatio", VBool false);
        (js "scales",
         VObj [(js "r",
           VObj [(js "suggestedMin", VNum (of_Z 0));
                 (js "suggestedMax", VNum (of_Z 200));
                 (js "grid", VObj [(js "color", VStr (js "rgba(0,0,0,.14)"))]);
                 (js "angleLines", VObj [(js "color", VStr (js "rgba(0,0,0,.18)"))]);
                 (js "pointLabels",
                  VObj [(js "color", VStr (js "rgba(0,0,0,.55)"));
                        (js "font", VObj [(js "size", VNum (of_Z 12))])]);
                 (js "ticks",
                  VObj [(js "backdropColor", VStr (js "transparent"));
                        (js "showLabelBackdrop", VBool false);
                        (js "color", VStr (js "rgba(0,0,0,.55)"))])])]);
        (js "plugins",
         VObj [(js "legend", VObj [(js "display", VBool false)])])].

(** Line 64: the type of the chart. *)
Definition str_radar : jsstring := Eval vm_compute in js "radar".

(** Line 102: the scores used when the payload has none. *)
Definition default_scores : value := VObj ((λ k, (k, VNum pzero)) <$> axis_labels).

(** The literals 0.06 and 100 as binary64 values. *)
Definition num_006 : number := Eval vm_compute in of_decimal false 6 (-2).
Definition num_100 : number := Eval vm_compute in of_Z 100.

(** ** Display values as functions of the payload *)

(** Lines 81-83: the title. *)
Definition title_of (payload : value) : outcome jsstring :=
  let macroTop := js_or (opt_get (opt_get payload k_macro) k_top) (VStr str_dash) in
  let micro := js_or (opt_get (opt_get payload k_micro) k_type) (VStr str_dash) in
  a ← to_string macroTop; b ← to_string micro; Ok (a ++ str_sep ++ b).

(** Line 89: [!!(second && margin !== null && margin <= 0.06)]. *)
Definition has_hybrid (second margin : value) : outcome bool :=
  if to_boolean second then
    if strict_ne_null margin then le_number margin num_006 else Ok false
  else Ok false.

(** Line 41: the data points, one per axis. *)
Definition axis_data (scores : value) : outcome (list value) :=
  mapM (get_prop scores) axis_labels.

(** Line 112: [Math.max(0, Math.min(100, conf))]. *)
Definition clamp_conf (conf : number) : number :=
  math_max [pzero; math_min [num_100; conf]].

(** Lines 113-114: [conf + "%"]. *)
Definition conf_text (conf : number) : jsstring := number_to_string conf ++ str_percent.

(** Lines 111-114: the text of the confidence, from the payload. *)
Definition conf_display (payload : value) : outcome jsstring :=
  conf ← to_number (js_or (opt_get payload k_confidence) (VNum pzero));
  Ok (conf_text (clamp_conf conf)).

(** Lines 107-108: the text of a card, [part || "—"]. *)
Definition card_text (part : value) : outcome jsstring :=
  dom_string (js_or part (VStr str_emdash)).

(** [text_field v]: [v] is a string or is absent. *)
Definition text_field (v : value) : bool :=
  match v with VUndef | VNull | VStr _ => true | _ => false end.

(** The text shown for a text field, [d] standing in for an absent or
    empty one. *)
Definition text_or (d : jsstring) (v : value) : jsstring :=
  match v with VStr (c :: s) => c :: s | _ => d end.

(** ** The functions of the script *)

(** Line 5. *)
Definition setNote (msg : value) : prog world unit :=
  el ← query sel_note;
  match el with
  | Some _ => set_textContent sel_note (js_or msg (VStr []))
  | None => mret ()
  end.

(** The note reads [msg]. *)
Definition note_is (msg : jsstring) (w : world) : Prop :=
  el_content <$> doc w !! sel_note = Some (Text msg).

#[export] Instance note_is_dec msg w : Decision (note_is msg w).
Proof. unfold note_is. apply _. Defined.

(** Lines 35-65.  The chart library is an external collaborator, of
    which the model keeps what the script hands to it: the type and the
    options at creation, the data object at creation and at each update,
    and the number of draws. *)
Definition ensureRadar (scores : value) : prog world unit :=
  ctx ← query sel_radarCanvas;
  points ← lift (axis_data scores);
  let data := radar_data points in
  w ← get_state;
  match st_chart w with
  | Some c =>
    put_state (set_chart (Some (Chart (chart_canvas c) (chart_kind c) data (chart_options c)
                                  (S (chart_draws c)))) w)
  | None =>
    put_state (set_chart (Some (Chart (bool_decide (is_Some ctx)) str_radar data
                                  radar_options 1)) w)
  end.

(** Lines 90-99. *)
Definition show_hybrid (hasHybrid : bool) : prog world unit :=
  metaEl ← query sel_summaryMeta;
  match metaEl with
  | Some _ =>
    if hasHybrid
    then set_textContent sel_summaryMeta (VStr str_hybrid);;
         set_style_display sel_summaryMeta str_block
    else set_textContent sel_summaryMeta (VStr []);;
         set_style_display sel_summaryMeta str_none
  | None => mret ()
  end.

(** Lines 115-116. *)
Definition clear_hybrid : prog world unit :=
  hybridSpan ← query sel_hybrid;
  match hybridSpan with
  | Some _ => set_textContent sel_hybrid (VStr [])
  | None => mret ()
  end.

(** Lines 79-117. *)
Definition renderResult (payload : value) : prog world unit :=
  title ← lift (title_of payload);
  set_textContent sel_summaryTitle (VStr title);;
  set_textContent sel_summaryCatch
    (js_or (opt_get (opt_get payload k_copy) k_catch) (VStr []));;
  let second := opt_get (opt_get payload k_macro) k_second in
  let margin := opt_get (opt_get payload k_macro) k_margin in
  hasHybrid ← lift (has_hybrid second margin);
  show_hybrid hasHybrid;;
  scores ← lift (get_prop payload k_scores);
  ensureRadar (js_or scores default_scores);;
  let body := js_or (opt_get (opt_get payload k_copy) k_body) (VStr []) in
  '(strongs, cautions) ← lift (splitBody body);
  set_textContent sel_cardStrengths (js_or strongs (VStr str_emdash));;
  set_textContent sel_cardCautions (js_or cautions (VStr str_emdash));;
  conf ← lift (to_number (js_or (opt_get payload k_confidence) (VNum pzero)));
  let conf := clamp_conf conf in
  set_style_width sel_barFill (conf_text conf);;
  set_textContent sel_confNum (VStr (conf_text conf));;
  clear_hybrid.

(** ** The display model and its presentation

    What the specification calls the result interpreter and the presenter:
    [interpret] computes every display value from the payload, in the
    order the script computes them, and [present] writes them to the
    page. *)

Record display_model := DisplayModel {
  dm_title : jsstring;
  dm_catch : jsstring;
  dm_hybrid : bool;
  dm_axis : list value;
  dm_strengths : jsstring;
  dm_cautions : jsstring;
  dm_conf : number
}.

Definition interpret (payload : value) : outcome display_model :=
  title ← title_of payload;
  catch ← dom_string (js_or (opt_get (opt_get payload k_copy) k_catch) (VStr []));
  hyb ← has_hybrid (opt_get (opt_get payload k_macro) k_second)
                   (opt_get (opt_get payload k_macro) k_margin);
  scores ← get_prop payload k_scores;
  data ← axis_data (js_or scores default_scores);
  parts ← splitBody (js_or (opt_get (opt_get payload k_copy) k_body) (VStr []));
  st ← card_text parts.1;
  ct ← card_text parts.2;
  conf ← to_number (js_or (opt_get payload k_confidence) (VNum pzero));
  Ok (DisplayModel title catch hyb data st ct (clamp_conf conf)).

(** The chart after [ensureRadar]: created on first use, updated after. *)
Definition redraw (points : list value) (canvas : bool) (c : option chart) : chart :=
  match c with
  | Some c =>
    Chart (chart_canvas c) (chart_kind c) (radar_data points) (chart_options c)
      (S (chart_draws c))
  | None => Chart canvas str_radar (radar_data points) radar_options 1
  end.

Definition present_hybrid (hyb : bool) (w : world) : world :=
  update_el sel_summaryMeta (with_display (if hyb then str_block else str_none))
    (update_el sel_summaryMeta
       (with_text (if hyb then str_hybrid else [])) w).

Definition present_chart (data : list value) (w : world) : world :=
  set_chart (Some (redraw data (bool_decide (is_Some (doc w !! sel_radarCanvas)))
                     (st_chart w))) w.

Definition present (dm : display_model) (w : world) : world :=
  let w := update_el sel_summaryTitle (with_text (dm_title dm)) w in
  let w := update_el sel_summaryCatch (with_text (dm_catch dm)) w in
  let w := present_hybrid (dm_hybrid dm) w in
  let w := present_chart (dm_axis dm) w in
  let w := update_el sel_cardStrengths (with_text (dm_strengths dm)) w in
  let w := update_el sel_cardCautions (with_text (dm_cautions dm)) w in
  let w := update_width sel_barFill (conf_text (dm_conf dm)) w in
  let w := update_el sel_confNum (with_text (conf_text (dm_conf dm))) w in
  update_el sel_hybrid (with_text []) w.

(** The presentation element by element: what [present dm] does to the
    element a selector finds, the writes in the order of [present]. *)
Definition present_el (dm : display_model) (sel : jsstring) (el : element) : element :=
  let conf := conf_text (dm_conf dm) in
  let el := on_sel sel_summaryTitle (with_text (dm_title dm)) sel el in
  let el := on_sel sel_summaryCatch (with_text (dm_catch dm)) sel el in
  let el := on_sel sel_summaryMeta
              (with_text (if dm_hybrid dm then str_hybrid else [])) sel el in
  let el := on_sel sel_summaryMeta
              (with_display (if dm_hybrid dm then str_block else str_none)) sel el in
  let el := on_sel sel_cardStrengths (with_text (dm_strengths dm)) sel el in
  let el := on_sel sel_cardCautions (with_text (dm_cautions dm)) sel el in
  let el := on_sel sel_barFill (if css_percentage conf then with_width conf else id) sel el in
  let el := on_sel sel_confNum (with_text conf) sel el in
  on_sel sel_hybrid (with_text []) sel el.

(** Two states show the same view: the same document, the same catalog,
    and a chart with the same canvas, type, data and options (the
    number of draws apart). *)
Definition same_chart (c c' : option chart) : Prop :=
  match c, c' with
  | Some a, Some b =>
      chart_canvas a = chart_canvas b ∧ chart_kind a = chart_kind b
      ∧ chart_data a = chart_data b ∧ chart_options a = chart_options b
  | None, None => True
  | _, _ => False
  end.

(** [state.chart] is a chart as [ensureRadar] makes it: a radar chart
    with the options of the script, drawn at least once, whose data
    object holds the five labels and five points. *)
Definition radar_chart (c : chart) : Prop :=
  chart_kind c = str_radar ∧ chart_options c = radar_options
  ∧ (0 < chart_draws c)%nat
  ∧ ∃ points, length points = 5%nat ∧ chart_data c = radar_data points.

Definition chart_ok (w : world) : Prop := from_option radar_chart True (st_chart w).

(** The chart stays a radar chart. *)
Definition keep_radar : relation world := keeps chart_ok.

(** [draws keep]: [keep] admits a redraw of the chart with five points. *)
Definition draws (keep : relation world) : Prop :=
  ∀ points w, length points = 5%nat → keep w (present_chart points w).

Definition same_view (w w' : world) : Prop :=
  doc w = doc w' ∧ st_types w = st_types w' ∧ same_chart (st_chart w) (st_chart w').

#[export] Instance same_chart_dec c c' : Decision (same_chart c c').
Proof. destruct c, c'; simpl; apply _. Defined.

#[export] Instance same_view_dec w w' : Decision (same_view w w').
Proof. unfold same_view. apply _. Defined.

(** The elements [renderResult] writes to without checking that they
    exist. *)
Definition required_selectors : list jsstring :=
  [sel_summaryTitle; sel_summaryCatch; sel_cardStrengths; sel_cardCautions;
   sel_barFill; sel_confNum].

Definition has_elements (sels : list jsstring) (w : world) : Prop :=
  Forall (λ sel, is_Some (doc w !! sel)) sels.

#[export] Instance has_elements_dec sels w : Decision (has_elements sels w).
Proof. unfold has_elements. apply _. Defined.

(** ** A page to run on *)

(** The selectors [renderResult] writes through. *)
Definition render_selectors : list jsstring :=
  [sel_summaryTitle; sel_summaryCatch; sel_summaryMeta; sel_cardStrengths;
   sel_cardCautions; sel_barFill; sel_confNum; sel_hybrid; sel_radarCanvas].

(** A document holding a blank element for each selector of [sels]. *)
Definition page_of (sels : list jsstring) : gmap jsstring element :=
  list_to_map ((λ s, (s, blank_element)) <$> sels).

Definition world0 (sels : list jsstring) : world := World (page_of sels) None (VArr []).

(** ** A sample response of the scoring service *)

Definition sample_scores : value :=
  VObj (zip axis_labels (VNum ∘ of_Z <$> [120; 80; 60; 140; 100])).

Definition sample_payload : value :=
  VObj [(k_macro, VObj [(k_top, VStr (js "A")); (k_second, VStr (js "B"));
                        (k_margin, VNum (of_decimal false 5 (-2)))]);
        (k_micro, VObj [(k_type, VStr (js "X"))]);
        (k_copy, VObj [(k_catch, VStr (js "hi"));
                       (k_body, VStr (js "Strength text\n—\nCaution text"))]);
        (k_scores, sample_scores);
        (k_confidence, VNum (of_decimal false 876 (-1)))].

Definition sample_display : display_model :=
  DisplayModel (js "A / X") (js "hi") true
    (VNum ∘ of_Z <$> [120; 80; 60; 140; 100])
    (js "Strength text") (js "Caution text") (of_decimal false 876 (-1)).

(** A payload with one field. *)
Definition field (k : jsstring) (v : value) : value := VObj [(k, v)].

(** ** Steps of the handlers *)

Section step_facts.
Implicit Types (w : world) (sel : jsstring) (v : value) (payload : value).

Lemma has_elements_update_el sels sel f w :
  has_elements sels (update_el sel f w) ↔ has_elements sels w.
Proof. unfold has_elements. apply Forall_proper; [|done]. intros s. apply update_el_is_Some. Qed.

Lemma has_elements_set_chart sels c w :
  has_elements sels (set_chart c w) ↔ has_elements sels w.
Proof. done. Qed.

Lemma has_elements_present_hybrid sels hyb w :
  has_elements sels (present_hybrid hyb w) ↔ has_elements sels w.
Proof. unfold present_hybrid. by rewrite !has_elements_update_el. Qed.

Lemma has_elements_lookup sels sel w :
  has_elements sels w → sel ∈ sels → is_Some (doc w !! sel).
Proof. unfold has_elements. rewrite Forall_forall. auto. Qed.

Lemma setNote_run msg w :
  setNote (VStr msg) w = (Ok (), update_el sel_note (with_text msg) w).
Proof.
  unfold setNote. rewrite prog_bind_run, query_run.
  destruct (doc w !! sel_note) as [el|] eqn:E.
  - rewrite set_textContent_run, E. unfold js_or. by destruct msg.
  - by rewrite update_el_missing.
Qed.

Lemma show_hybrid_run hyb w : show_hybrid hyb w = (Ok (), present_hybrid hyb w).
Proof.
  unfold show_hybrid, present_hybrid. rewrite prog_bind_run, query_run.
  destruct (doc w !! sel_summaryMeta) as [el|] eqn:E.
  - destruct hyb; rewrite prog_bind_run, set_textContent_str by eauto; done.
  - rewrite (update_el_missing _ _ w) by done. by rewrite update_el_missing.
Qed.

Lemma ensureRadar_run scores w :
  ensureRadar scores w
  = match axis_data scores with
    | Ok data => (Ok (), present_chart data w)
    | Throw e => (Throw e, w)
    end.
Proof.
  unfold ensureRadar, present_chart. rewrite prog_bind_run, query_run.
  rewrite prog_bind_run, lift_run. destruct (axis_data scores); [|done].
  rewrite prog_bind_run. unfold get_state, put_state. by destruct (st_chart w).
Qed.

Lemma clear_hybrid_run w :
  clear_hybrid w = (Ok (), update_el sel_hybrid (with_text []) w).
Proof.
  unfold clear_hybrid. rewrite prog_bind_run, query_run.
  destruct (doc w !! sel_hybrid) as [el|] eqn:E.
  - by rewrite set_textContent_str by eauto.
  - by rewrite update_el_missing.
Qed.

End step_facts.

(** ** [renderResult] implements interpret-then-present *)

Section refinement.
Implicit Types (w : world) (sel : jsstring) (v : value) (payload : value).

Lemma set_textContent_ok sel v s w :
  is_Some (doc w !! sel) → dom_string v = Ok s →
  set_textContent sel v w = (Ok (), update_el sel (with_text s) w).
Proof. intros [el H] Hs. by rewrite set_textContent_run, H, Hs. Qed.

Lemma present_hybrid_is_Some hyb sel w :
  is_Some (doc (present_hybrid hyb w) !! sel) ↔ is_Some (doc w !! sel).
Proof. unfold present_hybrid. by rewrite !update_el_is_Some. Qed.

Lemma present_chart_doc data w : doc (present_chart data w) = doc w.
Proof. done. Qed.

Lemma set_style_width_ok sel s w :
  is_Some (doc w !! sel) →
  set_style_width sel s w = (Ok (), update_width sel s w).
Proof. intros [el H]. by rewrite set_style_width_run, H. Qed.

End refinement.

(** [solve_elem] shows that an element present before a sequence of
    writes is present after it. *)
Ltac solve_elem :=
  first
    [ assumption
    | repeat first
        [ rewrite update_el_is_Some
        | rewrite present_hybrid_is_Some
        | rewrite update_width_is_Some
        | rewrite present_chart_doc ];
      assumption ].

(** [clean_elem H] states the presence of an element after a sequence of
    writes as its presence before them. *)
Ltac clean_elem H :=
  repeat first
    [ rewrite update_el_is_Some in H
    | rewrite present_hybrid_is_Some in H
    | rewrite update_width_is_Some in H
    | rewrite present_chart_doc in H ].

(** [bind_ok H] splits a successful bind in [H] into its first step and
    the rest. *)
Ltac bind_ok H x Hx := apply outcome_bind_Ok in H as (x & Hx & H).

Section refinement_theorems.
Implicit Types (w : world) (payload : value) (dm : display_model).

(** Refinement: when the six elements the script writes to
    unconditionally are present and every display value can be computed,
    [renderResult] completes normally and leaves the page as [present]
    shows the display model that [interpret] computes from the payload. *)
Lemma renderResult_refines payload w dm :
  has_elements required_selectors w →
  interpret payload = Ok dm →
  renderResult payload w = (Ok (), present dm w).
Proof.
  unfold has_elements, required_selectors. rewrite !Forall_cons.
  intros (E1 & E2 & E3 & E4 & E5 & E6 & _) Hi. unfold interpret in Hi.
  bind_ok Hi title Ht. bind_ok Hi catch Hc. bind_ok Hi hyb Hh.
  bind_ok Hi scores Hs. bind_ok Hi data Hd. bind_ok Hi parts Hp.
  bind_ok Hi st Hst. bind_ok Hi ct Hct. bind_ok Hi conf Hconf.
  injection Hi as <-. destruct parts as [strongs cautions].
  unfold renderResult, present.
  cbn [dm_title dm_catch dm_hybrid dm_axis dm_strengths dm_cautions dm_conf fst snd] in *.
  rewrite prog_bind_run, lift_run, Ht.
  rewrite prog_bind_run, set_textContent_str by solve_elem.
  rewrite prog_bind_run, (set_textContent_ok _ _ catch) by solve_elem.
  rewrite prog_bind_run, lift_run, Hh.
  rewrite prog_bind_run, show_hybrid_run.
  rewrite prog_bind_run, lift_run, Hs.
  rewrite prog_bind_run, ensureRadar_run, Hd.
  rewrite prog_bind_run, lift_run, Hp.
  rewrite prog_bind_run, (set_textContent_ok _ _ st) by solve_elem.
  rewrite prog_bind_run, (set_textContent_ok _ _ ct) by solve_elem.
  rewrite prog_bind_run, lift_run, Hconf.
  rewrite prog_bind_run, set_style_width_ok by solve_elem.
  rewrite prog_bind_run, set_textContent_str by solve_elem.
  by rewrite clear_hybrid_run.
Qed.

End refinement_theorems.

(** ** The display values *)

Section display_values.
Implicit Types (payload second margin scores v : value) (x : number).

(** *** Hybrid badge *)

(** C29. The badge is shown exactly when [second] is truthy, [margin] is
    not [null], and [margin] converts to a number that is at most 0.06. *)
Theorem has_hybrid_true_iff second margin :
  has_hybrid second margin = Ok true ↔
  to_boolean second = true ∧ margin ≠ VNull
  ∧ ∃ n, to_number margin = Ok n ∧ num_leb n num_006 = true.
Proof.
  unfold has_hybrid. destruct (to_boolean second).
  2: { split; [done | by intros [? _]]. }
  destruct (strict_ne_null margin) eqn:E.
  - unfold le_number. rewrite outcome_bind_Ok. split.
    + intros (n & Hn & [= Hle]). split_and!; [done | by intros -> | eauto].
    + intros (_ & _ & n & Hn & Hle). exists n. by rewrite Hle.
  - destruct margin; try done. split; [done | by intros (_ & ? & _)].
Qed.

(** On a numeric margin the test is the comparison with 0.06. *)
Lemma has_hybrid_num second x :
  has_hybrid second (VNum x) = Ok (to_boolean second && num_leb x num_006).
Proof. unfold has_hybrid. by destruct (to_boolean second). Qed.

(** An absent runner-up or an absent margin hides the badge. *)
Lemma has_hybrid_no_second second margin :
  to_boolean second = false → has_hybrid second margin = Ok false.
Proof. unfold has_hybrid. by intros ->. Qed.

Lemma has_hybrid_no_margin second margin :
  is_nullish margin = true → has_hybrid second margin = Ok false.
Proof. unfold has_hybrid. destruct (to_boolean second), margin; done. Qed.

(** *** Confidence *)

Lemma num_100_not_nan : is_nan num_100 = false.
Proof. done. Qed.

(** The clamp keeps a number other than NaN between 0 and 100. *)
Theorem clamp_conf_range x :
  is_nan x = false →
  num_leb pzero (clamp_conf x) = true ∧ num_leb (clamp_conf x) num_100 = true.
Proof.
  intros Hx. unfold clamp_conf.
  rewrite (math_min_2 num_100 x) by done.
  assert (is_nan (min_step num_100 x) = false) as Hm by auto with js.
  rewrite math_max_2 by done. split; [by apply max_step_ge_l|].
  destruct (max_step_cases pzero (min_step num_100 x)) as [-> | ->];
    [done | by apply min_step_le_l].
Qed.

(** The clamp does not turn NaN into a number: a confidence that does
    not convert to a number is displayed as NaN. *)
Lemma clamp_conf_nan : clamp_conf nan = nan.
Proof. reflexivity. Qed.

Lemma sf_key_inj x y :
  is_finite x = true → is_zero x = false → is_finite y = true → is_zero y = false →
  sf_key x = sf_key y → x = y.
Proof.
  destruct x as [|[]| |[] m1 e1], y as [|[]| |[] m2 e2]; try done;
    intros _ _ _ _ [= H1 H2]; f_equal; lia.
Qed.

(** A value already in range passes through the clamp unchanged, -0
    becoming +0; in particular nothing is rounded. *)
Lemma clamp_conf_in_range x :
  num_leb pzero x = true → num_leb x num_100 = true →
  clamp_conf x = if is_zero x then pzero else x.
Proof.
  intros H0 H100. pose proof H0 as (_ & Hx & Hk0)%num_leb_key.
  pose proof H100 as (_ & _ & Hk100)%num_leb_key.
  unfold clamp_conf. rewrite (math_min_2 num_100 x) by done.
  assert (min_step num_100 x = x) as ->.
  { unfold min_step. replace (is_pos_zero num_100) with false by done.
    rewrite andb_false_r. case_test; [done|].
    destruct (key_compare_spec (sf_key x) (sf_key num_100)) as [E|L|G]; [|..|done].
    - destruct x as [|[]| |[] m e]; try done; symmetry; by apply sf_key_inj.
    - assert (num_ltb x num_100 = true) by by apply num_ltb_key. congruence. }
  rewrite math_max_2 by done. unfold max_step.
  by destruct x as [[]|[]| |[] m e].
Qed.

(** *** Axis scores *)

Lemma axis_data_obj props :
  axis_data (VObj props) = Ok ((λ k, default VUndef (own_prop props k)) <$> axis_labels).
Proof. done. Qed.


Lemma axis_data_length scores data : axis_data scores = Ok data → length data = 5%nat.
Proof. destruct scores; try done; by intros [= <-]. Qed.

Lemma axis_data_default :
  axis_data default_scores = Ok (replicate 5 (VNum pzero)).
Proof. reflexivity. Qed.

(** The scores passed to the chart are never [null] or [undefined]. *)
Lemma scores_or_default_not_nullish scores :
  is_nullish (js_or scores default_scores) = false.
Proof. unfold js_or. destruct scores as [| | | | | |]; simpl; try done; by case_test. Qed.

Lemma clamp_conf_above x : num_leb num_100 x = true → clamp_conf x = num_100.
Proof.
  intros H. pose proof H as (_ & Hx & Hk)%num_leb_key.
  unfold clamp_conf. rewrite (math_min_2 num_100 x) by done.
  assert (min_step num_100 x = num_100) as ->; [|done].
  unfold min_step. replace (is_pos_zero num_100) with false by done.
  rewrite andb_false_r. case_test; [|done].
  by assert (key_lt (sf_key x) (sf_key num_100)) by by apply num_ltb_key.
Qed.

Lemma clamp_conf_below x : num_leb x pzero = true → clamp_conf x = pzero.
Proof.
  intros H. pose proof H as (Hx & _ & Hk)%num_leb_key.
  unfold clamp_conf. rewrite (math_min_2 num_100 x) by done.
  assert (min_step num_100 x = x) as ->.
  { destruct x as [[]|[]| |[] m e]; try done.
    all: exfalso; apply Hk; unfold key_lt; simpl; lia. }
  rewrite math_max_2 by done. unfold max_step.
  destruct x as [[]|[]| |[] m e]; try done.
  all: exfalso; apply Hk; unfold key_lt; simpl; lia.
Qed.

(** C30. The clamp on every number: NaN stays NaN, a number of at most 0
    (-0 and -Infinity included) becomes +0, a number of at least 100
    becomes 100, and a number strictly between is returned as it is, with
    its fraction. *)
Theorem clamp_conf_spec x :
  clamp_conf x = if is_nan x then nan
                 else if num_leb x pzero then pzero
                 else if num_leb num_100 x then num_100 else x.
Proof.
  destruct (is_nan x) eqn:Hx; [by destruct x|].
  destruct (num_leb x pzero) eqn:H0; [by apply clamp_conf_below|].
  destruct (num_leb num_100 x) eqn:H1; [by apply clamp_conf_above|].
  apply num_leb_false in H0, H1; try done.
  rewrite clamp_conf_in_range by by apply num_ltb_leb.
  by destruct x as [[]| | |].
Qed.

(** An integer confidence from 0 to 100 is shown as that integer. *)
Theorem conf_text_integer n :
  0 ≤ n ≤ 100 → conf_text (clamp_conf (of_Z n)) = dec_digits n ++ str_percent.
Proof.
  intros Hn.
  assert (Forall (λ n, conf_text (clamp_conf (of_Z n)) = dec_digits n ++ str_percent)
            (seqZ 0 101)) as H by compute_done.
  rewrite Forall_forall in H. apply H, elem_of_seqZ. lia.
Qed.

(** *** Title and cards *)

Lemma to_string_text_or d v :
  text_field v = true → to_string (js_or v (VStr d)) = Ok (text_or d v).
Proof. destruct v as [| | | |[|c s]| |]; done. Qed.

(** When the dominant category and the fine-grained type are
    strings or absent, the title is the two texts joined by " / ", with
    "-" for one that is absent or empty. *)
Theorem title_of_text payload :
  text_field (opt_get (opt_get payload k_macro) k_top) = true →
  text_field (opt_get (opt_get payload k_micro) k_type) = true →
  title_of payload
  = Ok (text_or str_dash (opt_get (opt_get payload k_macro) k_top) ++ str_sep
        ++ text_or str_dash (opt_get (opt_get payload k_micro) k_type)).
Proof. intros H1 H2. unfold title_of. by rewrite !to_string_text_or. Qed.

Lemma card_text_str s : card_text (VStr s) = Ok (if is_nil s then str_emdash else s).
Proof. by destruct s. Qed.

Lemma card_text_nonempty s t : card_text (VStr s) = Ok t → t ≠ [].
Proof. destruct s; by intros [= <-]. Qed.

(** When the narrative is a string or absent, neither card is ever
    empty: an empty part is shown as an em dash. *)
Theorem cards_never_empty payload dm :
  text_field (opt_get (opt_get payload k_copy) k_body) = true →
  interpret payload = Ok dm →
  dm_strengths dm ≠ [] ∧ dm_cautions dm ≠ [].
Proof.
  intros Hb Hi. unfold interpret in Hi.
  bind_ok Hi title Ht. bind_ok Hi catch Hc. bind_ok Hi hyb Hh.
  bind_ok Hi scores Hs. bind_ok Hi data Hd. bind_ok Hi parts Hp.
  bind_ok Hi st Hst. bind_ok Hi ct Hct. bind_ok Hi conf Hconf.
  injection Hi as <-. simpl.
  assert (∃ s, js_or (opt_get (opt_get payload k_copy) k_body) (VStr []) = VStr s)
    as [s Hs'].
  { destruct (opt_get (opt_get payload k_copy) k_body) as [| | | |[|c s]| |];
      try done; by eexists. }
  rewrite Hs', splitBody_string in Hp. injection Hp as <-.
  split; by eapply card_text_nonempty.
Qed.

End display_values.

(** ** Exceptions, frame and converse of the refinement *)

Section render_errors.
Implicit Types (w : world) (payload : value) (dm : display_model).

Notation type_errors := (throws_only (λ e, e = TypeError)).

Lemma title_of_error payload e : title_of payload = Throw e → e = TypeError.
Proof.
  unfold title_of. intros [H|(a & _ & [H|(b & _ & H)]%outcome_bind_Throw)]%outcome_bind_Throw;
    [by eapply to_string_error..|done].
Qed.

Lemma has_hybrid_error second margin e : has_hybrid second margin = Throw e → e = TypeError.
Proof.
  unfold has_hybrid, le_number. repeat case_test; try done.
  intros [H|(? & _ & ?)]%outcome_bind_Throw; [by eapply to_number_error | done].
Qed.

Lemma axis_data_error scores e : axis_data scores = Throw e → e = TypeError.
Proof.
  destruct scores; try done; by intros [= <-].
Qed.

Lemma type_errors_show_hybrid hyb : type_errors (show_hybrid hyb).
Proof. intros w e w'. by rewrite show_hybrid_run. Qed.

Lemma type_errors_ensureRadar scores : type_errors (ensureRadar scores).
Proof.
  intros w e w'. rewrite ensureRadar_run. destruct (axis_data scores) eqn:E; [done|].
  intros [= <- _]. by eapply axis_data_error.
Qed.

Lemma type_errors_clear_hybrid : type_errors clear_hybrid.
Proof. intros w e w'. by rewrite clear_hybrid_run. Qed.

Lemma type_errors_setNote msg : type_errors (setNote msg).
Proof.
  unfold setNote. apply throws_only_bind; [auto with js|].
  intros [el|]; auto with js.
Qed.

Lemma preserves_setNote keep `{!Kept keep} sels msg :
  sel_note ∈ sels → preserves (frame_with keep sels) (setNote msg).
Proof.
  intros Hs. unfold setNote. apply preserves_bind; [apply _|auto with js|].
  intros [el|]; auto with js.
Qed.

(** The note after [setNote], and after a computation that does not
    write to it. *)
Lemma ends_in_setNote msg s : s ≠ msg → ends_in (λ w, ¬ note_is msg w) (setNote (VStr s)).
Proof.
  intros Hs w. rewrite setNote_run. unfold note_is. cbn [snd]. rewrite update_el_lookup.
  destruct (doc w !! sel_note); simpl; congruence.
Qed.

Lemma note_is_frame keep sels msg w w' :
  frame_with keep sels w w' → sel_note ∉ sels → note_is msg w' ↔ note_is msg w.
Proof. intros (H & _) Hn. unfold note_is. by rewrite H. Qed.

Lemma returns_note_frame {A} keep sels msg (m : prog world A) :
  preserves (frame_with keep sels) m → sel_note ∉ sels →
  returns (λ w, ¬ note_is msg w) (λ w, ¬ note_is msg w) m.
Proof.
  intros Hm Hn. apply (returns_preserves (frame_with keep sels)); [done|].
  intros w w' Hw Hf. by rewrite (note_is_frame _ _ _ _ _ Hf Hn).
Qed.

Lemma invariant_setNote {browser : Browser} Q `{!WriteClosed Q} msg :
  preserves (keeps (all_elements Q)) (setNote msg).
Proof.
  unfold setNote. apply preserves_bind; [apply _|eauto with js|].
  intros [el|]; eauto with js.
Qed.

Lemma preserves_show_hybrid keep `{!Kept keep} sels hyb :
  sel_summaryMeta ∈ sels → preserves (frame_with keep sels) (show_hybrid hyb).
Proof.
  intros Hs w. rewrite show_hybrid_run. unfold present_hybrid. simpl.
  etransitivity; by apply (frame_update_el keep).
Qed.

#[export] Instance keep_radar_kept : Kept keep_radar.
Proof.
  split; [split|]; unfold keep_radar, keeps, chart_ok.
  - by intros w.
  - intros w1 w2 w3. tauto.
  - intros sel f w. by rewrite update_el_chart.
Qed.

Lemma draws_keep_types : draws keep_types.
Proof. by intros points w _. Qed.

Lemma draws_keep_wf : draws keep_wf.
Proof. by intros points w _ H. Qed.

Lemma draws_keep_radar : draws keep_radar.
Proof.
  intros points w Hp Hw. unfold chart_ok, present_chart, redraw in *. simpl.
  destruct (st_chart w) as [c|]; simpl in *.
  - destruct Hw as (Hk & Ho & _ & _).
    split; [done|]. split; [done|]. split; [simpl; lia|]. by exists points.
  - split; [done|]. split; [done|]. split; [simpl; lia|]. by exists points.
Qed.

Lemma preserves_ensureRadar keep `{!Kept keep} sels scores :
  draws keep → preserves (frame_with keep sels) (ensureRadar scores).
Proof.
  intros Hk w. rewrite ensureRadar_run. destruct (axis_data scores) as [points|] eqn:E.
  - split_and!; [done..|]. by eapply Hk, axis_data_length.
  - reflexivity.
Qed.

Lemma preserves_clear_hybrid keep `{!Kept keep} sels :
  sel_hybrid ∈ sels → preserves (frame_with keep sels) clear_hybrid.
Proof. intros Hs w. rewrite clear_hybrid_run. by apply (frame_update_el keep). Qed.

End render_errors.

#[export] Hint Resolve title_of_error has_hybrid_error axis_data_error
  get_prop_error splitBody_error to_number_error to_string_error dom_string_error
  type_errors_show_hybrid type_errors_ensureRadar type_errors_clear_hybrid
  type_errors_setNote preserves_setNote invariant_setNote
  preserves_show_hybrid preserves_ensureRadar preserves_clear_hybrid
  draws_keep_types draws_keep_radar keep_radar_kept : js.

(** [prog_steps lem] walks down a sequence of binds, closing each step
    with the hints and leaving nothing open. *)
Ltac prog_steps bind_lemma :=
  repeat first
    [ solve [eauto with js]
    | apply bind_lemma; [solve [eauto with js] | intros ?]
    | match goal with p : (_ * _)%type |- _ => destruct p end ].

Section render_theorems.
Implicit Types (w : world) (payload : value) (dm : display_model).

Lemma preserves_renderResult keep `{!Kept keep} sels payload :
  draws keep → render_selectors ⊆ sels →
  preserves (frame_with keep sels) (renderResult payload).
Proof.
  intros Hk Hs.
  assert (∀ sel, sel ∈ render_selectors → sel ∈ sels) as Hin by (intros; by apply Hs).
  assert (Forall (λ sel, sel ∈ sels) render_selectors) as Hall by by apply Forall_forall.
  unfold render_selectors in Hall. repeat (apply Forall_cons_iff in Hall as [? Hall]).
  unfold renderResult.
  prog_steps (@preserves_bind world (frame_with keep sels) _).
Qed.


(** C25. Frame: on every run, completed or thrown, [renderResult] changes
    no element other than the nine it renders to, adds and removes no
    element, and leaves [state.types] alone. *)
Theorem renderResult_frame payload :
  preserves (frame render_selectors) (renderResult payload).
Proof. apply (preserves_renderResult keep_types); [apply draws_keep_types | done]. Qed.

(** Converse of the refinement: a run of [renderResult] that
    completes normally found the six required elements, every display
    value was computable, and the page is left as [present] shows the
    display model. *)
Lemma renderResult_ok_inv payload w u w' :
  renderResult payload w = (Ok u, w') →
  has_elements required_selectors w
  ∧ ∃ dm, interpret payload = Ok dm ∧ w' = present dm w.
Proof.
  unfold renderResult. intros H.
  apply prog_bind_Ok_inv in H as (title & ? & [Ht ->]%lift_Ok_inv & H).
  apply prog_bind_Ok_inv in H as (? & ? & (E1 & ? & [= <-] & ->)%set_textContent_Ok_inv & H).
  apply prog_bind_Ok_inv in H as (? & ? & (E2 & catch & Hc & ->)%set_textContent_Ok_inv & H).
  apply prog_bind_Ok_inv in H as (hyb & ? & [Hh ->]%lift_Ok_inv & H).
  rewrite prog_bind_run, show_hybrid_run in H.
  apply prog_bind_Ok_inv in H as (scores & ? & [Hs ->]%lift_Ok_inv & H).
  rewrite prog_bind_run, ensureRadar_run in H.
  destruct (axis_data (js_or scores default_scores)) as [data|] eqn:Hd; [|done].
  apply prog_bind_Ok_inv in H as ([strongs cautions] & ? & [Hp ->]%lift_Ok_inv & H).
  apply prog_bind_Ok_inv in H as (? & ? & (E3 & st & Hst & ->)%set_textContent_Ok_inv & H).
  apply prog_bind_Ok_inv in H as (? & ? & (E4 & ct & Hct & ->)%set_textContent_Ok_inv & H).
  apply prog_bind_Ok_inv in H as (conf & ? & [Hconf ->]%lift_Ok_inv & H).
  apply prog_bind_Ok_inv in H as (? & ? & (E5 & ->)%set_style_width_Ok_inv & H).
  apply prog_bind_Ok_inv in H as (? & ? & (E6 & ? & [= <-] & ->)%set_textContent_Ok_inv & H).
  rewrite clear_hybrid_run in H. injection H as <-.
  clean_elem E2. clean_elem E3. clean_elem E4. clean_elem E5. clean_elem E6.
  split; [by repeat constructor|].
  eexists. unfold interpret, card_text. rewrite Ht, Hc. simpl. rewrite Hh. simpl.
  rewrite Hs. simpl. rewrite Hd. simpl. rewrite Hp. simpl. rewrite Hst, Hct. simpl.
  rewrite Hconf. simpl. done.
Qed.

(** C1. Correctness of [renderResult] against the display model: a run
    completes normally exactly when the six elements it writes to without
    a check exist and every display value of the payload is computable,
    and the page it leaves is then the presentation of the display model
    of the payload. *)
Theorem renderResult_correct payload w w' :
  renderResult payload w = (Ok (), w') ↔
  has_elements required_selectors w
  ∧ ∃ dm, interpret payload = Ok dm ∧ w' = present dm w.
Proof.
  split; [apply renderResult_ok_inv|].
  intros (He & dm & Hi & ->). by apply renderResult_refines.
Qed.

(** C37. A payload that is [null] (a response body of [null]) makes the read
    of [payload.scores] throw after the title, the catch line and the
    badge have been written: the title reads "- / -", the cards and the
    bar keep what they showed before. *)
Lemma renderResult_nullish payload w :
  is_nullish payload = true →
  is_Some (doc w !! sel_summaryTitle) → is_Some (doc w !! sel_summaryCatch) →
  renderResult payload w
  = (Throw TypeError,
     present_hybrid false
       (update_el sel_summaryCatch (with_text [])
          (update_el sel_summaryTitle
             (with_text (str_dash ++ str_sep ++ str_dash)) w))).
Proof.
  intros Hn E1 E2.
  assert (title_of payload = Ok (str_dash ++ str_sep ++ str_dash)) as Ht
    by by destruct payload.
  assert (∀ k, opt_get payload k = VUndef) as Hk by by destruct payload.
  assert (get_prop payload k_scores = Throw TypeError) as Hs by by destruct payload.
  unfold renderResult. rewrite !Hk, !opt_get_undef.
  rewrite prog_bind_run, lift_run, Ht.
  rewrite prog_bind_run, set_textContent_str by solve_elem.
  rewrite prog_bind_run, (set_textContent_ok _ _ []) by (done || solve_elem).
  change (has_hybrid VUndef VUndef) with (Ok false : outcome bool).
  rewrite prog_bind_run, lift_run.
  rewrite prog_bind_run, show_hybrid_run.
  by rewrite prog_bind_run, lift_run, Hs.
Qed.

End render_theorems.

(** ** A result replaces the one shown before

    The view after a second result does not depend on the first: every
    element the presentation writes is written again, and the chart gets
    the new data.  The bar is the exception when the second confidence is
    not a number: its width is not a CSS percentage, the assignment is
    ignored and the bar keeps the width of the first result. *)

Section supersession.
Implicit Types (w : world) (payload : value) (dm : display_model) (sel : jsstring).

Lemma present_lookup dm w sel :
  doc (present dm w) !! sel = present_el dm sel <$> doc w !! sel.
Proof.
  unfold present, present_hybrid, present_el. cbv zeta.
  repeat first [rewrite update_el_lookup_on | rewrite update_width_lookup_on
               | rewrite present_chart_doc].
  by destruct (doc w !! sel).
Qed.

Lemma present_types dm w : st_types (present dm w) = st_types w.
Proof. unfold present, update_width. by destruct (css_percentage _). Qed.

Lemma present_st_chart dm w :
  st_chart (present dm w)
  = Some (redraw (dm_axis dm) (bool_decide (is_Some (doc w !! sel_radarCanvas)))
            (st_chart w)).
Proof.
  unfold present, update_width. cbv zeta. destruct (css_percentage _);
    rewrite ?update_el_chart; unfold present_chart, present_hybrid;
    cbn [st_chart set_chart]; by rewrite !update_el_lookup_ne by done.
Qed.

Lemma present_is_Some dm w sel :
  is_Some (doc (present dm w) !! sel) ↔ is_Some (doc w !! sel).
Proof. rewrite present_lookup. apply fmap_is_Some. Qed.

Lemma present_has_elements dm sels w :
  has_elements sels (present dm w) ↔ has_elements sels w.
Proof.
  unfold has_elements. rewrite !list.Forall_forall.
  by setoid_rewrite present_is_Some.
Qed.

(** Whatever the first result wrote to an element, the second result
    writes over it. *)
Lemma present_el_supersedes dm1 dm2 sel el :
  css_percentage (conf_text (dm_conf dm2)) = true →
  present_el dm2 sel (present_el dm1 sel el) = present_el dm2 sel el.
Proof.
  intros Hc. unfold present_el. cbv zeta. rewrite Hc.
  destruct (css_percentage (conf_text (dm_conf dm1)));
    repeat match goal with
    | |- context [on_sel ?c _ sel _] =>
        destruct (decide (c = sel)) as [<-|?];
        repeat first [rewrite on_sel_eq | rewrite on_sel_ne by done]
    end; done.
Qed.

Lemma same_chart_redraw data canvas c :
  same_chart (Some (redraw data canvas (Some (redraw data canvas c))))
             (Some (redraw data canvas c)).
Proof. by destruct c. Qed.

Lemma present_supersedes dm1 dm2 w :
  css_percentage (conf_text (dm_conf dm2)) = true →
  same_view (present dm2 (present dm1 w)) (present dm2 w).
Proof.
  intros Hc. split_and!.
  - apply map_eq. intros sel. rewrite !present_lookup, <-option_fmap_compose.
    apply option_fmap_ext. intros el. by apply present_el_supersedes.
  - by rewrite !present_types.
  - rewrite !present_st_chart. by destruct (st_chart w).
Qed.

(** Rendering a second result on the page of a first one gives the
    view that rendering the second result alone gives: the same document
    and a chart with the same labels and data, when the confidence text
    of the second result is a CSS percentage (its confidence is a
    number). *)
Theorem renderResult_supersedes p1 p2 w w1 w2 :
  (∀ dm, interpret p2 = Ok dm → css_percentage (conf_text (dm_conf dm)) = true) →
  renderResult p1 w = (Ok (), w1) →
  renderResult p2 w1 = (Ok (), w2) →
  ∃ w2', renderResult p2 w = (Ok (), w2') ∧ same_view w2 w2'.
Proof.
  intros Hc (He & dm1 & H1 & ->)%renderResult_ok_inv
    (_ & dm2 & H2 & ->)%renderResult_ok_inv.
  exists (present dm2 w). split; [by apply renderResult_refines|].
  apply present_supersedes; auto.
Qed.

End supersession.

(** ** Concrete runs *)

Section examples.

(** The end-to-end scenario of the specification: the display model of the
    sample response, and the page after rendering it. *)
Example interpret_sample : interpret sample_payload = Ok sample_display.
Proof. vm_compute. reflexivity. Qed.

Example renderResult_sample :
  renderResult sample_payload (world0 render_selectors)
  = (Ok (), present sample_display (world0 render_selectors)).
Proof. vm_compute. reflexivity. Qed.

(** What the page shows after the sample response. *)
Example renderResult_sample_page :
  let w := exec (renderResult sample_payload) (world0 render_selectors) in
  el_content <$> doc w !! sel_summaryTitle = Some (Text (js "A / X"))
  ∧ el_content <$> doc w !! sel_summaryMeta = Some (Text str_hybrid)
  ∧ el_display <$> doc w !! sel_summaryMeta = Some str_block
  ∧ el_content <$> doc w !! sel_cardStrengths = Some (Text (js "Strength text"))
  ∧ el_content <$> doc w !! sel_cardCautions = Some (Text (js "Caution text"))
  ∧ el_width <$> doc w !! sel_barFill = Some (js "87.6%")
  ∧ el_content <$> doc w !! sel_confNum = Some (Text (js "87.6%"))
  ∧ (chart_data <$> st_chart w) = Some (radar_data (VNum ∘ of_Z <$> [120; 80; 60; 140; 100])).
Proof. by_compute. Qed.

(** A result with a confidence of 50 shown after the sample: the view is
    the one the second result gives on the blank page. *)
Lemma renderResult_supersedes_witness :
  let w := world0 render_selectors in
  let p2 := field k_confidence (VNum (of_Z 50)) in
  ∃ w2', renderResult p2 w = (Ok (), w2')
    ∧ same_view (exec (renderResult p2) (exec (renderResult sample_payload) w)) w2'.
Proof.
  cbv zeta.
  apply (renderResult_supersedes sample_payload _ _
           (exec (renderResult sample_payload) (world0 render_selectors))).
  - intros dm H. vm_compute in H. injection H as <-. vm_compute. reflexivity.
  - vm_compute. reflexivity.
  - vm_compute. reflexivity.
Defined.

(** The bar is not reset by a result whose confidence is not a number:
    after the sample, a result with the confidence ["abc"] shows [NaN%]
    beside a bar that still has the width of the sample, where the same
    result on the blank page leaves the bar without a width. *)
Example stale_bar_width :
  let w := world0 render_selectors in
  let p2 := field k_confidence (VStr (js "abc")) in
  let w2 := exec (renderResult p2) (exec (renderResult sample_payload) w) in
  el_content <$> doc w2 !! sel_confNum = Some (Text (js "NaN%"))
  ∧ el_width <$> doc w2 !! sel_barFill = Some (js "87.6%")
  ∧ el_width <$> doc (exec (renderResult p2) w) !! sel_barFill = Some []
  ∧ bool_decide (same_view w2 (exec (renderResult p2) w)) = false.
Proof. by_compute. Qed.

(** The confidence table of the specification, and the cases it leaves
    out: a fraction is kept, a string is converted, a string that is not
    a number is shown as NaN. *)
Example conf_display_table :
  conf_display (field k_confidence (VNum (of_Z (-5)))) = Ok (js "0%")
  ∧ conf_display (field k_confidence (VNum (of_Z 150))) = Ok (js "100%")
  ∧ conf_display (field k_confidence (VNum (of_Z 42))) = Ok (js "42%")
  ∧ conf_display (VObj []) = Ok (js "0%")
  ∧ conf_display (field k_confidence VNull) = Ok (js "0%")
  ∧ conf_display (field k_confidence (VNum (of_decimal false 876 (-1)))) = Ok (js "87.6%")
  ∧ conf_display (field k_confidence (VStr (js " 42 "))) = Ok (js "42%")
  ∧ conf_display (field k_confidence (VStr (js "abc"))) = Ok (js "NaN%")
  ∧ conf_display (field k_confidence (VBool true)) = Ok (js "1%")
  ∧ conf_display (field k_confidence (VArr [])) = Ok (js "0%")
  ∧ conf_display (field k_confidence (VObj [])) = Ok (js "NaN%").
Proof. by_compute. Qed.

(** The hybrid table of the specification: the bound 0.06 is inclusive. *)
Example has_hybrid_table :
  has_hybrid (VStr (js "B")) (VNum (of_decimal false 6 (-2))) = Ok true
  ∧ has_hybrid (VStr (js "B")) (VNum (of_decimal false 600001 (-7))) = Ok false
  ∧ has_hybrid (VStr (js "B")) (VNum (of_decimal false 5 (-2))) = Ok true
  ∧ has_hybrid (VStr (js "B")) VUndef = Ok false
  ∧ has_hybrid (VStr (js "B")) VNull = Ok false
  ∧ has_hybrid VUndef (VNum (of_decimal false 1 (-2))) = Ok false
  ∧ has_hybrid (VStr []) (VNum (of_decimal false 1 (-2))) = Ok false.
Proof. by_compute. Qed.

(** Margins the service is not expected to send, and what the test makes
    of them: only [null] is excluded, so [false], the empty string, an
    empty array and a negative number all show the badge. *)
Example has_hybrid_unexpected_margins :
  has_hybrid (VStr (js "B")) (VBool false) = Ok true
  ∧ has_hybrid (VStr (js "B")) (VStr []) = Ok true
  ∧ has_hybrid (VStr (js "B")) (VArr []) = Ok true
  ∧ has_hybrid (VStr (js "B")) (VNum (of_Z (-3))) = Ok true
  ∧ has_hybrid (VStr (js "B")) (VStr (js "0.05")) = Ok true.
Proof. by_compute. Qed.

Lemma clamp_conf_range_witness :
  num_leb pzero (clamp_conf (of_Z 150)) = true
  ∧ num_leb (clamp_conf (of_Z 150)) num_100 = true.
Proof. by apply clamp_conf_range. Defined.

Lemma conf_text_integer_witness :
  conf_text (clamp_conf (of_Z 42)) = dec_digits 42 ++ str_percent.
Proof. apply conf_text_integer. lia. Defined.


(** A scores object that lacks an axis gives [undefined] for it, not 0. *)
Example axis_data_missing_axis :
  axis_data (field (js "共感") (VNum (of_Z 7)))
  = Ok [VNum (of_Z 7); VUndef; VUndef; VUndef; VUndef].
Proof. reflexivity. Qed.

Lemma title_of_text_witness :
  title_of (field k_macro (field k_top (VStr (js "A")))) = Ok (js "A / -").
Proof. by apply (title_of_text (field k_macro (field k_top (VStr (js "A"))))). Defined.

Lemma cards_never_empty_witness :
  dm_strengths sample_display ≠ [] ∧ dm_cautions sample_display ≠ [].
Proof.
  apply (cards_never_empty sample_payload); [reflexivity | vm_compute; reflexivity].
Defined.

(** An array as narrative is passed through by [splitBody]; an empty one
    is truthy, so no em dash replaces it, and its string is empty. *)
Example cards_empty_on_array_body :
  dm_strengths <$> interpret (field k_copy (field k_body (VArr []))) = Ok [].
Proof. vm_compute. reflexivity. Qed.

Lemma renderResult_nullish_witness :
  renderResult VNull (world0 render_selectors)
  = (Throw TypeError,
     present_hybrid false
       (update_el sel_summaryCatch (with_text [])
          (update_el sel_summaryTitle
             (with_text (str_dash ++ str_sep ++ str_dash))
             (world0 render_selectors)))).
Proof. apply renderResult_nullish; [done | compute_done..]. Defined.

End examples.
