(* ===== verification/Catalog.v ===== *)
(** * Catalog: the type catalog ([loadTypes], script.js lines 9-33)

    [loadTypes] is an asynchronous function.  It runs up to its first
    [await] when [init] calls it ([loadTypes_start]: the configuration
    guard, the "loading" placeholder in both selects, the request), and
    its continuation runs when the response arrives ([loadTypes_resume]:
    the [try] block from [res.json()] on, and the [catch] clause).  An
    exception before the [try] rejects the promise the function returned,
    which nobody observes; an exception inside it, whatever its cause, is
    reported as a connection problem.

    The theorems give the page after each kind of response (a catalog, no
    data, no connection), show that the continuation never throws, that the
    HTTP status plays no part, and what the handler leaves untouched.
    Through the parser of [Markup] they also give what each select
    offers afterwards: the placeholder alone while loading and when no
    data came, and the prompt followed by the names of the catalog,
    with the empty value selected, when no name holds a character that
    the markup gives a meaning to.  The relation [resumed] states the
    four outcomes of the continuation; [loadTypes_resume] implements
    it. *)

From S2P Require Import Prelude Effects JsString JsNumber JsValue Tokenizer Markup Dom Api Render.
From stdpp Require Import gmap strings.

(** ** Constants of the script *)

Definition sel_typeA : jsstring := Eval vm_compute in js "#typeA".
Definition sel_typeB : jsstring := Eval vm_compute in js "#typeB".

(** Line 10. *)
Definition msg_api_unset : jsstring :=
  Eval vm_compute in
    js "APIのURLが設定されていません。/web/config.js の window.API_BASE を設定してください。".
(** Line 18. *)
Definition msg_types_unavailable : jsstring :=
  Eval vm_compute in
    js "タイプが読み込めません。APIのデータ配置やRender稼働を確認してください。".
(** Line 31. *)
Definition msg_api_unreachable : jsstring :=
  Eval vm_compute in
    js "APIに接続できません。RenderのURL/CORS/稼働状況を確認してください。".

(** Lines 12, 19, 24 and 26: the placeholder options. *)
Definition html_loading : jsstring :=
  Eval vm_compute in js "<option value=\x22\x22 disabled selected>読み込み中...</option>".
Definition html_unavailable : jsstring :=
  Eval vm_compute in js "<option value=\x22\x22 disabled selected>（読み込み不可）</option>".
Definition html_promptA : jsstring :=
  Eval vm_compute in
    js "<option value=\x22\x22 disabled selected>あなたのラブタイプを選択</option>".
Definition html_promptB : jsstring :=
  Eval vm_compute in
    js "<option value=\x22\x22 disabled selected>お相手のラブタイプを選択</option>".

(** ** The option markup *)

(** Lines 25 and 27: [`<option value="${t}">${t}</option>`].  The element
    [t] is converted to a string by the template; nothing is escaped. *)
Definition option_markup (name : jsstring) : jsstring :=
  js "<option value=\x22" ++ name ++ js "\x22>" ++ name ++ js "</option>".

Definition option_html (t : value) : outcome jsstring :=
  name ← to_string t; Ok (option_markup name).

(** Lines 24-27: [[first].concat(arr.map(...)).join("")]. *)
Definition options_html (first : jsstring) (arr : list value) : outcome jsstring :=
  opts ← mapM option_html arr; Ok (concat (first :: opts)).

(** Line 17: the array the catalog is read from, when
    [Array.isArray(arr)] and [arr.length !== 0]. *)
Definition catalog_of (arr : value) : option (list value) :=
  match arr with
  | VArr (t :: ts) => Some (t :: ts)
  | _ => None
  end.

(** ** The function *)

Section functions.
Context {browser : Browser}.

(** Lines 10-15, up to the first [await]: the request issued, if any. *)
Definition loadTypes_start (api : jsstring) : prog world (option request) :=
  if is_nil api then setNote (VStr msg_api_unset);; mret None
  else
    set_innerHTML sel_typeA html_loading;;
    h ← get_innerHTML sel_typeA;
    set_innerHTML sel_typeB h;;
    mret (Some (GetTypes (types_url api))).

(** Lines 15-29: the [try] block, from the response on. *)
Definition loadTypes_body (r : response) : prog world unit :=
  '(_, arr) ← lift (await_json r);
  match catalog_of arr with
  | None =>
    setNote (VStr msg_types_unavailable);;
    set_innerHTML sel_typeA html_unavailable;;
    h ← get_innerHTML sel_typeA;
    set_innerHTML sel_typeB h
  | Some types =>
    modify_state (set_types arr);;
    optsA ← lift (options_html html_promptA types);
    optsB ← lift (options_html html_promptB types);
    set_innerHTML sel_typeA optsA;;
    set_innerHTML sel_typeB optsB;;
    setNote (VStr [])
  end.

(** Lines 14-32: the [try] block and its [catch] clause. *)
Definition loadTypes_resume (r : response) : prog world unit :=
  try_catch (loadTypes_body r) (λ _, setNote (VStr msg_api_unreachable)).

End functions.

(** ** What the catalog page shows *)

(** The names the selects offer for the catalog [types]. *)
Definition type_names (types : list value) : outcome (list jsstring) :=
  mapM to_string types.

(** The names of the catalog held in [state.types]. *)
Definition names_of (w : world) : list jsstring :=
  match st_types w with
  | VArr types => match type_names types with Ok names => names | Throw _ => [] end
  | _ => []
  end.

(** Lines 13 and 20: what [selA.innerHTML] reads after the placeholder
    was assigned, the serialisation of the option parsed from it (the
    attributes without a value are written with an empty one). *)
Definition loading_nodes : list node :=
  Eval vm_compute in default [] (parse_fragment html_loading).
Definition unavailable_nodes : list node :=
  Eval vm_compute in default [] (parse_fragment html_unavailable).
Definition html_loading_read : jsstring :=
  Eval vm_compute in serialize loading_nodes.
Definition html_unavailable_read : jsstring :=
  Eval vm_compute in serialize unavailable_nodes.

(** The markup of a select for the names of a catalog. *)
Definition catalog_markup (prompt : jsstring) (names : list jsstring) : jsstring :=
  concat (prompt :: (option_markup <$> names)).

(** The options a select offers for that markup when it reads as
    written: the placeholder, then an option per name. *)
Definition placeholder_attrs : list attribute :=
  [(str_value, []); (str_disabled, []); (str_selected, [])].
Definition placeholder_option (text : jsstring) : option_el := OptionEl [] text true true.
Definition name_option (name : jsstring) : option_el :=
  OptionEl name (strip_collapse name) false false.

Definition text_loading : jsstring := Eval vm_compute in js "読み込み中...".
Definition text_unavailable : jsstring := Eval vm_compute in js "（読み込み不可）".
Definition text_promptA : jsstring := Eval vm_compute in js "あなたのラブタイプを選択".
Definition text_promptB : jsstring := Eval vm_compute in js "お相手のラブタイプを選択".

Definition catalog_options (text : jsstring) (names : list jsstring) : list option_el :=
  placeholder_option text :: (name_option <$> names).

Section pages.
Context {browser : Browser}.

(** The page after a catalog was accepted. *)
Definition show_catalog (arr : value) (names : list jsstring) (w : world) : world :=
  update_el sel_note (with_text [])
    (update_el sel_typeB (with_markup (catalog_markup html_promptB names))
       (update_el sel_typeA (with_markup (catalog_markup html_promptA names))
          (set_types arr w))).

(** The page after a response without a catalog. *)
Definition show_unavailable (w : world) : world :=
  update_el sel_typeB (with_markup html_unavailable_read)
    (update_el sel_typeA (with_markup html_unavailable)
       (update_el sel_note (with_text msg_types_unavailable) w)).

(** The page while the catalog is requested. *)
Definition show_loading (w : world) : world :=
  update_el sel_typeB (with_markup html_loading_read)
    (update_el sel_typeA (with_markup html_loading) w).

(** What the continuation promises on a page that has both selects:
    the page after the response, for each kind of response. *)
Inductive resumed (r : response) (w : world) : world → Prop :=
  | resumed_unreachable e :
      await_json r = Throw e →
      resumed r w (update_el sel_note (with_text msg_api_unreachable) w)
  | resumed_unavailable ok arr :
      r = Replied ok (Some arr) → catalog_of arr = None →
      resumed r w (show_unavailable w)
  | resumed_bad_element ok arr types e :
      r = Replied ok (Some arr) → catalog_of arr = Some types →
      type_names types = Throw e →
      resumed r w (update_el sel_note (with_text msg_api_unreachable) (set_types arr w))
  | resumed_catalog ok arr types names :
      r = Replied ok (Some arr) → catalog_of arr = Some types →
      type_names types = Ok names →
      resumed r w (show_catalog arr names w).

End pages.

(** The selectors [loadTypes] writes through. *)
Definition catalog_selectors : list jsstring := [sel_note; sel_typeA; sel_typeB].

(** [stores keep r]: [keep] admits storing the body of [r] in
    [state.types]. *)
Definition stores (keep : relation world) (r : response) : Prop :=
  ∀ ok arr w, await_json r = Ok (ok, arr) → keep w (set_types arr w).

(** A page with the note and the two selects, and a catalog of two. *)
Definition catalog_page : world := world0 catalog_selectors.
Definition sample_types : value := VArr [VStr (js "A"); VStr (js "B")].

(** ** The option markup *)

Section markup_facts.
Implicit Types (types : list value) (names : list jsstring) (first name : jsstring).

Lemma option_html_str name : option_html (VStr name) = Ok (option_markup name).
Proof. done. Qed.

Lemma mapM_option_html types :
  mapM option_html types = fmap option_markup <$> type_names types.
Proof.
  unfold type_names. induction types as [|t types IH]; [done|].
  cbn [mapM]. rewrite IH. unfold option_html.
  destruct (to_string t); [|done]. simpl. by destruct (mapM to_string types).
Qed.

Lemma type_names_str names : type_names (VStr <$> names) = Ok names.
Proof.
  unfold type_names. induction names as [|n names IH]; [done|].
  rewrite fmap_cons. cbn [mapM]. by rewrite IH.
Qed.

Lemma type_names_error types e : type_names types = Throw e → e = TypeError.
Proof.
  unfold type_names. induction types as [|t types IH]; [done|]. cbn [mapM].
  destruct (to_string t) eqn:Et; simpl.
  - destruct (mapM to_string types); [done|]. intros [= <-]. by apply IH.
  - intros [= <-]. by eapply to_string_error.
Qed.

(** The markup of a select: its prompt, then one option per type, in the
    order of the catalog. *)
Lemma options_html_names first types names :
  type_names types = Ok names →
  options_html first types = Ok (catalog_markup first names).
Proof. intros H. unfold options_html. by rewrite mapM_option_html, H. Qed.

Lemma options_html_throw first types e :
  type_names types = Throw e → options_html first types = Throw e.
Proof. intros H. unfold options_html. by rewrite mapM_option_html, H. Qed.

Lemma catalog_of_Some arr types :
  catalog_of arr = Some types ↔ arr = VArr types ∧ types ≠ [].
Proof.
  destruct arr as [| | | | |[|t ts]|]; simpl; split; try done; try by intros [? ?].
  - by intros [[= <-] ?].
  - by intros [= <-].
  - by intros [[= <-] _].
Qed.

End markup_facts.

(** ** The options the markup gives a select *)

Section catalog_options.
Context {browser : Browser}.
Implicit Types (names : list jsstring) (name text prompt : jsstring).

Lemma option_markup_print name : option_markup name = print_option name name.
Proof. reflexivity. Qed.

Lemma catalog_markup_print prompt names :
  catalog_markup prompt names
  = prompt ++ concat ((λ ov, print_option ov.1 ov.2) <$> ((λ n, (n, n)) <$> names)).
Proof. unfold catalog_markup. cbn [concat]. by rewrite <-list_fmap_compose. Qed.

Lemma options_of_names names :
  options_of ((λ ov, NOption [(str_value, ov.1)] ov.2) <$> ((λ n, (n, n)) <$> names))
  = name_option <$> names.
Proof. induction names as [|n names IH]; [done|]. cbn. by rewrite <-IH. Qed.

(** The markup of a prompt followed by safe names parses to the prompt
    and one option per name. *)
Lemma select_options_catalog prompt text names :
  forallb (λ c, negb (c =? 13)%N) prompt = true →
  parse_run pstart prompt = Some (Data, (false, [NOption placeholder_attrs text])) →
  strip_collapse text = text →
  Forall (λ n, safe_name n = true) names →
  select_options (catalog_markup prompt names) = catalog_options text names.
Proof.
  intros Hc Hp Ht Hs. rewrite catalog_markup_print.
  erewrite select_options_parsed; last first.
  { apply (parse_fragment_options _ _ _ Hc Hp).
    apply Forall_fmap. eapply Forall_impl; [exact Hs|]. by intros n. }
  rewrite options_of_app, options_of_names. cbn. unfold option_of. by rewrite Ht.
Qed.

(** The two prompts, as they parse. *)
Lemma select_options_promptA names :
  Forall (λ n, safe_name n = true) names →
  select_options (catalog_markup html_promptA names) = catalog_options text_promptA names.
Proof. by apply (select_options_catalog html_promptA text_promptA). Qed.

Lemma select_options_promptB names :
  Forall (λ n, safe_name n = true) names →
  select_options (catalog_markup html_promptB names) = catalog_options text_promptB names.
Proof. by apply (select_options_catalog html_promptB text_promptB). Qed.

(** The placeholders, as assigned and as read back, are one option that
    is selected and disabled. *)
Lemma select_options_placeholder html text :
  parse_fragment html = Some [NOption placeholder_attrs text] →
  strip_collapse text = text →
  select_options html = [placeholder_option text].
Proof.
  intros Hp Ht. rewrite (select_options_parsed _ _ Hp). cbn.
  unfold option_of. by rewrite Ht.
Qed.

Lemma select_options_loading : select_options html_loading = [placeholder_option text_loading].
Proof. by apply select_options_placeholder. Qed.

Lemma select_options_loading_read :
  select_options html_loading_read = [placeholder_option text_loading].
Proof. by apply select_options_placeholder. Qed.

Lemma select_options_unavailable :
  select_options html_unavailable = [placeholder_option text_unavailable].
Proof. by apply select_options_placeholder. Qed.

Lemma select_options_unavailable_read :
  select_options html_unavailable_read = [placeholder_option text_unavailable].
Proof. by apply select_options_placeholder. Qed.

(** A select with a catalog of safe names has the empty value, and the
    names are what can be picked. *)
Lemma select_value_catalog text names : select_value (catalog_options text names) = [].
Proof.
  apply (select_value_placeholder (placeholder_option text)); [done|].
  apply Forall_fmap, Forall_true. done.
Qed.

Lemma choosable_catalog text names : choosable (catalog_options text names) = names.
Proof.
  unfold catalog_options. rewrite choosable_placeholder; [|done|].
  - rewrite <-list_fmap_compose. apply list_fmap_id.
  - apply Forall_fmap, Forall_true. done.
Qed.

(** C9. For a catalog of safe names each select offers its prompt, selected
    and disabled, then one option per name whose value is the name: the
    value of the select is empty and the names are what can be picked. *)
Theorem catalog_select names :
  Forall (λ n, safe_name n = true) names →
  select_options (catalog_markup html_promptA names) = catalog_options text_promptA names
  ∧ select_options (catalog_markup html_promptB names) = catalog_options text_promptB names
  ∧ ∀ text, select_value (catalog_options text names) = []
            ∧ choosable (catalog_options text names) = names.
Proof.
  intros Hs. split_and!; [by apply select_options_promptA | by apply select_options_promptB|].
  intros text. split; [apply select_value_catalog | apply choosable_catalog].
Qed.

End catalog_options.

(** ** Steps of the function *)

Section catalog_steps.
Context {browser : Browser}.
Implicit Types (w : world) (r : response) (api : jsstring).

Lemma sel_typeA_typeB : sel_typeA ≠ sel_typeB.
Proof. done. Qed.

Lemma set_innerHTML_ok sel html w :
  is_Some (doc w !! sel) →
  set_innerHTML sel html w = (Ok (), update_el sel (with_markup html) w).
Proof. intros [el H]. by rewrite set_innerHTML_run, H. Qed.

(** Reading back the markup just assigned. *)
Lemma get_innerHTML_update sel html w :
  is_Some (doc w !! sel) →
  get_innerHTML sel (update_el sel (with_markup html) w)
  = (Ok (inner_html html), update_el sel (with_markup html) w).
Proof. intros [el H]. by rewrite get_innerHTML_run, update_el_lookup, H. Qed.

(** The placeholders read back with their attributes spelled out. *)
Lemma inner_html_loading : inner_html html_loading = html_loading_read.
Proof. by rewrite (inner_html_parsed _ loading_nodes) by by vm_compute. Qed.

Lemma inner_html_unavailable : inner_html html_unavailable = html_unavailable_read.
Proof. by rewrite (inner_html_parsed _ unavailable_nodes) by by vm_compute. Qed.

(** [selA.innerHTML = html; selB.innerHTML = selA.innerHTML] *)
Lemma copy_markup_run html w :
  is_Some (doc w !! sel_typeA) → is_Some (doc w !! sel_typeB) →
  (set_innerHTML sel_typeA html;; h ← get_innerHTML sel_typeA; set_innerHTML sel_typeB h) w
  = (Ok (), update_el sel_typeB (with_markup (inner_html html))
              (update_el sel_typeA (with_markup html) w)).
Proof.
  intros HA HB.
  rewrite prog_bind_run, set_innerHTML_ok by done.
  rewrite prog_bind_run, get_innerHTML_update by done.
  by rewrite set_innerHTML_ok by by rewrite update_el_is_Some.
Qed.

Lemma loadTypes_start_unset w :
  loadTypes_start [] w
  = (Ok None, update_el sel_note (with_text msg_api_unset) w).
Proof. unfold loadTypes_start. simpl. by rewrite prog_bind_run, setNote_run. Qed.

Lemma loadTypes_start_run api w :
  api ≠ [] → is_Some (doc w !! sel_typeA) → is_Some (doc w !! sel_typeB) →
  loadTypes_start api w = (Ok (Some (GetTypes (types_url api))), show_loading w).
Proof.
  intros Ha HA HB. unfold loadTypes_start. destruct api; [done|]. simpl.
  rewrite prog_bind_run, set_innerHTML_ok by done.
  rewrite prog_bind_run, get_innerHTML_update, inner_html_loading by done.
  by rewrite prog_bind_run, set_innerHTML_ok by by rewrite update_el_is_Some.
Qed.

(** The only request the function issues is the one for the catalog. *)
Lemma loadTypes_start_request api q w w' :
  loadTypes_start api w = (Ok (Some q), w') → api ≠ [] ∧ q = GetTypes (types_url api).
Proof.
  unfold loadTypes_start. destruct api as [|c api']; simpl.
  - rewrite prog_bind_run, setNote_run. by intros [= ?].
  - intros (? & ? & _ & H)%prog_bind_Ok_inv.
    apply prog_bind_Ok_inv in H as (? & ? & _ & H).
    apply prog_bind_Ok_inv in H as (? & ? & _ & H).
    by injection H as <- _.
Qed.

(** When it is issued, both selects show the placeholder. *)
Lemma loadTypes_start_Some api q w w' :
  loadTypes_start api w = (Ok (Some q), w') → w' = show_loading w.
Proof.
  intros H. pose proof (loadTypes_start_request _ _ _ _ H) as [Ha _].
  destruct (doc w !! sel_typeA) as [ea|] eqn:EA; last first.
  { unfold loadTypes_start in H. destruct api; [done|]. simpl in H.
    by rewrite prog_bind_run, set_innerHTML_run, EA in H. }
  destruct (doc w !! sel_typeB) as [eb|] eqn:EB.
  { rewrite loadTypes_start_run in H by eauto. by injection H as _ <-. }
  unfold loadTypes_start in H. destruct api; [done|]. simpl in H.
  rewrite prog_bind_run, set_innerHTML_ok in H by eauto.
  rewrite prog_bind_run, get_innerHTML_update in H by eauto.
  by rewrite prog_bind_run, set_innerHTML_run, update_el_lookup_ne, EB in H.
Qed.

End catalog_steps.

(** ** The page after each kind of response *)

Section catalog_theorems.
Context {browser : Browser}.
Implicit Types (w : world) (r : response) (arr : value) (types : list value).

Lemma loadTypes_body_catalog ok arr types names w :
  catalog_of arr = Some types → type_names types = Ok names →
  is_Some (doc w !! sel_typeA) → is_Some (doc w !! sel_typeB) →
  loadTypes_body (Replied ok (Some arr)) w = (Ok (), show_catalog arr names w).
Proof.
  intros Hc Hn HA HB. unfold loadTypes_body.
  rewrite prog_bind_run, lift_run. simpl. rewrite Hc.
  rewrite prog_bind_run. simpl.
  rewrite !(options_html_names _ _ names) by done.
  rewrite prog_bind_run, lift_run, prog_bind_run, lift_run.
  rewrite prog_bind_run, set_innerHTML_ok by done.
  rewrite prog_bind_run, set_innerHTML_ok by by rewrite update_el_is_Some.
  by rewrite setNote_run.
Qed.

Lemma loadTypes_body_unavailable ok arr w :
  catalog_of arr = None →
  is_Some (doc w !! sel_typeA) → is_Some (doc w !! sel_typeB) →
  loadTypes_body (Replied ok (Some arr)) w = (Ok (), show_unavailable w).
Proof.
  intros Hc HA HB. unfold loadTypes_body.
  rewrite prog_bind_run, lift_run. simpl. rewrite Hc.
  rewrite prog_bind_run, setNote_run.
  by rewrite copy_markup_run, inner_html_unavailable by by rewrite update_el_is_Some.
Qed.

Lemma loadTypes_body_rejected r e w :
  await_json r = Throw e → loadTypes_body r w = (Throw e, w).
Proof. intros H. unfold loadTypes_body. by rewrite prog_bind_run, lift_run, H. Qed.

(** C6. A non-empty array whose elements have a string is accepted as the
    catalog: [state.types] holds it, each select shows its prompt
    followed by one option per type in the order received, and the note
    is cleared. *)
Theorem loadTypes_resume_catalog ok arr types names w :
  catalog_of arr = Some types → type_names types = Ok names →
  is_Some (doc w !! sel_typeA) → is_Some (doc w !! sel_typeB) →
  loadTypes_resume (Replied ok (Some arr)) w = (Ok (), show_catalog arr names w).
Proof.
  intros. unfold loadTypes_resume.
  by erewrite try_catch_ok by by eapply loadTypes_body_catalog.
Qed.

(** A body that is not a non-empty array is "no data": the note says the
    types cannot be read and both selects show the "unavailable"
    placeholder, which differs from the "loading" one; [state.types] keeps
    its value. *)
Theorem loadTypes_resume_unavailable ok arr w :
  catalog_of arr = None →
  is_Some (doc w !! sel_typeA) → is_Some (doc w !! sel_typeB) →
  loadTypes_resume (Replied ok (Some arr)) w = (Ok (), show_unavailable w)
  ∧ html_unavailable ≠ html_loading
  ∧ st_types (show_unavailable w) = st_types w.
Proof.
  intros. split; [|done]. unfold loadTypes_resume.
  by erewrite try_catch_ok by by eapply loadTypes_body_unavailable.
Qed.

(** A request that fails, or a body that is not JSON, is reported as a
    connection problem, and nothing but the note changes: the selects
    keep the "loading" placeholder. *)
Theorem loadTypes_resume_unreachable r e w :
  await_json r = Throw e →
  loadTypes_resume r w
  = (Ok (), update_el sel_note (with_text msg_api_unreachable) w).
Proof.
  intros H. unfold loadTypes_resume.
  erewrite try_catch_throw by by eapply loadTypes_body_rejected.
  apply setNote_run.
Qed.

(** The continuation never throws: whatever the response and the page, an
    exception ends in the [catch] clause, which only writes the note. *)
Theorem loadTypes_resume_total r w : (loadTypes_resume r w).1 = Ok ().
Proof.
  unfold loadTypes_resume, try_catch.
  destruct (loadTypes_body r w) as [[[]|e] w'] eqn:E; [done|].
  by rewrite setNote_run.
Qed.

(** The HTTP status of the response is not looked at. *)
Lemma loadTypes_status_ignored ok1 ok2 body :
  loadTypes_resume (Replied ok1 body) = loadTypes_resume (Replied ok2 body).
Proof. by destruct body. Qed.

End catalog_theorems.

(** ** Exceptions and frame *)

Section catalog_frames.
Context {browser : Browser}.
Implicit Types (w : world) (r : response) (api : jsstring).

(** An element of the array that has no string (an object with a
    [toString] property of its own) stops the function after
    [state.types] was assigned: the selects keep the "loading"
    placeholder and the note reports a connection problem. *)
Lemma loadTypes_resume_bad_element ok arr types e w :
  catalog_of arr = Some types → type_names types = Throw e →
  loadTypes_resume (Replied ok (Some arr)) w
  = (Ok (), update_el sel_note (with_text msg_api_unreachable) (set_types arr w)).
Proof.
  intros Hc Hn. unfold loadTypes_resume, try_catch, loadTypes_body.
  rewrite prog_bind_run, lift_run. simpl. rewrite Hc.
  rewrite prog_bind_run. simpl.
  rewrite prog_bind_run, lift_run, (options_html_throw _ _ e) by done.
  apply setNote_run.
Qed.

Lemma preserves_loadTypes_body keep `{!Kept keep} sels r :
  stores keep r → catalog_selectors ⊆ sels →
  preserves (frame_with keep sels) (loadTypes_body r).
Proof.
  intros Hk Hs. unfold loadTypes_body.
  assert (Forall (λ sel, sel ∈ sels) catalog_selectors) as Hall
    by (apply list.Forall_forall; intros; by apply Hs).
  unfold catalog_selectors in Hall. repeat (apply Forall_cons_iff in Hall as [? Hall]).
  apply preserves_bind_lift; [apply _|]. intros [ok arr] Hr.
  destruct (catalog_of arr) as [types|].
  - apply preserves_bind; [apply _| |intros []].
    { apply preserves_modify. intros w. split_and!; [done..|by eapply Hk]. }
    prog_steps (@preserves_bind world (frame_with keep sels) _).
  - prog_steps (@preserves_bind world (frame_with keep sels) _).
Qed.

Lemma preserves_loadTypes_resume keep `{!Kept keep} sels r :
  stores keep r → catalog_selectors ⊆ sels →
  preserves (frame_with keep sels) (loadTypes_resume r).
Proof.
  intros Hk Hs. assert (sel_note ∈ sels) by (apply Hs; compute_done).
  apply preserves_try_catch; [apply _ | | eauto with js].
  by apply (preserves_loadTypes_body keep).
Qed.

Lemma stores_keep_chart r : stores keep_chart r.
Proof. by intros ok arr w _. Qed.

(** A body of 16-bit strings can be stored. *)
Lemma stores_keep_wf r : wf_response r → stores keep_wf r.
Proof. intros Hr ok arr w Ha _. by destruct r as [|? [v|]]; simplify_eq/=. Qed.

(** The names of a catalog of 16-bit strings are 16-bit strings. *)
Lemma names_of_wf w : types_ok w → Forall wf_string (names_of w).
Proof.
  unfold types_ok, names_of. destruct (st_types w) as [| | | | |types|]; try by constructor.
  intros Hw%forallb_Forall. destruct (type_names types) as [names|] eqn:E; [|by constructor].
  eapply mapM_Ok_Forall; [|done]. eapply list.Forall_impl; [done|].
  intros v Hv s. by apply to_string_wf.
Qed.

(** Frame: the continuation changes no element other than the note and
    the two selects, adds and removes no element, and leaves the chart
    alone. *)
Theorem loadTypes_resume_frame r :
  preserves (frame_with keep_chart catalog_selectors) (loadTypes_resume r).
Proof. by apply (preserves_loadTypes_resume keep_chart); [apply stores_keep_chart|]. Qed.

Lemma loadTypes_start_frame keep `{!Kept keep} api :
  preserves (frame_with keep catalog_selectors) (loadTypes_start api).
Proof.
  unfold loadTypes_start. destruct (is_nil api);
    prog_steps (@preserves_bind world (frame_with keep catalog_selectors) _).
Qed.

(** The part before the first [await] throws nothing but a TypeError,
    when one of the selects is missing. *)
Lemma loadTypes_start_type_errors api :
  throws_only (λ e, e = TypeError) (loadTypes_start api).
Proof.
  unfold loadTypes_start. destruct (is_nil api);
    prog_steps (@throws_only_bind world (λ e, e = TypeError)).
Qed.

(** An invariant of the elements that the writes maintain is maintained
    by both parts of the function. *)
Lemma invariant_loadTypes_start Q `{!WriteClosed Q} api :
  preserves (keeps (all_elements Q)) (loadTypes_start api).
Proof.
  unfold loadTypes_start. destruct (is_nil api);
    prog_steps (@preserves_bind world (keeps (all_elements Q)) _).
Qed.

Lemma invariant_loadTypes_resume Q `{!WriteClosed Q} r :
  preserves (keeps (all_elements Q)) (loadTypes_resume r).
Proof.
  apply preserves_try_catch; [apply _ | | eauto with js].
  unfold loadTypes_body.
  apply preserves_bind; [apply _ | eauto with js|]. intros [ok arr].
  destruct (catalog_of arr) as [types|];
    prog_steps (@preserves_bind world (keeps (all_elements Q)) _).
Qed.

(** On a page that has both selects the continuation implements
    [resumed]. *)
Lemma loadTypes_resume_resumed r w :
  is_Some (doc w !! sel_typeA) → is_Some (doc w !! sel_typeB) →
  resumed r w (exec (loadTypes_resume r) w).
Proof.
  intros HA HB. unfold exec.
  assert (∀ e, await_json r = Throw e →
    loadTypes_resume r w
    = (Ok (), update_el sel_note (with_text msg_api_unreachable) w)) as Hfail.
  { intros e He. unfold loadTypes_resume.
    erewrite try_catch_throw by by eapply loadTypes_body_rejected.
    apply setNote_run. }
  destruct r as [|ok [arr|]].
  - erewrite Hfail by done. by econstructor 1.
  - unfold loadTypes_resume at 1. destruct (catalog_of arr) as [types|] eqn:Ec.
    + destruct (type_names types) as [names|e] eqn:En.
      * erewrite try_catch_ok by by eapply loadTypes_body_catalog.
        by econstructor 4.
      * fold (loadTypes_resume (Replied ok (Some arr))).
        erewrite loadTypes_resume_bad_element by done. by econstructor 3.
    + erewrite try_catch_ok by by eapply loadTypes_body_unavailable.
      by econstructor 2.
  - erewrite Hfail by done. by econstructor 1.
Qed.

(** The note after the continuation is one of the three the function
    writes. *)
Lemma loadTypes_resume_note msg r :
  msg ∉ [msg_types_unavailable; []; msg_api_unreachable] →
  ends_in (λ w, ¬ note_is msg w) (loadTypes_resume r).
Proof.
  intros Hm.
  assert (msg_types_unavailable ≠ msg ∧ [] ≠ msg ∧ msg_api_unreachable ≠ msg)
    as (H1 & H2 & H3) by (split_and!; intros <-; apply Hm; compute_done).
  apply ends_in_try_catch; [|intros e; by apply ends_in_setNote].
  unfold loadTypes_body. eapply returns_bind; [apply returns_lift|]. intros [ok arr].
  destruct (catalog_of arr) as [types|].
  - intros w [] w' _ (? & ? & _ & H)%prog_bind_Ok_inv.
    apply prog_bind_Ok_inv in H as (? & ? & _ & H).
    apply prog_bind_Ok_inv in H as (? & ? & _ & H).
    apply prog_bind_Ok_inv in H as (? & ? & _ & H).
    apply prog_bind_Ok_inv in H as (? & w1 & _ & H).
    pose proof (ends_in_setNote msg [] H2 w1) as Hs. by rewrite H in Hs.
  - apply (returns_bind _ (λ w, ¬ note_is msg w));
      [by apply returns_ends_in, ends_in_setNote|]. intros [].
    apply (returns_note_frame keep_types [sel_typeA; sel_typeB]); [|compute_done].
    prog_steps (@preserves_bind world (frame [sel_typeA; sel_typeB]) _).
Qed.

(** With a base URL the part before the request does not write to the
    note. *)
Lemma loadTypes_start_selects keep `{!Kept keep} api :
  api ≠ [] → preserves (frame_with keep [sel_typeA; sel_typeB]) (loadTypes_start api).
Proof.
  intros Ha. unfold loadTypes_start. destruct api; [done|]. simpl.
  prog_steps (@preserves_bind world (frame_with keep [sel_typeA; sel_typeB]) _).
Qed.

(** On a page that has both selects the continuation implements its
    specification [resumed], and completes normally. *)
Theorem loadTypes_resume_refines r w :
  is_Some (doc w !! sel_typeA) → is_Some (doc w !! sel_typeB) →
  ∃ w', loadTypes_resume r w = (Ok (), w') ∧ resumed r w w'.
Proof.
  intros HA HB. exists (exec (loadTypes_resume r) w).
  split; [|by apply loadTypes_resume_resumed].
  unfold exec, loadTypes_resume, try_catch.
  destruct (loadTypes_body r w) as [[[]|e] w'] eqn:E; [done|]. by rewrite setNote_run.
Qed.

End catalog_frames.

#[export] Hint Resolve loadTypes_start_frame loadTypes_start_type_errors
  invariant_loadTypes_start invariant_loadTypes_resume : js.

(** ** Concrete runs *)

Section examples.
#[local] Existing Instance reference_browser.

Lemma loadTypes_resume_catalog_witness :
  loadTypes_resume (Replied true (Some sample_types)) catalog_page
  = (Ok (), show_catalog sample_types [js "A"; js "B"] catalog_page).
Proof.
  by apply (loadTypes_resume_catalog true sample_types [VStr (js "A"); VStr (js "B")]);
    [..|compute_done|compute_done].
Defined.

(** The markup of the first select for the catalog A, B. *)
Example catalog_markup_sample :
  el_content <$> doc (show_catalog sample_types [js "A"; js "B"] catalog_page) !! sel_typeA
  = Some (Markup (html_promptA
                  ++ js "<option value=\x22A\x22>A</option><option value=\x22B\x22>B</option>")).
Proof. vm_compute. reflexivity. Qed.

Lemma loadTypes_resume_unavailable_witness :
  loadTypes_resume (Replied true (Some (VArr []))) catalog_page
  = (Ok (), show_unavailable catalog_page)
  ∧ html_unavailable ≠ html_loading
  ∧ st_types (show_unavailable catalog_page) = st_types catalog_page.
Proof. by apply loadTypes_resume_unavailable; [|compute_done..]. Defined.

Lemma loadTypes_resume_unreachable_witness :
  loadTypes_resume Rejected catalog_page
  = (Ok (), update_el sel_note (with_text msg_api_unreachable) catalog_page).
Proof. by apply (loadTypes_resume_unreachable Rejected NetworkError). Defined.

Lemma catalog_select_witness :
  let names := [js "A"; js "B C"] in
  select_options (catalog_markup html_promptA names) = catalog_options text_promptA names
  ∧ select_options (catalog_markup html_promptB names) = catalog_options text_promptB names
  ∧ ∀ text, select_value (catalog_options text names) = []
            ∧ choosable (catalog_options text names) = names.
Proof. apply catalog_select. repeat constructor. Defined.

Lemma loadTypes_resume_refines_witness :
  ∃ w', loadTypes_resume (Replied true (Some sample_types)) catalog_page = (Ok (), w')
        ∧ resumed (Replied true (Some sample_types)) catalog_page w'.
Proof. apply loadTypes_resume_refines; compute_done. Defined.

(** The selects after the placeholder was copied: the second holds the
    serialisation of the first, which parses to the same option. *)
Example placeholder_copied :
  let w := show_loading catalog_page in
  el_content <$> doc w !! sel_typeA = Some (Markup html_loading)
  ∧ el_content <$> doc w !! sel_typeB
    = Some (Markup (js "<option value=\x22\x22 disabled=\x22\x22 selected=\x22\x22>読み込み中...</option>"))
  ∧ select_options html_loading = select_options html_loading_read.
Proof. by_compute. Qed.

(** An error status with an array body is taken as the catalog. *)
Example error_status_accepted :
  loadTypes_resume (Replied false (Some sample_types)) catalog_page
  = (Ok (), show_catalog sample_types [js "A"; js "B"] catalog_page).
Proof. vm_compute. reflexivity. Qed.

(** A type name is copied into the markup as it is: a name with a quote
    and an angle bracket ends the attribute and the tag it was meant to
    be the value of. *)
Example option_markup_unescaped :
  option_markup (js "x\x22><b>") = js "<option value=\x22x\x22><b>\x22>x\x22><b></option>".
Proof. vm_compute. reflexivity. Qed.

(** Numbers in the catalog are shown by their decimal string; an object
    without a string stops the function half way. *)
Example catalog_of_numbers :
  type_names [VNum (of_Z 1); VStr (js "A")] = Ok [js "1"; js "A"].
Proof. vm_compute. reflexivity. Qed.

End examples.
