(* ===== verification/Score.v ===== *)
(** * Score: the scoring request ([runScore], script.js lines 119-136)

    [runScore] is the click handler of the run button.  Up to its first
    [await] ([runScore_start]) it reads the two selections, checks the
    configuration and that both are made, writes the progress note and
    issues the request.  Its continuation ([runScore_resume]) runs when
    the response arrives: an error status shows the detail of the
    response, a success clears the note and renders the payload, and any
    exception on the way, a failure of the rendering included, is
    reported as a communication error.

    The theorems give the request issued and the guards that prevent it,
    the page after each kind of response, show that the success path is
    the presentation of the display model of [Render], that the
    continuation never throws, and what the handler leaves untouched. *)

From S2P Require Import Prelude Effects JsString JsNumber JsValue SplitBody Dom Api Render Catalog.
From stdpp Require Import gmap strings.

(** ** Constants of the script *)

(** Line 121. *)
Definition msg_api_unset_score : jsstring :=
  Eval vm_compute in
    js "APIのURLが設定されていません。/web/config.js を確認してください。".
(** Line 122. *)
Definition msg_select_both : jsstring :=
  Eval vm_compute in js "タイプA/Bを選択してください。".
(** Line 123. *)
Definition msg_scoring : jsstring := Eval vm_compute in js "診断中…".
(** Line 131. *)
Definition msg_error_prefix : jsstring := Eval vm_compute in js "エラー: ".
Definition str_unknown : jsstring := Eval vm_compute in js "unknown".
Definition k_detail : jsstring := Eval vm_compute in js "detail".
(** Line 134. *)
Definition msg_comm_error : jsstring :=
  Eval vm_compute in js "通信エラーです。Renderの稼働やCORSを確認してください。".

(** ** The function *)

(** Lines 120-129, up to the first [await]: the request issued, if any. *)
Definition runScore_start (api : jsstring) : prog world (option request) :=
  a ← get_value sel_typeA;
  b ← get_value sel_typeB;
  if is_nil api then setNote (VStr msg_api_unset_score);; mret None
  else if is_nil a || is_nil b then setNote (VStr msg_select_both);; mret None
  else
    setNote (VStr msg_scoring);;
    mret (Some (PostScore (score_url api) (score_body a b))).

(** Line 131: the note for an error status. *)
Definition error_note (payload : value) : outcome jsstring :=
  detail ← get_prop payload k_detail;
  msg ← to_string (js_or detail (VStr str_unknown));
  Ok (msg_error_prefix ++ msg).

(** Lines 125-132: the [try] block, from the response on. *)
Definition runScore_body (r : response) : prog world unit :=
  '(ok, payload) ← lift (await_json r);
  if negb ok then
    note ← lift (error_note payload);
    setNote (VStr note)
  else
    setNote (VStr []);;
    renderResult payload.

(** Lines 124-135: the [try] block and its [catch] clause. *)
Definition runScore_resume (r : response) : prog world unit :=
  try_catch (runScore_body r) (λ _, setNote (VStr msg_comm_error)).

(** ** What the page shows *)

Definition show_note (msg : jsstring) (w : world) : world :=
  update_el sel_note (with_text msg) w.

(** [selected a b w]: the two selects exist and hold [a] and [b]. *)
Definition selected (a b : jsstring) (w : world) : Prop :=
  el_value <$> doc w !! sel_typeA = Some a ∧ el_value <$> doc w !! sel_typeB = Some b.

(** A page with the result view, the note and the two selects, on which
    A and B are selected. *)
Definition score_page : world :=
  update_el sel_typeB (with_value (js "B"))
    (update_el sel_typeA (with_value (js "A"))
       (world0 (sel_typeA :: sel_typeB :: sel_note :: render_selectors))).

(** The selectors [runScore] writes through. *)
Definition score_selectors : list jsstring := sel_note :: render_selectors.

(** ** The request *)

Section score_start.
Implicit Types (w : world) (api a b : jsstring).

Lemma get_value_ok sel a w :
  el_value <$> doc w !! sel = Some a → get_value sel w = (Ok a, w).
Proof.
  intros H. rewrite get_value_run. destruct (doc w !! sel); simpl in H; by simplify_eq.
Qed.

Lemma runScore_start_run api a b w :
  selected a b w →
  runScore_start api w
  = if is_nil api then (Ok None, show_note msg_api_unset_score w)
    else if is_nil a || is_nil b then (Ok None, show_note msg_select_both w)
    else (Ok (Some (PostScore (score_url api) (score_body a b))), show_note msg_scoring w).
Proof.
  intros [Ha Hb]. unfold runScore_start.
  rewrite prog_bind_run, (get_value_ok _ a) by done.
  rewrite prog_bind_run, (get_value_ok _ b) by done.
  repeat case_test; by rewrite prog_bind_run, setNote_run.
Qed.

(** A request is issued exactly when the service is configured and both
    selections are made; it is a POST to [score] under the base URL whose
    body names the two selections, and the note shows that scoring is in
    progress. *)
Theorem runScore_start_request api a b w q w' :
  selected a b w →
  runScore_start api w = (Ok (Some q), w') ↔
  api ≠ [] ∧ a ≠ [] ∧ b ≠ []
  ∧ q = PostScore (score_url api) (score_body a b) ∧ w' = show_note msg_scoring w.
Proof.
  intros Hs. rewrite (runScore_start_run api a b) by done.
  destruct api, a, b; simpl; split; try done; try by intros (? & ? & ? & _).
  - by intros [= <- <-].
  - by intros (_ & _ & _ & -> & ->).
Qed.

(** Without a configured service, or with a selection missing, no
    request is issued and the note says which of the two it is. *)
Theorem runScore_start_guard api a b w :
  selected a b w → api = [] ∨ a = [] ∨ b = [] →
  runScore_start api w
  = (Ok None, show_note (if is_nil api then msg_api_unset_score else msg_select_both) w).
Proof.
  intros Hs H. rewrite (runScore_start_run api a b) by done.
  destruct api, a, b; simpl; try done; by destruct H as [|[|]].
Qed.

(** When one of the selects is missing the handler throws before it
    writes anything. *)
Lemma runScore_start_missing api w :
  doc w !! sel_typeA = None ∨ doc w !! sel_typeB = None →
  runScore_start api w = (Throw TypeError, w).
Proof.
  intros H. unfold runScore_start. rewrite prog_bind_run, get_value_run.
  destruct (doc w !! sel_typeA) as [ea|] eqn:EA; [|done].
  rewrite prog_bind_run, get_value_run.
  destruct H as [H| ->]; done.
Qed.

End score_start.

(** ** The page after each kind of response *)

Section score_resume.
Implicit Types (w : world) (r : response) (payload : value) (dm : display_model).

Lemma has_elements_show_note sels msg w :
  has_elements sels (show_note msg w) ↔ has_elements sels w.
Proof. apply has_elements_update_el. Qed.

(** The note for an error status: the detail of the response when it is
    a non-empty string, "unknown" when the response has none. *)
Lemma error_note_detail payload d :
  opt_get payload k_detail = VStr d → is_nullish payload = false →
  error_note payload = Ok (msg_error_prefix ++ if is_nil d then str_unknown else d).
Proof.
  intros Hd Hn. unfold error_note.
  rewrite get_prop_not_nullish by done. simpl. rewrite Hd.
  by destruct d.
Qed.

Lemma error_note_no_detail payload :
  opt_get payload k_detail = VUndef → is_nullish payload = false →
  error_note payload = Ok (msg_error_prefix ++ str_unknown).
Proof.
  intros Hd Hn. unfold error_note.
  rewrite get_prop_not_nullish by done. simpl. by rewrite Hd.
Qed.

(** An error response whose body is [null] has no [detail] to read. *)
Lemma error_note_nullish payload :
  is_nullish payload = true → error_note payload = Throw TypeError.
Proof. by destruct payload. Qed.

Lemma runScore_body_ok payload w :
  runScore_body (Replied true (Some payload)) w
  = renderResult payload (show_note [] w).
Proof.
  unfold runScore_body. rewrite prog_bind_run, lift_run. simpl.
  by rewrite prog_bind_run, setNote_run.
Qed.

Lemma runScore_body_error payload w :
  runScore_body (Replied false (Some payload)) w
  = match error_note payload with
    | Ok note => (Ok (), show_note note w)
    | Throw e => (Throw e, w)
    end.
Proof.
  unfold runScore_body. rewrite prog_bind_run, lift_run. simpl.
  rewrite prog_bind_run, lift_run. destruct (error_note payload); [|done].
  apply setNote_run.
Qed.

Lemma runScore_body_rejected r e w :
  await_json r = Throw e → runScore_body r w = (Throw e, w).
Proof. intros H. unfold runScore_body. by rewrite prog_bind_run, lift_run, H. Qed.

(** A success response is rendered on the page with the note cleared:
    when [renderResult] completes, so does the continuation, on the
    page [renderResult] left. *)
Lemma runScore_resume_render payload w w' :
  renderResult payload (show_note [] w) = (Ok (), w') →
  runScore_resume (Replied true (Some payload)) w = (Ok (), w').
Proof.
  intros H. unfold runScore_resume. erewrite try_catch_ok; [done|].
  by rewrite runScore_body_ok.
Qed.

(** C5. Refinement on the success path: for a success response whose payload
    has a display model, on a page that has the elements of the result
    view, the continuation clears the note and leaves the page as the
    presentation of that display model. *)
Theorem runScore_resume_ok payload dm w :
  has_elements required_selectors w → interpret payload = Ok dm →
  runScore_resume (Replied true (Some payload)) w
  = (Ok (), present dm (show_note [] w)).
Proof.
  intros He Hi. apply runScore_resume_render, renderResult_refines; [|done].
  by apply has_elements_show_note.
Qed.

(** An error status shows the note computed from the body and changes
    nothing else: the previous result stays on the page. *)
Theorem runScore_resume_error payload note w :
  error_note payload = Ok note →
  runScore_resume (Replied false (Some payload)) w = (Ok (), show_note note w).
Proof.
  intros Hn. unfold runScore_resume.
  erewrite try_catch_ok; [done|]. by rewrite runScore_body_error, Hn.
Qed.

(** A request that fails, or a body that is not JSON, is reported as a
    communication error and changes nothing but the note. *)
Theorem runScore_resume_rejected r e w :
  await_json r = Throw e →
  runScore_resume r w = (Ok (), show_note msg_comm_error w).
Proof.
  intros H. unfold runScore_resume.
  erewrite try_catch_throw by by eapply runScore_body_rejected.
  apply setNote_run.
Qed.

(** C39. A success response that cannot be rendered is reported as a
    communication error too, over whatever the rendering had already
    written when it threw. *)
Theorem runScore_resume_render_failure payload e w w' :
  renderResult payload (show_note [] w) = (Throw e, w') →
  runScore_resume (Replied true (Some payload)) w
  = (Ok (), show_note msg_comm_error w').
Proof.
  intros H. unfold runScore_resume.
  erewrite try_catch_throw by (rewrite runScore_body_ok; exact H).
  apply setNote_run.
Qed.

(** C35. The continuation never throws. *)
Theorem runScore_resume_total r w : (runScore_resume r w).1 = Ok ().
Proof.
  unfold runScore_resume, try_catch.
  destruct (runScore_body r w) as [[[]|e] w'] eqn:E; [done|].
  by rewrite setNote_run.
Qed.

End score_resume.

(** ** Frame *)

Section score_frames.
Implicit Types (w : world) (r : response) (api : jsstring).

Lemma score_selectors_render : render_selectors ⊆ score_selectors.
Proof. intros sel H. by apply elem_of_cons; right. Qed.

Lemma preserves_runScore_resume keep `{!Kept keep} sels r :
  draws keep → score_selectors ⊆ sels →
  preserves (frame_with keep sels) (runScore_resume r).
Proof.
  intros Hk Hs.
  assert (sel_note ∈ sels) by (apply Hs; compute_done).
  assert (render_selectors ⊆ sels) as Hr by (by etransitivity; [apply score_selectors_render|]).
  pose proof (λ payload, preserves_renderResult keep _ payload Hk Hr).
  apply preserves_try_catch; [apply _ | | eauto with js].
  unfold runScore_body.
  apply preserves_bind; [apply _ | eauto with js|]. intros [[] payload]; simpl;
    prog_steps (@preserves_bind world (frame_with keep sels) _).
Qed.

(** Frame: the continuation changes no element other than the note and
    the nine of the result view, adds and removes no element, and leaves
    [state.types] alone. *)
Theorem runScore_resume_frame r :
  preserves (frame score_selectors) (runScore_resume r).
Proof. apply (preserves_runScore_resume keep_types); [apply draws_keep_types | done]. Qed.

Lemma runScore_start_frame keep `{!Kept keep} api :
  preserves (frame_with keep [sel_note]) (runScore_start api).
Proof.
  unfold runScore_start.
  apply preserves_bind; [apply _ | auto with js|]. intros a.
  apply preserves_bind; [apply _ | auto with js|]. intros b.
  repeat case_test; prog_steps (@preserves_bind world (frame_with keep [sel_note]) _).
Qed.

Lemma runScore_start_type_errors api :
  throws_only (λ e, e = TypeError) (runScore_start api).
Proof.
  unfold runScore_start.
  apply throws_only_bind; [auto with js|]. intros a.
  apply throws_only_bind; [auto with js|]. intros b.
  repeat case_test; prog_steps (@throws_only_bind world (λ e, e = TypeError)).
Qed.

End score_frames.

#[export] Hint Resolve runScore_start_frame runScore_start_type_errors : js.

(** ** The progress note

    [runScore] writes "scoring in progress" to the note when it issues
    the request, and its continuation replaces it on every path. *)

Section score_note.
Implicit Types (w : world) (r : response) (api : jsstring).
Notation settled := (λ w : world, ¬ note_is msg_scoring w).

Lemma error_note_not_scoring payload note :
  error_note payload = Ok note → note ≠ msg_scoring.
Proof.
  unfold error_note. intros (detail & _ & (msg & _ & [= <-])%outcome_bind_Ok)%outcome_bind_Ok.
  done.
Qed.

Lemma note_is_show_note msg msg' w : msg ≠ msg' → ¬ note_is msg' (show_note msg w).
Proof.
  intros Hm. unfold note_is, show_note. rewrite update_el_lookup.
  destruct (doc w !! sel_note); simpl; congruence.
Qed.

Lemma runScore_body_settles r : returns (λ _, True) settled (runScore_body r).
Proof.
  unfold runScore_body. eapply returns_bind; [apply returns_lift|]. intros [[] payload]; simpl.
  - apply (returns_bind _ settled); [by apply returns_ends_in, ends_in_setNote|]. intros [].
    apply (returns_note_frame keep_types render_selectors); [|compute_done].
    apply (preserves_renderResult keep_types); [apply draws_keep_types | done].
  - intros w [] w' _. rewrite prog_bind_run, lift_run.
    destruct (error_note payload) as [note|] eqn:E; [|done]. intros H.
    pose proof (ends_in_setNote msg_scoring note (error_note_not_scoring _ _ E) w) as Hs.
    by rewrite H in Hs.
Qed.

(** Whatever the response, the note does not read "in progress" after
    the continuation. *)
Lemma runScore_resume_settles r : ends_in settled (runScore_resume r).
Proof.
  apply ends_in_try_catch; [apply runScore_body_settles|].
  intros e. by apply ends_in_setNote.
Qed.

(** Before the request: the note reads "in progress" only if the
    request is issued, or if it read so before and the function threw. *)
Lemma runScore_start_note api w :
  (∃ q, (runScore_start api w).1 = Ok (Some q))
  ∨ (note_is msg_scoring (runScore_start api w).2 → note_is msg_scoring w).
Proof.
  destruct (doc w !! sel_typeA) as [ea|] eqn:EA;
    [|rewrite runScore_start_missing by auto; by right].
  destruct (doc w !! sel_typeB) as [eb|] eqn:EB;
    [|rewrite runScore_start_missing by auto; by right].
  rewrite (runScore_start_run api (el_value ea) (el_value eb))
    by (unfold selected; by rewrite EA, EB).
  repeat case_test; [right|right|left; by eexists]; simpl; intros H;
    by apply note_is_show_note in H.
Qed.

End score_note.

(** ** Concrete runs *)

Section examples.

Lemma runScore_start_request_witness :
  runScore_start (js "https://api.example") score_page
  = (Ok (Some (PostScore (js "https://api.example/score")
                 (js "{\x22typeA\x22:\x22A\x22,\x22typeB\x22:\x22B\x22}"))),
     show_note msg_scoring score_page).
Proof.
  assert (selected (js "A") (js "B") score_page) as Hs by (split; by_compute).
  apply (runScore_start_request _ _ _ _ _ _ Hs). by split_and!.
Defined.

Lemma runScore_start_guard_witness :
  runScore_start [] score_page = (Ok None, show_note msg_api_unset_score score_page).
Proof.
  apply (runScore_start_guard [] (js "A") (js "B")); [split; by_compute | by left].
Defined.

(** With one selection missing the note asks for both. *)
Example runScore_start_unselected :
  runScore_start (js "https://api.example")
    (update_el sel_typeB (with_value []) score_page)
  = (Ok None, show_note msg_select_both (update_el sel_typeB (with_value []) score_page)).
Proof. by_compute. Qed.

Lemma runScore_resume_ok_witness :
  runScore_resume (Replied true (Some sample_payload)) score_page
  = (Ok (), present sample_display (show_note [] score_page)).
Proof. apply runScore_resume_ok; [compute_done | by_compute]. Defined.

Lemma runScore_resume_error_witness :
  runScore_resume (Replied false (Some (field k_detail (VStr (js "unknown type"))))) score_page
  = (Ok (), show_note (js "エラー: unknown type") score_page).
Proof. by apply runScore_resume_error. Defined.

(** The notes for an error status, by the body of the response: a
    detail, no detail, an empty detail, a detail that is not a string, a
    body of [null]. *)
Example error_note_table :
  error_note (field k_detail (VStr (js "bad"))) = Ok (js "エラー: bad")
  ∧ error_note (VObj []) = Ok (js "エラー: unknown")
  ∧ error_note (field k_detail (VStr [])) = Ok (js "エラー: unknown")
  ∧ error_note (field k_detail (VArr [VStr (js "a"); VStr (js "b")])) = Ok (js "エラー: a,b")
  ∧ error_note (field k_detail (VObj [])) = Ok (js "エラー: [object Object]")
  ∧ error_note VNull = Throw TypeError.
Proof. by_compute. Qed.

Lemma runScore_resume_rejected_witness :
  runScore_resume (Replied true None) score_page
  = (Ok (), show_note msg_comm_error score_page).
Proof. by apply (runScore_resume_rejected _ SyntaxError). Defined.

Lemma runScore_resume_render_failure_witness :
  runScore_resume (Replied true (Some VNull)) score_page
  = (Ok (), show_note msg_comm_error
              (exec (renderResult VNull) (show_note [] score_page))).
Proof. apply (runScore_resume_render_failure VNull TypeError). by_compute. Defined.

(** An error status whose body is [null] has no detail to read: the note
    reports a communication error, not the error of the service. *)
Example error_status_null_body :
  runScore_resume (Replied false (Some VNull)) score_page
  = (Ok (), show_note msg_comm_error score_page).
Proof. by_compute. Qed.

End examples.
