(* ===== verification/App.v ===== *)
(** * App: the page as an event-driven machine ([init] and the listener
    registrations, script.js lines 138-145)

    The script runs in a browser: after it is loaded, nothing happens
    but in response to an event.  This file models [init], the
    registration of the listeners, and the event loop: the state of the
    application is the page together with the requests in flight, and an
    event (the document is ready, the user picks a type, the user clicks
    the run button, a response arrives) fires the handlers registered for
    it.  The handlers are those of [Catalog] and [Score]; an asynchronous
    handler runs to its request when its event fires and resumes when the
    response event of that request fires, in whatever order the responses
    arrive.

    The user picks among the options that the markup of a select parses
    to ([can_choose]); the value of a select is otherwise the one the
    assignment of its markup gave it.

    The theorems are invariants of the reachable states, by induction on
    the steps: without a configured service nothing is ever requested,
    every request is well formed and names two values the selects could
    take, the catalog is requested at most once, a click issues at most
    one request, and no element appears or disappears.  A second
    induction ([shows_catalog]) ties the selects to the catalog: when
    its names are safe, a scoring request names two types of the
    catalog.  A third ([awaited]) follows the progress note: it is gone
    once every scoring request is answered, and answering every request
    in flight gets there.  A fourth shows that the chart, once there
    is one, is the radar chart of [ensureRadar].  Concrete runs show
    what the machine does where the specification leaves the behaviour
    open: overlapping requests, responses out of order, and a catalog
    name that carries markup. *)

From S2P Require Import Prelude Effects JsString JsNumber JsValue Tokenizer Markup SplitBody Dom Api.
From S2P Require Import Render.
From S2P Require Import Catalog Score.
From stdpp Require Import gmap strings.

(** ** Handlers and their registration *)

Definition sel_run : jsstring := Eval vm_compute in js "#run".

Section handlers.
Context {browser : Browser}.

(** Lines 138-142.  [loadTypes()] is called and the promise it returns
    is dropped: an exception in its synchronous part rejects that promise
    and does not reach [init]. *)
Definition init (api : jsstring) : prog world (option request) :=
  if is_nil api then setNote (VStr msg_api_unset);; mret None
  else
    add_click_listener sel_run HRunScore;;
    try_catch (loadTypes_start api) (λ _, mret None).

(** Lines 144-145: the listeners of [DOMContentLoaded] once the script
    has run.  The same function is registered twice. *)
Definition content_loaded_listeners : list handler :=
  add_listener HInit (add_listener HInit []).

(** The function a listener names, up to its first [await]. *)
Definition handle (api : jsstring) (h : handler) : prog world (option request) :=
  match h with
  | HInit => init api
  | HRunScore => runScore_start api
  end.

(** The continuation that awaits the response to a request. *)
Definition resume (q : request) (r : response) : prog world unit :=
  match q with
  | GetTypes _ => loadTypes_resume r
  | PostScore _ _ => runScore_resume r
  end.

(** Dispatch of an event: the listeners run in registration order, each
    on the page the previous one left; a listener that throws does not
    stop the ones after it.  The result is the page and the requests
    issued, in order. *)
Fixpoint dispatch (api : jsstring) (hs : list handler) (w : world)
    : world * list request :=
  match hs with
  | [] => (w, [])
  | h :: hs' =>
    let '(o, w1) := handle api h w in
    let '(w2, qs) := dispatch api hs' w1 in
    (w2, match o with Ok (Some q) => q :: qs | _ => qs end)
  end.

End handlers.

(** ** The machine *)

Record app := App {
  page : world;
  loaded : bool;               (* DOMContentLoaded has been dispatched *)
  inflight : list request;     (* requests awaiting a response, oldest first *)
  sent : list request          (* every request issued so far, oldest first *)
}.

Inductive event :=
  | ContentLoaded                              (* the document is ready *)
  | Choose (sel : jsstring) (name : jsstring)  (* the user picks an option *)
  | Click                                      (* the user clicks the run button *)
  | Respond (i : nat) (r : response).          (* the [i]-th request in flight completes *)

(** An event whose response, if it is one, holds strings of 16-bit code
    units only. *)
Definition wf_event (e : event) : Prop :=
  match e with
  | Respond _ r => wf_response r
  | _ => True
  end.

(** The two selects. *)
Definition selects : list jsstring := [sel_typeA; sel_typeB].

Section choice.
Context {browser : Browser}.

(** The options a select of the page offers. *)
Definition offered (sel : jsstring) (w : world) : list option_el :=
  from_option options_of_el [] (doc w !! sel).

(** The user can pick, in either select, one of its options that is
    not disabled. *)
Definition can_choose (sel name : jsstring) (w : world) : Prop :=
  sel ∈ selects ∧ name ∈ choosable (offered sel w).

#[export] Instance can_choose_dec sel name w : Decision (can_choose sel name w).
Proof. unfold can_choose. apply _. Defined.

End choice.

Definition after_dispatch (s : app) (r : world * list request) : app :=
  App r.1 (loaded s) (inflight s ++ r.2) (sent s ++ r.2).

Definition set_loaded (s : app) : app := App (page s) true (inflight s) (sent s).

Definition set_page (w : world) (s : app) : app :=
  App w (loaded s) (inflight s) (sent s).

Section machine.
Context {browser : Browser} (api : jsstring) (w0 : world).

Definition initial : app := App w0 false [] [].

(** One step of the machine. *)
Inductive step : app → event → app → Prop :=
  | step_content_loaded s :
      loaded s = false →
      step s ContentLoaded
        (after_dispatch (set_loaded s) (dispatch api content_loaded_listeners (page s)))
  | step_choose s sel name :
      can_choose sel name (page s) →
      step s (Choose sel name) (set_page (update_el sel (with_value name) (page s)) s)
  | step_click s el :
      doc (page s) !! sel_run = Some el →
      step s Click (after_dispatch s (dispatch api (el_click el) (page s)))
  | step_respond s i q r :
      inflight s !! i = Some q →
      step s (Respond i r)
        (App (exec (resume q r) (page s)) (loaded s) (delete i (inflight s)) (sent s)).

Inductive reachable : app → Prop :=
  | reachable_initial : reachable initial
  | reachable_step s e s' : reachable s → step s e s' → reachable s'.

(** The step as a function: [None] when the event cannot happen. *)
Definition fire (e : event) (s : app) : option app :=
  match e with
  | ContentLoaded =>
    if loaded s then None
    else Some (after_dispatch (set_loaded s)
                 (dispatch api content_loaded_listeners (page s)))
  | Choose sel name =>
    if decide (can_choose sel name (page s))
    then Some (set_page (update_el sel (with_value name) (page s)) s)
    else None
  | Click =>
    el ← doc (page s) !! sel_run;
    Some (after_dispatch s (dispatch api (el_click el) (page s)))
  | Respond i r =>
    q ← inflight s !! i;
    Some (App (exec (resume q r) (page s)) (loaded s) (delete i (inflight s)) (sent s))
  end.

(** A sequence of events from a state; an event that cannot happen is
    skipped. *)
Definition run (es : list event) (s : app) : app :=
  foldl (λ s e, default s (fire e s)) s es.

End machine.

Section pages.
Context {browser : Browser}.

(** The page as its markup declares it: no catalog, no chart, no
    listener, no option and nothing selected. *)
Definition pristine (w : world) : Prop :=
  st_types w = VArr [] ∧ st_chart w = None
  ∧ map_Forall (λ _ el, el_click el = [] ∧ el_value el = [] ∧ options_of_el el = [])
      (doc w).

End pages.

(** The selectors the script knows. *)
Definition app_selectors : list jsstring :=
  sel_run :: sel_typeA :: sel_typeB :: score_selectors.

Definition is_post (q : request) : bool :=
  match q with PostScore _ _ => true | GetTypes _ => false end.

(** ** A sample session *)

Definition demo_api : jsstring := Eval vm_compute in js "https://api.example".
Definition demo_page : world := world0 app_selectors.
Definition demo_catalog : response :=
  Replied true (Some (VArr [VStr (js "A"); VStr (js "B")])).

(** The document is ready, the catalog arrives, the user picks A and B
    and clicks. *)
Definition demo_events : list event :=
  [ContentLoaded; Respond 0 demo_catalog;
   Choose sel_typeA (js "A"); Choose sel_typeB (js "B"); Click].

Definition demo_asked : app :=
  run (browser := reference_browser) demo_api demo_events (initial demo_page).

(** Two catalogs whose single name is not safe: the first closes the
    attribute and the option and opens an option of its own, the second
    closes the attribute and adds the attribute [selected]. *)
Definition injected_option : jsstring :=
  Eval vm_compute in js "A\x22>B</option><option value=\x22C".
Definition injected_selected : jsstring :=
  Eval vm_compute in js "x\x22 selected=\x22".

Definition catalog_response (names : list jsstring) : response :=
  Replied true (Some (VArr (VStr <$> names))).

(** Another response, whose title reads "B / -". *)
Definition other_payload : value := field k_macro (field k_top (VStr (js "B"))).

(** What an element shows. *)
Definition shown (sel : jsstring) (s : app) : option content :=
  el_content <$> doc (page s) !! sel.

(** ** The invariant *)

Section invariant.
Context {browser : Browser}.

(** The values a select with the options [opts] can have: none, the one
    its options select, or one the user picked. *)
Definition settable (opts : list option_el) : list jsstring :=
  [] :: select_value opts :: choosable opts.

(** A select has a value its options allow. *)
Definition valued (sel : jsstring) (el : element) : Prop :=
  sel ∈ selects → el_value el ∈ settable (options_of_el el).

(** A select has no value and offers nothing to pick. *)
Definition quiet (sel : jsstring) (el : element) : Prop :=
  sel ∈ selects →
  el_value el = [] ∧ select_value (options_of_el el) = []
  ∧ choosable (options_of_el el) = [].

(** The prompt of each select. *)
Definition prompt_of (sel : jsstring) : jsstring :=
  if decide (sel = sel_typeA) then html_promptA else html_promptB.
Definition prompt_text (sel : jsstring) : jsstring :=
  if decide (sel = sel_typeA) then text_promptA else text_promptB.

(** A select shows a placeholder, or its prompt and the catalog
    [names]. *)
Definition shows_catalog (names : list jsstring) (sel : jsstring) (el : element) : Prop :=
  sel ∈ selects →
  quiet sel el ∨ el_content el = Markup (catalog_markup (prompt_of sel) names).

(** An element has no click listener but, possibly, [runScore] once. *)
Definition listens_once (sel : jsstring) (el : element) : Prop :=
  el_click el = [] ∨ el_click el = [HRunScore].

(** A request of the script: the catalog from [types] under the base
    URL, or a score from [score] under the base URL for two non-empty
    names, the first among [namesA] and the second among [namesB]. *)
Definition wellformed (api : jsstring) (namesA namesB : list jsstring) (q : request)
    : Prop :=
  match q with
  | GetTypes url => url = types_url api
  | PostScore url body =>
    url = score_url api
    ∧ ∃ a b, a ∈ namesA ∧ b ∈ namesB ∧ a ≠ [] ∧ b ≠ [] ∧ body = score_body a b
  end.

(** A request for values the two selects of the page can have. *)
Definition wellformed_on (api : jsstring) (w : world) (q : request) : Prop :=
  wellformed api (settable (offered sel_typeA w)) (settable (offered sel_typeB w)) q.

Definition loading (s : app) : Prop := ∃ url, GetTypes url ∈ inflight s.

(** A scoring request awaits its response. *)
Definition awaited (s : app) : Prop := ∃ q, q ∈ inflight s ∧ is_post q = true.

(** The responses [rs] delivered one after the other, each to the
    oldest request in flight. *)
Definition deliver (rs : list response) : list event := Respond 0 <$> rs.

Record invariant (api : jsstring) (w0 : world) (s : app) : Prop := Invariant {
  inv_dom : dom (doc (page s)) = dom (doc w0);
  inv_pre : loaded s = false → s = initial w0;
  inv_listeners : ∀ el, doc (page s) !! sel_run = Some el → listens_once sel_run el;
  inv_config : sent s ≠ [] → api ≠ [];
  inv_sent : Forall (wellformed_on api (page s)) (sent s);
  inv_sent_once : Forall (λ q, is_post q = true) (tail (sent s));
  inv_inflight_once : Forall (λ q, is_post q = true) (tail (inflight s));
  inv_inflight : inflight s `sublist_of` sent s;
  inv_values : all_elements valued (page s);
  inv_loading :
    loading s → all_elements quiet (page s) ∧ Forall (λ q, is_post q = false) (sent s)
}.

End invariant.

(** ** Facts on the handlers *)

#[export] Instance valued_closed {browser : Browser} : WriteClosed valued.
Proof.
  split; intros sel ? el H Hs; unfold valued, settable in *; simpl; [| |by apply H..].
  - apply elem_of_cons. by left.
  - apply elem_of_cons. right. apply elem_of_cons. by left.
Qed.

#[export] Instance listens_once_closed {browser : Browser} : WriteClosed listens_once.
Proof. by split. Qed.

Section handler_facts.
Context {browser : Browser} (api : jsstring).
Implicit Types (w : world) (q : request) (keep : relation world).

Lemma content_loaded_listeners_once : content_loaded_listeners = [HInit].
Proof. reflexivity. Qed.

Lemma frame_lookup keep sels w w' sel :
  frame_with keep sels w w' → sel ∉ sels → doc w' !! sel = doc w !! sel.
Proof. intros (H & _) Hs. by apply H. Qed.

Lemma frame_dom keep sels w w' : frame_with keep sels w w' → dom (doc w') = dom (doc w).
Proof. by intros (_ & H & _). Qed.

Lemma frame_names_of sels w w' : frame sels w w' → names_of w' = names_of w.
Proof. intros (_ & _ & H). unfold names_of. by rewrite H. Qed.

(** A property that speaks of the selects only holds of a page whose
    selects are those of a page where it holds. *)
Lemma all_elements_selects (Q : jsstring → element → Prop) w w' :
  (∀ sel el, sel ∉ selects → Q sel el) →
  (∀ sel, sel ∈ selects → doc w' !! sel = doc w !! sel) →
  all_elements Q w → all_elements Q w'.
Proof.
  intros Hq Hs Hw sel el Hel. destruct (decide (sel ∈ selects)) as [Hin|Hn]; [|by apply Hq].
  rewrite Hs in Hel by done. by eapply Hw.
Qed.

Lemma valued_elsewhere sel el : sel ∉ selects → valued sel el.
Proof. by intros Hn Hs. Qed.

Lemma quiet_elsewhere sel el : sel ∉ selects → quiet sel el.
Proof. by intros Hn Hs. Qed.

Lemma offered_lookup sel w el : doc w !! sel = Some el → offered sel w = options_of_el el.
Proof. unfold offered. by intros ->. Qed.

Lemma offered_same sel w w' : doc w' !! sel = doc w !! sel → offered sel w' = offered sel w.
Proof. unfold offered. by intros ->. Qed.

Lemma wellformed_on_same w w' q :
  (∀ sel, sel ∈ selects → doc w' !! sel = doc w !! sel) →
  wellformed_on api w q → wellformed_on api w' q.
Proof.
  intros Hs. unfold wellformed_on.
  by rewrite !(offered_same _ w w') by (apply Hs; compute_done).
Qed.

(** A select that is not on the page has no value. *)
Lemma settable_missing sel w a :
  a ∈ settable (offered sel w) → a ≠ [] → is_Some (doc w !! sel).
Proof.
  unfold offered. destruct (doc w !! sel); [by eauto|]. simpl. intros Ha Hn.
  by repeat (apply elem_of_cons in Ha as [->|Ha]); [..|apply elem_of_nil in Ha].
Qed.

(** The request for the catalog is well formed on every page. *)
Lemma wellformed_on_get w w' q :
  is_post q = false → wellformed_on api w q → wellformed_on api w' q.
Proof. by destruct q. Qed.

(** A select that shows a placeholder has no value and offers nothing. *)
Lemma quiet_placeholder sel html text el :
  select_options html = [placeholder_option text] → quiet sel (with_markup html el).
Proof. intros Ho _. unfold options_of_el. simpl. by rewrite Ho. Qed.

Lemma quiet_show_loading w : all_elements quiet (show_loading w).
Proof.
  intros sel el Hel. unfold show_loading in Hel.
  destruct (decide (sel = sel_typeB)) as [->|Hb].
  { rewrite update_el_lookup in Hel. apply fmap_Some in Hel as (el0 & _ & ->).
    eapply quiet_placeholder, select_options_loading_read. }
  rewrite update_el_lookup_ne in Hel by done.
  destruct (decide (sel = sel_typeA)) as [->|Ha].
  { rewrite update_el_lookup in Hel. apply fmap_Some in Hel as (el0 & _ & ->).
    eapply quiet_placeholder, select_options_loading. }
  apply quiet_elsewhere. intros [->|[->|[]%elem_of_nil]%elem_of_cons]%elem_of_cons; done.
Qed.

Lemma init_frame keep `{!Kept keep} :
  preserves (frame_with keep (sel_run :: catalog_selectors)) (init api).
Proof.
  pose proof (λ r : relation world, @preserves_try_catch world r).
  unfold init. destruct (is_nil api).
  - prog_steps (@preserves_bind world (frame_with keep (sel_run :: catalog_selectors)) _).
  - apply preserves_bind; [apply _ | eauto with js|]. intros [].
    apply preserves_try_catch; [apply _ | | eauto with js].
    intros w. eapply frame_weaken; [|apply loadTypes_start_frame; apply _].
    intros sel Hs. by apply elem_of_cons; right.
Qed.

Lemma init_invariant Q `{!WriteClosed Q} :
  (∀ sel el, Q sel el → Q sel (with_click (add_listener HRunScore (el_click el)) el)) →
  preserves (keeps (all_elements Q)) (init api).
Proof.
  intros Hc. unfold init. destruct (is_nil api).
  - prog_steps (@preserves_bind world (keeps (all_elements Q)) _).
  - apply preserves_bind; [apply _ | |intros []].
    { apply (invariant_add_click_listener Q). intros el. apply Hc. }
    apply preserves_try_catch; [apply _ | eauto with js|]. intros e. by intros w.
Qed.

(** [init] issues nothing but the request for the catalog, and only when
    the service is configured; both selects then show the placeholder. *)
Lemma init_request w q w' :
  init api w = (Ok (Some q), w') →
  api ≠ [] ∧ q = GetTypes (types_url api) ∧ all_elements quiet w'.
Proof.
  unfold init. destruct api as [|c api'] eqn:Ea; simpl.
  - rewrite prog_bind_run, setNote_run. by intros [= ?].
  - rewrite prog_bind_run. destruct (add_click_listener _ _ w) as [[[]|e] w1]; [|done].
    unfold try_catch.
    destruct (loadTypes_start (c :: api') w1) as [[[q'|]|e] w2] eqn:E; try done.
    intros [= -> ->]. pose proof (loadTypes_start_Some _ _ _ _ E) as ->.
    apply loadTypes_start_request in E as [? ->]. split_and!; [done..|].
    apply quiet_show_loading.
Qed.

(** [runScore] issues nothing but a scoring request for the two values
    selected, and only when both are non-empty and the service is
    configured. *)
Lemma runScore_start_Some w q w' :
  runScore_start api w = (Ok (Some q), w') →
  api ≠ [] ∧ ∃ a b, selected a b w ∧ a ≠ [] ∧ b ≠ []
                    ∧ q = PostScore (score_url api) (score_body a b).
Proof.
  destruct (doc w !! sel_typeA) as [ea|] eqn:EA;
    [|rewrite runScore_start_missing by auto; done].
  destruct (doc w !! sel_typeB) as [eb|] eqn:EB;
    [|rewrite runScore_start_missing by auto; done].
  assert (selected (el_value ea) (el_value eb) w) as Hs by (unfold selected; by rewrite EA, EB).
  rewrite (runScore_start_run _ _ _ _ Hs).
  destruct api, (el_value ea) eqn:Ha, (el_value eb) eqn:Hb; simpl; try done.
  intros [= <- _]. split; [done|]. by eexists _, _.
Qed.

(** The value read from a select is one its options allow. *)
Lemma selected_settable a b w :
  all_elements valued w → selected a b w →
  a ∈ settable (offered sel_typeA w) ∧ b ∈ settable (offered sel_typeB w).
Proof.
  intros Hv [Ha Hb].
  apply fmap_Some in Ha as (ea & Ha & ->). apply fmap_Some in Hb as (eb & Hb & ->).
  rewrite (offered_lookup _ _ _ Ha), (offered_lookup _ _ _ Hb).
  split; (eapply Hv; [done | compute_done]).
Qed.

(** On a page whose selects are quiet [runScore] issues nothing. *)
Lemma runScore_start_quiet w :
  all_elements quiet w → ∀ q, (runScore_start api w).1 ≠ Ok (Some q).
Proof.
  intros Hq q H. destruct (runScore_start api w) as [o w'] eqn:E. simpl in H. subst o.
  apply runScore_start_Some in E as (_ & a & b & [Ha _] & Hna & _).
  apply fmap_Some in Ha as (ea & Ha & ->).
  destruct Hna. eapply (Hq _ _ Ha). compute_done.
Qed.

End handler_facts.

(** ** The invariant holds in every reachable state *)

Section invariant_steps.
Context {browser : Browser} (api : jsstring) (w0 : world) (Hw0 : pristine w0).
Implicit Types (s : app) (w : world) (q : request).
Notation inv := (invariant api w0).

Lemma pristine_element sel el :
  doc w0 !! sel = Some el → el_click el = [] ∧ el_value el = [] ∧ options_of_el el = [].
Proof. destruct Hw0 as (_ & _ & H). apply H. Qed.

Lemma pristine_quiet : all_elements quiet w0.
Proof. intros sel el (_ & Hv & Ho)%pristine_element _. by rewrite Ho. Qed.

Lemma pristine_valued : all_elements valued w0.
Proof.
  intros sel el (_ & Hv & _)%pristine_element _. rewrite Hv. apply elem_of_cons. by left.
Qed.

Lemma quiet_no_choice sel name w : all_elements quiet w → ¬ can_choose sel name w.
Proof.
  intros Hq [Hs Hn]. unfold offered in Hn.
  destruct (doc w !! sel) as [el|] eqn:E; simpl in Hn; [|by apply elem_of_nil in Hn].
  destruct (Hq _ _ E Hs) as (_ & _ & Hc). rewrite Hc in Hn. by apply elem_of_nil in Hn.
Qed.

Lemma invariant_initial : inv (initial w0).
Proof.
  split; simpl; try done.
  - intros el [H _]%pristine_element. by left.
  - apply pristine_valued.
  - intros [url H%elem_of_nil]. done.
Qed.

Lemma invariant_loaded s : inv s → inflight s ≠ [] → loaded s = true.
Proof.
  intros Hi H. destruct (loaded s) eqn:E; [done|].
  by rewrite (inv_pre _ _ _ Hi E) in H.
Qed.

(** A change of the page that touches nothing but the note and the
    result view maintains the invariant. *)
Lemma invariant_frame s w' :
  inv s → loaded s = true → frame score_selectors (page s) w' → inv (set_page w' s).
Proof.
  intros Hi Hl Hf.
  assert (∀ sel, sel ∈ [sel_run; sel_typeA; sel_typeB] → doc w' !! sel = doc (page s) !! sel)
    as Hsame.
  { intros sel Hs. eapply frame_lookup; [done|].
    repeat (apply elem_of_cons in Hs as [->|Hs]); [compute_done..|by apply elem_of_nil in Hs]. }
  assert (∀ sel, sel ∈ selects → doc w' !! sel = doc (page s) !! sel) as Hsel.
  { intros sel Hs. apply Hsame. apply elem_of_cons. by right. }
  split; simpl; try apply Hi.
  - rewrite (frame_dom _ _ _ _ Hf). apply Hi.
  - congruence.
  - rewrite Hsame by compute_done. apply Hi.
  - eapply Forall_impl; [apply Hi|]. intros q. by apply wellformed_on_same.
  - eapply all_elements_selects; [apply valued_elsewhere | done | apply Hi].
  - intros [Hq Hp]%(inv_loading _ _ _ Hi). split; [|done].
    eapply all_elements_selects; [apply quiet_elsewhere | done..].
Qed.

(** Scoring requests issued from a state maintain the invariant. *)
Lemma invariant_posts s qs :
  inv s →
  Forall (λ q, is_post q = true ∧ wellformed_on api (page s) q) qs →
  (qs ≠ [] → api ≠ [] ∧ loaded s = true ∧ ¬ loading s) →
  inv (after_dispatch s (page s, qs)).
Proof.
  intros Hi Hqs Hne. apply Forall_and in Hqs as [Hp Hw].
  split; simpl; try apply Hi.
  - intros Hl. destruct qs as [|q qs]; [|by destruct Hne as (_ & ? & _); [|congruence]].
    unfold after_dispatch. simpl.
    rewrite !app_nil_r. rewrite <-(inv_pre _ _ _ Hi Hl). by destruct s.
  - intros Hs. destruct (decide (qs = [])) as [->|Hq]; [|by apply Hne].
    rewrite app_nil_r in Hs. by apply Hi.
  - apply Forall_app_2; [apply Hi | done].
  - apply Forall_tail_app; [apply Hi | done].
  - apply Forall_tail_app; [apply Hi | done].
  - apply sublist_app; [apply Hi | done].
  - intros [url [Hu|Hu]%elem_of_app].
    + assert (loading s) as Hl by by exists url.
      destruct (decide (qs = [])) as [->|Hq]; [|by destruct (Hne Hq) as (_ & _ & ?)].
      rewrite app_nil_r. by apply Hi.
    + rewrite list.Forall_forall in Hp. by apply Hp in Hu.
Qed.

(** The completion of a request maintains what the invariant says of
    the requests. *)
Lemma invariant_delete s i :
  inv s → inv (App (page s) (loaded s) (delete i (inflight s)) (sent s)).
Proof.
  intros Hi. split; simpl; try apply Hi.
  - intros Hl. rewrite (inv_pre _ _ _ Hi Hl). by destruct i.
  - apply Forall_tail_delete, Hi.
  - etransitivity; [apply sublist_delete | apply Hi].
  - intros [url Hu]. apply Hi. exists url.
    eapply elem_of_sublist; [done | apply sublist_delete].
Qed.

Lemma dispatch_nil w : dispatch api [] w = (w, []).
Proof. done. Qed.

Lemma dispatch_one h w :
  dispatch api [h] w
  = ((handle api h w).2,
     match (handle api h w).1 with Ok (Some q) => [q] | _ => [] end).
Proof. simpl. by destruct (handle api h w) as [[[?|]|] ?]. Qed.

Lemma after_dispatch_set_page s w qs :
  after_dispatch s (w, qs) = set_page w (after_dispatch s (page s, qs)).
Proof. done. Qed.

(** The requests of a click are scoring requests for values of the
    selects, and there is none while the catalog is loading. *)
Lemma click_requests s o w1 :
  inv s → runScore_start api (page s) = (o, w1) →
  let qs := match o with Ok (Some q) => [q] | _ => [] end in
  Forall (λ q, is_post q = true ∧ wellformed_on api (page s) q) qs
  ∧ (qs ≠ [] → api ≠ [] ∧ ¬ loading s).
Proof.
  intros Hi E. destruct o as [[q|]|]; simpl; try done.
  pose proof E as (Ha & a & b & Hs & Hna & Hnb & ->)%runScore_start_Some. split.
  - apply Forall_singleton. split; [done|]. split; [done|].
    destruct (selected_settable _ _ _ (inv_values _ _ _ Hi) Hs) as [? ?]. by exists a, b.
  - intros _. split; [done|]. intros [Hq _]%(inv_loading _ _ _ Hi).
    eapply (runScore_start_quiet api _ Hq). by rewrite E.
Qed.

Lemma invariant_click s el :
  inv s → doc (page s) !! sel_run = Some el →
  inv (after_dispatch s (dispatch api (el_click el) (page s))).
Proof.
  intros Hi Hel. destruct (inv_listeners _ _ _ Hi _ Hel) as [Hc|Hc]; rewrite Hc.
  { rewrite dispatch_nil. by apply invariant_posts; [|constructor|]. }
  assert (loaded s = true) as Hl.
  { destruct (loaded s) eqn:E; [done|]. rewrite (inv_pre _ _ _ Hi E) in Hel.
    apply pristine_element in Hel as [? _]. congruence. }
  rewrite dispatch_one, after_dispatch_set_page. simpl.
  pose proof (runScore_start_frame keep_types api (page s)) as Hf.
  destruct (runScore_start api (page s)) as [o w1] eqn:E. simpl in *.
  destruct (click_requests s o w1 Hi E) as [Hqs Hne].
  apply invariant_frame; [|done|].
  2: { eapply frame_weaken; [|done]. intros sel ->%list_elem_of_singleton. compute_done. }
  apply invariant_posts; [done..|]. intros H. by destruct (Hne H).
Qed.

Lemma invariant_respond_score s i url body r :
  inv s → inflight s !! i = Some (PostScore url body) →
  inv (App (exec (runScore_resume r) (page s)) (loaded s) (delete i (inflight s)) (sent s)).
Proof.
  intros Hi Hq.
  apply (invariant_frame (App (page s) (loaded s) (delete i (inflight s)) (sent s)));
    [by apply invariant_delete | | by apply (preserves_runScore_resume keep_types); [apply draws_keep_types|]].
  change (loaded s = true). apply invariant_loaded; [done|].
  by intros E; rewrite E in Hq.
Qed.

Lemma invariant_respond_types s i url r :
  inv s → inflight s !! i = Some (GetTypes url) →
  inv (App (exec (loadTypes_resume r) (page s)) (loaded s) (delete i (inflight s)) (sent s)).
Proof.
  intros Hi Hq.
  assert (i = 0%nat) as ->
    by (eapply lookup_tail_Forall; [apply (inv_inflight_once _ _ _ Hi) | done..]).
  assert (loading s) as [_ Hp]%(inv_loading _ _ _ Hi)
    by (exists url; by eapply list_elem_of_lookup_2).
  pose proof (preserves_loadTypes_resume keep_chart _ r (stores_keep_chart r)
                (reflexivity _) (page s)) as Hf.
  pose proof (invariant_loadTypes_resume valued r (page s) (inv_values _ _ _ Hi)) as Hv.
  unfold exec. set (w' := (loadTypes_resume r (page s)).2) in *.
  pose proof (invariant_delete s 0 Hi) as Hd.
  assert (loaded s = true) as Hl.
  { apply invariant_loaded; [done|]. by intros E; rewrite E in Hq. }
  split; simpl; try apply Hd.
  - rewrite (frame_dom _ _ _ _ Hf). apply Hi.
  - congruence.
  - intros el. erewrite frame_lookup by (done || compute_done). apply Hi.
  - pose proof (inv_sent _ _ _ Hi) as Hs. rewrite list.Forall_forall in Hs, Hp.
    apply list.Forall_forall. intros q Hin.
    eapply wellformed_on_get; [by apply Hp | by apply Hs].
  - done.
  - intros [url' Hin]. destruct (inflight s) as [|q0 rest] eqn:Ei; [done|]. simpl in *.
    pose proof (inv_inflight_once _ _ _ Hi) as Hp'. rewrite Ei in Hp'. simpl in Hp'.
    rewrite list.Forall_forall in Hp'. by apply Hp' in Hin.
Qed.

Lemma invariant_choose s sel name :
  inv s → can_choose sel name (page s) →
  inv (set_page (update_el sel (with_value name) (page s)) s).
Proof.
  intros Hi Hc. pose proof Hc as [Hs Hn].
  assert (sel ≠ sel_run) as Hne.
  { intros ->. revert Hs. compute_done. }
  assert (∀ sel2, offered sel2 (update_el sel (with_value name) (page s))
                  = offered sel2 (page s)) as Ho.
  { intros sel2. unfold offered. rewrite update_el_lookup_on.
    destruct (doc (page s) !! sel2) as [el|]; [|done]. simpl.
    unfold on_sel. by case_decide. }
  split; unfold set_page; cbn [page loaded inflight sent]; try apply Hi.
  - rewrite update_el_dom. apply Hi.
  - intros Hl. rewrite (inv_pre _ _ _ Hi Hl) in Hc. simpl in Hc.
    by apply quiet_no_choice in Hc; [|apply pristine_quiet].
  - rewrite update_el_lookup_ne by done. apply Hi.
  - unfold wellformed_on. rewrite !Ho. apply Hi.
  - intros sel2 el2. destruct (decide (sel = sel2)) as [<-|Hd].
    + rewrite update_el_lookup. intros (el & Hel & ->)%fmap_Some _.
      unfold valued, settable. rewrite (offered_lookup _ _ _ Hel) in Hn.
      apply elem_of_cons. right. apply elem_of_cons. by right.
    + rewrite update_el_lookup_ne by done. apply (inv_values _ _ _ Hi).
  - intros [Hq _]%(inv_loading _ _ _ Hi). by apply quiet_no_choice in Hc.
Qed.

Lemma invariant_content_loaded s :
  inv s → loaded s = false →
  inv (after_dispatch (set_loaded s) (dispatch api content_loaded_listeners (page s))).
Proof.
  intros Hi Hl. rewrite (inv_pre _ _ _ Hi Hl), content_loaded_listeners_once, dispatch_one.
  simpl.
  pose proof (init_frame api keep_types w0) as Hf.
  assert (keeps (all_elements valued) w0 (init api w0).2) as Hv.
  { apply init_invariant; [apply _|]. by intros sel el H. }
  assert (keeps (all_elements listens_once) w0 (init api w0).2) as Hc.
  { apply init_invariant; [apply _|].
    intros sel el [H|H]; unfold listens_once; simpl; rewrite H; by right. }
  destruct (init api w0) as [o w1] eqn:E. simpl in *.
  assert (∀ q, o = Ok (Some q) →
            api ≠ [] ∧ q = GetTypes (types_url api) ∧ all_elements quiet w1) as Hq.
  { intros q ->. by eapply init_request. }
  assert (all_elements listens_once w1) as Hc1.
  { apply Hc. intros sel el [H _]%pristine_element. by left. }
  unfold after_dispatch. split; simpl.
  - apply (frame_dom _ _ _ _ Hf).
  - done.
  - intros el. apply Hc1.
  - destruct o as [[q|]|]; try done. intros _. by apply (Hq q).
  - destruct o as [[q|]|]; try done. repeat constructor.
    by destruct (Hq q eq_refl) as (_ & -> & _).
  - by destruct o as [[q|]|].
  - by destruct o as [[q|]|].
  - done.
  - apply Hv, pristine_valued.
  - destruct o as [[q|]|]; try by intros [url H%elem_of_nil].
    intros _. destruct (Hq q eq_refl) as (_ & -> & Hquiet).
    split; [done | by apply Forall_singleton].
Qed.

Lemma invariant_step s e s' : inv s → step api s e s' → inv s'.
Proof.
  intros Hi Hs. destruct Hs as [s Hl|s sel name Hc|s el Hel|s i q r Hq].
  - by apply invariant_content_loaded.
  - by apply invariant_choose.
  - by apply invariant_click.
  - destruct q; [by eapply invariant_respond_types | by eapply invariant_respond_score].
Qed.

Lemma invariant_reachable s : reachable api w0 s → inv s.
Proof.
  induction 1 as [|s e s' _ IH Hs]; [apply invariant_initial|]. by eapply invariant_step.
Qed.

End invariant_steps.

(** ** The selects show the catalog the page holds *)

Section catalog_invariant.
Context {browser : Browser} (api : jsstring) (w0 : world) (Hw0 : pristine w0).
Context (Hsel : has_elements selects w0).
Implicit Types (s : app) (w : world) (q : request) (names : list jsstring).
Notation cat s := (all_elements (shows_catalog (names_of (page s))) (page s)).

Lemma shows_catalog_elsewhere names sel el : sel ∉ selects → shows_catalog names sel el.
Proof. by intros Hn Hs. Qed.

Lemma shows_catalog_quiet names w :
  all_elements quiet w → all_elements (shows_catalog names) w.
Proof. intros Hq sel el Hel _. left. by eapply Hq. Qed.

Lemma has_selects s :
  invariant api w0 s →
  is_Some (doc (page s) !! sel_typeA) ∧ is_Some (doc (page s) !! sel_typeB).
Proof.
  intros Hi. unfold has_elements, selects in Hsel.
  rewrite !Forall_cons_iff in Hsel. destruct Hsel as (HA & HB & _).
  by rewrite <-!elem_of_dom, (inv_dom _ _ _ Hi), !elem_of_dom.
Qed.

(** After [init] the selects are quiet. *)
Lemma init_quiet : all_elements quiet (init api w0).2.
Proof.
  unfold init. destruct api as [|c api'] eqn:Ea; simpl.
  { rewrite prog_bind_run, setNote_run. simpl.
    apply (all_elements_selects _ w0); [apply quiet_elsewhere| |by apply pristine_quiet].
    intros sel Hs. apply update_el_lookup_ne. intros <-. revert Hs. compute_done. }
  rewrite prog_bind_run, add_click_listener_run.
  destruct (doc w0 !! sel_run) as [e|]; [|by apply pristine_quiet].
  unfold has_elements, selects in Hsel.
  rewrite !Forall_cons_iff in Hsel. destruct Hsel as (HA & HB & _).
  unfold try_catch. rewrite loadTypes_start_run by by rewrite ?update_el_is_Some.
  apply quiet_show_loading.
Qed.

Lemma catalog_frame s w' :
  frame score_selectors (page s) w' → cat s → all_elements (shows_catalog (names_of w')) w'.
Proof.
  intros Hf Hc. rewrite (frame_names_of _ _ _ Hf).
  eapply all_elements_selects; [apply shows_catalog_elsewhere | | done].
  intros sel Hs. eapply frame_lookup; [done|].
  repeat (apply elem_of_cons in Hs as [->|Hs]); [compute_done..|by apply elem_of_nil in Hs].
Qed.

Lemma names_of_show_catalog arr types names w :
  catalog_of arr = Some types → type_names types = Ok names →
  names_of (show_catalog arr names w) = names.
Proof. intros [-> _]%catalog_of_Some Hn. unfold names_of. simpl. by rewrite Hn. Qed.

Lemma shows_catalog_show_catalog arr names w :
  all_elements (shows_catalog names) (show_catalog arr names w).
Proof.
  intros sel el Hel Hs. right. unfold show_catalog in Hel.
  rewrite update_el_lookup_ne in Hel by (intros <-; revert Hs; compute_done).
  destruct (decide (sel = sel_typeB)) as [->|Hb].
  { rewrite update_el_lookup in Hel. by apply fmap_Some in Hel as (el0 & _ & ->). }
  rewrite update_el_lookup_ne in Hel by done.
  assert (sel = sel_typeA) as ->.
  { apply elem_of_cons in Hs as [->|Hs]; [done|]. by apply list_elem_of_singleton in Hs. }
  rewrite update_el_lookup in Hel. by apply fmap_Some in Hel as (el0 & _ & ->).
Qed.

Lemma quiet_show_unavailable w : all_elements quiet (show_unavailable w).
Proof.
  intros sel el Hel. unfold show_unavailable in Hel.
  destruct (decide (sel = sel_typeB)) as [->|Hb].
  { rewrite update_el_lookup in Hel. apply fmap_Some in Hel as (el0 & _ & ->).
    eapply quiet_placeholder, select_options_unavailable_read. }
  rewrite update_el_lookup_ne in Hel by done.
  destruct (decide (sel = sel_typeA)) as [->|Ha].
  { rewrite update_el_lookup in Hel. apply fmap_Some in Hel as (el0 & _ & ->).
    eapply quiet_placeholder, select_options_unavailable. }
  apply quiet_elsewhere. intros [->|[->|[]%elem_of_nil]%elem_of_cons]%elem_of_cons; done.
Qed.

Lemma quiet_note msg w : all_elements quiet w → all_elements quiet (update_el sel_note (with_text msg) w).
Proof.
  apply all_elements_selects; [apply quiet_elsewhere|].
  intros sel Hs. apply update_el_lookup_ne. intros <-. revert Hs. compute_done.
Qed.

(** The response to the catalog request leaves the selects quiet or
    showing the catalog now in [state.types]. *)
Lemma catalog_resumed r w w' :
  all_elements quiet w → resumed r w w' → all_elements (shows_catalog (names_of w')) w'.
Proof.
  intros Hq [e _|ok arr _ _|ok arr types e _ _ _|ok arr types names _ Hc Hn].
  - by apply shows_catalog_quiet, quiet_note.
  - apply shows_catalog_quiet, quiet_show_unavailable.
  - by apply shows_catalog_quiet, quiet_note.
  - rewrite (names_of_show_catalog _ _ _ _ Hc Hn). apply shows_catalog_show_catalog.
Qed.

Lemma catalog_choose s sel name :
  can_choose sel name (page s) → cat s →
  all_elements (shows_catalog (names_of (page s))) (update_el sel (with_value name) (page s)).
Proof.
  intros [Hs Hn] Hc sel2 el2. destruct (decide (sel = sel2)) as [<-|Hd].
  - rewrite update_el_lookup. intros (el & Hel & ->)%fmap_Some _.
    destruct (Hc _ _ Hel Hs) as [Hq|Hm]; [|by right].
    rewrite (offered_lookup _ _ _ Hel) in Hn. destruct (Hq Hs) as (_ & _ & Hn').
    rewrite Hn' in Hn. by apply elem_of_nil in Hn.
  - rewrite update_el_lookup_ne by done. apply Hc.
Qed.

Lemma catalog_step s e s' :
  invariant api w0 s → cat s → step api s e s' → cat s'.
Proof.
  intros Hi Hc Hs. destruct Hs as [s Hl|s sel name Hch|s el Hel|s i q r Hq].
  - rewrite (inv_pre _ _ _ Hi Hl), content_loaded_listeners_once, dispatch_one. simpl.
    apply shows_catalog_quiet, init_quiet.
  - by apply (catalog_choose s).
  - destruct (inv_listeners _ _ _ Hi _ Hel) as [E|E]; rewrite E; [done|].
    rewrite dispatch_one. cbn [after_dispatch page fst snd handle].
    apply (catalog_frame s); [|done].
    eapply frame_weaken; [|apply runScore_start_frame; apply _].
    intros sel ->%list_elem_of_singleton. compute_done.
  - cbn [page]. destruct q as [url|url body].
    + assert (loading s) as [Hquiet _]%(inv_loading _ _ _ Hi)
        by (exists url; by eapply list_elem_of_lookup_2).
      destruct (has_selects s Hi) as [HA HB].
      eapply catalog_resumed; [done|]. by apply loadTypes_resume_resumed.
    + apply (catalog_frame s); [|done]. by apply (preserves_runScore_resume keep_types); [apply draws_keep_types|].
Qed.

Lemma catalog_reachable s : reachable api w0 s → cat s.
Proof.
  induction 1 as [|s e s' Hr IH Hs]; [by apply shows_catalog_quiet, pristine_quiet|].
  eapply catalog_step; [by apply invariant_reachable | done..].
Qed.

(** The values a select can have: none, or those of the catalog when
    its names are safe. *)
Lemma settable_catalog s sel el a :
  cat s → Forall (λ n, safe_name n = true) (names_of (page s)) →
  sel ∈ selects → doc (page s) !! sel = Some el →
  a ∈ settable (options_of_el el) → a = [] ∨ a ∈ names_of (page s).
Proof.
  intros Hc Hsafe Hs Hel Ha. unfold settable in Ha.
  destruct (Hc _ _ Hel Hs) as [Hq|Hm].
  - destruct (Hq Hs) as (_ & Hv & Hch). rewrite Hv, Hch in Ha.
    left. by repeat (apply elem_of_cons in Ha as [->|Ha]); [..|apply elem_of_nil in Ha].
  - assert (options_of_el el = catalog_options (prompt_text sel) (names_of (page s))) as Ho.
    { unfold options_of_el, prompt_of, prompt_text in *. rewrite Hm.
      case_decide; [by apply select_options_promptA | by apply select_options_promptB]. }
    rewrite Ho, select_value_catalog, choosable_catalog in Ha.
    apply elem_of_cons in Ha as [->|Ha]; [by left|].
    apply elem_of_cons in Ha as [->|Ha]; [by left | by right].
Qed.

End catalog_invariant.

(** ** The progress note

    The note reads "scoring in progress" only while a scoring request
    awaits its response. *)

Section progress.
Context {browser : Browser} (api : jsstring) (w0 : world) (Hw0 : pristine w0).
Context (Hnote : ¬ note_is msg_scoring w0).
Implicit Types (s : app) (w : world) (q : request).
Notation progress s := (note_is msg_scoring (page s) → awaited s).

Lemma init_selects keep `{!Kept keep} :
  api ≠ [] → preserves (frame_with keep (sel_run :: selects)) (init api).
Proof.
  intros Ha. unfold init. destruct api; [done|]. simpl.
  apply preserves_bind; [apply _ | eauto with js|]. intros [].
  apply preserves_try_catch; [apply _ | | eauto with js].
  intros w. eapply frame_weaken; [|by apply loadTypes_start_selects].
  intros sel Hs. by apply elem_of_cons; right.
Qed.

Lemma init_settled : ¬ note_is msg_scoring (init api w0).2.
Proof.
  destruct (decide (api = [])) as [->|Ha].
  - unfold init. simpl. rewrite prog_bind_run, setNote_run. by apply note_is_show_note.
  - by rewrite (note_is_frame _ _ _ _ _ (init_selects keep_types Ha w0)) by compute_done.
Qed.

Lemma resume_settled q r w : ¬ note_is msg_scoring (exec (resume q r) w).
Proof.
  destruct q; [apply loadTypes_resume_note; compute_done | apply runScore_resume_settles].
Qed.

Lemma awaited_app s w qs : awaited s → awaited (after_dispatch s (w, qs)).
Proof. intros (q & Hq & Hp). exists q. split; [|done]. apply elem_of_app. by left. Qed.

Lemma progress_click s :
  progress s → progress (after_dispatch s (dispatch api [HRunScore] (page s))).
Proof.
  intros Hp. rewrite dispatch_one. cbn [handle].
  destruct (runScore_start_note api (page s)) as [[q Hq]|Hn].
  - intros _. destruct (runScore_start api (page s)) as [o w1] eqn:E. simpl in Hq. subst o.
    exists q. split; [apply elem_of_app; right; by apply list_elem_of_singleton|].
    by apply runScore_start_Some in E as (_ & a & b & _ & _ & _ & ->).
  - intros H. by apply awaited_app, Hp, Hn.
Qed.

Lemma progress_step s e s' : invariant api w0 s → progress s → step api s e s' → progress s'.
Proof.
  intros Hi Hp Hs. destruct Hs as [s Hl|s sel name [Hc _]|s el Hel|s i q r Hq].
  - rewrite (inv_pre _ _ _ Hi Hl), content_loaded_listeners_once, dispatch_one.
    intros H. by apply init_settled in H.
  - unfold note_is. cbn [set_page page]. rewrite update_el_lookup_ne; [done|].
    intros ->. revert Hc. compute_done.
  - destruct (inv_listeners _ _ _ Hi _ Hel) as [E|E]; rewrite E.
    + rewrite dispatch_nil. intros H. by apply awaited_app, Hp.
    + by apply progress_click.
  - intros H. by apply resume_settled in H.
Qed.

Lemma progress_reachable s : reachable api w0 s → progress s.
Proof.
  induction 1 as [|s e s' Hr IH Hs]; [done|].
  eapply progress_step; [by apply invariant_reachable | done..].
Qed.

(** Delivering a response to each request in flight leaves none. *)
Lemma deliver_run rs s :
  length rs = length (inflight s) →
  inflight (run api (deliver rs) s) = [] ∧ sent (run api (deliver rs) s) = sent s.
Proof.
  revert s. induction rs as [|r rs IH]; intros s Hl.
  { simpl in *. by destruct (inflight s). }
  destruct (inflight s) as [|q l] eqn:E; [done|].
  unfold deliver. rewrite fmap_cons. cbn [run foldl fire]. rewrite E. cbn.
  apply (IH (App _ _ _ _)). simpl in *. lia.
Qed.

End progress.

(** ** What every step keeps

    A relation on pages that no write to an element disturbs, that
    admits a redraw of the chart and the storing of the catalog
    received, relates the pages before and after every step.  Two
    instances: [state.chart] is null or the radar chart of
    [ensureRadar]; [state.types] holds strings of 16-bit code units
    when the bodies of the responses do. *)

Section kept_steps.
Context {browser : Browser} (api : jsstring) (keep : relation world) `{!Kept keep}.
Implicit Types (s : app) (w : world) (q : request).

Lemma handle_kept h w : keep w (handle api h w).2.
Proof.
  destruct h; simpl.
  - by destruct (init_frame api keep w) as (_ & _ & H).
  - by destruct (runScore_start_frame keep api w) as (_ & _ & H).
Qed.

Lemma dispatch_kept hs w : keep w (dispatch api hs w).1.
Proof.
  revert w. induction hs as [|h hs IH]; intros w; [simpl; reflexivity|]. simpl.
  pose proof (handle_kept h w) as H1. destruct (handle api h w) as [o w1].
  pose proof (IH w1) as H2. destruct (dispatch api hs w1). by etransitivity.
Qed.

Lemma resume_kept q r w : draws keep → stores keep r → keep w (exec (resume q r) w).
Proof.
  intros Hd Hs. destruct q as [url|url body]; simpl.
  - by destruct (preserves_loadTypes_resume keep catalog_selectors r Hs (reflexivity _) w)
      as (_ & _ & H).
  - by destruct (preserves_runScore_resume keep score_selectors r Hd (reflexivity _) w)
      as (_ & _ & H).
Qed.

(** A step keeps what the redraw of the chart and the storing of the
    body of its response keep. *)
Lemma step_kept s e s' :
  draws keep → (∀ i r, e = Respond i r → stores keep r) →
  step api s e s' → keep (page s) (page s').
Proof.
  intros Hd Hr Hs.
  destruct Hs as [s Hl|s sel name Hc|s el Hel|s i q r Hq];
    unfold after_dispatch, set_page; cbn [page].
  - apply dispatch_kept.
  - apply kept_update_el.
  - apply dispatch_kept.
  - apply resume_kept; [done|by eapply Hr].
Qed.

End kept_steps.

Section kept_invariants.
Context {browser : Browser} (api : jsstring).
Implicit Types (s : app) (e : event).

Lemma stores_keep_radar r : stores keep_radar r.
Proof. by intros ok arr w _ H. Qed.

(** The chart stays a radar chart. *)
Lemma chart_step s e s' : chart_ok (page s) → step api s e s' → chart_ok (page s').
Proof.
  intros Hw Hs. revert Hw.
  apply (step_kept api keep_radar s e s'); [apply draws_keep_radar| |done].
  intros. apply stores_keep_radar.
Qed.

(** The catalog stays one of 16-bit strings when the responses hold
    16-bit strings. *)
Lemma types_step s e s' :
  wf_event e → types_ok (page s) → step api s e s' → types_ok (page s').
Proof.
  intros He Hw Hs. revert Hw. apply (step_kept api keep_wf s e s'); [| |done].
  - apply draws_keep_wf.
  - intros i r ->. by apply stores_keep_wf.
Qed.

End kept_invariants.

(** ** The function and the relation *)

Section fire_facts.
Context {browser : Browser} (api : jsstring) (w0 : world).
Implicit Types (s : app) (e : event).

(** [fire] computes the step relation. *)
Lemma fire_step e s s' : fire api e s = Some s' ↔ step api s e s'.
Proof.
  split.
  - destruct e as [|sel name| |i r]; simpl.
    + destruct (loaded s) eqn:E; [done|]. intros [= <-]. by constructor.
    + case_decide; [|done]. intros [= <-]. by constructor.
    + destruct (doc (page s) !! sel_run) as [el|] eqn:E; [|done]. simpl.
      intros [= <-]. by constructor.
    + destruct (inflight s !! i) as [q|] eqn:E; [|done]. simpl.
      intros [= <-]. by constructor.
  - intros [s0 Hl|s0 sel name Hc|s0 el Hel|s0 i q r Hq]; simpl.
    + by rewrite Hl.
    + by rewrite decide_True.
    + by rewrite Hel.
    + by rewrite Hq.
Qed.

Lemma reachable_fire e s s' :
  reachable api w0 s → fire api e s = Some s' → reachable api w0 s'.
Proof. intros Hr Hf%fire_step. by eapply reachable_step. Qed.

Lemma reachable_run_from es s : reachable api w0 s → reachable api w0 (run api es s).
Proof.
  revert s. induction es as [|e es IH]; intros s Hr; [done|]. simpl. apply IH.
  destruct (fire api e s) as [s'|] eqn:E; [by eapply reachable_fire | done].
Qed.

(** Every state a sequence of events leads to is reachable. *)
Lemma reachable_run es : reachable api w0 (run api es (initial w0)).
Proof. apply reachable_run_from. constructor. Qed.

End fire_facts.

Lemma pristine_world0 {browser : Browser} sels : pristine (world0 sels).
Proof.
  split_and!; [done..|]. intros sel el Hel. simpl in Hel. unfold page_of in Hel.
  apply elem_of_list_to_map_2, list_elem_of_fmap in Hel as (x & [= _ ->] & _). done.
Qed.

(** ** Invariants of the reachable states *)

Section app_theorems.
Context {browser : Browser} (api : jsstring) (w0 : world) (Hw0 : pristine w0).
Implicit Types (s : app) (q : request).

(** C34. Without a configured service nothing is ever requested, whatever the
    user does. *)
Theorem unconfigured_no_request s :
  api = [] → reachable api w0 s → sent s = [].
Proof.
  intros Ha Hr%(invariant_reachable _ _ Hw0).
  destruct (sent s) eqn:E; [done|]. destruct (inv_config _ _ _ Hr); [|done].
  by rewrite E.
Qed.

(** C33. The chart is the one of the script: in every state [state.chart]
    is null, or a radar chart with the options of lines 49-62 whose
    data object holds the five labels and five points, drawn at least
    once. *)
Theorem chart_is_radar s c :
  reachable api w0 s → st_chart (page s) = Some c → radar_chart c.
Proof.
  intros Hr Hc. enough (chart_ok (page s)) as H by (unfold chart_ok in H; by rewrite Hc in H).
  clear Hc. induction Hr as [|s e s' _ IH Hs].
  - unfold chart_ok. simpl. by destruct Hw0 as (_ & -> & _).
  - by eapply chart_step.
Qed.

(** C2. Every request ever issued is the request for the catalog or a
    scoring request that names two non-empty values, each one that the
    options of its select allow, both under the configured base URL. *)
Theorem requests_wellformed s q :
  reachable api w0 s → q ∈ sent s → wellformed_on api (page s) q.
Proof.
  intros Hr%(invariant_reachable _ _ Hw0) Hq.
  pose proof (inv_sent _ _ _ Hr) as H. rewrite list.Forall_forall in H. by apply H.
Qed.

(** When the names of the catalog the page holds are safe (no quote,
    [<], CR or U+0000, no ampersand before a letter, a digit or [#]),
    every scoring request names two
    non-empty types of that catalog. *)
Lemma sent_for_catalog s q :
  reachable api w0 s → Forall (λ n, safe_name n = true) (names_of (page s)) →
  q ∈ sent s → wellformed api (names_of (page s)) (names_of (page s)) q.
Proof.
  intros Hr Hsafe Hq. pose proof (invariant_reachable _ _ Hw0 _ Hr) as Hi.
  pose proof (inv_sent _ _ _ Hi) as Hs. rewrite list.Forall_forall in Hs.
  specialize (Hs q Hq). destruct q as [url|url body]; [done|].
  destruct Hs as (-> & a & b & Ha & Hb & Hna & Hnb & ->).
  pose proof (settable_missing _ _ _ Ha Hna) as [ea Ea].
  pose proof (settable_missing _ _ _ Hb Hnb) as [eb Eb].
  assert (has_elements selects w0) as Hsel.
  { unfold has_elements, selects. rewrite !Forall_cons_iff.
    rewrite <-!elem_of_dom, <-(inv_dom _ _ _ Hi), !elem_of_dom. by eauto. }
  pose proof (catalog_reachable _ _ Hw0 Hsel _ Hr) as Hc.
  rewrite (offered_lookup _ _ _ Ea) in Ha. rewrite (offered_lookup _ _ _ Eb) in Hb.
  split; [done|]. exists a, b. split_and!; try done.
  - by destruct (settable_catalog s sel_typeA ea a Hc Hsafe ltac:(compute_done) Ea Ha).
  - by destruct (settable_catalog s sel_typeB eb b Hc Hsafe ltac:(compute_done) Eb Hb).
Qed.

(** C32. The catalog is requested at most once, and first: every request
    after the first one is a scoring request. *)
Theorem catalog_requested_once s :
  reachable api w0 s → Forall (λ q, is_post q = true) (tail (sent s)).
Proof. intros Hr%(invariant_reachable _ _ Hw0). apply Hr. Qed.

(** A click issues at most one request: the run button has at most one
    listener, however often the document signals that it is ready. *)
Theorem click_one_request s s' :
  reachable api w0 s → step api s Click s' →
  (length (sent s') ≤ S (length (sent s)))%nat.
Proof.
  intros Hr%(invariant_reachable _ _ Hw0) Hs. inversion Hs as [| |s0 el Hel|]; subst.
  destruct (inv_listeners _ _ _ Hr _ Hel) as [Hc|Hc]; rewrite Hc.
  - rewrite dispatch_nil. simpl. rewrite app_nil_r. lia.
  - rewrite dispatch_one. simpl. rewrite length_app.
    destruct (runScore_start api (page s)) as [[[q|]|] w1]; simpl; lia.
Qed.

(** No element is ever added to the page or removed from it. *)
Theorem reachable_elements s :
  reachable api w0 s → dom (doc (page s)) = dom (doc w0).
Proof. intros Hr%(invariant_reachable _ _ Hw0). apply Hr. Qed.

Lemma has_elements_dom sels w w' :
  dom (doc w') = dom (doc w) → has_elements sels w → has_elements sels w'.
Proof.
  intros Hd H. eapply list.Forall_impl; [exact H|]. intros sel. simpl.
  by rewrite <-!elem_of_dom, Hd.
Qed.

(** C18. Responses are applied as they arrive: on a page that has the
    elements of the result view, a success response with a display
    model, to whichever scoring request in flight it answers, clears the
    note and leaves the presentation of its display model, whatever the
    selects show and whatever was asked since. *)
Theorem response_shown s i url body payload dm s' :
  reachable api w0 s → has_elements required_selectors w0 →
  inflight s !! i = Some (PostScore url body) → interpret payload = Ok dm →
  step api s (Respond i (Replied true (Some payload))) s' →
  page s' = present dm (show_note [] (page s))
  ∧ inflight s' = delete i (inflight s) ∧ sent s' = sent s.
Proof.
  intros Hr He Hq Hi Hs. inversion Hs as [| | |? ? q ? Hq']; subst.
  rewrite Hq in Hq'. injection Hq' as <-. split; [|done]. cbn [page resume]. unfold exec.
  apply (has_elements_dom _ _ (page s) (reachable_elements s Hr)) in He.
  erewrite runScore_resume_render; [done|]. apply renderResult_refines; [|done].
  by apply has_elements_show_note.
Qed.

(** While the catalog is awaited nothing can be selected, so no score
    can be requested. *)
Theorem loading_no_score s s' :
  reachable api w0 s → loading s → step api s Click s' → sent s' = sent s.
Proof.
  intros Hr%(invariant_reachable _ _ Hw0) Hl Hs.
  destruct (inv_loading _ _ _ Hr Hl) as [Hu _].
  inversion Hs as [| |s0 el Hel|]; subst.
  destruct (inv_listeners _ _ _ Hr _ Hel) as [Hc|Hc]; rewrite Hc.
  - rewrite dispatch_nil. simpl. by rewrite app_nil_r.
  - rewrite dispatch_one. simpl.
    pose proof (runScore_start_quiet api _ Hu) as Hn.
    destruct (runScore_start api (page s)) as [[[q|]|] w1] eqn:E; simpl;
      rewrite ?app_nil_r; try done.
    by destruct (Hn q).
Qed.

(** Once every request has been answered the note no longer reads
    "scoring in progress". *)
Theorem answered_settled s :
  ¬ note_is msg_scoring w0 → reachable api w0 s → inflight s = [] →
  ¬ note_is msg_scoring (page s).
Proof.
  intros Hn Hr Hi H. destruct (progress_reachable _ _ Hw0 Hn _ Hr H) as (q & Hq & _).
  rewrite Hi in Hq. by apply elem_of_nil in Hq.
Qed.

(** C31. Whatever the responses, delivering one to each request in flight
    leads to a state in which nothing is awaited, nothing more was
    requested, and the note no longer reads "scoring in progress". *)
Theorem responses_settle s rs :
  ¬ note_is msg_scoring w0 → reachable api w0 s → length rs = length (inflight s) →
  let s' := run api (deliver rs) s in
  reachable api w0 s' ∧ inflight s' = [] ∧ sent s' = sent s
  ∧ ¬ note_is msg_scoring (page s').
Proof.
  intros Hn Hr Hl. cbv zeta.
  pose proof (reachable_run_from api w0 (deliver rs) s Hr) as Hr'.
  destruct (deliver_run api rs s Hl) as [Hi Hs]. split_and!; [done..|].
  intros H. destruct (progress_reachable _ _ Hw0 Hn _ Hr' H) as (q & Hq & _).
  rewrite Hi in Hq. by apply elem_of_nil in Hq.
Qed.

End app_theorems.

(** ** Concrete runs *)

Section examples.
#[local] Existing Instance reference_browser.

(** The session up to the click: one scoring request is in flight, for
    the two types picked, and the note says that scoring is in progress. *)
Example demo_asked_state :
  inflight demo_asked
  = [PostScore (js "https://api.example/score")
       (js "{\x22typeA\x22:\x22A\x22,\x22typeB\x22:\x22B\x22}")]
  ∧ length (sent demo_asked) = 2%nat
  ∧ shown sel_note demo_asked = Some (Text msg_scoring).
Proof. by_compute. Qed.

(** The response arrives: the note is cleared and the result is shown. *)
Example demo_answered :
  let s := run demo_api [Respond 0 (Replied true (Some sample_payload))] demo_asked in
  inflight s = []
  ∧ shown sel_note s = Some (Text [])
  ∧ page s = present sample_display (show_note [] (page demo_asked)).
Proof. by_compute. Qed.

(** Both registrations of [init] count as one: the catalog is requested
    once and the run button gets one listener. *)
Example duplicate_registration :
  let s := run demo_api [ContentLoaded; ContentLoaded] (initial demo_page) in
  sent s = [GetTypes (js "https://api.example/types")]
  ∧ el_click <$> doc (page s) !! sel_run = Some [HRunScore].
Proof. by_compute. Qed.

(** Nothing prevents a second click while a request is in flight: the
    same request is issued again. *)
Example overlapping_requests :
  let s := run demo_api [Click] demo_asked in
  length (inflight s) = 2%nat ∧ inflight s !! 0%nat = inflight s !! 1%nat.
Proof. by_compute. Qed.

(** Responses are applied in the order they arrive, not in the order of
    the requests: the user asks for A and B, then for B and B; the second
    response arrives first; the page ends up showing the result for A and
    B while the first select shows B. *)
Example stale_response_wins :
  let s := run demo_api
             [Choose sel_typeA (js "B"); Click;
              Respond 1 (Replied true (Some other_payload));
              Respond 0 (Replied true (Some sample_payload))] demo_asked in
  inflight s = []
  ∧ el_value <$> doc (page s) !! sel_typeA = Some (js "B")
  ∧ shown sel_summaryTitle s = Some (Text (js "A / X")).
Proof. by_compute. Qed.

(** A request that is never answered leaves the progress note on the
    page, whatever else the user does. *)
Example unanswered_request :
  let s := run demo_api [Choose sel_typeA (js "B"); Choose sel_typeB (js "A")] demo_asked in
  length (inflight s) = 1%nat ∧ shown sel_note s = Some (Text msg_scoring).
Proof. by_compute. Qed.

(** An error response after a result leaves the result on the page under
    the error note. *)
Example error_keeps_previous_result :
  let s := run demo_api
             [Respond 0 (Replied true (Some sample_payload)); Click;
              Respond 0 (Replied false (Some (field k_detail (VStr (js "bad pair")))))]
             demo_asked in
  shown sel_note s = Some (Text (js "エラー: bad pair"))
  ∧ shown sel_summaryTitle s = Some (Text (js "A / X")).
Proof. by_compute. Qed.

(** A success response whose body is [null] is reported as a
    communication error, after the title was overwritten. *)
Example null_payload_reported_as_comm_error :
  let s := run demo_api [Respond 0 (Replied true (Some VNull))] demo_asked in
  shown sel_note s = Some (Text msg_comm_error)
  ∧ shown sel_summaryTitle s = Some (Text (js "- / -")).
Proof. by_compute. Qed.

(** A name of the catalog that is not safe: the selects offer an option
    [C] that is not a name of the catalog, and picking it issues a
    request for it. *)
Example injected_option_requested :
  let s := run demo_api
             [ContentLoaded; Respond 0 (catalog_response [injected_option]);
              Choose sel_typeA (js "C"); Choose sel_typeB (js "C"); Click]
             (initial demo_page) in
  names_of (page s) = [injected_option]
  ∧ choosable (offered sel_typeA (page s)) = [js "A"; js "C"]
  ∧ sent s !! 1%nat = Some (PostScore (score_url demo_api) (score_body (js "C") (js "C"))).
Proof. by_compute. Qed.

(** A name can also select itself: with no choice made by the user both
    selects have a value, and a click issues a request for it. *)
Example injected_selection_requested :
  let s := run demo_api
             [ContentLoaded; Respond 0 (catalog_response [injected_selected]); Click]
             (initial demo_page) in
  el_value <$> doc (page s) !! sel_typeA = Some (js "x")
  ∧ sent s !! 1%nat = Some (PostScore (score_url demo_api) (score_body (js "x") (js "x"))).
Proof. by_compute. Qed.

(** With two requests in flight the first response clears the note
    while the second is still awaited: the progress message does not
    last as long as the wait. *)
Example progress_note_cleared_early :
  let s := run demo_api [Click; Respond 0 (Replied true (Some sample_payload))] demo_asked in
  length (inflight s) = 1%nat ∧ shown sel_note s = Some (Text []).
Proof. by_compute. Qed.

(** After a failed catalog request the selects keep the "loading"
    placeholder, although nothing is loading. *)
Example loading_placeholder_stays :
  let s := run demo_api [ContentLoaded; Respond 0 Rejected] (initial demo_page) in
  inflight s = []
  ∧ shown sel_typeA s = Some (Markup html_loading)
  ∧ shown sel_note s = Some (Text msg_api_unreachable).
Proof. by_compute. Qed.

Lemma answered_settled_witness :
  ¬ note_is msg_scoring
      (page (run demo_api [Respond 0 (Replied true (Some sample_payload))] demo_asked)).
Proof.
  apply (answered_settled demo_api demo_page (pristine_world0 _));
    [compute_done | apply reachable_run_from, reachable_run | compute_done].
Defined.

Lemma responses_settle_witness :
  let s' := run demo_api (deliver [Rejected; Replied true (Some sample_payload)])
              (run demo_api [Click] demo_asked) in
  reachable demo_api demo_page s' ∧ inflight s' = [] ∧
  sent s' = sent (run demo_api [Click] demo_asked) ∧ ¬ note_is msg_scoring (page s').
Proof.
  apply (responses_settle demo_api demo_page (pristine_world0 _));
    [compute_done | apply reachable_run_from, reachable_run | compute_done].
Defined.

Lemma unconfigured_no_request_witness :
  sent (run [] [ContentLoaded; Click; Choose sel_typeA (js "A"); Click] (initial demo_page)) = [].
Proof.
  apply (unconfigured_no_request [] demo_page);
    [apply pristine_world0 | done | apply reachable_run].
Defined.

Lemma chart_is_radar_witness :
  radar_chart (redraw (VNum <$> (of_Z <$> [120; 80; 60; 140; 100]%Z)) true None).
Proof.
  apply (chart_is_radar demo_api demo_page (pristine_world0 _)
           (run demo_api (demo_events ++ [Respond 0 (Replied true (Some sample_payload))])
              (initial demo_page)));
    [apply reachable_run | by vm_compute].
Defined.

Lemma requests_wellformed_witness :
  wellformed_on demo_api (page demo_asked)
    (PostScore (score_url demo_api) (score_body (js "A") (js "B"))).
Proof.
  apply (requests_wellformed demo_api demo_page);
    [apply pristine_world0 | apply reachable_run | compute_done].
Defined.

Lemma catalog_requested_once_witness :
  Forall (λ q, is_post q = true)
    (tail (sent (run demo_api (demo_events ++ [Click; Click]) (initial demo_page)))).
Proof.
  apply (catalog_requested_once demo_api demo_page (pristine_world0 _)), reachable_run.
Defined.

Lemma click_one_request_witness :
  (length (sent (run demo_api [Click] demo_asked)) ≤ S (length (sent demo_asked)))%nat.
Proof.
  apply (click_one_request demo_api demo_page (pristine_world0 _));
    [apply reachable_run | apply fire_step; vm_compute; reflexivity].
Defined.

Lemma response_shown_witness :
  let s := run demo_api [Choose sel_typeA (js "B"); Click] demo_asked in
  let s' := run demo_api [Respond 0 (Replied true (Some sample_payload))] s in
  page s' = present sample_display (show_note [] (page s))
  ∧ inflight s' = delete 0%nat (inflight s) ∧ sent s' = sent s.
Proof.
  apply (response_shown demo_api demo_page (pristine_world0 _)
           (run demo_api [Choose sel_typeA (js "B"); Click] demo_asked) 0
           (score_url demo_api) (score_body (js "A") (js "B")) sample_payload sample_display);
    [apply reachable_run_from, reachable_run | compute_done | by vm_compute | by vm_compute
    | apply fire_step; by vm_compute].
Defined.

Lemma reachable_elements_witness :
  dom (doc (page demo_asked)) = dom (doc demo_page).
Proof.
  apply (reachable_elements demo_api demo_page (pristine_world0 _)), reachable_run.
Defined.

Lemma loading_no_score_witness :
  sent (run demo_api [ContentLoaded; Click] (initial demo_page))
  = sent (run demo_api [ContentLoaded] (initial demo_page)).
Proof.
  apply (loading_no_score demo_api demo_page (pristine_world0 _)).
  - apply reachable_run.
  - exists (types_url demo_api). compute_done.
  - apply fire_step. vm_compute. reflexivity.
Defined.

End examples.
