(* ===== verification/Observe.v ===== *)
(** * Observe: pages that show the same ([state.chart] of line 7 and the
    handlers of script.js, up to what can be seen)

    Two pages show the same when they have the same document, the same
    catalog and a chart with the same canvas, type, data and options
    ([same_view] of [Render]); how often the chart was drawn is not
    seen.  This file shows that the relation is an equivalence that the
    script cannot tell apart: every primitive of [Dom] and every handler
    ([renderResult], [loadTypes], [runScore], [init]) completes the same
    way and reaches pages that show the same when started on pages that
    show the same ([respects]), and so does every step of the machine of
    [App] ([same_app]).  The relations are registered as setoids, the
    operations as morphisms, so that a page can be rewritten by one
    that shows the same.

    It follows that a result rendered over another leaves nothing
    behind: whatever happens afterwards, the page shows what it would
    show had the earlier result never arrived. *)

From stdpp Require Import gmap strings.
From S2P Require Import Prelude Effects JsString JsNumber JsValue Tokenizer Markup SplitBody.
From S2P Require Import Dom Api Render Catalog Score App.

(** ** Definitions *)

(** [respects m]: run on pages that show the same, [m] completes with
    the same value or the same exception, on pages that show the same. *)
Definition respects {A} (m : prog world A) : Prop :=
  Proper (same_view ==> prod_relation (=) same_view) m.

(** Two states of the machine that show the same: the pages do, and the
    requests in flight and sent are the same. *)
Definition same_app (s s' : app) : Prop :=
  same_view (page s) (page s') ∧ loaded s = loaded s'
  ∧ inflight s = inflight s' ∧ sent s = sent s'.

#[export] Instance same_app_dec s s' : Decision (same_app s s').
Proof. unfold same_app. apply _. Defined.

(** The page with its chart drawn [n] more times. *)
Definition redrawn (n : nat) (w : world) : world :=
  set_chart ((λ c, Chart (chart_canvas c) (chart_kind c) (chart_data c) (chart_options c)
                     (n + chart_draws c)) <$> st_chart w) w.

(** ** The relations are equivalences *)

#[export] Instance same_chart_equiv : Equivalence same_chart.
Proof.
  split.
  - by intros [c|].
  - intros [c|] [c'|]; simpl; try done. by intros (-> & -> & -> & ->).
  - intros [c1|] [c2|] [c3|]; simpl; try done.
    by intros (-> & -> & -> & ->) (-> & -> & -> & ->).
Qed.

#[export] Instance same_view_equiv : Equivalence same_view.
Proof.
  split.
  - by intros w.
  - intros w w' (Hd & Ht & Hc). by split_and!.
  - intros w1 w2 w3 (Hd & Ht & Hc) (Hd' & Ht' & Hc'). split_and!; by etrans.
Qed.

#[export] Instance same_app_equiv : Equivalence same_app.
Proof.
  split.
  - by intros s.
  - intros s s' (Hp & Hl & Hi & Hs). by split_and!.
  - intros s1 s2 s3 (Hp & Hl & Hi & Hs) (Hp' & Hl' & Hi' & Hs'). split_and!; by etrans.
Qed.

(** ** What is read from a page is the same *)

#[export] Instance doc_proper : Proper (same_view ==> (=)) doc.
Proof. by intros w w' (Hd & _). Qed.

#[export] Instance st_types_proper : Proper (same_view ==> (=)) st_types.
Proof. by intros w w' (_ & Ht & _). Qed.

#[export] Instance st_chart_proper : Proper (same_view ==> same_chart) st_chart.
Proof. by intros w w' (_ & _ & Hc). Qed.

#[export] Instance names_of_proper : Proper (same_view ==> (=)) names_of.
Proof. intros w w' H. unfold names_of. by rewrite H. Qed.

#[export] Instance page_proper : Proper (same_app ==> same_view) page.
Proof. by intros s s' (Hp & _). Qed.

(** ** What is written to a page keeps the view the same *)

#[export] Instance update_el_proper sel f : Proper (same_view ==> same_view) (update_el sel f).
Proof. intros w w' (Hd & Ht & Hc). split_and!; simpl; [by rewrite Hd|done..]. Qed.

#[export] Instance update_width_proper sel s :
  Proper (same_view ==> same_view) (update_width sel s).
Proof. intros w w' H. unfold update_width. destruct (css_percentage s); by rewrite H. Qed.

#[export] Instance set_types_proper t : Proper (same_view ==> same_view) (set_types t).
Proof. by intros w w' (Hd & Ht & Hc). Qed.

#[export] Instance present_chart_proper points :
  Proper (same_view ==> same_view) (present_chart points).
Proof.
  intros w w' (Hd & Ht & Hc). unfold present_chart. split_and!; simpl; [done..|].
  rewrite Hd. destruct (st_chart w) as [c|], (st_chart w') as [c'|]; simpl in *; try done.
  by destruct Hc as (-> & -> & _ & ->).
Qed.

(** ** Computations that respect the view, compositionally *)

Section respects.
Context {A B : Type}.
Implicit Types (m : prog world A) (f : A → prog world B).

Lemma respects_ret (a : A) : respects (mret a : prog world A).
Proof. by intros w w' H. Qed.

Lemma respects_lift (o : outcome A) : respects (lift o : prog world A).
Proof. by intros w w' H. Qed.

Lemma respects_throw e : respects (throw e : prog world A).
Proof. by intros w w' H. Qed.

Lemma respects_bind m f : respects m → (∀ a, respects (f a)) → respects (m ≫= f).
Proof.
  intros Hm Hf w w' H. rewrite !prog_bind_run. destruct (Hm w w' H) as [E1 E2].
  destruct (m w) as [[a|e] w1], (m w') as [[a'|e'] w1']; simpl in *; simplify_eq;
    [by apply Hf | done].
Qed.

Lemma respects_try_catch m (h : error → prog world A) :
  respects m → (∀ e, respects (h e)) → respects (try_catch m h).
Proof.
  intros Hm Hh w w' H. unfold try_catch. destruct (Hm w w' H) as [E1 E2].
  destruct (m w) as [[a|e] w1], (m w') as [[a'|e'] w1']; simpl in *; simplify_eq;
    [done | by apply Hh].
Qed.

Lemma respects_modify (g : world → world) :
  Proper (same_view ==> same_view) g → respects (modify_state g).
Proof. intros Hg w w' H. split; [done|]. by apply Hg. Qed.

End respects.

#[export] Hint Resolve respects_ret respects_lift respects_throw : js.

(** ** The primitives of the page *)

Section primitives.
Context {browser : Browser}.
Implicit Types (sel : jsstring) (v : value).

(** [prim lem]: a primitive that [lem] gives by cases on the element
    found. *)
Ltac prim lem :=
  intros w w' H; rewrite !lem, <-(doc_proper _ _ H);
  repeat case_match; (split; [done|]); simpl; by rewrite ?H.

Lemma respects_query sel : respects (query sel).
Proof. prim query_run. Qed.

Lemma respects_set_textContent sel v : respects (set_textContent sel v).
Proof. prim set_textContent_run. Qed.

Lemma respects_set_innerHTML sel html : respects (set_innerHTML sel html).
Proof. prim set_innerHTML_run. Qed.

Lemma respects_get_innerHTML sel : respects (get_innerHTML sel).
Proof. prim get_innerHTML_run. Qed.

Lemma respects_get_value sel : respects (get_value sel).
Proof. prim get_value_run. Qed.

Lemma respects_add_click_listener sel h : respects (add_click_listener sel h).
Proof. prim add_click_listener_run. Qed.

Lemma respects_set_style_width sel s : respects (set_style_width sel s).
Proof. prim set_style_width_run. Qed.

Lemma respects_set_style_display sel s : respects (set_style_display sel s).
Proof. apply respects_modify, _. Qed.

Lemma respects_set_types arr : respects (modify_state (set_types arr)).
Proof. apply respects_modify, _. Qed.

Lemma respects_ensureRadar scores : respects (ensureRadar scores).
Proof.
  intros w w' H. rewrite !ensureRadar_run. destruct (axis_data scores); [|done].
  split; [done|]. simpl. by rewrite H.
Qed.

End primitives.

#[export] Hint Resolve respects_query respects_set_textContent respects_set_innerHTML
  respects_get_innerHTML respects_get_value respects_add_click_listener
  respects_set_style_width respects_set_style_display respects_set_types
  respects_ensureRadar : js.

(** ** The handlers *)

Section handlers.
Context {browser : Browser}.

(** [steps]: a handler, one bind at a time, by cases on what it
    branches on. *)
Ltac steps :=
  repeat first
    [ solve [eauto with js]
    | apply respects_bind; [solve [eauto with js] | intros ?]
    | apply respects_try_catch; [|intros ?]
    | match goal with p : (_ * _)%type |- _ => destruct p end
    | match goal with |- respects (match ?x with _ => _ end) => destruct x end ].

Lemma respects_setNote msg : respects (setNote msg).
Proof. unfold setNote. steps. Qed.

Lemma respects_show_hybrid hyb : respects (show_hybrid hyb).
Proof. unfold show_hybrid. steps. Qed.

Lemma respects_clear_hybrid : respects clear_hybrid.
Proof. unfold clear_hybrid. steps. Qed.

Hint Resolve respects_setNote respects_show_hybrid respects_clear_hybrid : js.

Lemma respects_renderResult payload : respects (renderResult payload).
Proof. unfold renderResult. steps. Qed.

Lemma respects_loadTypes_start api : respects (loadTypes_start api).
Proof. unfold loadTypes_start. steps. Qed.

Lemma respects_loadTypes_resume r : respects (loadTypes_resume r).
Proof. unfold loadTypes_resume, loadTypes_body. steps. Qed.

Lemma respects_runScore_start api : respects (runScore_start api).
Proof. unfold runScore_start. steps. Qed.

Hint Resolve respects_renderResult : js.

Lemma respects_runScore_resume r : respects (runScore_resume r).
Proof. unfold runScore_resume, runScore_body. steps. Qed.

Hint Resolve respects_loadTypes_start respects_loadTypes_resume
  respects_runScore_start respects_runScore_resume : js.

Lemma respects_init api : respects (init api).
Proof. unfold init. steps. Qed.

Lemma respects_handle api h : respects (handle api h).
Proof. destruct h; simpl; [apply respects_init | apply respects_runScore_start]. Qed.

Lemma respects_resume q r : respects (resume q r).
Proof. destruct q; simpl; auto with js. Qed.

End handlers.

(** ** The presentation of a result *)

Section presentation.
Implicit Types (dm : display_model) (w : world).

#[export] Instance present_proper dm : Proper (same_view ==> same_view) (present dm).
Proof. intros w w' H. unfold present, present_hybrid. cbv zeta. by rewrite H. Qed.

#[export] Instance show_note_proper msg : Proper (same_view ==> same_view) (show_note msg).
Proof. intros w w' H. unfold show_note. by rewrite H. Qed.

#[export] Instance redrawn_proper n : Proper (same_view ==> same_view) (redrawn n).
Proof.
  intros w w' (Hd & Ht & Hc). split_and!; simpl; [done..|].
  by destruct (st_chart w), (st_chart w').
Qed.


(** The presentation does not touch the note. *)
Lemma present_el_note dm el : present_el dm sel_note el = el.
Proof.
  unfold present_el. cbv zeta. destruct (css_percentage _); by rewrite !on_sel_ne by done.
Qed.

(** The note and the result are written to different elements: the
    order of the two writes is not seen. *)
Lemma show_note_present msg dm w :
  same_view (show_note msg (present dm w)) (present dm (show_note msg w)).
Proof.
  unfold show_note. split_and!.
  - apply map_eq. intros sel.
    rewrite present_lookup, !update_el_lookup_on, present_lookup, <-!option_fmap_compose.
    apply option_fmap_ext. intros el. simpl. destruct (decide (sel_note = sel)) as [<-|?].
    + by rewrite !on_sel_eq, !present_el_note.
    + by rewrite !on_sel_ne.
  - by rewrite update_el_types, !present_types, update_el_types.
  - rewrite update_el_chart, !present_st_chart, update_el_chart.
    by rewrite update_el_lookup_ne.
Qed.

(** A result rendered over another, the note cleared in between, shows
    what it shows alone. *)
Lemma rendered_over dm1 dm2 w :
  css_percentage (conf_text (dm_conf dm2)) = true →
  same_view (present dm2 (show_note [] (present dm1 (show_note [] w))))
            (present dm2 (show_note [] w)).
Proof.
  intros Hc. rewrite show_note_present. etrans; [by apply present_supersedes|].
  apply present_proper. unfold show_note. split_and!; [|done..].
  apply map_eq. intros sel. rewrite !update_el_lookup_on, <-option_fmap_compose.
  apply option_fmap_ext. intros el. simpl.
  destruct (decide (sel_note = sel)) as [<-|?]; by rewrite ?on_sel_eq, ?on_sel_ne.
Qed.

End presentation.

(** ** The machine *)

Section machine.
Context {browser : Browser} (api : jsstring).
Implicit Types (s : app) (e : event) (w : world).

#[export] Instance offered_proper sel : Proper (same_view ==> (=)) (offered sel).
Proof. intros w w' H. unfold offered. by rewrite H. Qed.

#[export] Instance can_choose_proper sel name : Proper (same_view ==> iff) (can_choose sel name).
Proof. intros w w' H. unfold can_choose. by rewrite H. Qed.

#[export] Instance dispatch_proper hs :
  Proper (same_view ==> prod_relation same_view (=)) (dispatch api hs).
Proof.
  induction hs as [|h hs IH]; intros w w' H; [done|]. simpl.
  destruct (respects_handle api h w w' H) as [E1 E2].
  destruct (handle api h w) as [o w1], (handle api h w') as [o' w1']. simpl in *. subst o'.
  destruct (IH w1 w1' E2) as [E3 E4].
  destruct (dispatch api hs w1) as [w2 qs], (dispatch api hs w1') as [w2' qs']. simpl in *.
  by subst qs'.
Qed.

Lemma same_app_after_dispatch s s' r r' :
  same_app s s' → prod_relation same_view (=) r r' →
  same_app (after_dispatch s r) (after_dispatch s' r').
Proof.
  intros (Hp & Hl & Hi & Hs) [Hr1 Hr2]. unfold after_dispatch.
  split_and!; simpl; [done..| |]; by rewrite Hr2, ?Hi, ?Hs.
Qed.

#[export] Instance fire_proper e : Proper (same_app ==> option_Forall2 same_app) (fire api e).
Proof.
  intros s s' H. pose proof H as (Hp & Hl & Hi & Hs).
  destruct e as [|sel name| |i r]; cbn [fire].
  - rewrite <-Hl. destruct (loaded s); constructor.
    apply same_app_after_dispatch; [by split_and! | by apply dispatch_proper].
  - destruct (decide (can_choose sel name (page s))) as [Hc|Hc].
    + rewrite decide_True by by rewrite <-Hp. constructor.
      split_and!; simpl; [by rewrite Hp | done..].
    + rewrite decide_False by by rewrite <-Hp. constructor.
  - rewrite <-(doc_proper _ _ Hp). destruct (doc (page s) !! sel_run) as [el|]; constructor.
    apply same_app_after_dispatch; [done | by apply dispatch_proper].
  - rewrite <-Hi. destruct (inflight s !! i) as [q|]; constructor.
    split_and!; simpl; [|done|by rewrite Hi|done].
    by destruct (respects_resume q r _ _ Hp).
Qed.

(** A sequence of events ends in states that show the same. *)
#[export] Instance run_proper es : Proper (same_app ==> same_app) (run api es).
Proof.
  induction es as [|e es IH]; intros s s' H; [done|]. simpl. apply IH.
  by destruct (fire_proper e s s' H).
Qed.

End machine.


Section last_response.
Context {browser : Browser} (api : jsstring).
Implicit Types (s : app) (dm : display_model).

(** A success response with a display model to a scoring request in
    flight, on a page that has the elements of the result view. *)
Lemma fire_score s i q payload dm :
  has_elements required_selectors (page s) →
  inflight s !! i = Some q → is_post q = true → interpret payload = Ok dm →
  fire api (Respond i (Replied true (Some payload))) s
  = Some (App (present dm (show_note [] (page s))) (loaded s) (delete i (inflight s)) (sent s)).
Proof.
  intros He Hq Hp Hi. cbn [fire]. rewrite Hq. destruct q as [url|url body]; [done|].
  simpl. unfold exec. erewrite runScore_resume_render; [done|].
  apply renderResult_refines; [by apply has_elements_show_note | done].
Qed.

Lemma run_score s i q payload dm es :
  has_elements required_selectors (page s) →
  inflight s !! i = Some q → is_post q = true → interpret payload = Ok dm →
  run api (Respond i (Replied true (Some payload)) :: es) s
  = run api es (App (present dm (show_note [] (page s))) (loaded s) (delete i (inflight s))
                  (sent s)).
Proof. intros He Hq Hp Hi. unfold run. cbn [foldl]. by erewrite fire_score. Qed.

Lemma has_elements_present sels dm w : has_elements sels w → has_elements sels (present dm w).
Proof.
  unfold has_elements. intros H. eapply list.Forall_impl; [exact H|]. intros sel [el Hel].
  cbv beta. rewrite present_lookup, Hel. by eexists.
Qed.

End last_response.

(** C19. The last response wins, whatever came before it: on a page
    that has the elements of the result view, when two scoring requests
    in flight are answered in turn with results that have a display
    model and the confidence of the second is a number, then what the
    page shows from then on, through any further events, does not
    depend on the first answer. *)
Theorem last_response_wins {browser : Browser} api s i j q1 q2 p1 p1' p2 dm1 dm1' dm2 es :
  has_elements required_selectors (page s) →
  inflight s !! i = Some q1 → is_post q1 = true →
  delete i (inflight s) !! j = Some q2 → is_post q2 = true →
  interpret p1 = Ok dm1 → interpret p1' = Ok dm1' → interpret p2 = Ok dm2 →
  css_percentage (conf_text (dm_conf dm2)) = true →
  same_app
    (run api (Respond i (Replied true (Some p1)) :: Respond j (Replied true (Some p2)) :: es) s)
    (run api (Respond i (Replied true (Some p1')) :: Respond j (Replied true (Some p2)) :: es) s).
Proof.
  intros He Hq1 Hp1 Hq2 Hp2 H1 H1' H2 Hc.
  assert (∀ dm, has_elements required_selectors (present dm (show_note [] (page s)))) as He'
    by (intros dm; by apply has_elements_present, has_elements_show_note).
  rewrite (run_score api s i q1 p1 dm1), (run_score api s i q1 p1' dm1') by done.
  rewrite !(run_score api _ j q2 p2 dm2) by (try done; apply He').
  apply run_proper. split_and!; [|done..]. cbn [page]. by rewrite !rendered_over by done.
Qed.

(** ** Concrete runs *)

Section examples.
#[local] Existing Instance reference_browser.

(** The sample session with a second click: two scoring requests are in
    flight. *)
Example two_in_flight :
  inflight (run demo_api [Click] demo_asked)
  = [PostScore (score_url demo_api) (score_body (js "A") (js "B"));
     PostScore (score_url demo_api) (score_body (js "A") (js "B"))].
Proof. vm_compute. reflexivity. Qed.


(** Two answers to the first of two requests, then the sample result
    and a click: the pages show the same. *)
Lemma last_response_wins_witness :
  let s := run demo_api [Click] demo_asked in
  let later := [Respond 0 (Replied true (Some sample_payload)); Click] in
  same_app (run demo_api (Respond 0 (Replied true (Some other_payload)) :: later) s)
           (run demo_api (Respond 0 (Replied true (Some (VObj []))) :: later) s).
Proof.
  cbv zeta.
  eapply (last_response_wins demo_api (run demo_api [Click] demo_asked) 0 0);
    [compute_done | vm_compute; reflexivity..].
Defined.

(** When the confidence of the last result is not a number the first
    answer is still seen: the bar keeps the width the first answer gave
    it. *)
Example first_response_seen :
  let s := run demo_api [Click] demo_asked in
  let last := Respond 0 (Replied true (Some (field k_confidence (VStr (js "abc"))))) in
  bool_decide
    (same_app (run demo_api [Respond 0 (Replied true (Some sample_payload)); last] s)
              (run demo_api [Respond 0 (Replied true (Some other_payload)); last] s))
  = false.
Proof. vm_compute. reflexivity. Qed.

End examples.
