(* ===== verification/Network.v ===== *)
(** * Network: the two awaits of a handler ([await fetch(...)] and
    [await res.json()], script.js lines 15-16 and 125-130)

    [App] delivers a response to a handler in one event.  The script
    suspends twice: at [await fetch(...)] until the status line and the
    headers arrive, and at [await res.json()] until the body has been
    read and parsed; between the two the user can click and other
    responses can arrive.  This file models the exchange at that grain:
    a request in flight is being fetched or being read ([pending]), the
    network fails it, answers it with a status, delivers the bytes of
    its body or drops the connection ([signal]), and the handler resumes
    on what [receive] of [Json] makes of the status and the bytes.

    The theorems relate this machine to the one of [App]: every step is
    a step of [App] or changes nothing that [App] sees, so that what was
    proved of the reachable states of [App] holds of the reachable
    states here; the events of the network cannot go on for ever; a
    catalog that the service sends as the bytes of a JSON array of
    strings is what the selects offer; and the bytes of every scoring
    request decode and parse to an object naming two types of the
    catalog. *)

From S2P Require Import Prelude Effects JsString JsNumber JsValue Tokenizer Markup SplitBody Dom Api.
From S2P Require Import Utf8 Json Render Catalog Score App.
From stdpp Require Import gmap strings.

(** ** The machine *)

(** A request in flight: awaited by [fetch], or, with its status known,
    by [res.json()]. *)
Inductive pending :=
  | Fetching (q : request)
  | Reading (q : request) (status : N).

Definition request_of (p : pending) : request :=
  match p with Fetching q | Reading q _ => q end.

Record net := Net {
  npage : world;
  nloaded : bool;               (* DOMContentLoaded has been dispatched *)
  npending : list pending;      (* requests in flight, oldest first *)
  nsent : list request          (* every request issued so far, oldest first *)
}.

Inductive signal :=
  | Ready                                        (* the document is ready *)
  | Pick (sel : jsstring) (name : jsstring)      (* the user picks an option *)
  | Press                                        (* the user clicks the run button *)
  | Fails (i : nat)                              (* [fetch] rejects *)
  | Headers (i : nat) (status : N)               (* [fetch] resolves *)
  | Body (i : nat) (body : list N)               (* the body has been read *)
  | Aborted (i : nat).                           (* reading the body fails *)

(** An event of the network, as opposed to one of the user. *)
Definition of_network (e : signal) : bool :=
  match e with
  | Ready | Pick _ _ | Press => false
  | _ => true
  end.

(** The requests a dispatch issued start being fetched. *)
Definition issue (n : net) (r : world * list request) : net :=
  Net r.1 (nloaded n) (npending n ++ (Fetching <$> r.2)) (nsent n ++ r.2).

(** The [i]-th request in flight is settled: its handler resumes on [r]. *)
Definition settle {browser : Browser} (i : nat) (q : request) (r : response) (n : net) : net :=
  Net (exec (resume q r) (npage n)) (nloaded n) (delete i (npending n)) (nsent n).

(** What [App] sees of a state. *)
Definition coarse (n : net) : App.app :=
  App (npage n) (nloaded n) (request_of <$> npending n) (nsent n).

(** What is left to happen on the network: two events for a request
    being fetched, one for a request being read. *)
Definition weight (p : pending) : nat :=
  match p with Fetching _ => 2 | Reading _ _ => 1 end.

Definition backlog (n : net) : nat := sum_list (weight <$> npending n).

(** The event of [App] that a signal amounts to in a state; none for
    the arrival of a status, which no handler of the page observes. *)
Definition event_of (n : net) (e : signal) : option event :=
  match e with
  | Ready => Some ContentLoaded
  | Pick sel name => Some (Choose sel name)
  | Press => Some Click
  | Fails i | Aborted i => Some (Respond i Rejected)
  | Headers _ _ => None
  | Body i body =>
    match npending n !! i with
    | Some (Reading _ status) => Some (Respond i (receive (Answered status body)))
    | _ => None
    end
  end.

(** The signal that ends a request in flight without a response. *)
Definition abandon (p : pending) : signal :=
  match p with Fetching _ => Fails 0 | Reading _ _ => Aborted 0 end.

Section machine.
Context {browser : Browser} (api : jsstring) (w0 : world).

Definition nstart : net := Net w0 false [] [].

Inductive nstep : net → signal → net → Prop :=
  | nstep_ready n :
      nloaded n = false →
      nstep n Ready
        (issue (Net (npage n) true (npending n) (nsent n))
           (dispatch api content_loaded_listeners (npage n)))
  | nstep_pick n sel name :
      can_choose sel name (npage n) →
      nstep n (Pick sel name)
        (Net (update_el sel (with_value name) (npage n)) (nloaded n) (npending n) (nsent n))
  | nstep_press n el :
      doc (npage n) !! sel_run = Some el →
      nstep n Press (issue n (dispatch api (el_click el) (npage n)))
  | nstep_fails n i q :
      npending n !! i = Some (Fetching q) →
      nstep n (Fails i) (settle i q Rejected n)
  | nstep_headers n i q status :
      npending n !! i = Some (Fetching q) →
      nstep n (Headers i status)
        (Net (npage n) (nloaded n) (<[i := Reading q status]> (npending n)) (nsent n))
  | nstep_body n i q status body :
      npending n !! i = Some (Reading q status) →
      nstep n (Body i body) (settle i q (receive (Answered status body)) n)
  | nstep_aborted n i q status :
      npending n !! i = Some (Reading q status) →
      nstep n (Aborted i) (settle i q Rejected n).

Inductive nreachable : net → Prop :=
  | nreachable_start : nreachable nstart
  | nreachable_step n e n' : nreachable n → nstep n e n' → nreachable n'.

(** The step as a function: [None] when the event cannot happen. *)
Definition nfire (e : signal) (n : net) : option net :=
  match e with
  | Ready =>
    if nloaded n then None
    else Some (issue (Net (npage n) true (npending n) (nsent n))
                 (dispatch api content_loaded_listeners (npage n)))
  | Pick sel name =>
    if decide (can_choose sel name (npage n))
    then Some (Net (update_el sel (with_value name) (npage n)) (nloaded n)
                 (npending n) (nsent n))
    else None
  | Press =>
    el ← doc (npage n) !! sel_run;
    Some (issue n (dispatch api (el_click el) (npage n)))
  | Fails i =>
    match npending n !! i with
    | Some (Fetching q) => Some (settle i q Rejected n)
    | _ => None
    end
  | Headers i status =>
    match npending n !! i with
    | Some (Fetching q) =>
      Some (Net (npage n) (nloaded n) (<[i := Reading q status]> (npending n)) (nsent n))
    | _ => None
    end
  | Body i body =>
    match npending n !! i with
    | Some (Reading q status) => Some (settle i q (receive (Answered status body)) n)
    | _ => None
    end
  | Aborted i =>
    match npending n !! i with
    | Some (Reading q status) => Some (settle i q Rejected n)
    | _ => None
    end
  end.

(** A sequence of events from a state; an event that cannot happen is
    skipped. *)
Definition nrun (es : list signal) (n : net) : net :=
  foldl (λ n e, default n (nfire e n)) n es.

(** One event of the network. *)
Definition settles (n n' : net) : Prop :=
  ∃ e, of_network e = true ∧ nstep n e n'.

End machine.

(** ** A sample session on the wire *)

Definition wire_catalog : list N :=
  Eval vm_compute in utf8_encode (js "[\x22A\x22, \x22B\x22]").

Definition wire_payload : list N :=
  Eval vm_compute in
  utf8_encode (js "{\x22macro\x22:{\x22top\x22:\x22A\x22},\x22micro\x22:{\x22type\x22:\x22X\x22},\x22confidence\x22:87.6}").

Definition wire_error : list N :=
  Eval vm_compute in utf8_encode (js "{\x22detail\x22:\x22unknown type\x22}").

(** A catalog whose names are not ASCII, with a byte order mark before
    it. *)
Definition wire_catalog_bom : list N :=
  Eval vm_compute in [0xEF; 0xBB; 0xBF]%N ++ utf8_encode (js "[\x22外向\x22,\x22内向\x22]").

(** The document is ready, the catalog arrives, the user picks A and B
    and clicks, the status of the answer arrives. *)
Definition wire_events : list signal :=
  [Ready; Headers 0 200; Body 0 wire_catalog;
   Pick sel_typeA (js "A"); Pick sel_typeB (js "B"); Press; Headers 0 200].

(** ** The machine of [App] simulates this one *)

Section simulation.
Context {browser : Browser} (api : jsstring) (w0 : world).
Implicit Types (n : net) (e : signal) (p : pending) (q : request).

Lemma coarse_issue n r : coarse (issue n r) = after_dispatch (coarse n) r.
Proof.
  unfold coarse, issue, after_dispatch. simpl.
  by rewrite fmap_app, <-list_fmap_compose, list_fmap_id.
Qed.

Lemma coarse_settle n i p r :
  npending n !! i = Some p →
  step api (coarse n) (Respond i r) (coarse (settle i (request_of p) r n)).
Proof.
  intros Hp. unfold coarse, settle. cbn [npage nloaded npending nsent].
  rewrite list_fmap_delete.
  apply (step_respond api (App _ _ _ _)). simpl. by rewrite list_lookup_fmap, Hp.
Qed.

Lemma coarse_headers n i q status :
  npending n !! i = Some (Fetching q) →
  coarse (Net (npage n) (nloaded n) (<[i := Reading q status]> (npending n)) (nsent n))
  = coarse n.
Proof.
  intros Hp. unfold coarse. simpl. f_equal.
  rewrite list_fmap_insert. apply list_insert_id. by rewrite list_lookup_fmap, Hp.
Qed.

(** A step is the step of [App] for the event it amounts to, or leaves
    what [App] sees as it is. *)
Lemma simulation_step n e n' :
  nstep api n e n' →
  match event_of n e with
  | Some e' => step api (coarse n) e' (coarse n')
  | None => coarse n' = coarse n
  end.
Proof.
  intros Hs. destruct Hs as [n Hl|n sel name Hc|n el Hel|n i q Hp|n i q st Hp
                            |n i q st text Hp|n i q st Hp]; cbn [event_of].
  - rewrite coarse_issue. by apply (step_content_loaded api (coarse n)).
  - by apply (step_choose api (coarse n)).
  - rewrite coarse_issue. by apply (step_click api (coarse n)).
  - by apply (coarse_settle n i (Fetching q)).
  - by apply coarse_headers.
  - rewrite Hp. by apply (coarse_settle n i (Reading q st)).
  - by apply (coarse_settle n i (Reading q st)).
Qed.

Lemma coarse_reachable n : nreachable api w0 n → reachable api w0 (coarse n).
Proof.
  induction 1 as [|n e n' _ IH Hs]; [constructor|].
  apply simulation_step in Hs. destruct (event_of n e) as [e'|].
  - by eapply reachable_step.
  - by rewrite Hs.
Qed.

End simulation.

(** ** The function and the relation *)

Section nfire_facts.
Context {browser : Browser} (api : jsstring) (w0 : world).
Implicit Types (n : net) (e : signal).

Lemma nfire_step e n n' : nfire api e n = Some n' ↔ nstep api n e n'.
Proof.
  split.
  - destruct e as [|sel name| |i|i st|i text|i]; simpl.
    + destruct (nloaded n) eqn:E; [done|]. intros [= <-]. by constructor.
    + case_decide; [|done]. intros [= <-]. by constructor.
    + destruct (doc (npage n) !! sel_run) as [el|] eqn:E; [|done].
      intros [= <-]. by econstructor.
    + destruct (npending n !! i) as [[q|q st]|] eqn:E; [|done..].
      intros [= <-]. by constructor.
    + destruct (npending n !! i) as [[q|q st']|] eqn:E; [|done..].
      intros [= <-]. by constructor.
    + destruct (npending n !! i) as [[q|q st]|] eqn:E; [done| |done].
      intros [= <-]. by econstructor.
    + destruct (npending n !! i) as [[q|q st]|] eqn:E; [done| |done].
      intros [= <-]. by econstructor.
  - intros Hs. destruct Hs; simpl; repeat case_match; simplify_eq; try done.
    by simplify_option_eq.
Qed.

Lemma nreachable_run_from es n : nreachable api w0 n → nreachable api w0 (nrun api es n).
Proof.
  revert n. induction es as [|e es IH]; intros n Hn; [done|]. simpl. apply IH.
  destruct (nfire api e n) as [n'|] eqn:E; [|done].
  eapply nreachable_step; [done|]. by apply nfire_step.
Qed.

Lemma nreachable_run es : nreachable api w0 (nrun api es (nstart w0)).
Proof. apply nreachable_run_from. constructor. Qed.

End nfire_facts.

(** ** The network comes to rest *)

Section termination.
Context {browser : Browser} (api : jsstring).
Implicit Types (n : net) (e : signal) (p : pending) (l : list pending).

Lemma weight_positive p : (0 < weight p)%nat.
Proof. destruct p; simpl; lia. Qed.

Lemma weight_delete l i p :
  l !! i = Some p →
  (sum_list (weight <$> delete i l) + weight p = sum_list (weight <$> l))%nat.
Proof.
  revert i. induction l as [|p' l IH]; intros [|i] Hp; simplify_eq/=; [lia|].
  specialize (IH i Hp). lia.
Qed.

Lemma weight_insert l i p p' :
  l !! i = Some p →
  (sum_list (weight <$> <[i:=p']> l) + weight p = sum_list (weight <$> l) + weight p')%nat.
Proof.
  revert i. induction l as [|p0 l IH]; intros [|i] Hp; simplify_eq/=; [lia|].
  specialize (IH i Hp). lia.
Qed.

Lemma backlog_settle i q r n p :
  npending n !! i = Some p → (backlog (settle i q r n) < backlog n)%nat.
Proof.
  intros Hp. unfold backlog, settle. simpl.
  pose proof (weight_delete _ _ _ Hp). pose proof (weight_positive p). lia.
Qed.

(** An event of the network moves a request in flight towards its end. *)
Lemma backlog_settles n n' : settles api n n' → (backlog n' < backlog n)%nat.
Proof.
  intros (e & He & Hs). destruct Hs; try done; try by eapply backlog_settle.
  unfold backlog. simpl.
  match goal with H : _ !! _ = Some _ |- _ =>
    pose proof (weight_insert _ _ _ (Reading q status) H) end.
  simpl in *. lia.
Qed.


(** As many events of the network at most as the backlog counts. *)
Lemma network_bound k n n' :
  nsteps (settles api) k n n' → (k + backlog n' ≤ backlog n)%nat.
Proof.
  induction 1 as [|k n n1 n' Hs _ IH]; [done|]. apply backlog_settles in Hs. lia.
Qed.

Lemma nfire_abandon n p l :
  npending n = p :: l →
  ∃ r, nfire api (abandon p) n = Some (settle 0 (request_of p) r n).
Proof. intros Hp. exists Rejected. destruct p; simpl; by rewrite Hp. Qed.

Lemma drain_from k n :
  length (npending n) = k →
  ∃ es, Forall (λ e, of_network e = true) es ∧ npending (nrun api es n) = [].
Proof.
  revert n. induction k as [|k IH]; intros n Hk.
  - exists []. split; [done|]. by apply nil_length_inv.
  - destruct (npending n) as [|p l] eqn:Hp; [done|].
    destruct (nfire_abandon n p l Hp) as [r Hf].
    destruct (IH (settle 0 (request_of p) r n)) as (es & Hes & Hd).
    { simpl. rewrite Hp. simpl in *. lia. }
    exists (abandon p :: es). split; [constructor; [by destruct p|done]|].
    simpl. by rewrite Hf.
Qed.

(** From every state the network can come to rest: some sequence of
    its events leaves no request in flight. *)
Lemma network_drains n :
  ∃ es, Forall (λ e, of_network e = true) es ∧ npending (nrun api es n) = [].
Proof. by apply (drain_from (length (npending n))). Qed.

End termination.

(** ** What was proved of [App] holds here *)

Section transfer.
Context {browser : Browser} (api : jsstring) (w0 : world) (Hw0 : pristine w0).
Implicit Types (n : net) (q : request).

(** C12. Splitting the delivery of a response in two events adds no
    behaviour: every state this machine reaches is, for what [App]
    sees of it, a state [App] reaches, and has its invariant. *)
Theorem two_awaits_refine n :
  nreachable api w0 n →
  reachable api w0 (coarse n) ∧ invariant api w0 (coarse n).
Proof.
  intros Hn%coarse_reachable. split; [done|]. by apply invariant_reachable.
Qed.

(** Every request in flight has been sent, and every request sent is
    well formed for the page. *)
Lemma net_requests_wellformed n q :
  nreachable api w0 n → q ∈ nsent n → wellformed_on api (npage n) q.
Proof.
  intros Hi%coarse_reachable%(invariant_reachable _ _ Hw0) Hq.
  pose proof (inv_sent _ _ _ Hi) as H. rewrite list.Forall_forall in H. by apply H.
Qed.

(** At most one request for the catalog, and it is the oldest in
    flight. *)
Lemma net_catalog_first n :
  nreachable api w0 n → Forall (λ p, is_post (request_of p) = true) (tail (npending n)).
Proof.
  intros Hi%coarse_reachable%(invariant_reachable _ _ Hw0).
  pose proof (inv_inflight_once _ _ _ Hi) as H. simpl in H.
  destruct (npending n) as [|p l]; [done|]. simpl in *. by apply Forall_fmap in H.
Qed.

End transfer.

(** ** From the wire to the selects *)

Section end_to_end.
Context {browser : Browser}.
Implicit Types (w : world) (names : list jsstring).

Lemma loadTypes_resume_names ok names w :
  names ≠ [] → is_Some (doc w !! sel_typeA) → is_Some (doc w !! sel_typeB) →
  exec (loadTypes_resume (Replied ok (Some (VArr (VStr <$> names))))) w
  = show_catalog (VArr (VStr <$> names)) names w.
Proof.
  intros Hne HA HB. unfold exec, loadTypes_resume.
  erewrite try_catch_ok; [done|].
  eapply loadTypes_body_catalog; [|apply type_names_str|done..].
  apply catalog_of_Some. split; [done|]. by destruct names.
Qed.

Lemma offered_show_catalog arr names w :
  is_Some (doc w !! sel_typeA) → is_Some (doc w !! sel_typeB) →
  offered sel_typeA (show_catalog arr names w)
  = select_options (catalog_markup html_promptA names)
  ∧ offered sel_typeB (show_catalog arr names w)
    = select_options (catalog_markup html_promptB names).
Proof.
  intros [ea HA] [eb HB]. unfold offered, show_catalog. split.
  - rewrite !update_el_lookup_ne by done. rewrite update_el_lookup. simpl. by rewrite HA.
  - rewrite update_el_lookup_ne by done. rewrite update_el_lookup.
    rewrite update_el_lookup_ne by done. simpl. by rewrite HB.
Qed.

(** C13. From the wire to the selects: when the body of the answer to
    the request for the catalog is the UTF-8 encoding of a JSON array of
    safe strings (no quote, [<], CR or U+0000, no ampersand before a
    letter, a digit or [#]), whatever the status, each select then
    offers its prompt followed by these strings, and they are the
    catalog of the page. *)
Theorem catalog_from_wire api n n' i url status names :
  npending n !! i = Some (Reading (GetTypes url) status) →
  nstep api n (Body i (utf8_encode (json_names names))) n' →
  names ≠ [] → Forall wf_string names → Forall (λ n, safe_name n = true) names →
  is_Some (doc (npage n) !! sel_typeA) → is_Some (doc (npage n) !! sel_typeB) →
  offered sel_typeA (npage n') = catalog_options text_promptA names
  ∧ offered sel_typeB (npage n') = catalog_options text_promptB names
  ∧ names_of (npage n') = names.
Proof.
  intros Hp Hs Hne Hwf Hsafe HA HB. inversion Hs as [| | | | |? ? q st ? Hq|]; subst.
  rewrite Hp in Hq. injection Hq as <- <-. unfold settle. cbn [npage resume].
  rewrite receive_json_names, loadTypes_resume_names by done.
  destruct (offered_show_catalog (VArr (VStr <$> names)) names (npage n) HA HB) as [-> ->].
  rewrite select_options_promptA, select_options_promptB by done.
  split_and!; [done..|]. unfold names_of. simpl. by rewrite type_names_str.
Qed.

End end_to_end.

(** ** From the selects to the wire *)

Section on_the_wire.
Context {browser : Browser} (api : jsstring) (w0 : world) (Hw0 : pristine w0).
Implicit Types (n : net) (q : request).

(** What the network delivers holds strings of 16-bit code units. *)
Lemma event_of_wf n e e' : event_of n e = Some e' → wf_event e'.
Proof.
  destruct e as [|sel name| |i|i status|i body|i]; cbn [event_of]; try by intros [= <-].
  destruct (npending n !! i) as [[q|q status]|]; [done| |done].
  intros [= <-]. apply (receive_wf (Answered status body)).
Qed.

(** The catalog the page holds is one of 16-bit strings. *)
Lemma types_reachable n : nreachable api w0 n → types_ok (npage n).
Proof.
  induction 1 as [|n e n' _ IH Hs].
  - unfold types_ok. simpl. by destruct Hw0 as (-> & _).
  - apply simulation_step in Hs. destruct (event_of n e) as [e'|] eqn:E.
    + by apply (types_step api (coarse n) e' (coarse n')); [eapply event_of_wf|..].
    + change (types_ok (page (coarse n'))). by rewrite Hs.
Qed.

(** C14. From the selects to the wire: when the names of the catalog the
    page holds are safe, every scoring request ever sent is a POST to
    the scoring URL that declares JSON, and a service that decodes the
    bytes of its body and parses them as JSON finds an object naming two
    non-empty types of that catalog. *)
Theorem requests_on_the_wire n q :
  nreachable api w0 n → Forall (λ t, safe_name t = true) (names_of (npage n)) →
  q ∈ nsent n → is_post q = true →
  ∃ a b, a ∈ names_of (npage n) ∧ b ∈ names_of (npage n) ∧ a ≠ [] ∧ b ≠ []
         ∧ msg_method (transmit q) = str_POST
         ∧ msg_url (transmit q) = score_url api
         ∧ msg_content_type (transmit q) = Some str_json_type
         ∧ json_parse (utf8_decode (msg_body (transmit q))) = Some (score_object a b).
Proof.
  intros Hn Hsafe Hq Hp. pose proof (names_of_wf _ (types_reachable n Hn)) as Hwf.
  pose proof (sent_for_catalog api w0 Hw0 (coarse n) q (coarse_reachable api w0 n Hn) Hsafe Hq)
    as Hw.
  destruct q as [url|url body]; [done|]. destruct Hw as (-> & a & b & Ha & Hb & ? & ? & ->).
  rewrite list.Forall_forall in Hwf. exists a, b. split_and!; [done..|].
  apply score_body_received; by apply Hwf.
Qed.

End on_the_wire.

(** ** Concrete runs *)

Section examples.
#[local] Existing Instance reference_browser.

(** The sample session at the point where the status of the score has
    arrived and the body has not: the note reads "in progress", the
    request is being read. *)
Example wire_session :
  let n := nrun demo_api wire_events (nstart demo_page) in
  npending n = [Reading (PostScore (score_url demo_api) (score_body (js "A") (js "B"))) 200]
  ∧ shown sel_note (coarse n) = Some (Text msg_scoring)
  ∧ names_of (npage n) = [js "A"; js "B"].
Proof. by_compute. Qed.

(** The body arrives: the result is on the page. *)
Example wire_result :
  let n := nrun demo_api (wire_events ++ [Body 0 wire_payload]) (nstart demo_page) in
  npending n = []
  ∧ shown sel_summaryTitle (coarse n) = Some (Text (js "A / X"))
  ∧ shown sel_confNum (coarse n) = Some (Text (js "87.6%"))
  ∧ shown sel_note (coarse n) = Some (Text []).
Proof. by_compute. Qed.

(** A click between the two awaits of a response: two requests in
    flight, the older being read and the newer being fetched. *)
Example click_between_awaits :
  let n := nrun demo_api (wire_events ++ [Press]) (nstart demo_page) in
  weight <$> npending n = [1; 2]%nat ∧ backlog n = 3%nat ∧ length (nsent n) = 3%nat.
Proof. by_compute. Qed.

(** An error status with a detail, and an error status whose body is
    not JSON. *)
Example wire_error_detail :
  let n := nrun demo_api
             [Ready; Headers 0 200; Body 0 wire_catalog;
              Pick sel_typeA (js "A"); Pick sel_typeB (js "B"); Press;
              Headers 0 422; Body 0 wire_error] (nstart demo_page) in
  shown sel_note (coarse n) = Some (Text (js "エラー: unknown type")).
Proof. by_compute. Qed.

Example wire_error_html :
  let n := nrun demo_api
             [Ready; Headers 0 200; Body 0 wire_catalog;
              Pick sel_typeA (js "A"); Pick sel_typeB (js "B"); Press;
              Headers 0 502; Body 0 (utf8_encode (js "<html>Bad Gateway</html>"))] (nstart demo_page) in
  shown sel_note (coarse n) = Some (Text msg_comm_error).
Proof. by_compute. Qed.

(** The catalog with a status of 500 is accepted all the same. *)
Example wire_catalog_status_ignored :
  let n := nrun demo_api [Ready; Headers 0 500; Body 0 wire_catalog] (nstart demo_page) in
  names_of (npage n) = [js "A"; js "B"] ∧ shown sel_note (coarse n) = Some (Text []).
Proof. by_compute. Qed.

(** Names that are not ASCII and a byte order mark before the array:
    the names come out as they were written.  A byte that is no UTF-8
    makes a name of U+FFFD. *)
Example wire_catalog_unicode :
  let n := nrun demo_api [Ready; Headers 0 200; Body 0 wire_catalog_bom] (nstart demo_page) in
  let n' := nrun demo_api [Ready; Headers 0 200; Body 0 [91; 34; 0xFF; 34; 93]%N]
              (nstart demo_page) in
  names_of (npage n) = [js "外向"; js "内向"] ∧ names_of (npage n') = [[0xFFFD%N]].
Proof. by_compute. Qed.

Lemma two_awaits_refine_witness :
  let n := nrun demo_api wire_events (nstart demo_page) in
  reachable demo_api demo_page (coarse n) ∧ invariant demo_api demo_page (coarse n).
Proof.
  apply (two_awaits_refine demo_api demo_page (pristine_world0 _)).
  apply nreachable_run.
Defined.

Lemma requests_on_the_wire_witness :
  let n := nrun demo_api wire_events (nstart demo_page) in
  let q := PostScore (score_url demo_api) (score_body (js "A") (js "B")) in
  ∃ a b, a ∈ names_of (npage n) ∧ b ∈ names_of (npage n) ∧ a ≠ [] ∧ b ≠ []
         ∧ msg_method (transmit q) = str_POST
         ∧ msg_url (transmit q) = score_url demo_api
         ∧ msg_content_type (transmit q) = Some str_json_type
         ∧ json_parse (utf8_decode (msg_body (transmit q))) = Some (score_object a b).
Proof.
  apply (requests_on_the_wire demo_api demo_page (pristine_world0 _)
           (nrun demo_api wire_events (nstart demo_page)));
    [apply nreachable_run | vm_compute; by repeat constructor | compute_done | done].
Defined.

Lemma catalog_from_wire_witness :
  let n := nrun demo_api [Ready; Headers 0 200] (nstart demo_page) in
  let n' := nrun demo_api [Body 0 (utf8_encode (json_names [js "A"; js "B C"]))] n in
  offered sel_typeA (npage n') = catalog_options text_promptA [js "A"; js "B C"]
  ∧ offered sel_typeB (npage n') = catalog_options text_promptB [js "A"; js "B C"]
  ∧ names_of (npage n') = [js "A"; js "B C"].
Proof.
  apply (catalog_from_wire demo_api
           (nrun demo_api [Ready; Headers 0 200] (nstart demo_page))
           (nrun demo_api [Body 0 (utf8_encode (json_names [js "A"; js "B C"]))]
              (nrun demo_api [Ready; Headers 0 200] (nstart demo_page)))
           0 (types_url demo_api) 200 [js "A"; js "B C"]);
    [by vm_compute | apply nfire_step; by vm_compute | done | by repeat constructor
    | by repeat constructor | vm_compute; by eexists..].
Defined.

End examples.
