(* ===== verification/Service.v ===== *)
(** * Service: the scoring service and the page that talks to it
    (specification, sections 3, 4.3, 4.4 and 6)

    The service is not part of [src/]: the script only calls it.  This
    file models it from the specification, as far as the specification
    describes it, and closes the loop that [Network] leaves open.

    - The payload of section 3 is a record ([payload]) with the fields
      the specification lists, absent ones as [None]; [conforming] is
      what the specification says of their values; [payload_value] is
      the JSON object the service sends, an absent field left out or
      sent as [null].  [display_of] is the display model of section
      4.3, written on the record.
    - A service ([service]) is a catalog and a function that scores two
      types or refuses with a status and an optional detail.  What it
      does with a request outside the two endpoints, or with a body
      that is not the object of two types, the specification does not
      say: [serve] answers [None] there.
    - The encoder of the service is an interface ([Encoder]): any
      function from values to bytes that [res.json()] reads back.  The
      printer of [Stringify] followed by UTF-8 is an instance.
    - The closed system ([cstep]) is the machine of [Network] with the
      network restricted to what the service answers: for each
      request the status and the bytes of the answer of [serve].  The
      user still does what they like, and a request can still fail.

    The theorems hold for every service that sends strings of 16-bit
    code units, names that need no escaping in the option markup, and
    answers as section 6 says ([service_ok]), and for every encoder.
    On a conforming payload the script computes the display model of
    the specification, except that the confidence is not rounded
    ([render_conforming]); every state of the closed system is a
    state of [Network] ([creachable_open]); the catalog the page holds
    is the one of the service, and the statuses it holds are those
    the service gave ([page_knows_service]); every request the page
    sends is one the service answers, a scoring request naming two
    types of the catalog ([requests_understood]); the answer to a
    request in flight can always arrive ([service_replies]); and when
    the body of the answer to a scoring request arrives the page
    shows the result the service computed for the two types of the
    request, or the note of its refusal ([answer_shown]).  The last
    theorem ([visit_shown]) runs a whole visit: from the page as its
    markup declares it, through the catalog, two picks and a click,
    to the page that shows the answer of the service. *)

From stdpp Require Import gmap strings.
From S2P Require Import Prelude Effects JsString JsNumber JsValue Tokenizer Markup SplitBody Dom.
From S2P Require Import Api Utf8 Json Stringify Render Catalog Score App Observe Network.

(** ** The payload (section 3) *)

Record payload := Payload {
  pl_top : jsstring;                 (* macro.top *)
  pl_second : option jsstring;       (* macro.second *)
  pl_margin : option number;         (* macro.margin *)
  pl_type : jsstring;                (* micro.type *)
  pl_scores : list number;           (* scores, in the order of the axes *)
  pl_catch : option jsstring;        (* copy.catch *)
  pl_body : option jsstring;         (* copy.body *)
  pl_confidence : number             (* confidence *)
}.

(** A number the service sends: one that prints, and is not negative. *)
Definition amount (x : number) : bool := prints x && num_leb pzero x.

Definition text (s : jsstring) : bool := bool_decide (wf_string s).

(** What section 3 says of the fields: five scores that are not
    negative, a confidence from 0 to 100. *)
Definition conforming (p : payload) : bool :=
  text (pl_top p) && from_option text true (pl_second p)
  && from_option amount true (pl_margin p) && text (pl_type p)
  && bool_decide (length (pl_scores p) = 5%nat) && forallb amount (pl_scores p)
  && from_option text true (pl_catch p) && from_option text true (pl_body p)
  && amount (pl_confidence p) && num_leb (pl_confidence p) num_100.

(** An optional member: left out or [null] when absent. *)
Definition optional (omit : bool) (k : jsstring) (v : option value)
    : list (jsstring * value) :=
  match v with
  | Some v => [(k, v)]
  | None => if omit then [] else [(k, VNull)]
  end.

(** The JSON object of a payload. *)
Definition payload_value (omit : bool) (p : payload) : value :=
  VObj [(k_macro, VObj ((k_top, VStr (pl_top p))
                        :: optional omit k_second (VStr <$> pl_second p)
                        ++ optional omit k_margin (VNum <$> pl_margin p)));
        (k_micro, VObj [(k_type, VStr (pl_type p))]);
        (k_scores, VObj (zip axis_labels (VNum <$> pl_scores p)));
        (k_copy, VObj (optional omit k_catch (VStr <$> pl_catch p)
                       ++ optional omit k_body (VStr <$> pl_body p)));
        (k_confidence, VNum (pl_confidence p))].

(** ** The display model (section 4.3) *)

Definition or_else_text (d s : jsstring) : jsstring := if is_nil s then d else s.

(** Hybrid: a runner-up that is present and not empty, and a margin
    that is present and at most 0.06. *)
Definition is_hybrid (p : payload) : bool :=
  match pl_second p, pl_margin p with
  | Some (_ :: _), Some m => num_leb m num_006
  | _, _ => false
  end.

Definition display_of (p : payload) : display_model :=
  let parts := splitBody_str (default [] (pl_body p)) in
  DisplayModel
    (or_else_text str_dash (pl_top p) ++ str_sep ++ or_else_text str_dash (pl_type p))
    (default [] (pl_catch p))
    (is_hybrid p)
    (VNum <$> pl_scores p)
    (or_else_text str_emdash parts.1)
    (or_else_text str_emdash parts.2)
    (pl_confidence p).

(** A payload as the specification's scenario has it. *)
Definition sample_scored : payload :=
  Payload (js "A") (Some (js "B")) (Some (of_decimal false 3 (-2))) (js "X")
    (of_Z <$> [150; 80; 60; 140; 100]%Z) (Some (js "hi"))
    (Some (js "Strength text\n—\nCaution text")) (of_decimal false 876 (-1)).

(** ** The service (sections 4.4 and 6) *)

(** What the scoring endpoint answers: a payload, or a status that is
    no success with an optional detail. *)
Inductive answer :=
  | Scored (p : payload)
  | Refused (status : N) (detail : option jsstring).

Record service := Service {
  svc_types : list jsstring;                   (* GET {base}/types *)
  svc_score : jsstring → jsstring → answer;    (* POST {base}/score *)
  svc_omit : bool                              (* absent fields are left out *)
}.

(** The body of a refusal: an object with the detail, if there is one. *)
Definition error_value (detail : option jsstring) : value :=
  VObj (optional true k_detail (VStr <$> detail)).

(** The status and the JSON value of an answer. *)
Definition answer_value (omit : bool) (a : answer) : N * value :=
  match a with
  | Scored p => (200%N, payload_value omit p)
  | Refused status detail => (status, error_value detail)
  end.

(** An answer as section 6 has it: a conforming payload, or a status
    outside 200-299 with a detail of 16-bit code units. *)
Definition answer_ok (a : answer) : bool :=
  match a with
  | Scored p => conforming p
  | Refused status detail => negb (status_ok status) && from_option text true detail
  end.

(** The two types a scoring request names: the members [typeA] and
    [typeB] of the JSON object in its body, when they are strings. *)
Definition asked (body : list N) : option (jsstring * jsstring) :=
  v ← json_parse (utf8_decode body);
  match opt_get v k_typeA, opt_get v k_typeB with
  | VStr a, VStr b => Some (a, b)
  | _, _ => None
  end.

(** The service on a message: the catalog for the GET of [types], the
    answer of [svc_score] for the POST to [score] of two types.  On any
    other message the specification does not say what it does. *)
Definition serve (svc : service) (api : jsstring) (m : message) : option (N * value) :=
  if bool_decide (msg_method m = str_GET ∧ msg_url m = types_url api)
  then Some (200%N, VArr (VStr <$> svc_types svc))
  else if bool_decide (msg_method m = str_POST ∧ msg_url m = score_url api)
  then '(a, b) ← asked (msg_body m); Some (answer_value (svc_omit svc) (svc_score svc a b))
  else None.

(** A service the page can work with: the names of its catalog are
    16-bit strings that the option markup does not garble, and it
    answers as section 6 says for every two types of the catalog. *)
Definition service_ok (svc : service) : bool :=
  forallb text (svc_types svc) && forallb safe_name (svc_types svc)
  && forallb (λ a, forallb (λ b, answer_ok (svc_score svc a b)) (svc_types svc))
       (svc_types svc).

(** What the page shows for an answer: the result, or the note of the
    refusal. *)
Definition shows_answer (a : answer) (w : world) : world :=
  match a with
  | Scored p => present (display_of p) (show_note [] w)
  | Refused _ detail =>
    show_note (msg_error_prefix ++ or_else_text str_unknown (default [] detail)) w
  end.

(** ** The encoder *)

(** The service turns the value of an answer into the bytes of a body.
    Whatever it uses for that, [res.json()] must read the value back. *)
Class Encoder := {
  encode : value → list N;
  encode_received status v :
    sendable v = true →
    receive (Answered status (encode v)) = Replied (status_ok status) (Some v)
}.

(** [JSON.stringify] and UTF-8. *)
Definition print_bytes (v : value) : list N := utf8_encode (default [] (json_stringify v)).

Definition reference_encoder : Encoder := {|
  encode := print_bytes;
  encode_received status v Hv :=
    ltac:(unfold print_bytes; destruct (stringify_parses v Hv) as (t & Et & _);
          rewrite Et; by apply stringify_received)
|}.

(** ** The closed system *)

Section closed.
Context {browser : Browser} {encoder : Encoder} (svc : service) (api : jsstring) (w0 : world).

(** What the service answers to a request of the page. *)
Definition answers (q : request) : option (N * value) := serve svc api (transmit q).

(** The events the service allows: the status and the body of a
    request in flight are those of its answer.  The user does what they
    like and the network may still fail. *)
Definition permits (n : net) (e : signal) : bool :=
  match e with
  | Headers i status =>
    bool_decide (npending n !! i ≫= (λ p, fst <$> answers (request_of p)) = Some status)
  | Body i body =>
    bool_decide (npending n !! i ≫= (λ p, encode ∘ snd <$> answers (request_of p))
                 = Some body)
  | _ => true
  end.

(** The machine of [Network] restricted to these events. *)
Definition cstep (n : net) (e : signal) (n' : net) : Prop :=
  permits n e = true ∧ nstep api n e n'.

Inductive creachable : net → Prop :=
  | creachable_start : creachable (nstart w0)
  | creachable_step n e n' : creachable n → cstep n e n' → creachable n'.

Definition cfire (e : signal) (n : net) : option net :=
  if permits n e then nfire api e n else None.

Definition crun (es : list signal) (n : net) : net :=
  foldl (λ n e, default n (cfire e n)) n es.

(** The status the page knows of a request being read is the status of
    the answer of the service. *)
Definition read_right (p : pending) : Prop :=
  match p with
  | Fetching _ => True
  | Reading q status => fst <$> answers q = Some status
  end.

(** The catalog the page holds: none yet, or the one of the service. *)
Definition holds_catalog (w : world) : Prop :=
  st_types w = VArr [] ∨ st_types w = VArr (VStr <$> svc_types svc).

(** The event with which the service answers the [i]-th request in
    flight: its status, then its body. *)
Definition reply (n : net) (i : nat) : option signal :=
  p ← npending n !! i;
  '(status, v) ← answers (request_of p);
  Some (match p with Fetching _ => Headers i status | Reading _ _ => Body i (encode v) end).

End closed.

(** ** A visit *)

(** What happens when a user opens the page, waits for the catalog,
    picks [a] and [b] and clicks, and the service answers: the events,
    in order. *)
Definition visit {encoder : Encoder} (svc : service) (a b : jsstring) : list signal :=
  let r := answer_value (svc_omit svc) (svc_score svc a b) in
  [Ready; Headers 0 200%N; Body 0 (encode (VArr (VStr <$> svc_types svc)));
   Pick sel_typeA a; Pick sel_typeB b; Press; Headers 0 r.1; Body 0 (encode r.2)].

Section pages.
Context {browser : Browser}.

(** The page once [init] has run: the button listens and the selects
    show the placeholder. *)
Definition ready_page (w0 : world) : world :=
  show_loading (update_el sel_run (with_click [HRunScore]) w0).

(** The page [w] once the catalog [names] has arrived and the user has
    picked [a] and [b] and clicked. *)
Definition asked_page (names : list jsstring) (a b : jsstring) (w : world) : world :=
  show_note msg_scoring
    (update_el sel_typeB (with_value b)
       (update_el sel_typeA (with_value a)
          (show_catalog (VArr (VStr <$> names)) names w))).

End pages.

(** ** A sample service *)

(** Two types; a pair of the same type is refused. *)
Definition sample_service : service :=
  Service [js "A"; js "B"]
    (λ a b, if bool_decide (a = b) then Refused 422%N (Some (js "same type"))
            else Scored sample_scored)
    true.

(** ** Payloads *)

Section payloads.
Implicit Types (p : payload) (omit : bool) (x : number).

Lemma amount_inv x :
  amount x = true → prints x = true ∧ num_leb pzero x = true ∧ is_nan x = false
  ∧ is_neg_zero x = false.
Proof.
  unfold amount. intros [Hp Hx]%andb_true_iff. split_and!; [done..| |];
    by destruct x as [[]| | |].
Qed.

Lemma payload_top omit p :
  opt_get (opt_get (payload_value omit p) k_macro) k_top = VStr (pl_top p).
Proof. done. Qed.

Lemma payload_type omit p :
  opt_get (opt_get (payload_value omit p) k_micro) k_type = VStr (pl_type p).
Proof. done. Qed.

Lemma payload_second omit p :
  opt_get (opt_get (payload_value omit p) k_macro) k_second
  = from_option VStr (if omit then VUndef else VNull) (pl_second p).
Proof. unfold payload_value. by destruct (pl_second p), (pl_margin p), omit. Qed.

Lemma payload_margin omit p :
  opt_get (opt_get (payload_value omit p) k_macro) k_margin
  = from_option VNum (if omit then VUndef else VNull) (pl_margin p).
Proof. unfold payload_value. by destruct (pl_second p), (pl_margin p), omit. Qed.

Lemma payload_catch omit p :
  opt_get (opt_get (payload_value omit p) k_copy) k_catch
  = from_option VStr (if omit then VUndef else VNull) (pl_catch p).
Proof. unfold payload_value. by destruct (pl_catch p), (pl_body p), omit. Qed.

Lemma payload_body omit p :
  opt_get (opt_get (payload_value omit p) k_copy) k_body
  = from_option VStr (if omit then VUndef else VNull) (pl_body p).
Proof. unfold payload_value. by destruct (pl_catch p), (pl_body p), omit. Qed.

Lemma payload_scores omit p :
  get_prop (payload_value omit p) k_scores
  = Ok (VObj (zip axis_labels (VNum <$> pl_scores p))).
Proof. done. Qed.

Lemma payload_confidence omit p :
  opt_get (payload_value omit p) k_confidence = VNum (pl_confidence p).
Proof. done. Qed.

Lemma text_value omit (o : option jsstring) :
  js_or (from_option VStr (if omit then VUndef else VNull) o) (VStr []) = VStr (default [] o).
Proof. by destruct o as [[|c s]|], omit. Qed.

Lemma is_hybrid_value omit p :
  has_hybrid (from_option VStr (if omit then VUndef else VNull) (pl_second p))
    (from_option VNum (if omit then VUndef else VNull) (pl_margin p))
  = Ok (is_hybrid p).
Proof.
  unfold is_hybrid, has_hybrid. destruct (pl_second p) as [[|c s]|], (pl_margin p), omit; done.
Qed.

Lemma scores_value (xs : list number) :
  length xs = 5%nat → axis_data (VObj (zip axis_labels (VNum <$> xs))) = Ok (VNum <$> xs).
Proof. by destruct xs as [|x1 [|x2 [|x3 [|x4 [|x5 [|x6 xs]]]]]]. Qed.

Lemma confidence_value x :
  amount x = true → num_leb x num_100 = true →
  to_number (js_or (VNum x) (VNum pzero)) = Ok x ∧ clamp_conf x = x.
Proof.
  intros (_ & H0 & Hn & Hz)%amount_inv H100. split.
  - by destruct x as [[]| | |].
  - rewrite clamp_conf_in_range by done. by destruct x as [[]| | |].
Qed.

(** On a conforming payload the display values the script computes
    are those of [display_of]: nothing throws and no default other
    than the documented ones is used. *)
Lemma interpret_payload omit p :
  conforming p = true → interpret (payload_value omit p) = Ok (display_of p).
Proof.
  unfold conforming. rewrite !andb_true_iff.
  intros (((((((((_ & _) & _) & _) & Hlen%bool_decide_eq_true) & _) & _) & _) & Hc) & H100).
  destruct (confidence_value _ Hc H100) as [Hn Hclamp].
  unfold interpret, title_of.
  rewrite payload_top, payload_type, payload_second, payload_margin, payload_catch,
    payload_body, payload_scores, payload_confidence, !text_value, is_hybrid_value, Hn.
  rewrite !to_string_text_or by done.
  cbn [mbind outcome_bind js_or to_boolean dom_string to_string].
  rewrite scores_value, splitBody_string by done.
  cbn [mbind outcome_bind fst snd]. rewrite !card_text_str, Hclamp.
  unfold display_of, or_else_text. by destruct (pl_top p), (pl_type p).
Qed.

End payloads.

(** ** What the service sends *)

Section sending.
Implicit Types (p : payload) (a : answer) (names : list jsstring) (omit : bool).

Lemma sendable_names names : Forall wf_string names → sendable (VArr (VStr <$> names)) = true.
Proof.
  intros H. cbn [sendable]. apply forallb_Forall, Forall_fmap.
  eapply list.Forall_impl; [exact H|]. intros s Hs. simpl. by apply bool_decide_eq_true.
Qed.

Lemma sendable_payload omit p : conforming p = true → sendable (payload_value omit p) = true.
Proof.
  unfold conforming, amount, text. rewrite !andb_true_iff.
  intros (((((((((Ht & Hs) & Hm) & Hty) & Hlen%bool_decide_eq_true) & Hsc) & Hca) & Hb)
          & Hc & _) & _).
  destruct p as [top second margin type scores catch body conf]. simpl in *.
  destruct scores as [|x1 [|x2 [|x3 [|x4 [|x5 [|x6 xs]]]]]]; try done.
  simpl in Hsc. rewrite !andb_true_iff in Hsc.
  destruct Hsc as ([H1 _] & [H2 _] & [H3 _] & [H4 _] & [H5 _] & _).
  unfold payload_value. cbn [sendable]. simpl. rewrite Ht, Hty, Hc, H1, H2, H3, H4, H5.
  destruct second, margin as [m|], catch, body, omit; simpl in *; rewrite ?Hs, ?Hca, ?Hb;
    try (apply andb_true_iff in Hm as [-> _]); by vm_compute.
Qed.

Lemma sendable_answer omit a : answer_ok a = true → sendable (answer_value omit a).2 = true.
Proof.
  destruct a as [p|status [d|]]; cbn [answer_ok answer_value snd]; [apply sendable_payload| |done].
  intros [_ Hd]%andb_true_iff. unfold error_value. simpl in *. unfold text in Hd. by rewrite Hd.
Qed.

End sending.

(** ** What the service answers *)

Section serving.
Context (svc : service) (api : jsstring).
Implicit Types (q : request) (a b : jsstring).

Lemma asked_score_body a b :
  wf_string a → wf_string b → asked (utf8_encode (score_body a b)) = Some (a, b).
Proof. intros Ha Hb. unfold asked. by rewrite score_body_received. Qed.

Lemma answers_get :
  answers svc api (GetTypes (types_url api)) = Some (200%N, VArr (VStr <$> svc_types svc)).
Proof. unfold answers, serve. simpl. by rewrite bool_decide_eq_true_2. Qed.

Lemma answers_post a b :
  wf_string a → wf_string b →
  answers svc api (PostScore (score_url api) (score_body a b))
  = Some (answer_value (svc_omit svc) (svc_score svc a b)).
Proof.
  intros Ha Hb. unfold answers, serve. cbn [transmit msg_method msg_url msg_body].
  rewrite bool_decide_eq_false_2 by (by intros [? _]).
  rewrite bool_decide_eq_true_2 by done. by rewrite asked_score_body.
Qed.

Lemma answers_get_inv url status v :
  answers svc api (GetTypes url) = Some (status, v) → v = VArr (VStr <$> svc_types svc).
Proof.
  unfold answers, serve. cbn [transmit msg_method msg_url].
  case_bool_decide; [by intros [= _ <-]|].
  rewrite bool_decide_eq_false_2; [done|]. by intros [? _].
Qed.

Lemma service_ok_inv :
  service_ok svc = true →
  Forall wf_string (svc_types svc) ∧ Forall (λ n, safe_name n = true) (svc_types svc)
  ∧ ∀ a b, a ∈ svc_types svc → b ∈ svc_types svc → answer_ok (svc_score svc a b) = true.
Proof.
  unfold service_ok. rewrite !andb_true_iff, !forallb_Forall.
  intros [[Hwf Hsafe] Hok]. split_and!; [|done|].
  - eapply list.Forall_impl; [exact Hwf|]. intros s. apply bool_decide_eq_true.
  - intros a b Ha Hb. rewrite list.Forall_forall in Hok. specialize (Hok a Ha).
    rewrite forallb_Forall, list.Forall_forall in Hok. by apply Hok.
Qed.

(** The service answers every request that is well formed for its
    catalog, with a value its encoder can send. *)
Lemma wellformed_answered q :
  service_ok svc = true → wellformed api (svc_types svc) (svc_types svc) q →
  ∃ r, answers svc api q = Some r ∧ sendable r.2 = true.
Proof.
  intros (Hwf & _ & Hok)%service_ok_inv Hq. rewrite list.Forall_forall in Hwf.
  destruct q as [url|url body].
  - simpl in Hq. subst url. eexists. split; [apply answers_get|].
    apply sendable_names. by apply list.Forall_forall.
  - destruct Hq as (-> & a & b & Ha & Hb & _ & _ & ->). eexists.
    split; [apply answers_post; by apply Hwf|]. apply sendable_answer. by apply Hok.
Qed.

End serving.

(** ** The closed system *)

Section closed_machine.
Context {browser : Browser} {encoder : Encoder} (svc : service) (api : jsstring) (w0 : world).
Implicit Types (n : net) (e : signal) (p : pending) (q : request) (w : world).

Lemma cfire_step e n n' : cfire svc api e n = Some n' ↔ cstep svc api n e n'.
Proof.
  unfold cfire, cstep. rewrite <-nfire_step.
  destruct (permits svc api n e); [tauto|]. split; [done|]. by intros [].
Qed.

(** Every state of the closed system is a state of [Network]. *)
Lemma creachable_open n : creachable svc api w0 n → nreachable api w0 n.
Proof. induction 1 as [|n e n' _ IH [_ Hs]]; [constructor|by eapply nreachable_step]. Qed.

Lemma creachable_run_from es n :
  creachable svc api w0 n → creachable svc api w0 (crun svc api es n).
Proof.
  revert n. induction es as [|e es IH]; intros n Hn; [done|]. simpl. apply IH.
  destruct (cfire svc api e n) as [n'|] eqn:E; [|done].
  eapply creachable_step; [done|]. by apply cfire_step.
Qed.

Lemma creachable_run es : creachable svc api w0 (crun svc api es (nstart w0)).
Proof. apply creachable_run_from. constructor. Qed.

(** The status of a request being read is the one the service gave. *)
Lemma read_right_reachable n : creachable svc api w0 n → Forall (read_right svc api) (npending n).
Proof.
  induction 1 as [|n e n' _ IH [Hp Hs]]; [constructor|].
  destruct Hs; cbn [npending issue settle];
    try done; try (by apply Forall_delete);
    try (apply Forall_app; split; [done|]; by apply Forall_fmap, Forall_true).
  apply Forall_insert; [done|]. simpl in Hp. apply bool_decide_eq_true in Hp.
  match goal with H : npending _ !! _ = Some _ |- _ => by rewrite H in Hp end.
Qed.

End closed_machine.

(** ** The catalog the page holds *)

Section catalog_held.
Context {browser : Browser} {encoder : Encoder} (svc : service) (api : jsstring) (w0 : world).
Context (Hw0 : pristine w0) (Hsvc : service_ok svc = true).
Implicit Types (n : net) (e : signal) (p : pending) (q : request) (w : world).

#[local] Instance holds_catalog_kept : Kept (keeps (holds_catalog svc)).
Proof. split; [split|]; unfold keeps; [by intros w | intros w1 w2 w3; tauto | done]. Qed.

Lemma draws_holds_catalog : draws (keeps (holds_catalog svc)).
Proof. by intros points w _ H. Qed.

Lemma stores_rejected keep : stores keep Rejected.
Proof. by intros ok arr w. Qed.

(** The continuation of a scoring request stores nothing. *)
Lemma resume_holds q r w :
  (is_post q = false → stores (keeps (holds_catalog svc)) r) →
  holds_catalog svc w → holds_catalog svc (exec (resume q r) w).
Proof.
  intros Hr. destruct q as [url|url body]; simpl.
  - by destruct (preserves_loadTypes_resume (keeps (holds_catalog svc)) catalog_selectors r
                   (Hr eq_refl) (reflexivity _) w) as (_ & _ & H).
  - by destruct (preserves_runScore_resume (keeps (holds_catalog svc)) score_selectors r
                   draws_holds_catalog (reflexivity _) w) as (_ & _ & H).
Qed.

(** What the service sends for the catalog can be stored. *)
Lemma stores_answer q status status' v :
  is_post q = false → answers svc api q = Some (status', v) →
  stores (keeps (holds_catalog svc)) (receive (Answered status (encode v))).
Proof.
  destruct q as [url|]; [|done]. intros _ ->%answers_get_inv.
  destruct (service_ok_inv svc Hsvc) as (Hwf & _).
  rewrite encode_received by by apply sendable_names.
  intros ok arr w [= _ <-] _. by right.
Qed.

Lemma cstep_holds n e n' :
  cstep svc api n e n' → holds_catalog svc (npage n) → holds_catalog svc (npage n').
Proof.
  intros [Hp Hs]. destruct Hs as [n Hl|n sel name Hc|n el Hel|n i q Hq|n i q st Hq
                                 |n i q st body Hq|n i q st Hq];
    cbn [npage issue settle fst]; try done;
    try (apply resume_holds; intros; apply stores_rejected).
  - apply (dispatch_kept api (keeps (holds_catalog svc))).
  - apply (dispatch_kept api (keeps (holds_catalog svc))).
  - apply resume_holds. intros Hpost. simpl in Hp. apply bool_decide_eq_true in Hp.
    rewrite Hq in Hp. simpl in Hp.
    destruct (answers svc api q) as [[st' v]|] eqn:E; [|done]. injection Hp as <-.
    by apply (stores_answer q st st' v).
Qed.

Lemma holds_reachable n : creachable svc api w0 n → holds_catalog svc (npage n).
Proof.
  induction 1 as [|n e n' _ IH Hs]; [left; apply Hw0|by eapply cstep_holds].
Qed.

Lemma names_of_holds w :
  holds_catalog svc w → names_of w = [] ∨ names_of w = svc_types svc.
Proof. unfold names_of. intros [->| ->]; [by left|right]. by rewrite type_names_str. Qed.

End catalog_held.

(** ** The requests of the page *)

Section requests.
Context {browser : Browser} {encoder : Encoder} (svc : service) (api : jsstring) (w0 : world).
Context (Hw0 : pristine w0) (Hsvc : service_ok svc = true).
Implicit Types (n : net) (e : signal) (p : pending) (q : request) (w : world).

(** Every request the page has sent is well formed for the catalog of
    the service. *)
Lemma sent_asked n q :
  creachable svc api w0 n → q ∈ nsent n → wellformed api (svc_types svc) (svc_types svc) q.
Proof.
  intros Hn Hq. destruct (service_ok_inv svc Hsvc) as (_ & Hsafe & _).
  pose proof (names_of_holds svc _ (holds_reachable svc api w0 Hw0 Hsvc n Hn)) as Hnames.
  pose proof (coarse_reachable api w0 n (creachable_open svc api w0 n Hn)) as Hr.
  assert (Forall (λ t, safe_name t = true) (names_of (npage n))) as Hs
    by (by destruct Hnames as [-> | ->]).
  pose proof (sent_for_catalog api w0 Hw0 (coarse n) q Hr Hs Hq) as Hw.
  destruct q as [url|url body]; [done|]. cbn [wellformed coarse page] in Hw.
  destruct Hnames as [E|E]; rewrite E in Hw; [|done].
  by destruct Hw as (_ & a & b & Ha%elem_of_nil & _).
Qed.

Lemma pending_sent n i p :
  creachable svc api w0 n → npending n !! i = Some p → request_of p ∈ nsent n.
Proof.
  intros Hn Hp.
  pose proof (invariant_reachable api w0 Hw0 _
                (coarse_reachable api w0 n (creachable_open svc api w0 n Hn))) as Hi.
  apply (λ H, elem_of_sublist _ _ _ H (inv_inflight _ _ _ Hi)). simpl.
  apply list_elem_of_fmap. exists p. split; [done|]. by eapply list_elem_of_lookup_2.
Qed.


End requests.

(** ** What the page shows *)

Section shown.
Context {browser : Browser}.
Implicit Types (a : answer) (p : payload) (w : world) (omit : bool).

Lemma error_note_refused detail :
  error_note (error_value detail)
  = Ok (msg_error_prefix ++ or_else_text str_unknown (default [] detail)).
Proof.
  destruct detail as [d|]; [by rewrite (error_note_detail _ d)|].
  by rewrite error_note_no_detail.
Qed.

(** The continuation of [runScore] on the answer of the service as it
    is received. *)
Lemma resume_answer omit a w :
  answer_ok a = true → has_elements required_selectors w →
  exec (runScore_resume
          (Replied (status_ok (answer_value omit a).1) (Some (answer_value omit a).2))) w
  = shows_answer a w.
Proof.
  intros Ha He. unfold exec. destruct a as [p|status detail]; cbn [answer_value fst snd].
  - erewrite runScore_resume_render; [done|]. apply renderResult_refines.
    + by apply has_elements_show_note.
    + by apply interpret_payload.
  - simpl in Ha. apply andb_true_iff in Ha as [->%negb_true_iff _].
    by rewrite (runScore_resume_error _ _ w (error_note_refused detail)).
Qed.

(** C16. On a payload that conforms to section 3, whether the service
    leaves absent fields out or sends them as [null], [renderResult]
    completes and the page is the presentation of the display model of
    section 4.3, with the confidence as it was sent. *)
Theorem render_conforming omit p w :
  conforming p = true → has_elements required_selectors w →
  renderResult (payload_value omit p) w = (Ok (), present (display_of p) w).
Proof. intros Hp He. apply renderResult_refines; [done|]. by apply interpret_payload. Qed.

End shown.

Section end_to_end.
Context {browser : Browser} {encoder : Encoder} (svc : service) (api : jsstring) (w0 : world).
Context (Hw0 : pristine w0) (Hsvc : service_ok svc = true).
Implicit Types (n : net) (e : signal) (p : pending) (q : request) (w : world).

(** C21. The page knows what the service said and nothing else: in
    every state of the closed system the catalog it holds is the one
    of the service, or none yet, and the status of every request being
    read is the status of the answer of the service to that request. *)
Theorem page_knows_service n :
  creachable svc api w0 n →
  (names_of (npage n) = [] ∨ names_of (npage n) = svc_types svc)
  ∧ Forall (read_right svc api) (npending n).
Proof.
  intros Hn. split; [|by apply (read_right_reachable svc api w0)].
  by apply names_of_holds, (holds_reachable svc api w0).
Qed.

(** C15. The page asks the service nothing it does not understand:
    every request ever sent in the closed system has an answer, which
    the encoder can send; a scoring request is the POST of two
    non-empty types of the catalog of the service, and its answer is
    what [svc_score] says of these two. *)
Theorem requests_understood n q :
  creachable svc api w0 n → q ∈ nsent n →
  ∃ r, answers svc api q = Some r ∧ sendable r.2 = true
       ∧ (is_post q = true →
          ∃ a b, a ∈ svc_types svc ∧ b ∈ svc_types svc ∧ a ≠ [] ∧ b ≠ []
                 ∧ q = PostScore (score_url api) (score_body a b)
                 ∧ r = answer_value (svc_omit svc) (svc_score svc a b)).
Proof.
  intros Hn Hq. pose proof (sent_asked svc api w0 Hw0 Hsvc n q Hn Hq) as Hw.
  destruct (wellformed_answered svc api q Hsvc Hw) as (r & Hr & Hs).
  exists r. split_and!; [done..|]. destruct q as [url|url body]; [done|]. intros _.
  destruct Hw as (-> & a & b & Ha & Hb & Hna & Hnb & ->). exists a, b. split_and!; try done.
  destruct (service_ok_inv svc Hsvc) as (Hwf & _). rewrite list.Forall_forall in Hwf.
  rewrite answers_post in Hr by by apply Hwf. by injection Hr.
Qed.


(** C7. The user sees what the service answered for what they picked:
    when, in a state of the closed system on a page that has the
    elements of the result view, the body of the answer to a scoring
    request arrives, that request names two types of the catalog, and
    the page then shows the display model of section 4.3 for the
    payload the service computed for these two, or the note of its
    refusal; the request is no longer in flight. *)
Theorem answer_shown n i q status body n' :
  creachable svc api w0 n → has_elements required_selectors w0 →
  npending n !! i = Some (Reading q status) → is_post q = true →
  cstep svc api n (Body i body) n' →
  ∃ a b, a ∈ svc_types svc ∧ b ∈ svc_types svc
         ∧ q = PostScore (score_url api) (score_body a b)
         ∧ npage n' = shows_answer (svc_score svc a b) (npage n)
         ∧ npending n' = delete i (npending n).
Proof.
  intros Hn He Hp Hpost [Hperm Hs].
  pose proof (sent_asked svc api w0 Hw0 Hsvc n q Hn
                (pending_sent svc api w0 Hw0 n i _ Hn Hp)) as Hw.
  destruct q as [url|url text]; [done|].
  destruct Hw as (-> & a & b & Ha & Hb & _ & _ & ->).
  destruct (service_ok_inv svc Hsvc) as (Hwf & _ & Hok). rewrite list.Forall_forall in Hwf.
  pose proof (answers_post svc api a b (Hwf a Ha) (Hwf b Hb)) as Hr.
  pose proof (read_right_reachable svc api w0 n Hn) as Hst.
  rewrite list.Forall_forall in Hst. specialize (Hst _ (list_elem_of_lookup_2 _ _ _ Hp)).
  simpl in Hst, Hperm. rewrite Hr in Hst. injection Hst as <-.
  apply bool_decide_eq_true in Hperm. rewrite Hp in Hperm. simpl in Hperm.
  rewrite Hr in Hperm. injection Hperm as <-.
  inversion Hs as [| | | | |? ? q st ? Hq|]; subst. rewrite Hp in Hq. injection Hq as <- <-.
  exists a, b. split_and!; try done. unfold settle. cbn [npage resume compose].
  rewrite encode_received by by apply sendable_answer, Hok.
  apply resume_answer; [by apply Hok|].
  apply (has_elements_dom _ w0); [|done].
  apply (invariant_reachable api w0 Hw0 (coarse n)).
  by apply coarse_reachable, (creachable_open svc).
Qed.

End end_to_end.

(** ** A visit from the first event to the result *)

Section firing.
Context {browser : Browser} {encoder : Encoder} (svc : service) (api : jsstring).
Implicit Types (n : net) (q : request).

Lemma cfire_headers n i q status v :
  npending n !! i = Some (Fetching q) → answers svc api q = Some (status, v) →
  cfire svc api (Headers i status) n
  = Some (Net (npage n) (nloaded n) (<[i := Reading q status]> (npending n)) (nsent n)).
Proof.
  intros Hp Hq. unfold cfire. cbn [permits nfire]. rewrite Hp. cbn [mbind option_bind request_of].
  rewrite Hq. by rewrite bool_decide_eq_true_2.
Qed.

Lemma cfire_body n i q status status' v :
  npending n !! i = Some (Reading q status) → answers svc api q = Some (status', v) →
  cfire svc api (Body i (encode v)) n
  = Some (settle i q (receive (Answered status (encode v))) n).
Proof.
  intros Hp Hq. unfold cfire. cbn [permits nfire]. rewrite Hp. cbn [mbind option_bind request_of].
  rewrite Hq. by rewrite bool_decide_eq_true_2.
Qed.

End firing.

Section visit.
Context {browser : Browser} {encoder : Encoder} (svc : service) (api : jsstring) (w0 : world).
Context (Hw0 : pristine w0) (Hel : has_elements app_selectors w0) (Hapi : api ≠ []).
Context (Hsvc : service_ok svc = true).
Implicit Types (n : net) (q : request) (a b : jsstring).

Lemma init_run :
  init api w0 = (Ok (Some (GetTypes (types_url api))), ready_page w0).
Proof.
  destruct (has_elements_lookup _ sel_run _ Hel ltac:(compute_done)) as [el Hrun].
  assert (el_click el = []) as Hc by (by destruct Hw0 as (_ & _ & Hd); destruct (Hd _ _ Hrun)).
  unfold init. destruct api as [|c s] eqn:E; [done|]. cbn [is_nil]. rewrite <-E.
  rewrite prog_bind_run, add_click_listener_run, Hrun, Hc.
  erewrite try_catch_ok; [done|]. apply loadTypes_start_run; [by rewrite E|..];
    apply update_el_is_Some; by apply (has_elements_lookup app_selectors); [|compute_done].
Qed.


Lemma element_of sel : sel ∈ app_selectors → ∃ el, doc w0 !! sel = Some el ∧ el_click el = [].
Proof.
  intros Hs. destruct (has_elements_lookup _ sel _ Hel Hs) as [el H]. exists el. split; [done|].
  destruct Hw0 as (_ & _ & Hd). by destruct (Hd _ _ H).
Qed.

Lemma visit_ready :
  cfire svc api Ready (nstart w0)
  = Some (Net (ready_page w0) true [Fetching (GetTypes (types_url api))]
            [GetTypes (types_url api)]).
Proof.
  unfold cfire. cbn [permits nfire nstart nloaded npage npending nsent].
  by rewrite content_loaded_listeners_once, dispatch_one; cbn [handle]; rewrite init_run.
Qed.

(** The catalog arrives: the selects offer the names of the service. *)
Lemma visit_catalog sent :
  svc_types svc ≠ [] →
  crun svc api [Headers 0 200%N; Body 0 (encode (VArr (VStr <$> svc_types svc)))]
    (Net (ready_page w0) true [Fetching (GetTypes (types_url api))] sent)
  = Net (show_catalog (VArr (VStr <$> svc_types svc)) (svc_types svc) (ready_page w0))
      true [] sent.
Proof.
  intros Hne. destruct (service_ok_inv svc Hsvc) as (Hwf & _).
  cbn [crun foldl]. erewrite cfire_headers; [|done|apply answers_get].
  cbn [default from_option id npage nloaded npending nsent list_insert].
  erewrite cfire_body; [|done|apply answers_get]. cbn [default from_option id].
  unfold settle. cbn [npage nloaded npending nsent delete list_delete resume].
  rewrite encode_received by by apply sendable_names.
  rewrite loadTypes_resume_names; [done..| |];
    unfold ready_page, show_loading; rewrite !update_el_is_Some;
    by apply (has_elements_lookup app_selectors); [|compute_done].
Qed.

(** On the page that shows the catalog, the user can pick each name
    in each select. *)
Lemma can_choose_catalog sel a w :
  sel ∈ selects → a ∈ svc_types svc →
  is_Some (doc w !! sel_typeA) → is_Some (doc w !! sel_typeB) →
  can_choose sel a (show_catalog (VArr (VStr <$> svc_types svc)) (svc_types svc) w).
Proof.
  intros Hs Ha HA HB. destruct (service_ok_inv svc Hsvc) as (_ & Hsafe & _).
  split; [done|].
  destruct (offered_show_catalog (VArr (VStr <$> svc_types svc)) (svc_types svc) w HA HB)
    as [EA EB].
  apply elem_of_cons in Hs as [->|[->|[]%elem_of_nil]%elem_of_cons].
  - by rewrite EA, select_options_promptA, choosable_catalog.
  - by rewrite EB, select_options_promptB, choosable_catalog.
Qed.

(** The user picks [a] and [b] and clicks: the request for the two is
    issued. *)
Lemma visit_click a b w pending sent :
  a ∈ svc_types svc → b ∈ svc_types svc → a ≠ [] → b ≠ [] →
  has_elements [sel_typeA; sel_typeB] w →
  (∃ el, doc w !! sel_run = Some el ∧ el_click el = [HRunScore]) →
  crun svc api [Pick sel_typeA a; Pick sel_typeB b; Press]
    (Net (show_catalog (VArr (VStr <$> svc_types svc)) (svc_types svc) w) true pending sent)
  = Net (asked_page (svc_types svc) a b w) true
      (pending ++ [Fetching (PostScore (score_url api) (score_body a b))])
      (sent ++ [PostScore (score_url api) (score_body a b)]).
Proof.
  unfold has_elements. rewrite !Forall_cons_iff.
  intros Ha Hb Hna Hnb (HA & HB & _) (el & Hrun & Hc).
  set (w' := show_catalog _ _ w).
  pose proof (can_choose_catalog sel_typeA a w ltac:(compute_done) Ha HA HB) as HcA.
  pose proof (can_choose_catalog sel_typeB b w ltac:(compute_done) Hb HA HB) as HcB.
  assert (is_Some (doc w' !! sel_typeA) ∧ is_Some (doc w' !! sel_typeB)) as [HA' HB']
    by (unfold w', show_catalog; by rewrite !update_el_is_Some).
  unfold crun, cfire. cbn [foldl permits nfire npage nloaded npending nsent].
  rewrite decide_True by done. cbn [default from_option id npage nloaded npending nsent].
  rewrite decide_True; last first.
  { split; [compute_done|]. rewrite (offered_same sel_typeB w') by by rewrite update_el_lookup_ne.
    by destruct HcB. }
  cbn [default from_option id npage nloaded npending nsent].
  set (w2 := update_el sel_typeB _ _).
  assert (doc w2 !! sel_run = Some el) as ->.
  { unfold w2, w', show_catalog. by rewrite !update_el_lookup_ne. }
  cbn [mbind option_bind default from_option id]. rewrite Hc, dispatch_one. cbn [handle].
  rewrite (runScore_start_run api a b w2).
  - destruct api, a, b; try done.
  - unfold selected, w2.
    rewrite (update_el_lookup_ne sel_typeB sel_typeA) by done.
    rewrite !update_el_lookup, (update_el_lookup_ne sel_typeA sel_typeB) by done.
    by destruct HA' as [ea ->], HB' as [eb ->].
Qed.

(** The answer arrives: the page shows it. *)
Lemma visit_answer a b w sent :
  a ∈ svc_types svc → b ∈ svc_types svc → has_elements required_selectors w →
  crun svc api [Headers 0 (answer_value (svc_omit svc) (svc_score svc a b)).1;
                Body 0 (encode (answer_value (svc_omit svc) (svc_score svc a b)).2)]
    (Net w true [Fetching (PostScore (score_url api) (score_body a b))] sent)
  = Net (shows_answer (svc_score svc a b) w) true [] sent.
Proof.
  intros Ha Hb He. destruct (service_ok_inv svc Hsvc) as (Hwf & _ & Hok).
  rewrite list.Forall_forall in Hwf.
  pose proof (answers_post svc api a b (Hwf a Ha) (Hwf b Hb)) as Hr.
  destruct (answer_value _ _) as [st v] eqn:E. cbn [fst snd crun foldl].
  erewrite cfire_headers by done.
  cbn [default from_option id npage nloaded npending nsent list_insert].
  erewrite cfire_body by done. cbn [default from_option id].
  unfold settle. cbn [npage nloaded npending nsent delete list_delete resume].
  assert (sendable v = true) as Hv.
  { change v with (st, v).2. rewrite <-E. by apply sendable_answer, Hok. }
  rewrite encode_received by done. f_equal.
  change st with (st, v).1. change v with (st, v).2 at 2. rewrite <-E.
  apply resume_answer; [by apply Hok|done].
Qed.

Lemma crun_app es1 es2 n : crun svc api (es1 ++ es2) n = crun svc api es2 (crun svc api es1 n).
Proof. apply foldl_app. Qed.

(** C8. A visit: on a page that has the elements the script names, with
    the service configured, a user who waits for the catalog, picks
    two types of it and clicks is shown what the service answers for
    these two, the result or the refusal; two requests were sent, and
    none is in flight. *)
Theorem visit_shown a b :
  a ∈ svc_types svc → b ∈ svc_types svc → a ≠ [] → b ≠ [] →
  crun svc api (visit svc a b) (nstart w0)
  = Net (shows_answer (svc_score svc a b) (asked_page (svc_types svc) a b (ready_page w0)))
      true []
      [GetTypes (types_url api); PostScore (score_url api) (score_body a b)].
Proof.
  intros Ha Hb Hna Hnb. unfold visit.
  change (?e1 :: ?e2 :: ?e3 :: ?e4 :: ?e5 :: ?e6 :: ?es)
    with ([e1] ++ [e2; e3] ++ [e4; e5; e6] ++ es).
  rewrite !crun_app.
  change (crun svc api [Ready] (nstart w0))
    with (default (nstart w0) (cfire svc api Ready (nstart w0))).
  rewrite visit_ready. cbn [default from_option id].
  rewrite visit_catalog by (by intros E; rewrite E in Ha; apply elem_of_nil in Ha).
  destruct (element_of sel_run ltac:(compute_done)) as (el & Hrun & Hc).
  assert (∀ sels, sels ⊆ app_selectors → has_elements sels (ready_page w0)) as Hsub.
  { intros sels Hs. unfold ready_page, show_loading. rewrite !has_elements_update_el.
    unfold has_elements in *. rewrite list.Forall_forall in *. auto. }
  rewrite visit_click; try done.
  - apply visit_answer; try done. unfold asked_page, show_catalog.
    rewrite has_elements_show_note, !has_elements_update_el.
    apply (Hsub required_selectors). compute_done.
  - apply Hsub. compute_done.
  - exists (with_click [HRunScore] el). split; [|done]. unfold ready_page, show_loading.
    by rewrite !update_el_lookup_ne, update_el_lookup, Hrun by done.
Qed.

End visit.

(** ** Concrete runs *)

Section examples.
#[local] Existing Instance reference_browser.
#[local] Existing Instance reference_encoder.

(** The scenario of section 8: the payload conforms, and its display
    model has the title, the hybrid flag and the two texts the
    specification gives.  The confidence is 87.6, where the
    specification has an integer. *)
Example scenario_display :
  conforming sample_scored = true
  ∧ display_of sample_scored
    = DisplayModel (js "A / X") (js "hi") true (VNum ∘ of_Z <$> [150; 80; 60; 140; 100]%Z)
        (js "Strength text") (js "Caution text") (of_decimal false 876 (-1)).
Proof. by_compute. Qed.

(** The payload as the reference encoder prints it. *)
Example scenario_text :
  json_stringify (payload_value true sample_scored)
  = Some (js "{\x22macro\x22:{\x22top\x22:\x22A\x22,\x22second\x22:\x22B\x22,\x22margin\x22:0.03},\x22micro\x22:{\x22type\x22:\x22X\x22},\x22scores\x22:{\x22共感\x22:150,\x22調和\x22:80,\x22依存\x22:60,\x22刺激\x22:140,\x22信頼\x22:100},\x22copy\x22:{\x22catch\x22:\x22hi\x22,\x22body\x22:\x22Strength text\\n—\\nCaution text\x22},\x22confidence\x22:87.6}").
Proof. by_compute. Qed.

(** The session against the sample service: the result is on the page
    and nothing is in flight. *)
Example closed_session :
  let n := crun sample_service demo_api (visit sample_service (js "A") (js "B")) (nstart demo_page) in
  npending n = [] ∧ names_of (npage n) = [js "A"; js "B"]
  ∧ shown sel_summaryTitle (coarse n) = Some (Text (js "A / X"))
  ∧ shown sel_cardStrengths (coarse n) = Some (Text (js "Strength text"))
  ∧ shown sel_cardCautions (coarse n) = Some (Text (js "Caution text"))
  ∧ shown sel_confNum (coarse n) = Some (Text (js "87.6%"))
  ∧ shown sel_note (coarse n) = Some (Text []).
Proof. by_compute. Qed.

(** The same type twice: the service refuses, the note shows its
    detail and no result is shown. *)
Example closed_session_refused :
  let n := crun sample_service demo_api (visit sample_service (js "A") (js "A")) (nstart demo_page) in
  npending n = [] ∧ shown sel_summaryTitle (coarse n) = Some (Text [])
  ∧ shown sel_note (coarse n) = Some (Text (js "エラー: same type")).
Proof. by_compute. Qed.

(** What the service does not say cannot happen: another status,
    another catalog.  A failure of the network can. *)
Example service_constrains :
  let n := crun sample_service demo_api [Ready] (nstart demo_page) in
  let n' := crun sample_service demo_api [Headers 0 200%N] n in
  cfire sample_service demo_api (Headers 0 500%N) n = None
  ∧ cfire sample_service demo_api (Body 0 wire_catalog) n' = None
  ∧ reply sample_service demo_api n' 0
    = Some (Body 0 (utf8_encode (js "[\x22A\x22,\x22B\x22]")))
  ∧ npending <$> cfire sample_service demo_api (Fails 0) n = Some [].
Proof. by_compute. Qed.

Lemma render_conforming_witness :
  renderResult (payload_value false sample_scored) demo_page
  = (Ok (), present (display_of sample_scored) demo_page).
Proof. apply render_conforming; [vm_compute; reflexivity|compute_done]. Defined.

Lemma page_knows_service_witness :
  let n := crun sample_service demo_api (take 7 (visit sample_service (js "A") (js "B"))) (nstart demo_page) in
  (names_of (npage n) = [] ∨ names_of (npage n) = svc_types sample_service)
  ∧ Forall (read_right sample_service demo_api) (npending n).
Proof.
  apply (page_knows_service sample_service demo_api demo_page (pristine_world0 _));
    [vm_compute; reflexivity|apply creachable_run].
Defined.

Lemma requests_understood_witness :
  let n := crun sample_service demo_api (visit sample_service (js "A") (js "B")) (nstart demo_page) in
  let q := PostScore (score_url demo_api) (score_body (js "A") (js "B")) in
  ∃ r, answers sample_service demo_api q = Some r ∧ sendable r.2 = true
       ∧ (is_post q = true →
          ∃ a b, a ∈ svc_types sample_service ∧ b ∈ svc_types sample_service ∧ a ≠ [] ∧ b ≠ []
                 ∧ q = PostScore (score_url demo_api) (score_body a b)
                 ∧ r = answer_value (svc_omit sample_service) (svc_score sample_service a b)).
Proof.
  apply (requests_understood sample_service demo_api demo_page (pristine_world0 _)
           ltac:(vm_compute; reflexivity)
           (crun sample_service demo_api (visit sample_service (js "A") (js "B")) (nstart demo_page)));
    [apply creachable_run|compute_done].
Defined.


Lemma answer_shown_witness :
  let n := crun sample_service demo_api (take 7 (visit sample_service (js "A") (js "B"))) (nstart demo_page) in
  let n' := crun sample_service demo_api (visit sample_service (js "A") (js "B")) (nstart demo_page) in
  ∃ a b, a ∈ svc_types sample_service ∧ b ∈ svc_types sample_service
         ∧ PostScore (score_url demo_api) (score_body (js "A") (js "B"))
           = PostScore (score_url demo_api) (score_body a b)
         ∧ npage n' = shows_answer (svc_score sample_service a b) (npage n)
         ∧ npending n' = delete 0 (npending n).
Proof.
  apply (answer_shown sample_service demo_api demo_page (pristine_world0 _)
           ltac:(vm_compute; reflexivity) _ 0 _ 200%N
           (encode (payload_value true sample_scored)));
    [apply creachable_run|compute_done|vm_compute; reflexivity|done|].
  apply cfire_step. vm_compute. reflexivity.
Defined.

Lemma visit_shown_witness :
  crun sample_service demo_api (visit sample_service (js "A") (js "B")) (nstart demo_page)
  = Net (shows_answer (svc_score sample_service (js "A") (js "B"))
           (asked_page (svc_types sample_service) (js "A") (js "B") (ready_page demo_page)))
      true [] [GetTypes (types_url demo_api);
               PostScore (score_url demo_api) (score_body (js "A") (js "B"))].
Proof.
  apply (visit_shown sample_service demo_api demo_page (pristine_world0 _));
    [compute_done|done|vm_compute; reflexivity|compute_done..].
Defined.

End examples.
